(** * CPathEstimator: a shallow embedding of rts/Sim/Path/Default/PathEstimator.cpp

    The development follows the source file function by function:
    [FindOffset], [CalculateVertex]/[CalculateVertices], [MapChanged],
    [Update], [DoSearch], [TestBlock] and the two-phase precompute driver
    [CalcOffsetsAndPathCosts]; then the start-up ([GetNumThreads], the
    constructor, [InitBlocks], [InitEstimator]), the cache file ([Hash],
    [WriteFile], [ReadFile]) and [FinishSearch].

    Conventions.
    - [unsigned int] values are integers in [Z] reduced with [wrap32]; [int]
      values obtained from them go through [to_int32].
    - [std::vector] tables are lists read with [vget] and written with
      [vset]; an access outside the vector is undefined behaviour in the
      source and makes the embedded function return [None].
    - [float] is abstract: the operations the source uses form the class
      [FloatOps].  [xfloat] instantiates it with exact rationals plus an
      infinity, for evaluation on concrete maps.
    - Collaborators whose code is outside this file (terrain queries, the
      fine path finder, the goal definition, the flow map) and the constants
      of PathConstants.h are fields of parameter classes.

    - A file is its bytes, integers below 256; the objects [memcpy] moves
      are laid out low byte first, and the bytes of a [float] are given by
      the class [FloatBits].

    Part I holds the definitions, Part II the lemmas and theorems on the
    core functions, Part III those on the start-up, the cache file, the
    path reconstruction and on whole runs. *)

From Stdlib Require Import ZArith Lia Bool.
From Stdlib Require QArith Qround Qreduction.
From coqutil Require Import Z.PushPullMod.
From stdpp Require Import base tactics option list list_numbers numbers sorting relations.

Local Open Scope Z_scope.

(** * Part I: the embedding *)

(** ** Machine integers *)

Definition wrap32 (z : Z) : Z := z mod 2 ^ 32.

Definition to_int32 (z : Z) : Z := (z + 2 ^ 31) mod 2 ^ 32 - 2 ^ 31.

(** [Clamp(v, min, max)] of System/myMath.h: [std::min(max, std::max(min, v))]. *)
Definition Clamp (v lo hi : Z) : Z := Z.min hi (Z.max lo v).

(** ** Vectors *)

Definition vget {A} (v : list A) (i : Z) : option A :=
  if decide (0 <= i) then v !! Z.to_nat i else None.

Definition vset {A} (v : list A) (i : Z) (a : A) : option (list A) :=
  if decide (0 <= i < Z.of_nat (length v))
  then Some (<[Z.to_nat i := a]> v) else None.

(** ** Records of the source *)

(** [int2]: the fields [x] and [y] of the source. *)
Record int2 : Type := mk_int2 { int2_x : Z; int2_y : Z }.

Global Instance int2_eq_dec : EqDecision int2.
Proof. solve_decision. Defined.

(** [operator+] on [int2]: component-wise [int] addition. *)
Definition int2_add (a b : int2) : int2 :=
  mk_int2 (to_int32 (int2_x a + int2_x b)) (to_int32 (int2_y a + int2_y b)).

(** The two fields of [MoveDef] this file reads. *)
Record MoveDef : Type := mk_MoveDef { pathType : Z; udRefCount : Z }.

Global Instance MoveDef_eq_dec : EqDecision MoveDef.
Proof. solve_decision. Defined.

(** [IPath::SearchResult]. *)
Inductive SearchResult : Type := Ok | CantGetCloser | GoalOutOfRange | Error.

Global Instance SearchResult_eq_dec : EqDecision SearchResult.
Proof. solve_decision. Defined.

(** ** Floating point, abstractly *)

Class FloatOps (F : Type) : Type := {
  f_of_Z : Z -> F;                (* conversion of an integer to float *)
  f_eps : F;                      (* the literal 0.001f *)
  f_06 : F;                       (* the literal 0.6f *)
  f_max : F;                      (* std::numeric_limits<float>::max() *)
  PATHCOST_INFINITY : F;
  fadd : F -> F -> F;
  fsub : F -> F -> F;
  fmul : F -> F -> F;
  fdiv : F -> F -> F;
  flt : F -> F -> bool;           (* a < b *)
  fle : F -> F -> bool;           (* a <= b *)
  feq : F -> F -> bool;           (* a == b *)
  fceil : F -> F;                 (* ceil *)
  f_to_int : F -> Z               (* conversion of a float to int *)
}.

(** [std::max(a, b)] is [(a < b) ? b : a]. *)
Definition fmax_std {F} `{!FloatOps F} (a b : F) : F := if flt a b then b else a.

(** ** Parameters: what the file uses and does not define *)

(** Constants of PathConstants.h and GlobalConstants.h whose values the
    sources at hand do not give. *)
Class PathConstants : Type := {
  SQUARE_SIZE : Z;
  SQUARES_TO_UPDATE : Z;
  MAX_SEARCHED_NODES_PF : Z;
  MAX_SEARCHED_NODES_PE : Z;
  PATHOPT_OPEN : Z;
  PATHOPT_CLOSED : Z;
  PATHOPT_BLOCKED : Z;
  PATHOPT_OBSOLETE : Z;
  PATHOPT_CARDINALS : Z;
  PE_DIRECTION_VECTORS : Z -> int2
}.

(** The immutable members of an estimator instance. *)
Class Grid : Type := {
  BLOCK_SIZE : Z;
  nbrOfBlocks : int2
}.

(** [moveDefHandler]: [GetNumMoveDefs] and [GetMoveDefByPathType]. *)
Class MoveDefHandler : Type := { moveDefs : list MoveDef }.

Definition GetNumMoveDefs `{!MoveDefHandler} : Z := Z.of_nat (length moveDefs).

Definition GetMoveDefByPathType `{!MoveDefHandler} (i : Z) : option MoveDef :=
  vget moveDefs i.

(** [CMoveMath], the rectangular constraint's [GoalIsBlocked], the fine path
    finder's [GetPath] (one instance per thread number) and
    [modInfo.pfUpdateRate]. Squares stand for the world positions
    [SquareToFloat3] makes of them. *)
Class Collaborators (F : Type) : Type := {
  GetPosSpeedMod : MoveDef -> Z -> Z -> F;
  IsBlockedStructure : MoveDef -> Z -> Z -> bool;
  IsBlockedStructureXmax : MoveDef -> Z -> Z -> bool;
  IsBlockedStructureZmax : MoveDef -> Z -> Z -> bool;
  IsBlocked : MoveDef -> int2 -> Z;
  BLOCK_STRUCTURE : Z;
  GoalIsBlocked : MoveDef -> int2 -> int2 -> Z -> bool;
  GetPath : Z -> MoveDef -> int2 -> int2 -> Z -> SearchResult * F;
  pfUpdateRate : F
}.

(** [CPathFinderDef] as the search sees it, with the flow map and the extra
    cost overlay. *)
Class CPathFinderDef (F : Type) : Type := {
  IsGoal : Z -> Z -> bool;
  Heuristic : Z -> Z -> F;
  WithinConstraints : Z -> Z -> bool;
  GoalSquareOffset : Z -> int2;
  GetFlowCost : Z -> Z -> MoveDef -> Z -> F;
  GetNodeExtraCost : Z -> Z -> bool -> F
}.

(** ** Directions *)

(** Modelled from the spec: the direction indices of PathConstants.h, which
    is not among the sources. Section 4.B: "Directions are indexed LEFT=0,
    LEFT_UP, UP, RIGHT_UP, RIGHT, RIGHT_DOWN, DOWN, LEFT_DOWN". *)
Definition PATHDIR_LEFT : Z := 0.
Definition PATHDIR_LEFT_UP : Z := 1.
Definition PATHDIR_UP : Z := 2.
Definition PATHDIR_RIGHT_UP : Z := 3.
Definition PATHDIR_RIGHT : Z := 4.
Definition PATHDIR_RIGHT_DOWN : Z := 5.
Definition PATHDIR_DOWN : Z := 6.
Definition PATHDIR_LEFT_DOWN : Z := 7.

(** Modelled from the spec: the number of directions stored per block,
    declared in PathConstants.h. Section 3: the vertex table has size
    "num_move_classes x num_blocks x 4". *)
Definition PATH_DIRECTION_VERTICES : Z := 4.

(** The direction across the same edge, seen from the other endpoint. *)
Definition opposite (d : Z) : Z := (d + 4) mod 8.

(** Modelled from the spec: [BlockPosToIdx] of IPathFinder.h, which is not
    among the sources. Section 4.A: "block_pos_to_idx(bx, bz) = bz * nx + bx";
    the result is an [unsigned int]. *)
Definition BlockPosToIdx `{!Grid} (p : int2) : Z :=
  wrap32 (int2_y p * int2_x nbrOfBlocks + int2_x p).

(** Modelled from the spec: [BlockIdxToPos] of IPathFinder.h, the inverse of
    the row-major order of section 4.A. *)
Definition BlockIdxToPos `{!Grid} (idx : Z) : int2 :=
  mk_int2 (idx mod int2_x nbrOfBlocks) (idx / int2_x nbrOfBlocks).

(** Modelled from the spec: [GetBlockVertexOffset] of PathConstants.h, which
    is not among the sources. Section 4.B: only the first four directions
    are stored per block; for the other four the function "returns the
    linear offset to apply to a block index to reach the storing block, and
    substitutes the opposite direction"; section 3: the storing block is the
    neighbour [b + Delta(d)]. The offset counts table entries, four per
    block. *)
Definition GetBlockVertexOffset `{!PathConstants} (pathDir numBlocks : Z) : Z :=
  if pathDir <? PATH_DIRECTION_VERTICES then pathDir
  else
    let delta := PE_DIRECTION_VECTORS pathDir in
    (int2_y delta * numBlocks + int2_x delta) * PATH_DIRECTION_VERTICES
    + opposite pathDir.

(** ** State of the estimator *)

(** [PathNode]: an entry of the open set. *)
Record PathNode (F : Type) : Type := mk_PathNode {
  node_fCost : F;
  node_gCost : F;
  nodePos : int2;
  nodeNum : Z
}.
Arguments mk_PathNode {F}.
Arguments node_fCost {F}.
Arguments node_gCost {F}.
Arguments nodePos {F}.
Arguments nodeNum {F}.

(** [blockStates]: the per-block tables. *)
Record PathNodeStateBuffer (F : Type) : Type := mk_blockStates {
  nodeMask : list Z;
  fCost : list F;
  gCost : list F;
  peParentNodePos : list int2;
  peNodeOffsets : list (list int2);
  maxCostF : F;
  maxCostG : F
}.
Arguments mk_blockStates {F}.
Arguments nodeMask {F}.
Arguments fCost {F}.
Arguments gCost {F}.
Arguments peParentNodePos {F}.
Arguments peNodeOffsets {F}.
Arguments maxCostF {F}.
Arguments maxCostG {F}.

(** [blockStates.GetSize()]. *)
Definition GetSize {F} (bs : PathNodeStateBuffer F) : Z :=
  Z.of_nat (length (nodeMask bs)).

(** The mutable members of [CPathEstimator] (and of its base [IPathFinder])
    that the functions below read or write. [openBlockBuffer] is its size;
    the nodes it holds are the elements of [openBlocks]. *)
Record CPathEstimator (F : Type) : Type := mk_CPathEstimator {
  blockStates : PathNodeStateBuffer F;
  vertexCosts : list F;
  updatedBlocks : list int2;
  blockUpdatePenalty : Z;
  openBlocks : list (PathNode F);
  openBlockBuffer : Z;
  dirtyBlocks : list Z;
  maxBlocksToBeSearched : Z;
  testedBlocks : Z;
  mGoalBlockIdx : Z;
  mGoalHeuristic : F
}.
Arguments mk_CPathEstimator {F}.
Arguments blockStates {F}.
Arguments vertexCosts {F}.
Arguments updatedBlocks {F}.
Arguments blockUpdatePenalty {F}.
Arguments openBlocks {F}.
Arguments openBlockBuffer {F}.
Arguments dirtyBlocks {F}.
Arguments maxBlocksToBeSearched {F}.
Arguments testedBlocks {F}.
Arguments mGoalBlockIdx {F}.
Arguments mGoalHeuristic {F}.

Section Setters.
Context {F : Type}.
Implicit Types (bs : PathNodeStateBuffer F) (pe : CPathEstimator F).

Definition set_nodeMask (m : list Z) bs : PathNodeStateBuffer F :=
  mk_blockStates m (fCost bs) (gCost bs) (peParentNodePos bs)
    (peNodeOffsets bs) (maxCostF bs) (maxCostG bs).

Definition set_peNodeOffsets (o : list (list int2)) bs : PathNodeStateBuffer F :=
  mk_blockStates (nodeMask bs) (fCost bs) (gCost bs) (peParentNodePos bs)
    o (maxCostF bs) (maxCostG bs).

Definition set_blockStates bs pe : CPathEstimator F :=
  mk_CPathEstimator bs (vertexCosts pe) (updatedBlocks pe)
    (blockUpdatePenalty pe) (openBlocks pe) (openBlockBuffer pe)
    (dirtyBlocks pe) (maxBlocksToBeSearched pe) (testedBlocks pe)
    (mGoalBlockIdx pe) (mGoalHeuristic pe).

Definition set_vertexCosts (vc : list F) pe : CPathEstimator F :=
  mk_CPathEstimator (blockStates pe) vc (updatedBlocks pe)
    (blockUpdatePenalty pe) (openBlocks pe) (openBlockBuffer pe)
    (dirtyBlocks pe) (maxBlocksToBeSearched pe) (testedBlocks pe)
    (mGoalBlockIdx pe) (mGoalHeuristic pe).

Definition set_updatedBlocks (q : list int2) pe : CPathEstimator F :=
  mk_CPathEstimator (blockStates pe) (vertexCosts pe) q
    (blockUpdatePenalty pe) (openBlocks pe) (openBlockBuffer pe)
    (dirtyBlocks pe) (maxBlocksToBeSearched pe) (testedBlocks pe)
    (mGoalBlockIdx pe) (mGoalHeuristic pe).

Definition set_blockUpdatePenalty (p : Z) pe : CPathEstimator F :=
  mk_CPathEstimator (blockStates pe) (vertexCosts pe) (updatedBlocks pe)
    p (openBlocks pe) (openBlockBuffer pe)
    (dirtyBlocks pe) (maxBlocksToBeSearched pe) (testedBlocks pe)
    (mGoalBlockIdx pe) (mGoalHeuristic pe).

Definition set_openBlocks (o : list (PathNode F)) pe : CPathEstimator F :=
  mk_CPathEstimator (blockStates pe) (vertexCosts pe) (updatedBlocks pe)
    (blockUpdatePenalty pe) o (openBlockBuffer pe)
    (dirtyBlocks pe) (maxBlocksToBeSearched pe) (testedBlocks pe)
    (mGoalBlockIdx pe) (mGoalHeuristic pe).

Definition set_dirtyBlocks (d : list Z) pe : CPathEstimator F :=
  mk_CPathEstimator (blockStates pe) (vertexCosts pe) (updatedBlocks pe)
    (blockUpdatePenalty pe) (openBlocks pe) (openBlockBuffer pe)
    d (maxBlocksToBeSearched pe) (testedBlocks pe)
    (mGoalBlockIdx pe) (mGoalHeuristic pe).

Definition set_testedBlocks (t : Z) pe : CPathEstimator F :=
  mk_CPathEstimator (blockStates pe) (vertexCosts pe) (updatedBlocks pe)
    (blockUpdatePenalty pe) (openBlocks pe) (openBlockBuffer pe)
    (dirtyBlocks pe) (maxBlocksToBeSearched pe) t
    (mGoalBlockIdx pe) (mGoalHeuristic pe).

Definition set_goal (idx : Z) (h : F) pe : CPathEstimator F :=
  mk_CPathEstimator (blockStates pe) (vertexCosts pe) (updatedBlocks pe)
    (blockUpdatePenalty pe) (openBlocks pe) (openBlockBuffer pe)
    (dirtyBlocks pe) (maxBlocksToBeSearched pe) (testedBlocks pe)
    idx h.
End Setters.

(** ** Update budget (constructor and the first block of Update) *)

Section Budget.
Context `{!PathConstants} `{!Grid}.

Definition BLOCKS_TO_UPDATE : Z :=
  wrap32 (SQUARES_TO_UPDATE / wrap32 (BLOCK_SIZE * BLOCK_SIZE) + 1).

Definition MIN_BLOCKS_TO_UPDATE : Z :=
  Z.max (to_int32 (Z.shiftr BLOCKS_TO_UPDATE 1)) 4.

Definition MAX_BLOCKS_TO_UPDATE : Z :=
  Z.max (to_int32 (wrap32 (Z.shiftl BLOCKS_TO_UPDATE 1))) MIN_BLOCKS_TO_UPDATE.

(** The value of [blocksToUpdate] right after the [Clamp], before the
    penalty is applied. *)
Definition blocksToUpdate_clamped (progressiveUpdates : Z) : Z :=
  Clamp progressiveUpdates MIN_BLOCKS_TO_UPDATE MAX_BLOCKS_TO_UPDATE.
End Budget.

(** ** FindOffset *)

(** The locals of [FindOffset] that live across loop iterations. *)
Record OffsetScan (F : Type) : Type := mk_OffsetScan {
  bestPosX : Z;
  bestPosZ : Z;
  bestCost : F;
  speedMod : F;
  curblock : bool
}.
Arguments mk_OffsetScan {F}.
Arguments bestPosX {F}.
Arguments bestPosZ {F}.
Arguments bestCost {F}.
Arguments speedMod {F}.
Arguments curblock {F}.

Section FindOffset.
Context {F : Type} `{!FloatOps F} `{!PathConstants} `{!Grid} `{!Collaborators F}.

(** [cost] of the inner loop, from the loop indices and the current
    [speedMod]. *)
Definition FindOffset_cost (blockArea x z : Z) (sm : F) : F :=
  let half := fdiv (f_of_Z (wrap32 (BLOCK_SIZE - 1))) (f_of_Z 2) in
  let dx := fsub (f_of_Z x) half in
  let dz := fsub (f_of_Z z) half in
  fadd (fadd (fmul dx dx) (fmul dz dz)) (fdiv (f_of_Z blockArea) (fadd f_eps sm)).

(** One iteration of the inner loop, at column [x] of row [z]. *)
Definition FindOffset_x (moveDef : MoveDef) (lowerX lowerZ blockArea z : Z)
    (st : OffsetScan F) (x : Z) : OffsetScan F :=
  let st1 :=
    if curblock st then st
    else
      let cost := FindOffset_cost blockArea x z (speedMod st) in
      if flt cost (bestCost st)
      then mk_OffsetScan x z cost (speedMod st) (curblock st)
      else st in
  let sm := GetPosSpeedMod moveDef (wrap32 (lowerX + x)) (wrap32 (lowerZ + z)) in
  let cb :=
    feq sm (f_of_Z 0) ||
    (if curblock st
     then IsBlockedStructure moveDef (wrap32 (lowerX + x)) (wrap32 (lowerZ + z))
     else IsBlockedStructureXmax moveDef (wrap32 (lowerX + x)) (wrap32 (lowerZ + z))) in
  mk_OffsetScan (bestPosX st1) (bestPosZ st1) (bestCost st1) sm cb.

(** One iteration of the outer loop, at row [z]. *)
Definition FindOffset_z (moveDef : MoveDef) (lowerX lowerZ blockArea : Z)
    (st : OffsetScan F) (z : Z) : OffsetScan F :=
  let zcurblock := curblock st in
  let st1 :=
    foldl (FindOffset_x moveDef lowerX lowerZ blockArea z) st (seqZ 0 BLOCK_SIZE) in
  let sm := GetPosSpeedMod moveDef lowerX (wrap32 (lowerZ + z)) in
  let cb :=
    feq sm (f_of_Z 0) ||
    (if zcurblock
     then IsBlockedStructure moveDef lowerX (wrap32 (lowerZ + z))
     else IsBlockedStructureZmax moveDef lowerX (wrap32 (lowerZ + z))) in
  mk_OffsetScan (bestPosX st1) (bestPosZ st1) (bestCost st1) sm cb.

Definition FindOffset_init (moveDef : MoveDef) (lowerX lowerZ : Z) : OffsetScan F :=
  let sm := GetPosSpeedMod moveDef lowerX lowerZ in
  mk_OffsetScan (Z.shiftr BLOCK_SIZE 1) (Z.shiftr BLOCK_SIZE 1) f_max sm
    (feq sm (f_of_Z 0) || IsBlockedStructure moveDef lowerX lowerZ).

(** The state of the scan when both loops are done. *)
Definition FindOffset_scan (moveDef : MoveDef) (blockX blockZ : Z) : OffsetScan F :=
  let lowerX := wrap32 (blockX * BLOCK_SIZE) in
  let lowerZ := wrap32 (blockZ * BLOCK_SIZE) in
  let blockArea := wrap32 (BLOCK_SIZE * BLOCK_SIZE) / SQUARE_SIZE in
  foldl (FindOffset_z moveDef lowerX lowerZ blockArea)
    (FindOffset_init moveDef lowerX lowerZ) (seqZ 0 BLOCK_SIZE).

Definition FindOffset (moveDef : MoveDef) (blockX blockZ : Z) : int2 :=
  let st := FindOffset_scan moveDef blockX blockZ in
  mk_int2 (to_int32 (wrap32 (blockX * BLOCK_SIZE + bestPosX st)))
          (to_int32 (wrap32 (blockZ * BLOCK_SIZE + bestPosZ st))).
End FindOffset.

(** The blocked-square test of [FindOffset] at square [(X, Z)], with the
    full structure test. *)
Definition blocked_square {F : Type} `{!FloatOps F} `{!Collaborators F}
    (md : MoveDef) (X Z : Z) : bool :=
  feq (GetPosSpeedMod md X Z) (f_of_Z 0) || IsBlockedStructure md X Z.

(** [find_offset] as section 4.C of the specification words it, to compare
    with [FindOffset]: every square of the block is visited in z-major
    order; a square that is not blocked is scored with the speed modifier
    "at that square"; the strictly lowest score wins, the earliest square
    among equals; without a traversable square the block centre is
    returned. *)
Section FindOffsetSpec.
Context {F : Type} `{!FloatOps F} `{!PathConstants} `{!Grid} `{!Collaborators F}.

Definition find_offset_square (md : MoveDef) (lowerX lowerZ blockArea z : Z)
    (best : option (Z * Z * F)) (x : Z) : option (Z * Z * F) :=
  if blocked_square md (lowerX + x) (lowerZ + z) then best
  else
    let cost := FindOffset_cost blockArea x z (GetPosSpeedMod md (lowerX + x) (lowerZ + z)) in
    match best with
    | None => Some (x, z, cost)
    | Some (_, _, c) => if flt cost c then Some (x, z, cost) else best
    end.

Definition find_offset_spec (md : MoveDef) (blockX blockZ : Z) : int2 :=
  let lowerX := blockX * BLOCK_SIZE in
  let lowerZ := blockZ * BLOCK_SIZE in
  let blockArea := BLOCK_SIZE * BLOCK_SIZE / SQUARE_SIZE in
  let best :=
    foldl (fun b z => foldl (find_offset_square md lowerX lowerZ blockArea z) b
                        (seqZ 0 BLOCK_SIZE))
      None (seqZ 0 BLOCK_SIZE) in
  match best with
  | Some (x, z, _) => mk_int2 (lowerX + x) (lowerZ + z)
  | None => mk_int2 (lowerX + BLOCK_SIZE / 2) (lowerZ + BLOCK_SIZE / 2)
  end.
End FindOffsetSpec.

(** ** CalculateVertex and CalculateVertices *)

Section Vertices.
Context {F : Type} `{!FloatOps F} `{!PathConstants} `{!Grid} `{!Collaborators F}.
Implicit Types (pe : CPathEstimator F).

(** [blockStates.peNodeOffsets[blockIdx][pathType]]. *)
Definition offset_at (bs : PathNodeStateBuffer F) (blockIdx pathType : Z) : option int2 :=
  row ← vget (peNodeOffsets bs) blockIdx; vget row pathType.

(** [vertexCosts[idx] = c]. *)
Definition store_vertex pe (idx : Z) (c : F) : option (CPathEstimator F) :=
  vc ← vset (vertexCosts pe) idx c; Some (set_vertexCosts vc pe).

(** The index [vertexNbr] of [CalculateVertex]. *)
Definition vertexNbr pe (moveDef : MoveDef) (parentBlock : int2) (direction : Z) : Z :=
  wrap32 (pathType moveDef * GetSize (blockStates pe) * PATH_DIRECTION_VERTICES
          + BlockPosToIdx parentBlock * PATH_DIRECTION_VERTICES
          + direction).

(** The bounds test [(unsigned)b.x >= nbrOfBlocks.x || (unsigned)b.y >= nbrOfBlocks.y]. *)
Definition outside_map (b : int2) : bool :=
  (int2_x nbrOfBlocks <=? wrap32 (int2_x b)) || (int2_y nbrOfBlocks <=? wrap32 (int2_y b)).

Definition CalculateVertex pe (moveDef : MoveDef) (parentBlock : int2)
    (direction threadNum : Z) : option (CPathEstimator F) :=
  let childBlock := int2_add parentBlock (PE_DIRECTION_VECTORS direction) in
  let parentBlockNbr := BlockPosToIdx parentBlock in
  let childBlockNbr := BlockPosToIdx childBlock in
  let vnbr := vertexNbr pe moveDef parentBlock direction in
  if outside_map childBlock then store_vertex pe vnbr PATHCOST_INFINITY
  else
    parentSquare ← offset_at (blockStates pe) parentBlockNbr (pathType moveDef);
    childSquare ← offset_at (blockStates pe) childBlockNbr (pathType moveDef);
    let strtBlocked := negb (Z.land (IsBlocked moveDef parentSquare) BLOCK_STRUCTURE =? 0) in
    let goalBlocked := GoalIsBlocked moveDef parentSquare childSquare BLOCK_STRUCTURE in
    if strtBlocked || goalBlocked then store_vertex pe vnbr PATHCOST_INFINITY
    else
      let '(result, pathCost) :=
        GetPath threadNum moveDef parentSquare childSquare
          (Z.shiftr MAX_SEARCHED_NODES_PF 2) in
      if decide (result = Ok) then store_vertex pe vnbr pathCost
      else store_vertex pe vnbr PATHCOST_INFINITY.

Definition CalculateVertices pe (moveDef : MoveDef) (block : int2) (thread : Z)
    : option (CPathEstimator F) :=
  pe1 ← CalculateVertex pe moveDef block PATHDIR_LEFT thread;
  pe2 ← CalculateVertex pe1 moveDef block PATHDIR_LEFT_UP thread;
  pe3 ← CalculateVertex pe2 moveDef block PATHDIR_UP thread;
  CalculateVertex pe3 moveDef block PATHDIR_RIGHT_UP thread.

(** The index [vertexIdx] of [TestBlock], for a parent block with index
    [nodeNum], and the cost read there. *)
Definition vertexIdx pe (moveDef : MoveDef) (nodeNum pathDir : Z) : Z :=
  wrap32 (pathType moveDef * GetSize (blockStates pe) * PATH_DIRECTION_VERTICES
          + nodeNum * PATH_DIRECTION_VERTICES
          + GetBlockVertexOffset pathDir (int2_x nbrOfBlocks)).

Definition vertex_cost pe (moveDef : MoveDef) (block : int2) (pathDir : Z) : option F :=
  vget (vertexCosts pe) (vertexIdx pe moveDef (BlockPosToIdx block) pathDir).
End Vertices.

(** ** Iteration in the option monad *)

Fixpoint fold_opt {A S : Type} (f : S -> A -> option S) (s : S) (l : list A) : option S :=
  match l with
  | [] => Some s
  | a :: l' => s' ← f s a; fold_opt f s' l'
  end.

(** The values a [for (i = hi; i >= lo; i--)] loop visits. *)
Definition down_range (hi lo : Z) : list Z := reverse (seqZ lo (hi - lo + 1)).

(** ** MapChanged *)

Section MapChanged.
Context {F : Type} `{!PathConstants} `{!Grid}.
Implicit Types (pe : CPathEstimator F).

(** The body of the inner loop, for block [(x, z)]. *)
Definition MapChanged_block pe (z x : Z) : option (CPathEstimator F) :=
  let idx := to_int32 (BlockPosToIdx (mk_int2 x z)) in
  m ← vget (nodeMask (blockStates pe)) idx;
  if negb (Z.land m PATHOPT_OBSOLETE =? 0) then Some pe
  else
    nm ← vset (nodeMask (blockStates pe)) idx (Z.lor m PATHOPT_OBSOLETE);
    Some (set_blockStates (set_nodeMask nm (blockStates pe))
            (set_updatedBlocks (updatedBlocks pe ++ [mk_int2 x z]) pe)).

Definition MapChanged_row pe (lowerX upperX z : Z) : option (CPathEstimator F) :=
  fold_opt (fun pe' x => MapChanged_block pe' z x) pe (down_range upperX lowerX).

Definition MapChanged pe (x1 z1 x2 z2 : Z) : option (CPathEstimator F) :=
  let lowerX := Clamp (to_int32 (Z.min x1 x2 / BLOCK_SIZE)) 0 (to_int32 (int2_x nbrOfBlocks - 1)) in
  let upperX := Clamp (to_int32 (Z.max x1 x2 / BLOCK_SIZE)) 0 (to_int32 (int2_x nbrOfBlocks - 1)) in
  let lowerZ := Clamp (to_int32 (Z.min z1 z2 / BLOCK_SIZE)) 0 (to_int32 (int2_y nbrOfBlocks - 1)) in
  let upperZ := Clamp (to_int32 (Z.max z1 z2 / BLOCK_SIZE)) 0 (to_int32 (int2_y nbrOfBlocks - 1)) in
  fold_opt (fun pe' z => MapChanged_row pe' lowerX upperX z) pe (down_range upperZ lowerZ).
End MapChanged.

(** ** Update *)

(** The local struct [SingleBlock] of [Update]. *)
Record SingleBlock : Type := mk_SingleBlock { sb_blockPos : int2; sb_moveDef : MoveDef }.

Section Update.
Context {F : Type} `{!FloatOps F} `{!PathConstants} `{!Grid} `{!Collaborators F}
        `{!MoveDefHandler}.
Implicit Types (pe : CPathEstimator F).

Definition progressiveUpdates pe : Z :=
  f_to_int
    (fmul
       (fmul (f_of_Z (Z.of_nat (length (updatedBlocks pe)) * GetNumMoveDefs))
             (if 16 <=? BLOCK_SIZE then f_of_Z 1 else f_06))
       pfUpdateRate).

(** [blocksToUpdate], [consumeBlocks] and the new [blockUpdatePenalty], as
    the first block of [Update] leaves them. *)
Definition Update_budget pe : Z * Z * Z :=
  let prog := progressiveUpdates pe in
  let blocksToUpdate0 := blocksToUpdate_clamped prog in
  let penalty1 := Z.max 0 (blockUpdatePenalty pe - blocksToUpdate0) in
  let blocksToUpdate :=
    if 0 <? penalty1 then Z.max 0 (blocksToUpdate0 - penalty1) else blocksToUpdate0 in
  let consumeBlocks :=
    to_int32
      ((if prog =? 0 then 0 else 1)
       * f_to_int (fceil (fdiv (f_of_Z blocksToUpdate) (f_of_Z GetNumMoveDefs)))
       * GetNumMoveDefs) in
  (blocksToUpdate, consumeBlocks, penalty1 + consumeBlocks).

(** The entries the loop over the move defs appends for one block: one per
    move def with [udRefCount > 0], in the order of the handler. *)
Definition Update_entries (pos : int2) : list SingleBlock :=
  mk_SingleBlock pos <$> filter (fun md => 0 < udRefCount md) moveDefs.

(** The loop "get blocks to update": what is left of the queue, and
    [consumedBlocks]. *)
Fixpoint Update_drain (mask : list Z) (blocksToUpdate : Z) (queue : list int2)
    (consumedBlocks : list SingleBlock) : option (list int2 * list SingleBlock) :=
  match queue with
  | [] => Some ([], consumedBlocks)
  | pos :: rest =>
    m ← vget mask (to_int32 (BlockPosToIdx pos));
    if Z.land m PATHOPT_OBSOLETE =? 0
    then Update_drain mask blocksToUpdate rest consumedBlocks
    else if blocksToUpdate <=? Z.of_nat (length consumedBlocks)
    then Some (queue, consumedBlocks)
    else Update_drain mask blocksToUpdate rest (consumedBlocks ++ Update_entries pos)
  end.

(** [blockStates.peNodeOffsets[blockN][pathType] = sq]. *)
Definition store_offset pe (blockN pathType : Z) (sq : int2) : option (CPathEstimator F) :=
  row ← vget (peNodeOffsets (blockStates pe)) blockN;
  row' ← vset row pathType sq;
  offs ← vset (peNodeOffsets (blockStates pe)) blockN row';
  Some (set_blockStates (set_peNodeOffsets offs (blockStates pe)) pe).

(** The body of the [for_mt] loop. *)
Definition Update_offset pe (sb : SingleBlock) : option (CPathEstimator F) :=
  let blockN := to_int32 (BlockPosToIdx (sb_blockPos sb)) in
  store_offset pe blockN (pathType (sb_moveDef sb))
    (FindOffset (sb_moveDef sb) (wrap32 (int2_x (sb_blockPos sb)))
                (wrap32 (int2_y (sb_blockPos sb)))).

(** [nodeMask[blockN] &= ~PATHOPT_OBSOLETE]. *)
Definition clear_obsolete pe (blockN : Z) : option (CPathEstimator F) :=
  m ← vget (nodeMask (blockStates pe)) blockN;
  nm ← vset (nodeMask (blockStates pe)) blockN (Z.land m (Z.lnot PATHOPT_OBSOLETE));
  Some (set_blockStates (set_nodeMask nm (blockStates pe)) pe).

(** The serial loop over [consumedBlocks]. *)
Fixpoint Update_vertices pe (consumedBlocks : list SingleBlock) : option (CPathEstimator F) :=
  match consumedBlocks with
  | [] => Some pe
  | sb :: rest =>
    let blockN := to_int32 (BlockPosToIdx (sb_blockPos sb)) in
    pe1 ← CalculateVertices pe (sb_moveDef sb) (sb_blockPos sb) 0;
    pe2 ← match rest with
          | [] => clear_obsolete pe1 blockN
          | nxt :: _ =>
            if pathType (sb_moveDef nxt) <=? pathType (sb_moveDef sb)
            then clear_obsolete pe1 blockN else Some pe1
          end;
    Update_vertices pe2 rest
  end.

(** [Update]. The two [pathCache] updates touch no member modelled here. *)
Definition Update pe : option (CPathEstimator F) :=
  let '(blocksToUpdate, consumeBlocks, penalty) := Update_budget pe in
  let pe0 := set_blockUpdatePenalty penalty pe in
  if blocksToUpdate =? 0 then Some pe0
  else
    match updatedBlocks pe0 with
    | [] => Some pe0
    | _ =>
      '(queue, consumedBlocks) ←
        Update_drain (nodeMask (blockStates pe0)) blocksToUpdate (updatedBlocks pe0) [];
      let pe1 := set_updatedBlocks queue pe0 in
      pe2 ← fold_opt Update_offset pe1 consumedBlocks;
      Update_vertices pe2 consumedBlocks
    end.

(** The blocks the serial loop of [Update] processes on [pe]. *)
Definition Update_consumed pe : option (list SingleBlock) :=
  let '(blocksToUpdate, _, _) := Update_budget pe in
  if blocksToUpdate =? 0 then Some []
  else '(_, consumedBlocks) ←
         Update_drain (nodeMask (blockStates pe)) blocksToUpdate (updatedBlocks pe) [];
       Some consumedBlocks.
End Update.

(** ** The open set *)

Section OpenSet.
Context {F : Type} `{!FloatOps F}.

(** Modelled from the spec: the order of the priority queue [openBlocks],
    whose comparator is declared in PathDataTypes.h, not among the
    sources. Section 4.F: "Pop block ob with lowest f"; section 5: "ties
    broken by open-set insertion order". The list holds the nodes in
    insertion order; [pq_argmin] is the position of the first node of
    lowest [fCost]. *)
Fixpoint pq_argmin (bi : nat) (bf : F) (i : nat) (l : list (PathNode F)) : nat :=
  match l with
  | [] => bi
  | n :: l' =>
    if flt (node_fCost n) bf
    then pq_argmin i (node_fCost n) (S i) l'
    else pq_argmin bi bf (S i) l'
  end.

(** [openBlocks.top()] followed by [openBlocks.pop()]. *)
Definition pq_pop (l : list (PathNode F)) : option (PathNode F * list (PathNode F)) :=
  match l with
  | [] => None
  | n :: l' =>
    let i := pq_argmin 0 (node_fCost n) 1 l' in
    ob ← l !! i; Some (ob, delete i l)
  end.
End OpenSet.

(** ** TestBlock *)

Section Search.
Context {F : Type} `{!FloatOps F} `{!PathConstants} `{!Grid} `{!CPathFinderDef F}.
Implicit Types (pe : CPathEstimator F).

(** The tail of [TestBlock], from "look for improvements" on: the child
    [block] enters the open set with the costs given; [m] is its node mask
    at that point. *)
Definition TestBlock_open pe (parentOpenBlock : PathNode F) (pathDir : Z)
    (block : int2) (blockIdx m : Z) (fCost' gCost' hCost : F)
    : option (bool * CPathEstimator F) :=
  let '(goalIdx, goalH) :=
    if flt hCost (mGoalHeuristic pe) then (blockIdx, hCost)
    else (mGoalBlockIdx pe, mGoalHeuristic pe) in
  let size := wrap32 (openBlockBuffer pe + 1) in
  if negb (size <? MAX_SEARCHED_NODES_PE) then None
  else
    let ob := mk_PathNode fCost' gCost' block blockIdx in
    let bs := blockStates pe in
    fs ← vset (fCost bs) blockIdx fCost';
    gs ← vset (gCost bs) blockIdx gCost';
    nm ← vset (nodeMask bs) blockIdx (Z.lor m (Z.lor pathDir PATHOPT_OPEN));
    ps ← vset (peParentNodePos bs) blockIdx (nodePos parentOpenBlock);
    Some (true,
          mk_CPathEstimator
            (mk_blockStates nm fs gs ps (peNodeOffsets bs)
               (fmax_std (maxCostF bs) fCost') (fmax_std (maxCostG bs) gCost'))
            (vertexCosts pe) (updatedBlocks pe) (blockUpdatePenalty pe)
            (openBlocks pe ++ [ob]) size
            (dirtyBlocks pe ++ [blockIdx]) (maxBlocksToBeSearched pe)
            (testedBlocks pe) goalIdx goalH).

(** [TestBlock]; the arguments the source leaves unnamed are dropped.
    [GetFlowCost] receives the direction index and stands for the call
    with [PathDir2PathOpt(pathDir)]. A failed [assert] gives [None]. *)
Definition TestBlock pe (moveDef : MoveDef) (parentOpenBlock : PathNode F)
    (pathDir : Z) (synced : bool) : option (bool * CPathEstimator F) :=
  let pe := set_testedBlocks (testedBlocks pe + 1) pe in
  let block := int2_add (nodePos parentOpenBlock) (PE_DIRECTION_VECTORS pathDir) in
  let blockIdx := BlockPosToIdx block in
  if int2_x nbrOfBlocks <=? wrap32 (int2_x block) then Some (false, pe)
  else if int2_y nbrOfBlocks <=? wrap32 (int2_y block) then Some (false, pe)
  else
    m ← vget (nodeMask (blockStates pe)) blockIdx;
    if negb (Z.land m (Z.lor PATHOPT_BLOCKED PATHOPT_CLOSED) =? 0) then Some (false, pe)
    else
      square ← offset_at (blockStates pe) blockIdx (pathType moveDef);
      v ← vget (vertexCosts pe) (vertexIdx pe moveDef (nodeNum parentOpenBlock) pathDir);
      if fle PATHCOST_INFINITY v then Some (false, pe)
      else if negb (WithinConstraints (int2_x square) (int2_y square)) then
        nm ← vset (nodeMask (blockStates pe)) blockIdx (Z.lor m PATHOPT_BLOCKED);
        Some (false,
              set_dirtyBlocks (dirtyBlocks pe ++ [blockIdx])
                (set_blockStates (set_nodeMask nm (blockStates pe)) pe))
      else
        let flowCost := GetFlowCost (int2_x square) (int2_y square) moveDef pathDir in
        let extraCost := GetNodeExtraCost (int2_x square) (int2_y square) synced in
        let nodeCost := fadd (fadd v flowCost) extraCost in
        let gCost' := fadd (node_gCost parentOpenBlock) nodeCost in
        let hCost := Heuristic (int2_x square) (int2_y square) in
        let fCost' := fadd gCost' hCost in
        if negb (Z.land m PATHOPT_OPEN =? 0) then
          stored ← vget (fCost (blockStates pe)) blockIdx;
          if fle stored fCost' then Some (true, pe)
          else TestBlock_open pe parentOpenBlock pathDir block blockIdx
                 (Z.land m (Z.lnot PATHOPT_CARDINALS)) fCost' gCost' hCost
        else TestBlock_open pe parentOpenBlock pathDir block blockIdx m
               fCost' gCost' hCost.

(** ** DoSearch *)

(** [TestBlock] with its result dropped, as [DoSearch] calls it. *)
Definition TestBlock_ (moveDef : MoveDef) (ob : PathNode F) (synced : bool)
    pe (pathDir : Z) : option (CPathEstimator F) :=
  snd <$> TestBlock pe moveDef ob pathDir synced.

(** The eight calls of [TestBlock], in the order of the source, and the
    CLOSED mark. *)
Definition DoSearch_expand pe (moveDef : MoveDef) (ob : PathNode F) (synced : bool)
    : option (CPathEstimator F) :=
  pe1 ← fold_opt (TestBlock_ moveDef ob synced) pe
          [PATHDIR_LEFT; PATHDIR_LEFT_UP; PATHDIR_UP; PATHDIR_RIGHT_UP;
           PATHDIR_RIGHT; PATHDIR_RIGHT_DOWN; PATHDIR_DOWN; PATHDIR_LEFT_DOWN];
  m ← vget (nodeMask (blockStates pe1)) (nodeNum ob);
  nm ← vset (nodeMask (blockStates pe1)) (nodeNum ob) (Z.lor m PATHOPT_CLOSED);
  Some (set_blockStates (set_nodeMask nm (blockStates pe1)) pe1).

(** The goal test of the loop on the popped block [ob]. *)
Definition DoSearch_isGoal pe (moveDef : MoveDef) (ob : PathNode F) : option bool :=
  sq ← offset_at (blockStates pe) (nodeNum ob) (pathType moveDef);
  let goalSqrOffset := GoalSquareOffset BLOCK_SIZE in
  let xBSquare := wrap32 (int2_x sq) in
  let zBSquare := wrap32 (int2_y sq) in
  let xGSquare := wrap32 (int2_x (nodePos ob) * BLOCK_SIZE + int2_x goalSqrOffset) in
  let zGSquare := wrap32 (int2_y (nodePos ob) * BLOCK_SIZE + int2_y goalSqrOffset) in
  Some (IsGoal xBSquare zBSquare || IsGoal xGSquare zGSquare).

(** The loop condition. *)
Definition DoSearch_continue pe : bool :=
  negb (bool_decide (openBlocks pe = [])) &&
  (openBlockBuffer pe <? maxBlocksToBeSearched pe).

(** The [while] loop. The result is [foundGoal], the state, and the blocks
    that were popped, in the order they were popped, each with a flag
    that tells whether it went on to the goal test ([true]) or was
    skipped for being BLOCKED or CLOSED ([false]); this list is not in the
    source and only names the blocks the loop visited. [fuel] bounds the
    number of iterations. *)
Fixpoint DoSearch_loop (fuel : nat) pe (moveDef : MoveDef) (synced : bool)
    (visited : list (PathNode F * bool))
    : option (bool * CPathEstimator F * list (PathNode F * bool)) :=
  match fuel with
  | O => None
  | S fuel' =>
    if negb (DoSearch_continue pe) then Some (false, pe, visited)
    else
      '(ob, rest) ← pq_pop (openBlocks pe);
      let pe := set_openBlocks rest pe in
      m ← vget (nodeMask (blockStates pe)) (nodeNum ob);
      if negb (Z.land m (Z.lor PATHOPT_BLOCKED PATHOPT_CLOSED) =? 0)
      then DoSearch_loop fuel' pe moveDef synced (visited ++ [(ob, false)])
      else
        g ← DoSearch_isGoal pe moveDef ob;
        if g : bool
        then Some (true, set_goal (nodeNum ob) (f_of_Z 0) pe, visited ++ [(ob, true)])
        else
          pe' ← DoSearch_expand pe moveDef ob synced;
          DoSearch_loop fuel' pe' moveDef synced (visited ++ [(ob, true)])
  end.

(** The classification after the loop. *)
Definition DoSearch_result (foundGoal : bool) pe : SearchResult :=
  if foundGoal then Ok
  else if maxBlocksToBeSearched pe <=? openBlockBuffer pe then GoalOutOfRange
  else if bool_decide (openBlocks pe = []) then GoalOutOfRange
  else Error.

Definition DoSearch (fuel : nat) pe (moveDef : MoveDef) (synced : bool)
    : option (SearchResult * CPathEstimator F * list (PathNode F * bool)) :=
  '(foundGoal, pe', visited) ← DoSearch_loop fuel pe moveDef synced [];
  Some (DoSearch_result foundGoal pe', pe', visited).

(** Iterations that suffice for the loop on [pe]. *)
Definition DoSearch_fuel pe : nat :=
  S (length (openBlocks pe)
     + 2 * Z.to_nat (maxBlocksToBeSearched pe + 8 - openBlockBuffer pe)).
End Search.

(** ** The precompute driver: CalcOffsetsAndPathCosts *)

Section BlockWork.
Context {F : Type} `{!FloatOps F} `{!PathConstants} `{!Grid} `{!Collaborators F}
        `{!MoveDefHandler}.
Implicit Types (pe : CPathEstimator F).

(** [CalculateBlockOffsets]; the progress message of thread 0 touches no
    member modelled here. *)
Definition CalculateBlockOffsets pe (blockIdx threadNum : Z) : option (CPathEstimator F) :=
  let blockPos := BlockIdxToPos blockIdx in
  fold_opt
    (fun pe' md =>
       if 0 <? udRefCount md
       then store_offset pe' blockIdx (pathType md)
              (FindOffset md (int2_x blockPos) (int2_y blockPos))
       else Some pe')
    pe moveDefs.

(** [EstimatePathCosts], likewise. *)
Definition EstimatePathCosts pe (blockIdx threadNum : Z) : option (CPathEstimator F) :=
  let blockPos := BlockIdxToPos blockIdx in
  fold_opt
    (fun pe' md =>
       if 0 <? udRefCount md then CalculateVertices pe' md blockPos threadNum
       else Some pe')
    pe moveDefs.
End BlockWork.

(** Where a thread stands in [CalcOffsetsAndPathCosts]. *)
Inductive WorkerPC : Type :=
| ClaimOffset                 (* at [--offsetBlockNum] *)
| InOffsets (blockIdx : Z)    (* inside [CalculateBlockOffsets(blockIdx)] *)
| AtBarrier                   (* at [pathBarrier->wait()] *)
| Blocked (generation : Z)    (* inside [wait], until the generation changes *)
| ClaimCost                   (* at [--costBlockNum] *)
| InCosts (blockIdx : Z)      (* inside [EstimatePathCosts(blockIdx)] *)
| Finished.

Global Instance WorkerPC_eq_dec : EqDecision WorkerPC.
Proof. solve_decision. Defined.

(** The shared state of the precomputation: the estimator, the two atomic
    counters, the barrier (its remaining count and its generation) and the
    position of every thread. *)
Record Precompute (F : Type) : Type := mk_Precompute {
  pre_pe : CPathEstimator F;
  offsetBlockNum : Z;
  costBlockNum : Z;
  barrier_count : Z;
  barrier_generation : Z;
  workers : list WorkerPC
}.
Arguments mk_Precompute {F}.
Arguments pre_pe {F}.
Arguments offsetBlockNum {F}.
Arguments costBlockNum {F}.
Arguments barrier_count {F}.
Arguments barrier_generation {F}.
Arguments workers {F}.

(** A thread that has not yet called [wait]. *)
Definition before_barrier (p : WorkerPC) : bool :=
  match p with ClaimOffset | InOffsets _ | AtBarrier => true | _ => false end.

(** A thread that has returned from [wait]. *)
Definition after_barrier (p : WorkerPC) : bool :=
  match p with ClaimCost | InCosts _ | Finished => true | _ => false end.

Section Precompute.
Context {F : Type} `{!FloatOps F} `{!PathConstants} `{!Grid} `{!Collaborators F}
        `{!MoveDefHandler}.

(** One atomic action of thread [t]. The decrements of the counters are
    atomic read-modify-writes; a call of [CalculateBlockOffsets] or
    [EstimatePathCosts] takes effect when it returns, other threads
    running in between; [wait] is the counting barrier of boost: the last
    thread to arrive resets the count, advances the generation and goes
    on, the others go on once the generation has changed. The counters
    are integers; the properties below take the number of blocks below
    [2 ^ 31], where the value assigned to [int i] is the counter's. *)
Inductive worker_step (t : nat) : Precompute F -> Precompute F -> Prop :=
| step_claim_offset s :
    workers s !! t = Some ClaimOffset ->
    0 <= offsetBlockNum s - 1 ->
    worker_step t s
      (mk_Precompute (pre_pe s) (offsetBlockNum s - 1) (costBlockNum s)
         (barrier_count s) (barrier_generation s)
         (<[t := InOffsets (wrap32 (wrap32 (GetSize (blockStates (pre_pe s)) - 1)
                                     - (offsetBlockNum s - 1)))]> (workers s)))
| step_offsets_exhausted s :
    workers s !! t = Some ClaimOffset ->
    offsetBlockNum s - 1 < 0 ->
    worker_step t s
      (mk_Precompute (pre_pe s) (offsetBlockNum s - 1) (costBlockNum s)
         (barrier_count s) (barrier_generation s)
         (<[t := AtBarrier]> (workers s)))
| step_offsets_done s blockIdx pe' :
    workers s !! t = Some (InOffsets blockIdx) ->
    CalculateBlockOffsets (pre_pe s) blockIdx (Z.of_nat t) = Some pe' ->
    worker_step t s
      (mk_Precompute pe' (offsetBlockNum s) (costBlockNum s)
         (barrier_count s) (barrier_generation s)
         (<[t := ClaimOffset]> (workers s)))
| step_wait_last s :
    workers s !! t = Some AtBarrier ->
    barrier_count s - 1 = 0 ->
    worker_step t s
      (mk_Precompute (pre_pe s) (offsetBlockNum s) (costBlockNum s)
         (Z.of_nat (length (workers s))) (barrier_generation s + 1)
         (<[t := ClaimCost]> (workers s)))
| step_wait_block s :
    workers s !! t = Some AtBarrier ->
    barrier_count s - 1 <> 0 ->
    worker_step t s
      (mk_Precompute (pre_pe s) (offsetBlockNum s) (costBlockNum s)
         (barrier_count s - 1) (barrier_generation s)
         (<[t := Blocked (barrier_generation s)]> (workers s)))
| step_wake s gen :
    workers s !! t = Some (Blocked gen) ->
    gen <> barrier_generation s ->
    worker_step t s
      (mk_Precompute (pre_pe s) (offsetBlockNum s) (costBlockNum s)
         (barrier_count s) (barrier_generation s)
         (<[t := ClaimCost]> (workers s)))
| step_claim_cost s :
    workers s !! t = Some ClaimCost ->
    0 <= costBlockNum s - 1 ->
    worker_step t s
      (mk_Precompute (pre_pe s) (offsetBlockNum s) (costBlockNum s - 1)
         (barrier_count s) (barrier_generation s)
         (<[t := InCosts (wrap32 (wrap32 (GetSize (blockStates (pre_pe s)) - 1)
                                   - (costBlockNum s - 1)))]> (workers s)))
| step_costs_exhausted s :
    workers s !! t = Some ClaimCost ->
    costBlockNum s - 1 < 0 ->
    worker_step t s
      (mk_Precompute (pre_pe s) (offsetBlockNum s) (costBlockNum s - 1)
         (barrier_count s) (barrier_generation s)
         (<[t := Finished]> (workers s)))
| step_costs_done s blockIdx pe' :
    workers s !! t = Some (InCosts blockIdx) ->
    EstimatePathCosts (pre_pe s) blockIdx (Z.of_nat t) = Some pe' ->
    worker_step t s
      (mk_Precompute pe' (offsetBlockNum s) (costBlockNum s)
         (barrier_count s) (barrier_generation s)
         (<[t := ClaimCost]> (workers s))).

(** Any thread may take the next action. *)
Definition precompute_step (s s' : Precompute F) : Prop :=
  exists t, worker_step t s s'.

(** The state in which [InitEstimator] starts the threads: both counters
    at the number of blocks (set by the constructor), a barrier for all
    [numThreads] of them, every thread at the top of
    [CalcOffsetsAndPathCosts]. *)
Definition precompute_init (pe : CPathEstimator F) (numThreads : nat) : Precompute F :=
  mk_Precompute pe
    (int2_x nbrOfBlocks * int2_y nbrOfBlocks)
    (int2_x nbrOfBlocks * int2_y nbrOfBlocks)
    (Z.of_nat numThreads) 0 (replicate numThreads ClaimOffset).

(** The offsets of block [blockIdx] are the ones phase 1 computes, for
    every move def in use. *)
Definition offsets_written (pe : CPathEstimator F) (blockIdx : Z) : Prop :=
  forall md, md ∈ moveDefs -> 0 < udRefCount md ->
    offset_at (blockStates pe) blockIdx (pathType md)
    = Some (FindOffset md (int2_x (BlockIdxToPos blockIdx))
                          (int2_y (BlockIdxToPos blockIdx))).
End Precompute.

(** ** Start-up: GetNumThreads, the constructor, InitEstimator, InitBlocks *)

(** [GetNumThreads]: the configured thread count if it is positive, the
    number of logical cores otherwise. [pathingThreadCount] is the [int]
    read from the configuration, [numCores] the [size_t] of the same name. *)
Definition GetNumThreads (pathingThreadCount numCores : Z) : Z :=
  let numThreads := Z.max 0 pathingThreadCount in
  if numThreads =? 0 then numCores else numThreads.

(** [numExtraThreads] of [InitEstimator], from [minMemFootPrint],
    [maxMemFootPrint] and [numThreads], three [unsigned int]. A division by
    zero and an [int] subtraction that leaves the range of [int] are
    undefined and give [None]. *)
Definition numExtraThreads (minMemFootPrint maxMemFootPrint numThreads : Z) : option Z :=
  if minMemFootPrint =? 0 then None
  else
    let q := to_int32 (maxMemFootPrint / minMemFootPrint) in
    let n := to_int32 numThreads in
    if (q =? - 2 ^ 31) || (n =? - 2 ^ 31) then None
    else Some (wrap32 (Clamp (q - 1) 0 (n - 1))).

(** [reqMemFootPrint]. *)
Definition reqMemFootPrint (minMemFootPrint numExtra : Z) : Z :=
  wrap32 (minMemFootPrint * wrap32 (numExtra + 1)).

(** [std::vector::resize(n, v)]. *)
Definition resize {A} (l : list A) (n : Z) (v : A) : list A :=
  take (Z.to_nat n) l ++ replicate (Z.to_nat n - length l) v.

Section StartUp.
Context {F : Type} `{!FloatOps F} `{!Grid} `{!MoveDefHandler}.
Implicit Types (pe : CPathEstimator F).

(** The body of the constructor, on the members modelled here: the vertex
    table gets its size, new entries INFINITY, and the penalty is 0. *)
Definition CPathEstimator_ctor pe : CPathEstimator F :=
  set_blockUpdatePenalty 0
    (set_vertexCosts
       (resize (vertexCosts pe)
          (wrap32 (wrap32 (GetNumMoveDefs * GetSize (blockStates pe))
                   * PATH_DIRECTION_VERTICES))
          PATHCOST_INFINITY)
       pe).

(** One iteration of the loop of [InitBlocks]; a new [int2] is [(0, 0)]. *)
Definition InitBlocks_block pe (idx : Z) : option (CPathEstimator F) :=
  row ← vget (peNodeOffsets (blockStates pe)) idx;
  offs ← vset (peNodeOffsets (blockStates pe)) idx
           (resize row GetNumMoveDefs (mk_int2 0 0));
  Some (set_blockStates (set_peNodeOffsets offs (blockStates pe)) pe).

Definition InitBlocks pe : option (CPathEstimator F) :=
  fold_opt InitBlocks_block pe (seqZ 0 (GetSize (blockStates pe))).
End StartUp.

(** ** Update, call after call *)

(** [k] calls of [Update] in a row, with no call of [MapChanged] in
    between. *)
Fixpoint Update_times {F : Type} `{!FloatOps F} `{!PathConstants} `{!Grid}
    `{!Collaborators F} `{!MoveDefHandler} (k : nat) (pe : CPathEstimator F)
    : option (CPathEstimator F) :=
  match k with
  | O => Some pe
  | S k' => pe1 ← Update pe; Update_times k' pe1
  end.

(** ** The cache file: Hash, WriteFile, ReadFile *)

(** [Hash]: the sum of the two checksums, [BLOCK_SIZE] and
    [PATHESTIMATOR_VERSION], in [unsigned int]. *)
Definition Hash `{!Grid} (mapChecksum moveDefChecksum PATHESTIMATOR_VERSION : Z) : Z :=
  wrap32 (mapChecksum + moveDefChecksum + BLOCK_SIZE + PATHESTIMATOR_VERSION).

(** The object representation of a [float]: its four bytes as an
    [unsigned int], and back. *)
Class FloatBits (F : Type) : Type := {
  f_bits : F -> Z;
  f_of_bits : Z -> F
}.

(** Four bytes of memory holding the [unsigned int] [v], lowest byte first,
    and the value four bytes hold. A byte is an integer below 256. *)
Definition le32 (v : Z) : list Z :=
  [Z.land v 255; Z.land (Z.shiftr v 8) 255; Z.land (Z.shiftr v 16) 255;
   Z.land (Z.shiftr v 24) 255].

Definition of_le32 (bs : list Z) : Z :=
  match bs with
  | [b0; b1; b2; b3] => b0 + Z.shiftl b1 8 + Z.shiftl b2 16 + Z.shiftl b3 24
  | _ => 0
  end.

(** The bytes of an [int2]: [x], then [y]. *)
Definition int2_bytes (p : int2) : list Z :=
  le32 (wrap32 (int2_x p)) ++ le32 (wrap32 (int2_y p)).

Definition int2_of_bytes (bs : list Z) : int2 :=
  mk_int2 (to_int32 (of_le32 (take 4 bs))) (to_int32 (of_le32 (take 4 (drop 4 bs)))).

(** The objects a [memcpy] of [n] items of [w] bytes from [bs] yields. *)
Fixpoint chunks {A} (decode : list Z -> A) (w n : nat) (bs : list Z) : list A :=
  match n with
  | O => []
  | S n' => decode (take w bs) :: chunks decode w n' (drop w bs)
  end.

Section CacheFile.
Context {F : Type} `{!FloatBits F} `{!Grid} `{!MoveDefHandler}.
Implicit Types (pe : CPathEstimator F).

(** The [GetNumMoveDefs() * sizeof(int2)] bytes (an [unsigned]) written
    from [&row[0]] on; element 0 of an empty row and a read past the end of
    the row are undefined. *)
Definition row_bytes (row : list int2) : option (list Z) :=
  let len := Z.to_nat (wrap32 (GetNumMoveDefs * 8)) in
  if decide (0 < length row /\ len <= 8 * length row)%nat
  then Some (take len (concat (int2_bytes <$> row)))
  else None.

(** The data [WriteFile] writes into the entry "pathinfo", when the cache
    directory and the archive can be created: the hash, the offsets block
    by block, the vertex costs; the length of each write is an [unsigned].
    The loop counter is an [int], which overflows from 2^31 blocks on, and
    [&vertexCosts[0]] is undefined on an empty table. *)
Definition WriteFile pe (hash : Z) : option (list Z) :=
  if 2 ^ 31 <=? GetSize (blockStates pe) then None
  else
    rows ← mapM (fun blocknr => row ← vget (peNodeOffsets (blockStates pe)) blocknr;
                                 row_bytes row)
              (seqZ 0 (GetSize (blockStates pe)));
    if bool_decide (vertexCosts pe = []) then None
    else Some (le32 hash ++ concat rows
               ++ take (Z.to_nat (wrap32 (Z.of_nat (length (vertexCosts pe)) * 4)))
                    (concat ((fun c => le32 (f_bits c)) <$> vertexCosts pe))).

(** One iteration of the first loop of [ReadFile]: [blockSize] bytes at
    [pos] are copied over the start of row [blocknr], which has an element
    0 and room for them. *)
Definition ReadFile_block (buffer : list Z) (blockSize : Z)
    (st : CPathEstimator F * Z) (blocknr : Z) : option (CPathEstimator F * Z) :=
  let '(pe, pos) := st in
  row ← vget (peNodeOffsets (blockStates pe)) blocknr;
  if decide (0 < length row
             /\ Z.to_nat pos + Z.to_nat blockSize <= length buffer
             /\ Z.to_nat blockSize <= 8 * length row)%nat
  then
    let n := (Z.to_nat blockSize / 8)%nat in
    let row' := chunks int2_of_bytes 8 n (drop (Z.to_nat pos) buffer) ++ drop n row in
    offs ← vset (peNodeOffsets (blockStates pe)) blocknr row';
    Some (set_blockStates (set_peNodeOffsets offs (blockStates pe)) pe,
          wrap32 (pos + blockSize))
  else None.

(** [ReadFile]. [archive] is the entry "pathinfo" of the cache file, its
    CRC and its bytes, or [None] when the file is missing, cannot be opened
    or has no such entry. The result is the value returned, the estimator,
    and the value assigned to [pathChecksum], if any. The loop counter is
    an [int], and [&vertexCosts[0]] is undefined on an empty table. *)
Definition ReadFile pe (hash : Z) (archive : option (Z * list Z))
    : option (bool * CPathEstimator F * option Z) :=
  match archive with
  | None => Some (false, pe, None)
  | Some (crc, buffer) =>
    let size := Z.of_nat (length buffer) in
    if size <? 4 then Some (false, pe, Some crc)
    else if negb (of_le32 (take 4 buffer) =? hash) then Some (false, pe, Some crc)
    else
      let blockSize := wrap32 (GetNumMoveDefs * 8) in
      if size <? wrap32 (4 + wrap32 (blockSize * GetSize (blockStates pe)))
      then Some (false, pe, Some crc)
      else if 2 ^ 31 <=? GetSize (blockStates pe) then None
      else
        '(pe1, pos) ← fold_opt (ReadFile_block buffer blockSize) (pe, 4)
                        (seqZ 0 (GetSize (blockStates pe)));
        if size <? pos + Z.of_nat (length (vertexCosts pe1)) * 4
        then Some (false, pe1, Some crc)
        else if bool_decide (vertexCosts pe1 = []) then None
        else
          let vc := chunks (fun bs => f_of_bits (of_le32 bs)) 4
                      (length (vertexCosts pe1)) (drop (Z.to_nat pos) buffer) in
          Some (true, set_vertexCosts vc pe1, Some crc)
  end.
End CacheFile.

(** ** FinishSearch *)

(** [float3] and the members of [IPath::Path] that [FinishSearch] writes. *)
Record float3 (F : Type) : Type := mk_float3 { f3_x : F; f3_y : F; f3_z : F }.
Arguments mk_float3 {F}.
Arguments f3_x {F}.
Arguments f3_y {F}.
Arguments f3_z {F}.

Record Path (F : Type) : Type := mk_Path {
  path : list (float3 F);
  pathGoal : float3 F;
  pathCost : F
}.
Arguments mk_Path {F}.
Arguments path {F}.
Arguments pathGoal {F}.
Arguments pathCost {F}.

(** [CMoveMath::yLevel]. *)
Class HeightMap (F : Type) : Type := { yLevel : MoveDef -> Z -> Z -> F }.

Section FinishSearch.
Context {F : Type} `{!FloatOps F} `{!PathConstants} `{!Grid} `{!HeightMap F}.
Implicit Types (pe : CPathEstimator F).

(** The position [FinishSearch] pushes for the block with representative
    square [square]; the two products are [int] products, undefined when
    they leave the range of [int]. *)
Definition waypoint (moveDef : MoveDef) (square : int2) : option (float3 F) :=
  let x := int2_x square * SQUARE_SIZE in
  let z := int2_y square * SQUARE_SIZE in
  if decide (- 2 ^ 31 <= x < 2 ^ 31 /\ - 2 ^ 31 <= z < 2 ^ 31)
  then Some (mk_float3 (f_of_Z x) (yLevel moveDef (int2_x square) (int2_y square))
               (f_of_Z z))
  else None.

(** The [while] loop, from [blockIdx] on; [fuel] bounds the number of
    iterations. [mStartBlockIdx] is a member of the base class. *)
Fixpoint FinishSearch_loop (fuel : nat) pe (moveDef : MoveDef) (mStartBlockIdx blockIdx : Z)
    (acc : list (float3 F)) : option (list (float3 F)) :=
  match fuel with
  | O => None
  | S fuel' =>
    if blockIdx =? mStartBlockIdx then Some acc
    else
      square ← offset_at (blockStates pe) blockIdx (pathType moveDef);
      pos ← waypoint moveDef square;
      parent ← vget (peParentNodePos (blockStates pe)) blockIdx;
      FinishSearch_loop fuel' pe moveDef mStartBlockIdx (BlockPosToIdx parent)
        (acc ++ [pos])
  end.

Definition FinishSearch (fuel : nat) pe (moveDef : MoveDef) (mStartBlockIdx : Z)
    (foundPath : Path F) : option (Path F) :=
  path' ← FinishSearch_loop fuel pe moveDef mStartBlockIdx (mGoalBlockIdx pe)
            (path foundPath);
  goalCost ← vget (fCost (blockStates pe)) (mGoalBlockIdx pe);
  Some (mk_Path path'
          (match path' with [] => pathGoal foundPath | front :: _ => front end)
          (fsub goalCost (mGoalHeuristic pe))).
End FinishSearch.


(** ** InitEstimator *)

Section InitEstimator.
Context {F : Type} `{!FloatOps F} `{!FloatBits F} `{!PathConstants} `{!Grid}
        `{!Collaborators F} `{!MoveDefHandler}.

(** [InitEstimator], on the members modelled here: the estimator it leaves
    and the data it writes into the cache file, if any. [archive] is what
    [ReadFile] finds, [writable] tells whether [WriteFile] can create the
    cache directory and the archive. [pathFinders[0]] exists if there is at
    least one thread. Without a usable cache the tables are computed by
    [numExtraThreads + 1] threads running [CalcOffsetsAndPathCosts]: every
    state of the precomputation in which all of them have finished is a
    possible outcome. *)
Inductive InitEstimator (pe : CPathEstimator F) (hash : Z) (archive : option (Z * list Z))
    (writable : bool) (pathingThreadCount numCores minMemFootPrint maxMemFootPrint : Z)
    : CPathEstimator F -> option (list Z) -> Prop :=
| InitEstimator_cached pe1 pe2 crc :
    1 <= wrap32 (GetNumThreads pathingThreadCount numCores) ->
    InitBlocks pe = Some pe1 ->
    ReadFile pe1 hash archive = Some (true, pe2, crc) ->
    InitEstimator pe hash archive writable pathingThreadCount numCores
      minMemFootPrint maxMemFootPrint pe2 None
| InitEstimator_computed pe1 pe2 crc numExtra s data :
    1 <= wrap32 (GetNumThreads pathingThreadCount numCores) ->
    InitBlocks pe = Some pe1 ->
    ReadFile pe1 hash archive = Some (false, pe2, crc) ->
    numExtraThreads minMemFootPrint maxMemFootPrint
      (wrap32 (GetNumThreads pathingThreadCount numCores)) = Some numExtra ->
    rtc precompute_step (precompute_init pe2 (Z.to_nat (numExtra + 1))) s ->
    Forall (fun p => p = Finished) (workers s) ->
    (if writable then WriteFile (pre_pe s) hash else None) = data ->
    (writable = true -> is_Some data) ->
    InitEstimator pe hash archive writable pathingThreadCount numCores
      minMemFootPrint maxMemFootPrint (pre_pe s) data.
End InitEstimator.

(** ** Predicates used in the statements *)

(** Opposite directions have opposite vectors: what makes [opposite d] the
    same edge seen from the other endpoint. *)
Definition opposite_vectors `{!PathConstants} : Prop :=
  forall d, 0 <= d < 8 ->
    int2_x (PE_DIRECTION_VECTORS (opposite d)) = - int2_x (PE_DIRECTION_VECTORS d)
    /\ int2_y (PE_DIRECTION_VECTORS (opposite d)) = - int2_y (PE_DIRECTION_VECTORS d).

(** The block [b] lies on the map. *)
Definition in_map `{!Grid} (b : int2) : Prop :=
  0 <= int2_x b < int2_x nbrOfBlocks /\ 0 <= int2_y b < int2_y nbrOfBlocks.

(** The vertex table has room for the four entries of every block, for
    the move defs up to [md]. *)
Definition vertex_table_sized {F : Type} `{!Grid} (pe : CPathEstimator F) (md : MoveDef) : Prop :=
  GetSize (blockStates pe) = int2_x nbrOfBlocks * int2_y nbrOfBlocks
  /\ 0 <= pathType md
  /\ (pathType md + 1) * GetSize (blockStates pe) * PATH_DIRECTION_VERTICES
     <= Z.of_nat (length (vertexCosts pe))
  /\ Z.of_nat (length (vertexCosts pe)) <= 2 ^ 32.

(** Two terrains answer the queries of [FindOffset] alike on the squares of
    block [(bx, bz)]. *)
Definition same_terrain_on_block {F : Type} `{!Grid} (T1 T2 : Collaborators F)
    (md : MoveDef) (bx bz : Z) : Prop :=
  forall x z, 0 <= x < BLOCK_SIZE -> 0 <= z < BLOCK_SIZE ->
    let X := wrap32 (wrap32 (bx * BLOCK_SIZE) + x) in
    let Z := wrap32 (wrap32 (bz * BLOCK_SIZE) + z) in
    @GetPosSpeedMod F T1 md X Z = @GetPosSpeedMod F T2 md X Z
    /\ @IsBlockedStructure F T1 md X Z = @IsBlockedStructure F T2 md X Z
    /\ @IsBlockedStructureXmax F T1 md X Z = @IsBlockedStructureXmax F T2 md X Z
    /\ @IsBlockedStructureZmax F T1 md X Z = @IsBlockedStructureZmax F T2 md X Z.

(** Loop invariant of [FindOffset]: the best position is inside the block. *)
Definition best_in_block {F : Type} `{!Grid} (st : OffsetScan F) : Prop :=
  0 <= bestPosX st < BLOCK_SIZE /\ 0 <= bestPosZ st < BLOCK_SIZE.

(** Loop invariant of [FindOffset] on a block without a free square:
    nothing has been scored. *)
Definition scan_untouched {F : Type} `{!Grid} (st : OffsetScan F) : Prop :=
  curblock st = true
  /\ bestPosX st = Z.shiftr BLOCK_SIZE 1 /\ bestPosZ st = Z.shiftr BLOCK_SIZE 1.

(** The OBSOLETE bit of block [b] is set. *)
Definition obsolete_bit {F : Type} `{!PathConstants} `{!Grid}
    (pe : CPathEstimator F) (b : int2) : Prop :=
  exists m, vget (nodeMask (blockStates pe)) (BlockPosToIdx b) = Some m
            /\ Z.land m PATHOPT_OBSOLETE <> 0.

(** The obsolete-queue invariant: the queue holds blocks of the map, each at
    most once, and a block of the map is in the queue iff its OBSOLETE bit
    is set. *)
Definition queue_invariant {F : Type} `{!PathConstants} `{!Grid}
    (pe : CPathEstimator F) : Prop :=
  NoDup (updatedBlocks pe)
  /\ (forall b, b ∈ updatedBlocks pe -> in_map b)
  /\ (forall b, in_map b -> (b ∈ updatedBlocks pe <-> obsolete_bit pe b)).

(** The tables have the sizes the constructor and [InitBlocks] give them,
    and every index fits the machine integers. *)
Definition tables_sized {F : Type} `{!Grid} `{!MoveDefHandler}
    (pe : CPathEstimator F) : Prop :=
  0 < int2_x nbrOfBlocks /\ 0 < int2_y nbrOfBlocks
  /\ int2_x nbrOfBlocks * int2_y nbrOfBlocks <= 2 ^ 31
  /\ GetNumMoveDefs * (int2_x nbrOfBlocks * int2_y nbrOfBlocks) * 4 <= 2 ^ 32
  /\ GetSize (blockStates pe) = int2_x nbrOfBlocks * int2_y nbrOfBlocks
  /\ Z.of_nat (length (peNodeOffsets (blockStates pe)))
     = int2_x nbrOfBlocks * int2_y nbrOfBlocks
  /\ Forall (fun row => Z.of_nat (length row) = GetNumMoveDefs)
       (peNodeOffsets (blockStates pe))
  /\ Z.of_nat (length (vertexCosts pe))
     = GetNumMoveDefs * (int2_x nbrOfBlocks * int2_y nbrOfBlocks) * 4.

(** [GetMoveDefByPathType(i)] has path type [i]. *)
Definition handler_wf `{!MoveDefHandler} : Prop :=
  forall (i : nat) md, moveDefs !! i = Some md -> pathType md = Z.of_nat i.

(** Some move class is in use. *)
Definition some_class_in_use `{!MoveDefHandler} : Prop :=
  exists md, md ∈ moveDefs /\ 0 < udRefCount md.

(** The move defs in use, in the order of the handler. *)
Definition moveDefs_in_use `{!MoveDefHandler} : list MoveDef :=
  filter (fun md => 0 < udRefCount md) moveDefs.

(** Path types grow along the list. *)
Definition ascending (mds : list MoveDef) : Prop :=
  StronglySorted (fun a b => pathType a < pathType b) mds.

(** [pe'] has the node masks and the obsolete queue of [pe]. *)
Definition same_masks_and_queue {F : Type} (pe pe' : CPathEstimator F) : Prop :=
  nodeMask (blockStates pe') = nodeMask (blockStates pe)
  /\ updatedBlocks pe' = updatedBlocks pe.

(** The states the estimator is in between calls of [MapChanged] and
    [Update], from [pe0] on. *)
Inductive between_calls {F : Type} `{!FloatOps F} `{!PathConstants} `{!Grid}
    `{!Collaborators F} `{!MoveDefHandler} (pe0 : CPathEstimator F)
    : CPathEstimator F -> Prop :=
| between_calls_start : between_calls pe0 pe0
| between_calls_MapChanged pe x1 z1 x2 z2 pe' :
    between_calls pe0 pe -> MapChanged pe x1 z1 x2 z2 = Some pe' ->
    between_calls pe0 pe'
| between_calls_Update pe pe' :
    between_calls pe0 pe -> Update pe = Some pe' -> between_calls pe0 pe'.

(** The per-block tables the search writes have one entry per block. *)
Definition search_sized {F : Type} `{!Grid} `{!MoveDefHandler}
    (pe : CPathEstimator F) : Prop :=
  tables_sized pe
  /\ Z.of_nat (length (fCost (blockStates pe))) = int2_x nbrOfBlocks * int2_y nbrOfBlocks
  /\ Z.of_nat (length (gCost (blockStates pe))) = int2_x nbrOfBlocks * int2_y nbrOfBlocks
  /\ Z.of_nat (length (peParentNodePos (blockStates pe)))
     = int2_x nbrOfBlocks * int2_y nbrOfBlocks.

(** An open-set entry for a block of the map, with the index of its
    position. *)
Definition node_wf {F : Type} `{!Grid} (ob : PathNode F) : Prop :=
  in_map (nodePos ob) /\ nodeNum ob = BlockPosToIdx (nodePos ob).

(** Nothing compares greater or equal to INFINITY but INFINITY. *)
Definition infinity_is_top {F : Type} `{!FloatOps F} : Prop :=
  forall v : F, fle PATHCOST_INFINITY v = true <-> v = PATHCOST_INFINITY.

(** The state flags do not overlap one another nor the direction field,
    which holds every direction index. *)
Definition flags_disjoint `{!PathConstants} : Prop :=
  Z.land PATHOPT_OPEN PATHOPT_CARDINALS = 0
  /\ Z.land PATHOPT_OPEN PATHOPT_CLOSED = 0
  /\ Z.land PATHOPT_OPEN PATHOPT_BLOCKED = 0
  /\ Z.land PATHOPT_CLOSED PATHOPT_BLOCKED = 0
  /\ Z.land PATHOPT_CLOSED PATHOPT_CARDINALS = 0
  /\ Z.land PATHOPT_BLOCKED PATHOPT_CARDINALS = 0
  /\ PATHOPT_OPEN <> 0 /\ PATHOPT_CLOSED <> 0 /\ PATHOPT_BLOCKED <> 0
  /\ forall d, 0 <= d < 8 -> Z.land d PATHOPT_CARDINALS = d.

(** The costs [TestBlock] computes for the child with representative square
    [sq], reached over an edge of cost [v]. *)
Definition TestBlock_gCost {F : Type} `{!FloatOps F} `{!CPathFinderDef F}
    (moveDef : MoveDef) (parentOpenBlock : PathNode F) (pathDir : Z) (synced : bool)
    (v : F) (sq : int2) : F :=
  fadd (node_gCost parentOpenBlock)
    (fadd (fadd v (GetFlowCost (int2_x sq) (int2_y sq) moveDef pathDir))
          (GetNodeExtraCost (int2_x sq) (int2_y sq) synced)).

Definition TestBlock_hCost {F : Type} `{!CPathFinderDef F} (sq : int2) : F :=
  Heuristic (int2_x sq) (int2_y sq).

Definition TestBlock_fCost {F : Type} `{!FloatOps F} `{!CPathFinderDef F}
    (moveDef : MoveDef) (parentOpenBlock : PathNode F) (pathDir : Z) (synced : bool)
    (v : F) (sq : int2) : F :=
  fadd (TestBlock_gCost moveDef parentOpenBlock pathDir synced v sq) (TestBlock_hCost sq).

(** [TestBlock] changed nothing but its call counter. *)
Definition only_counted {F : Type} (pe pe' : CPathEstimator F) : Prop :=
  pe' = set_testedBlocks (testedBlocks pe + 1) pe.

(** [TestBlock] marked block [blockIdx] BLOCKED and dirty, and changed
    nothing else but its call counter. *)
Definition marked_blocked {F : Type} `{!PathConstants}
    (pe pe' : CPathEstimator F) (blockIdx m : Z) : Prop :=
  exists nm,
    vset (nodeMask (blockStates pe)) blockIdx (Z.lor m PATHOPT_BLOCKED) = Some nm
    /\ pe' = set_dirtyBlocks (dirtyBlocks pe ++ [blockIdx])
               (set_blockStates (set_nodeMask nm (blockStates pe))
                  (set_testedBlocks (testedBlocks pe + 1) pe)).

(** [TestBlock] put the child [block] into the open set: [m0] is the mask
    the direction and the OPEN flag were added to. *)
Definition opened {F : Type} `{!FloatOps F} `{!PathConstants}
    (pe pe' : CPathEstimator F) (parentOpenBlock : PathNode F) (pathDir : Z)
    (block : int2) (blockIdx m0 : Z) (f g h : F) : Prop :=
  exists nm fs gs ps,
    vset (nodeMask (blockStates pe)) blockIdx (Z.lor m0 (Z.lor pathDir PATHOPT_OPEN)) = Some nm
    /\ vset (fCost (blockStates pe)) blockIdx f = Some fs
    /\ vset (gCost (blockStates pe)) blockIdx g = Some gs
    /\ vset (peParentNodePos (blockStates pe)) blockIdx (nodePos parentOpenBlock) = Some ps
    /\ pe' = mk_CPathEstimator
               (mk_blockStates nm fs gs ps (peNodeOffsets (blockStates pe))
                  (fmax_std (maxCostF (blockStates pe)) f)
                  (fmax_std (maxCostG (blockStates pe)) g))
               (vertexCosts pe) (updatedBlocks pe) (blockUpdatePenalty pe)
               (openBlocks pe ++ [mk_PathNode f g block blockIdx])
               (openBlockBuffer pe + 1)
               (dirtyBlocks pe ++ [blockIdx]) (maxBlocksToBeSearched pe)
               (testedBlocks pe + 1)
               (if flt h (mGoalHeuristic pe) then blockIdx else mGoalBlockIdx pe)
               (if flt h (mGoalHeuristic pe) then h else mGoalHeuristic pe).

(** What entering the open set means for the tables: the child is OPEN with
    the arrival direction in its direction field, it has the new costs and
    the parent's position, and it is the last entry of the open set and of
    the dirty list. *)
Definition enters_open_set {F : Type} `{!PathConstants}
    (pe pe' : CPathEstimator F) (parentOpenBlock : PathNode F) (pathDir : Z)
    (block : int2) (blockIdx : Z) (f g : F) : Prop :=
  (exists m', vget (nodeMask (blockStates pe')) blockIdx = Some m'
              /\ Z.land m' PATHOPT_OPEN <> 0
              /\ Z.land m' PATHOPT_CARDINALS = pathDir)
  /\ vget (fCost (blockStates pe')) blockIdx = Some f
  /\ vget (gCost (blockStates pe')) blockIdx = Some g
  /\ vget (peParentNodePos (blockStates pe')) blockIdx = Some (nodePos parentOpenBlock)
  /\ openBlocks pe' = openBlocks pe ++ [mk_PathNode f g block blockIdx]
  /\ dirtyBlocks pe' = dirtyBlocks pe ++ [blockIdx].

(** The state of a search in progress: tables sized, every open-set entry
    an entry for a block of the map, a buffer that has room for the eight
    entries one expansion may add. *)
Definition search_inv {F : Type} `{!PathConstants} `{!Grid} `{!MoveDefHandler}
    (pe : CPathEstimator F) : Prop :=
  search_sized pe
  /\ Forall node_wf (openBlocks pe)
  /\ 0 <= openBlockBuffer pe
  /\ maxBlocksToBeSearched pe + 8 <= MAX_SEARCHED_NODES_PE
  /\ MAX_SEARCHED_NODES_PE <= 2 ^ 32.

(** The measure that bounds the iterations left in [DoSearch]. *)
Definition DoSearch_measure {F : Type} (pe : CPathEstimator F) : nat :=
  (length (openBlocks pe)
   + 2 * Z.to_nat (maxBlocksToBeSearched pe + 8 - openBlockBuffer pe))%nat.

(** [pe'] has the shape of [pe]: the same table sizes, offsets and node
    budget. *)
Definition same_shape {F : Type} (pe pe' : CPathEstimator F) : Prop :=
  length (nodeMask (blockStates pe')) = length (nodeMask (blockStates pe))
  /\ length (fCost (blockStates pe')) = length (fCost (blockStates pe))
  /\ length (gCost (blockStates pe')) = length (gCost (blockStates pe))
  /\ length (peParentNodePos (blockStates pe')) = length (peParentNodePos (blockStates pe))
  /\ peNodeOffsets (blockStates pe') = peNodeOffsets (blockStates pe)
  /\ length (vertexCosts pe') = length (vertexCosts pe)
  /\ maxBlocksToBeSearched pe' = maxBlocksToBeSearched pe.

(** The node mask at index [j] is as before, or [j] is a block of the map
    whose new mask is not CLOSED and is BLOCKED only if the block's square
    is outside the constraints. *)
Definition mask_step {F : Type} `{!PathConstants} `{!Grid} `{!CPathFinderDef F}
    (pe pe' : CPathEstimator F) (md : MoveDef) : Prop :=
  forall j,
    vget (nodeMask (blockStates pe')) j = vget (nodeMask (blockStates pe)) j
    \/ exists m' sq,
         vget (nodeMask (blockStates pe')) j = Some m'
         /\ Z.land m' PATHOPT_CLOSED = 0
         /\ offset_at (blockStates pe) j (pathType md) = Some sq
         /\ (Z.land m' PATHOPT_BLOCKED <> 0 ->
             WithinConstraints (int2_x sq) (int2_y sq) = false).

(** An open-set entry whose block has its square within the constraints. *)
Definition node_within {F : Type} `{!CPathFinderDef F}
    (pe : CPathEstimator F) (md : MoveDef) (ob : PathNode F) : Prop :=
  exists sq, offset_at (blockStates pe) (nodeNum ob) (pathType md) = Some sq
             /\ WithinConstraints (int2_x sq) (int2_y sq) = true.

(** A CLOSED block is a block that failed the goal test. *)
Definition closed_not_goal {F : Type} `{!FloatOps F} `{!PathConstants} `{!Grid}
    `{!CPathFinderDef F} (pe : CPathEstimator F) (md : MoveDef) : Prop :=
  forall ob m, node_wf ob ->
    vget (nodeMask (blockStates pe)) (nodeNum ob) = Some m ->
    Z.land m PATHOPT_CLOSED <> 0 ->
    DoSearch_isGoal pe md ob = Some false.

(** A BLOCKED block is a block whose square is outside the constraints. *)
Definition blocked_outside {F : Type} `{!PathConstants} `{!CPathFinderDef F}
    (pe : CPathEstimator F) (md : MoveDef) : Prop :=
  forall j m,
    vget (nodeMask (blockStates pe)) j = Some m ->
    Z.land m PATHOPT_BLOCKED <> 0 ->
    exists sq, offset_at (blockStates pe) j (pathType md) = Some sq
               /\ WithinConstraints (int2_x sq) (int2_y sq) = false.

(** No block is BLOCKED or CLOSED: the masks as a reset leaves them. *)
Definition unvisited {F : Type} `{!PathConstants} (pe : CPathEstimator F) : Prop :=
  forall j m, vget (nodeMask (blockStates pe)) j = Some m ->
    Z.land m (Z.lor PATHOPT_BLOCKED PATHOPT_CLOSED) = 0.

(** The state of a search that began with clean masks and at most the start
    block in the open set: either it has not expanded a block yet, or the
    open set holds only blocks that [TestBlock] found within the
    constraints; CLOSED blocks failed the goal test and BLOCKED blocks are
    outside the constraints. *)
Definition search_from_seed {F : Type} `{!FloatOps F} `{!PathConstants} `{!Grid}
    `{!CPathFinderDef F} (pe : CPathEstimator F) (md : MoveDef) : Prop :=
  closed_not_goal pe md /\ blocked_outside pe md
  /\ (Forall (node_within pe md) (openBlocks pe)
      \/ ((length (openBlocks pe) <= 1)%nat /\ unvisited pe)).


(** The number of threads that have not yet called [wait]. *)
Fixpoint count_before (ws : list WorkerPC) : Z :=
  match ws with
  | [] => 0
  | p :: ws' => (if before_barrier p then 1 else 0) + count_before ws'
  end.

(** What holds of every state of the precomputation: the estimator keeps
    its size; before the barrier opens (generation 0) its count is the
    number of threads still to arrive and the others are blocked in it;
    after it has opened (generation 1) every thread is past phase 1 or
    still blocked; once a thread has left phase 1 the offset counter is
    negative; and every block has its offsets written, or is being worked
    on, or is still to be claimed. *)
Definition precompute_inv {F : Type} `{!FloatOps F} `{!PathConstants} `{!Grid}
    `{!Collaborators F} `{!MoveDefHandler} (s : Precompute F) : Prop :=
  let size := int2_x nbrOfBlocks * int2_y nbrOfBlocks in
  GetSize (blockStates (pre_pe s)) = size
  /\ offsetBlockNum s <= size
  /\ ((barrier_generation s = 0
       /\ barrier_count s = count_before (workers s)
       /\ Forall (fun p => before_barrier p = true \/ p = Blocked 0) (workers s))
      \/ (barrier_generation s = 1
          /\ Forall (fun p => p = Blocked 0 \/ after_barrier p = true) (workers s)))
  /\ ((exists p, p ∈ workers s /\ p <> ClaimOffset /\ (forall b, p <> InOffsets b)) ->
      offsetBlockNum s < 0)
  /\ (forall b, 0 <= b < size ->
        offsets_written (pre_pe s) b
        \/ InOffsets b ∈ workers s
        \/ size - 1 - b < offsetBlockNum s).

(** ** Predicates on the further functions *)

(** The block rectangle [MapChanged] visits for the square rectangle with
    corners [(x1, z1)] and [(x2, z2)]: the clamped bounds of its two loops. *)
Definition MapChanged_bounds `{!Grid} (a1 a2 n : Z) : Z * Z :=
  (Clamp (to_int32 (Z.min a1 a2 / BLOCK_SIZE)) 0 (to_int32 (n - 1)),
   Clamp (to_int32 (Z.max a1 a2 / BLOCK_SIZE)) 0 (to_int32 (n - 1))).

Definition in_changed_rect `{!Grid} (x1 z1 x2 z2 : Z) (b : int2) : Prop :=
  let '(lowerX, upperX) := MapChanged_bounds x1 x2 (int2_x nbrOfBlocks) in
  let '(lowerZ, upperZ) := MapChanged_bounds z1 z2 (int2_y nbrOfBlocks) in
  lowerX <= int2_x b <= upperX /\ lowerZ <= int2_y b <= upperZ.

(** [pe'] differs from [pe] in the node masks and the obsolete queue at
    most. *)
Definition only_masks_and_queue {F : Type} (pe pe' : CPathEstimator F) : Prop :=
  pe' = set_blockStates (set_nodeMask (nodeMask (blockStates pe')) (blockStates pe))
          (set_updatedBlocks (updatedBlocks pe') pe).

(** What a run of [MapChanged] visits may change between [pe] and [pe']:
    the queue grows by distinct blocks of the rectangle whose OBSOLETE bit
    was clear, a block of the map has the bit afterwards iff it had it or was
    appended, and the mask of a block that was not appended is as before. *)
Definition marked_between {F : Type} `{!PathConstants} `{!Grid}
    (x1 z1 x2 z2 : Z) (pe pe' : CPathEstimator F) : Prop :=
  only_masks_and_queue pe pe'
  /\ length (nodeMask (blockStates pe')) = length (nodeMask (blockStates pe))
  /\ exists new,
       updatedBlocks pe' = updatedBlocks pe ++ new
       /\ NoDup new
       /\ (forall b, b ∈ new ->
             in_map b /\ in_changed_rect x1 z1 x2 z2 b /\ ~ obsolete_bit pe b)
       /\ (forall b, in_map b -> (obsolete_bit pe' b <-> obsolete_bit pe b \/ b ∈ new))
       /\ (forall b, in_map b -> b ∉ new ->
             vget (nodeMask (blockStates pe')) (BlockPosToIdx b)
             = vget (nodeMask (blockStates pe)) (BlockPosToIdx b)).

(** The cost [CalculateVertex] stores for the edge from [parentBlock] in
    [direction], as a function of the offsets: INFINITY outside the map, at
    a blocked endpoint and after a failed fine search, the path cost
    otherwise. *)
Definition edge_cost {F : Type} `{!FloatOps F} `{!PathConstants} `{!Grid}
    `{!Collaborators F} (bs : PathNodeStateBuffer F) (moveDef : MoveDef)
    (parentBlock : int2) (direction threadNum : Z) : option F :=
  let childBlock := int2_add parentBlock (PE_DIRECTION_VECTORS direction) in
  if outside_map childBlock then Some PATHCOST_INFINITY
  else
    parentSquare ← offset_at bs (BlockPosToIdx parentBlock) (pathType moveDef);
    childSquare ← offset_at bs (BlockPosToIdx childBlock) (pathType moveDef);
    if negb (Z.land (IsBlocked moveDef parentSquare) BLOCK_STRUCTURE =? 0)
       || GoalIsBlocked moveDef parentSquare childSquare BLOCK_STRUCTURE
    then Some PATHCOST_INFINITY
    else
      let '(result, pathCost) :=
        GetPath threadNum moveDef parentSquare childSquare
          (Z.shiftr MAX_SEARCHED_NODES_PF 2) in
      Some (if decide (result = Ok) then pathCost else PATHCOST_INFINITY).

(** [pe'] differs from [pe] in the vertex costs at most. *)
Definition only_vertexCosts {F : Type} (pe pe' : CPathEstimator F) : Prop :=
  pe' = set_vertexCosts (vertexCosts pe') pe.

(** An entry of [consumedBlocks] for a block of the map and a move def of
    the handler. *)
Definition entry_wf `{!Grid} `{!MoveDefHandler} (sb : SingleBlock) : Prop :=
  in_map (sb_blockPos sb) /\ sb_moveDef sb ∈ moveDefs.

(** [pe'] differs from [pe] in the offsets at most. *)
Definition only_offsets {F : Type} (pe pe' : CPathEstimator F) : Prop :=
  pe' = set_blockStates (set_peNodeOffsets (peNodeOffsets (blockStates pe')) (blockStates pe)) pe.

(** [pe'] differs from [pe] in the node masks and the vertex costs at most. *)
Definition only_masks_and_vertexCosts {F : Type} (pe pe' : CPathEstimator F) : Prop :=
  pe' = set_vertexCosts (vertexCosts pe')
          (set_blockStates (set_nodeMask (nodeMask (blockStates pe')) (blockStates pe)) pe).

(** What [Update] leaves alone: the costs, parents and cost maxima of the
    blocks and every member of the search. *)
Definition Update_frame {F : Type} (pe pe' : CPathEstimator F) : Prop :=
  pe' = mk_CPathEstimator
          (mk_blockStates (nodeMask (blockStates pe')) (fCost (blockStates pe))
             (gCost (blockStates pe)) (peParentNodePos (blockStates pe))
             (peNodeOffsets (blockStates pe')) (maxCostF (blockStates pe))
             (maxCostG (blockStates pe)))
          (vertexCosts pe') (updatedBlocks pe') (blockUpdatePenalty pe')
          (openBlocks pe) (openBlockBuffer pe) (dirtyBlocks pe)
          (maxBlocksToBeSearched pe) (testedBlocks pe) (mGoalBlockIdx pe)
          (mGoalHeuristic pe).

(** A [float] whose four bytes read back as the same [float]. *)
Definition representable {F : Type} `{!FloatBits F} (c : F) : Prop :=
  0 <= f_bits c < 2 ^ 32 /\ f_of_bits (f_bits c) = c.

(** An [int2] whose fields are [int] values. *)
Definition int2_in_range (p : int2) : Prop :=
  - 2 ^ 31 <= int2_x p < 2 ^ 31 /\ - 2 ^ 31 <= int2_y p < 2 ^ 31.

(** One row of [GetNumMoveDefs()] offsets per block, as [InitBlocks]
    leaves them. *)
Definition rows_sized {F : Type} `{!MoveDefHandler} (pe : CPathEstimator F) : Prop :=
  Z.of_nat (length (peNodeOffsets (blockStates pe))) = GetSize (blockStates pe)
  /\ Forall (fun row => length row = length moveDefs) (peNodeOffsets (blockStates pe)).

(** The bytes of a row of offsets. *)
Definition offsets_bytes (row : list int2) : list Z := concat (int2_bytes <$> row).

(** The bytes of the vertex table. *)
Definition costs_bytes {F : Type} `{!FloatBits F} (vc : list F) : list Z :=
  concat ((fun c => le32 (f_bits c)) <$> vc).

(** The blocks [FinishSearch] walks from [blockIdx]: each one is not the
    start block, and the position stored as its parent is that of the next;
    after the last comes the start block. *)
Fixpoint parent_chain {F : Type} `{!Grid} (pe : CPathEstimator F)
    (mStartBlockIdx blockIdx : Z) (chain : list Z) : Prop :=
  match chain with
  | [] => blockIdx = mStartBlockIdx
  | b :: rest =>
    b = blockIdx /\ b <> mStartBlockIdx
    /\ exists parent,
         vget (peParentNodePos (blockStates pe)) b = Some parent
         /\ parent_chain pe mStartBlockIdx (BlockPosToIdx parent) rest
  end.

(** [wp] is the waypoint of block [b]: the position of its square, which
    [FinishSearch] can compute. *)
Definition block_waypoint {F : Type} `{!FloatOps F} `{!PathConstants} `{!HeightMap F}
    (pe : CPathEstimator F) (md : MoveDef) (b : Z) (wp : float3 F) : Prop :=
  exists sq, offset_at (blockStates pe) b (pathType md) = Some sq
             /\ waypoint md sq = Some wp.

(** The vertex costs of block [blockIdx] are the ones phase 2 computes from
    the offsets, for every move def in use: each of the four entries holds
    the cost of its edge, as the path finder of some thread found it. *)
Definition costs_written {F : Type} `{!FloatOps F} `{!PathConstants} `{!Grid}
    `{!Collaborators F} `{!MoveDefHandler} (pe : CPathEstimator F) (blockIdx : Z) : Prop :=
  forall md, md ∈ moveDefs -> 0 < udRefCount md ->
    forall d, 0 <= d < PATH_DIRECTION_VERTICES ->
      exists t c,
        edge_cost (blockStates pe) md (BlockIdxToPos blockIdx) d t = Some c
        /\ vget (vertexCosts pe) (vertexNbr pe md (BlockIdxToPos blockIdx) d) = Some c.

(** What holds besides [precompute_inv] of every state of the
    precomputation: the tables keep their sizes; a thread works on a block
    of the map; while a thread has yet to pass the barrier no block has been
    claimed for phase 2, and at least one thread has yet to arrive as long
    as the barrier is closed; once a thread has finished the cost counter
    is negative; and every block has its vertex costs written, or is being
    worked on, or is still to be claimed. *)
Definition precompute_progress_inv {F : Type} `{!FloatOps F} `{!PathConstants} `{!Grid}
    `{!Collaborators F} `{!MoveDefHandler} (s : Precompute F) : Prop :=
  let size := int2_x nbrOfBlocks * int2_y nbrOfBlocks in
  tables_sized (pre_pe s)
  /\ (forall b, InOffsets b ∈ workers s \/ InCosts b ∈ workers s -> 0 <= b < size)
  /\ costBlockNum s <= size
  /\ (barrier_generation s = 0 -> workers s <> [] -> 1 <= count_before (workers s))
  /\ ((exists p, p ∈ workers s /\ before_barrier p = true) -> costBlockNum s = size)
  /\ (Finished ∈ workers s -> costBlockNum s < 0)
  /\ (forall b, 0 <= b < size ->
        costs_written (pre_pe s) b
        \/ InCosts b ∈ workers s
        \/ size - 1 - b < costBlockNum s).

(** The rank of a position in [CalcOffsetsAndPathCosts], and the measure
    of a state: every action of a thread lowers it. *)
Definition WorkerPC_rank (p : WorkerPC) : nat :=
  match p with
  | InOffsets _ => 8 | ClaimOffset => 7 | AtBarrier => 6 | Blocked _ => 5
  | InCosts _ => 4 | ClaimCost => 3 | Finished => 0
  end.

Definition precompute_measure {F : Type} (s : Precompute F) : nat :=
  (sum_list (WorkerPC_rank <$> workers s)
   + 2 * (Z.to_nat (offsetBlockNum s) + Z.to_nat (costBlockNum s)))%nat.

(** The path finders of all threads find the same paths. *)
Definition GetPath_thread_independent {F : Type} `{!Collaborators F} : Prop :=
  forall t t' md a b n, GetPath t md a b n = GetPath t' md a b n.

(** What a search may change between [pe] and [pe']. The offsets, the
    vertex costs, the obsolete queue, the update penalty and the node budget
    are as before; [new] is what the dirty list gained; an entry of the open
    set was there before or is for a block of [new]; the costs and the
    parent of a block outside [new] are as before, and so is its mask unless
    the block is one of [seeds]. *)
Definition search_effect {F : Type} (pe pe' : CPathEstimator F) (seeds new : list Z) : Prop :=
  peNodeOffsets (blockStates pe') = peNodeOffsets (blockStates pe)
  /\ vertexCosts pe' = vertexCosts pe
  /\ updatedBlocks pe' = updatedBlocks pe
  /\ blockUpdatePenalty pe' = blockUpdatePenalty pe
  /\ maxBlocksToBeSearched pe' = maxBlocksToBeSearched pe
  /\ dirtyBlocks pe' = dirtyBlocks pe ++ new
  /\ (forall ob, ob ∈ openBlocks pe' -> ob ∈ openBlocks pe \/ nodeNum ob ∈ new)
  /\ (forall j, j ∉ new ->
        vget (fCost (blockStates pe')) j = vget (fCost (blockStates pe)) j
        /\ vget (gCost (blockStates pe')) j = vget (gCost (blockStates pe)) j
        /\ vget (peParentNodePos (blockStates pe')) j
           = vget (peParentNodePos (blockStates pe)) j)
  /\ (forall j, j ∉ new -> j ∉ seeds ->
        vget (nodeMask (blockStates pe')) j = vget (nodeMask (blockStates pe)) j).

(** The number of blocks a search expanded: the popped blocks that went on
    to the goal test, but for the one that passed it. *)
Definition expanded_blocks {F : Type} (visited : list (PathNode F * bool)) (found : bool) : Z :=
  Z.of_nat (length (filter (fun v => snd v = true) visited)) - (if found then 1 else 0).

(** In [float], no blocks to update take no blocks off the budget:
    [ceil(0.0f / numMoveDefs)] is 0. *)
Definition ceil_of_zero {F : Type} `{!FloatOps F} `{!MoveDefHandler} : Prop :=
  f_to_int (fceil (fdiv (f_of_Z 0) (f_of_Z GetNumMoveDefs))) = 0.

(** Block [j] is CLOSED. *)
Definition closed_block {F : Type} `{!PathConstants} (pe : CPathEstimator F) (j : Z) : Prop :=
  exists m, vget (nodeMask (blockStates pe)) j = Some m /\ Z.land m PATHOPT_CLOSED <> 0.

(** A block the search no longer opens: a CLOSED block, or the block [cur]
    that is being expanded. *)
Definition settled {F : Type} `{!PathConstants} (pe : CPathEstimator F)
    (cur : option Z) (j : Z) : Prop :=
  closed_block pe j \/ cur = Some j.

(** The parents lead from block [b] to the start block, through settled
    blocks from the parent of [b] on. *)
Definition rooted {F : Type} `{!PathConstants} `{!Grid} (pe : CPathEstimator F)
    (mStartBlockIdx : Z) (cur : option Z) (b : Z) : Prop :=
  exists chain,
    parent_chain pe mStartBlockIdx b chain /\ Forall (settled pe cur) (tail chain).

(** Every direction is a step to one of the eight neighbours. *)
Definition directions_move `{!PathConstants} : Prop :=
  forall d, 0 <= d < 8 ->
    - 1 <= int2_x (PE_DIRECTION_VECTORS d) <= 1
    /\ - 1 <= int2_y (PE_DIRECTION_VECTORS d) <= 1
    /\ PE_DIRECTION_VECTORS d <> mk_int2 0 0.

(** The squares of all blocks have waypoints: their world coordinates are
    [int] values. *)
Definition waypoints_defined {F : Type} `{!FloatOps F} `{!PathConstants} `{!HeightMap F}
    (pe : CPathEstimator F) (md : MoveDef) : Prop :=
  forall j sq, offset_at (blockStates pe) j (pathType md) = Some sq ->
    is_Some (waypoint md sq).

(** The offsets of block [b] are the ones [FindOffset] finds, for every
    move def in use. *)
Definition offsets_fresh {F : Type} `{!FloatOps F} `{!PathConstants} `{!Grid}
    `{!Collaborators F} `{!MoveDefHandler} (pe : CPathEstimator F) (b : int2) : Prop :=
  forall md, md ∈ moveDefs -> 0 < udRefCount md ->
    offset_at (blockStates pe) (BlockPosToIdx b) (pathType md)
    = Some (FindOffset md (int2_x b) (int2_y b)).

(** END predicates *)

(** ** Concrete instances, for evaluation *)

(** Exact rational arithmetic with a point at infinity. On the inputs used
    below every comparison is decided by a wide margin or is an exact tie,
    so binary floating point decides it the same way. *)
Inductive xfloat : Type := XFin (q : QArith_base.Q) | XInf.

Definition xf_lift2 (op : QArith_base.Q -> QArith_base.Q -> QArith_base.Q)
    (a b : xfloat) : xfloat :=
  match a, b with
  | XFin p, XFin q => XFin (Qreduction.Qred (op p q))
  | _, _ => XInf
  end.

Definition xf_div (a b : xfloat) : xfloat :=
  match a, b with
  | XFin p, XFin q => XFin (Qreduction.Qred (QArith_base.Qdiv p q))
  | XFin _, XInf => XFin (QArith_base.inject_Z 0)
  | XInf, _ => XInf
  end.

Definition xf_lt (a b : xfloat) : bool :=
  match a, b with
  | XFin p, XFin q => negb (QArith_base.Qle_bool q p)
  | XFin _, XInf => true
  | XInf, _ => false
  end.

Definition xf_le (a b : xfloat) : bool :=
  match a, b with
  | XFin p, XFin q => QArith_base.Qle_bool p q
  | _, XInf => true
  | XInf, XFin _ => false
  end.

Definition xf_eq (a b : xfloat) : bool :=
  match a, b with
  | XFin p, XFin q => QArith_base.Qeq_bool p q
  | XInf, XInf => true
  | _, _ => false
  end.

Definition xf_ceil (a : xfloat) : xfloat :=
  match a with
  | XFin p => XFin (QArith_base.inject_Z (Qround.Qceiling p))
  | XInf => XInf
  end.

Definition xf_to_int (a : xfloat) : Z :=
  match a with
  | XFin p => Z.quot (QArith_base.Qnum p) (Zpos (QArith_base.Qden p))
  | XInf => 0
  end.

Global Instance xfloat_ops : FloatOps xfloat := {|
  f_of_Z z := XFin (QArith_base.inject_Z z);
  f_eps := XFin (QArith_base.Qmake 1 1000);
  f_06 := XFin (QArith_base.Qmake 3 5);
  f_max := XFin (QArith_base.inject_Z 340282346638528859811704183484516925440);
  PATHCOST_INFINITY := XInf;
  fadd := xf_lift2 QArith_base.Qplus;
  fsub := xf_lift2 QArith_base.Qminus;
  fmul := xf_lift2 QArith_base.Qmult;
  fdiv := xf_div;
  flt := xf_lt;
  fle := xf_le;
  feq := xf_eq;
  fceil := xf_ceil;
  f_to_int := xf_to_int
|}.

(** The direction vectors of the engine: LEFT is +x, UP is +z. *)
Definition engine_direction_vectors (d : Z) : int2 :=
  match d with
  | 0 => mk_int2 1 0
  | 1 => mk_int2 1 1
  | 2 => mk_int2 0 1
  | 3 => mk_int2 (-1) 1
  | 4 => mk_int2 (-1) 0
  | 5 => mk_int2 (-1) (-1)
  | 6 => mk_int2 0 (-1)
  | _ => mk_int2 1 (-1)
  end.

(** A choice of the constants: squares of 8 units, 1000 squares per update,
    65536 search nodes, the four state flags above a four-bit direction
    field. *)
Definition engine_constants : PathConstants := {|
  SQUARE_SIZE := 8;
  SQUARES_TO_UPDATE := 1000;
  MAX_SEARCHED_NODES_PF := 65536;
  MAX_SEARCHED_NODES_PE := 65536;
  PATHOPT_OPEN := 16;
  PATHOPT_CLOSED := 32;
  PATHOPT_BLOCKED := 64;
  PATHOPT_OBSOLETE := 128;
  PATHOPT_CARDINALS := 15;
  PE_DIRECTION_VECTORS := engine_direction_vectors
|}.

(** A low-resolution estimator: blocks of 32 squares on a 4 x 4 block map. *)
Definition grid32 : Grid := {| BLOCK_SIZE := 32; nbrOfBlocks := mk_int2 4 4 |}.

(** A medium-resolution estimator: blocks of 8 squares on a 4 x 4 block map. *)
Definition grid8 : Grid := {| BLOCK_SIZE := 8; nbrOfBlocks := mk_int2 4 4 |}.

(** A move class in use, with path type 0. *)
Definition walker : MoveDef := mk_MoveDef 0 1.

(** A terrain without structures on which every square has speed modifier 1,
    except square [(3, 3)], which is impassable; the fine search always
    succeeds with cost 10. *)
Definition terrain_with_hole : Collaborators xfloat := {|
  GetPosSpeedMod _ X Z :=
    if (X =? 3) && (Z =? 3) then XFin (QArith_base.inject_Z 0)
    else XFin (QArith_base.inject_Z 1);
  IsBlockedStructure _ _ _ := false;
  IsBlockedStructureXmax _ _ _ := false;
  IsBlockedStructureZmax _ _ _ := false;
  IsBlocked _ _ := 0;
  BLOCK_STRUCTURE := 2;
  GoalIsBlocked _ _ _ _ := false;
  GetPath _ _ _ _ _ := (Ok, XFin (QArith_base.inject_Z 10));
  pfUpdateRate := XFin (QArith_base.Qmake 1 200)
|}.

(** The same terrain seen by another path finder and another update rate. *)
Definition terrain_with_hole' : Collaborators xfloat := {|
  GetPosSpeedMod := @GetPosSpeedMod _ terrain_with_hole;
  IsBlockedStructure _ _ _ := false;
  IsBlockedStructureXmax _ _ _ := false;
  IsBlockedStructureZmax _ _ _ := false;
  IsBlocked _ _ := 2;
  BLOCK_STRUCTURE := 2;
  GoalIsBlocked _ _ _ _ := true;
  GetPath _ _ _ _ _ := (Error, XInf);
  pfUpdateRate := XFin (QArith_base.inject_Z 1)
|}.

(** A terrain on which only square [(0, 0)] is passable. *)
Definition terrain_corner_only : Collaborators xfloat := {|
  GetPosSpeedMod _ X Z :=
    if (X =? 0) && (Z =? 0) then XFin (QArith_base.inject_Z 1)
    else XFin (QArith_base.inject_Z 0);
  IsBlockedStructure _ _ _ := false;
  IsBlockedStructureXmax _ _ _ := false;
  IsBlockedStructureZmax _ _ _ := false;
  IsBlocked _ _ := 0;
  BLOCK_STRUCTURE := 2;
  GoalIsBlocked _ _ _ _ := false;
  GetPath _ _ _ _ _ := (Ok, XFin (QArith_base.inject_Z 10));
  pfUpdateRate := XFin (QArith_base.Qmake 1 200)
|}.

(** A terrain on which no square is passable. *)
Definition terrain_blocked : Collaborators xfloat := {|
  GetPosSpeedMod _ _ _ := XFin (QArith_base.inject_Z 0);
  IsBlockedStructure _ _ _ := false;
  IsBlockedStructureXmax _ _ _ := false;
  IsBlockedStructureZmax _ _ _ := false;
  IsBlocked _ _ := 0;
  BLOCK_STRUCTURE := 2;
  GoalIsBlocked _ _ _ _ := false;
  GetPath _ _ _ _ _ := (Error, XInf);
  pfUpdateRate := XFin (QArith_base.Qmake 1 200)
|}.

(** An estimator right after construction on a 4 x 4 block map with one
    move class: masks clear, offsets at their default, every vertex cost
    INFINITY, empty queues. *)
Definition fresh_estimator : CPathEstimator xfloat :=
  mk_CPathEstimator
    (mk_blockStates (replicate 16 0) (replicate 16 XInf) (replicate 16 XInf)
       (replicate 16 (mk_int2 0 0)) (replicate 16 [mk_int2 0 0])
       (XFin (QArith_base.inject_Z 0)) (XFin (QArith_base.inject_Z 0)))
    (replicate 64 XInf) [] 0 [] 0 [] 1000 0 0 XInf.

(** A handler with the one move class [walker], and one whose only move
    class no unit uses. *)
Definition walkers : MoveDefHandler := {| moveDefs := [walker] |}.
Definition unused_only : MoveDefHandler := {| moveDefs := [mk_MoveDef 0 0] |}.

(** [fresh_estimator] after block [(0, 0)] was marked obsolete and queued. *)
Definition queued_estimator : CPathEstimator xfloat :=
  set_updatedBlocks [mk_int2 0 0]
    (set_blockStates
       (set_nodeMask (128 :: replicate 15 0) (blockStates fresh_estimator))
       fresh_estimator).

(** A goal definition without constraints whose goal is the square
    [(24, 24)], at the origin of block [(3, 3)]; no flow and no extra cost. *)
Definition goal_far_corner : CPathFinderDef xfloat := {|
  IsGoal x z := (x =? 24) && (z =? 24);
  Heuristic x z := XFin (QArith_base.inject_Z (Z.abs (24 - x) + Z.abs (24 - z)));
  WithinConstraints _ _ := true;
  GoalSquareOffset _ := mk_int2 0 0;
  GetFlowCost _ _ _ _ := XFin (QArith_base.inject_Z 0);
  GetNodeExtraCost _ _ _ := XFin (QArith_base.inject_Z 0)
|}.


(** The entry of the start block [(0, 0)]. *)
Definition start_node : PathNode xfloat :=
  mk_PathNode (XFin (QArith_base.inject_Z 48)) (XFin (QArith_base.inject_Z 0))
    (mk_int2 0 0) 0.

(** An estimator on the 4 x 4 block map with every edge of cost 10, the
    representative square of each block at the block's origin, and a search
    seeded with the start block. *)
Definition seeded_estimator : CPathEstimator xfloat :=
  mk_CPathEstimator
    (mk_blockStates (16 :: replicate 15 0) (replicate 16 XInf) (replicate 16 XInf)
       (replicate 16 (mk_int2 0 0))
       ((fun i => [mk_int2 (8 * (i mod 4)) (8 * (i / 4))]) <$> seqZ 0 16)
       (XFin (QArith_base.inject_Z 0)) (XFin (QArith_base.inject_Z 0)))
    (replicate 64 (XFin (QArith_base.inject_Z 10))) [] 0
    [start_node] 1 [0] 1000 0 0 (XFin (QArith_base.inject_Z 48)).

(** A block map of two blocks side by side, and an estimator right after
    construction on it with one move class. *)
Definition grid_pair : Grid := {| BLOCK_SIZE := 8; nbrOfBlocks := mk_int2 2 1 |}.

Definition pair_estimator : CPathEstimator xfloat :=
  mk_CPathEstimator
    (mk_blockStates (replicate 2 0) (replicate 2 XInf) (replicate 2 XInf)
       (replicate 2 (mk_int2 0 0)) (replicate 2 [mk_int2 0 0])
       (XFin (QArith_base.inject_Z 0)) (XFin (QArith_base.inject_Z 0)))
    (replicate 8 XInf) [] 0 [] 0 [] 1000 0 0 XInf.

(** The precomputation on [pair_estimator] with two threads, at the moment
    thread 1 is released from the barrier and thread 0 still waits for the
    new generation. *)
Definition pair_released : Precompute xfloat :=
  mk_Precompute
    (set_blockStates
       (set_peNodeOffsets [[mk_int2 3 3]; [mk_int2 11 3]] (blockStates pair_estimator))
       pair_estimator)
    (-2) 2 2 1 [Blocked 0; ClaimCost].

(** ** Concrete instances for the further functions *)

(** The bytes of a [float] as IEEE 754 binary32. [xfloat] has one point at
    infinity: every pattern with all exponent bits set reads as it. The
    encoding truncates and covers the normal range; the values used below
    are represented exactly. *)
Definition xf_of_bits (b : Z) : xfloat :=
  let e := Z.land (Z.shiftr b 23) 255 in
  let m := Z.land b (2 ^ 23 - 1) in
  if e =? 255 then XInf
  else
    let mag :=
      if e =? 0 then QArith_base.Qmake m (2 ^ 149)
      else QArith_base.Qmult (QArith_base.inject_Z (2 ^ 23 + m))
             (QArith_base.Qpower (QArith_base.inject_Z 2) (e - 150)) in
    XFin (Qreduction.Qred (if Z.testbit b 31 then QArith_base.Qopp mag else mag)).

Definition xf_bits (a : xfloat) : Z :=
  match a with
  | XInf => 255 * 2 ^ 23
  | XFin q =>
    let n := Z.abs (QArith_base.Qnum q) in
    let d := Zpos (QArith_base.Qden q) in
    if n =? 0 then 0
    else
      let e0 := Z.log2 n - Z.log2 d in
      let e := if n * 2 ^ Z.max 0 (- e0) <? d * 2 ^ Z.max 0 e0 then e0 - 1 else e0 in
      let m := n * 2 ^ Z.max 0 (23 - e) / (d * 2 ^ Z.max 0 (e - 23)) in
      (if QArith_base.Qnum q <? 0 then 2 ^ 31 else 0) + (e + 127) * 2 ^ 23 + (m - 2 ^ 23)
  end.

Global Instance xfloat_bits : FloatBits xfloat := {|
  f_bits := xf_bits;
  f_of_bits := xf_of_bits
|}.

(** Ground at height 0. *)
Definition flat_ground : HeightMap xfloat := {|
  yLevel _ _ _ := XFin (QArith_base.inject_Z 0)
|}.

(** [seeded_estimator] after a search for [goal_far_corner]. *)
Definition searched_estimator : CPathEstimator xfloat :=
  match @DoSearch xfloat _ engine_constants grid8 goal_far_corner
          (@DoSearch_fuel xfloat seeded_estimator) seeded_estimator walker true with
  | Some (_, pe', _) => pe'
  | None => seeded_estimator
  end.

(** A path that is still empty. *)
Definition empty_path : Path xfloat :=
  mk_Path [] (mk_float3 (XFin (QArith_base.inject_Z 0)) (XFin (QArith_base.inject_Z 0))
                (XFin (QArith_base.inject_Z 0)))
    (XFin (QArith_base.inject_Z 0)).

(** The precomputation on [pair_estimator] with two threads, when both
    have finished. *)
Definition pair_finished : Precompute xfloat :=
  mk_Precompute
    (set_vertexCosts
       [XFin (QArith_base.inject_Z 10); XInf; XInf; XInf;
        XInf; XInf; XInf; XInf]
       (set_blockStates
          (set_peNodeOffsets [[mk_int2 3 3]; [mk_int2 11 3]] (blockStates pair_estimator))
          pair_estimator))
    (-2) (-2) 2 1 [Finished; Finished].

(** The point of the ground above square-corner [(x, z)], in world
    coordinates. *)
Definition ground_point (x z : Z) : float3 xfloat :=
  mk_float3 (XFin (QArith_base.inject_Z x)) (XFin (QArith_base.inject_Z 0))
    (XFin (QArith_base.inject_Z z)).

(** * Part II: properties *)

(** ** Machine integers and vectors *)

Lemma wrap32_small z : 0 <= z < 2 ^ 32 -> wrap32 z = z.
Proof. intros Hz. unfold wrap32. now apply Z.mod_small. Qed.

Lemma wrap32_range z : 0 <= wrap32 z < 2 ^ 32.
Proof. unfold wrap32. apply Z.mod_pos_bound. lia. Qed.

Lemma to_int32_small z : - 2 ^ 31 <= z < 2 ^ 31 -> to_int32 z = z.
Proof. intros Hz. unfold to_int32. rewrite Z.mod_small; lia. Qed.

Lemma to_int32_range z : - 2 ^ 31 <= to_int32 z < 2 ^ 31.
Proof.
  unfold to_int32.
  pose proof (Z.mod_pos_bound (z + 2 ^ 31) (2 ^ 32)). lia.
Qed.

Lemma wrap32_to_int32 z : wrap32 (to_int32 z) = wrap32 z.
Proof.
  unfold wrap32, to_int32.
  rewrite Zminus_mod, Zmod_mod, <- Zminus_mod. f_equal. lia.
Qed.

Lemma vget_is_Some {A} (v : list A) i :
  0 <= i < Z.of_nat (length v) -> is_Some (vget v i).
Proof.
  intros Hi. unfold vget. rewrite decide_True by lia.
  apply lookup_lt_is_Some. lia.
Qed.

Lemma vget_Some_lt {A} (v : list A) i a :
  vget v i = Some a -> 0 <= i < Z.of_nat (length v).
Proof.
  unfold vget. case_decide; [|discriminate].
  intros Hl. apply lookup_lt_Some in Hl. lia.
Qed.

Lemma vset_Some {A} (v : list A) i a :
  0 <= i < Z.of_nat (length v) -> vset v i a = Some (<[Z.to_nat i := a]> v).
Proof. intros Hi. unfold vset. now rewrite decide_True. Qed.

Lemma vset_Some_lt {A} (v v' : list A) i a :
  vset v i a = Some v' -> 0 <= i < Z.of_nat (length v).
Proof. unfold vset. case_decide; [done|discriminate]. Qed.

Lemma vset_length {A} (v v' : list A) i a :
  vset v i a = Some v' -> length v' = length v.
Proof.
  unfold vset. case_decide; [|discriminate].
  intros [= <-]. apply length_insert.
Qed.

Lemma vget_vset_eq {A} (v v' : list A) i a :
  vset v i a = Some v' -> vget v' i = Some a.
Proof.
  unfold vset, vget. case_decide; [|discriminate].
  intros [= <-]. rewrite decide_True by lia.
  apply list_lookup_insert_eq. lia.
Qed.

Lemma vget_vset_ne {A} (v v' : list A) i j a :
  vset v i a = Some v' -> i <> j -> vget v' j = vget v j.
Proof.
  unfold vset, vget. case_decide; [|discriminate].
  intros [= <-] Hne. case_decide; [|done].
  apply list_lookup_insert_ne. lia.
Qed.

(** ** The update budget *)

Section BudgetFacts.
Context `{!PathConstants} `{!Grid}.

Lemma Clamp_bounds v lo hi : lo <= hi -> lo <= Clamp v lo hi <= hi.
Proof. unfold Clamp. lia. Qed.

Lemma MIN_le_MAX_BLOCKS_TO_UPDATE : MIN_BLOCKS_TO_UPDATE <= MAX_BLOCKS_TO_UPDATE.
Proof. unfold MAX_BLOCKS_TO_UPDATE. lia. Qed.

Lemma MIN_BLOCKS_TO_UPDATE_ge_4 : 4 <= MIN_BLOCKS_TO_UPDATE.
Proof. unfold MIN_BLOCKS_TO_UPDATE. lia. Qed.

(** Without overflow the two bounds are the halves and doubles the
    source writes with shifts. *)
Lemma MIN_BLOCKS_TO_UPDATE_eq :
  BLOCKS_TO_UPDATE < 2 ^ 30 ->
  MIN_BLOCKS_TO_UPDATE = Z.max (BLOCKS_TO_UPDATE / 2) 4.
Proof.
  intros Hb. unfold MIN_BLOCKS_TO_UPDATE.
  pose proof (wrap32_range
    (SQUARES_TO_UPDATE / wrap32 (BLOCK_SIZE * BLOCK_SIZE) + 1)) as Hr.
  fold BLOCKS_TO_UPDATE in Hr.
  rewrite Z.shiftr_div_pow2 by lia. change (2 ^ 1) with 2.
  rewrite to_int32_small; [done|].
  pose proof (Z.div_pos BLOCKS_TO_UPDATE 2).
  pose proof (Z.div_le_upper_bound BLOCKS_TO_UPDATE 2 (2 ^ 30)). lia.
Qed.

Lemma MAX_BLOCKS_TO_UPDATE_eq :
  BLOCKS_TO_UPDATE < 2 ^ 30 ->
  MAX_BLOCKS_TO_UPDATE = Z.max (BLOCKS_TO_UPDATE * 2) (Z.max (BLOCKS_TO_UPDATE / 2) 4).
Proof.
  intros Hb. unfold MAX_BLOCKS_TO_UPDATE.
  rewrite MIN_BLOCKS_TO_UPDATE_eq by done.
  pose proof (wrap32_range
    (SQUARES_TO_UPDATE / wrap32 (BLOCK_SIZE * BLOCK_SIZE) + 1)) as Hr.
  fold BLOCKS_TO_UPDATE in Hr.
  rewrite Z.shiftl_mul_pow2 by lia. change (2 ^ 1) with 2.
  rewrite wrap32_small by lia. rewrite to_int32_small by lia. done.
Qed.
End BudgetFacts.

Section BudgetClamp.
Context `{!PathConstants} `{!Grid}.

Lemma BLOCKS_TO_UPDATE_eq :
  0 < BLOCK_SIZE -> BLOCK_SIZE * BLOCK_SIZE < 2 ^ 32 ->
  0 <= SQUARES_TO_UPDATE < 2 ^ 30 - 1 ->
  BLOCKS_TO_UPDATE = SQUARES_TO_UPDATE / (BLOCK_SIZE * BLOCK_SIZE) + 1
  /\ 1 <= BLOCKS_TO_UPDATE < 2 ^ 30.
Proof.
  intros Hpos Hsq Hs. unfold BLOCKS_TO_UPDATE.
  rewrite (wrap32_small (BLOCK_SIZE * BLOCK_SIZE)) by nia.
  assert (0 <= SQUARES_TO_UPDATE / (BLOCK_SIZE * BLOCK_SIZE) <= SQUARES_TO_UPDATE) as Hq.
  { split; [apply Z.div_pos; nia|].
    apply Z.div_le_upper_bound; nia. }
  rewrite wrap32_small by lia. lia.
Qed.

(** C8, amended. The pre-penalty budget is the progressive estimate
    clamped to [[lo, max (2 * BLOCKS_TO_UPDATE) lo]] with
    [lo = max (BLOCKS_TO_UPDATE / 2) 4], where
    [BLOCKS_TO_UPDATE = SQUARES_TO_UPDATE / BLOCK_SIZE^2 + 1]; the upper
    bound is [2 * BLOCKS_TO_UPDATE] as soon as [BLOCKS_TO_UPDATE >= 2]. *)
Theorem blocksToUpdate_clamped_interval (progressive : Z) :
  0 < BLOCK_SIZE -> BLOCK_SIZE * BLOCK_SIZE < 2 ^ 32 ->
  0 <= SQUARES_TO_UPDATE < 2 ^ 30 - 1 ->
  let lo := Z.max (BLOCKS_TO_UPDATE / 2) 4 in
  let hi := Z.max (BLOCKS_TO_UPDATE * 2) lo in
  BLOCKS_TO_UPDATE = SQUARES_TO_UPDATE / (BLOCK_SIZE * BLOCK_SIZE) + 1
  /\ blocksToUpdate_clamped progressive = Z.min hi (Z.max lo progressive)
  /\ lo <= blocksToUpdate_clamped progressive <= hi
  /\ (2 <= BLOCKS_TO_UPDATE -> hi = BLOCKS_TO_UPDATE * 2).
Proof.
  intros Hpos Hsq Hs lo hi.
  destruct (BLOCKS_TO_UPDATE_eq Hpos Hsq Hs) as [Heq Hrange].
  assert (blocksToUpdate_clamped progressive = Z.min hi (Z.max lo progressive)) as Hc.
  { unfold blocksToUpdate_clamped, Clamp.
    rewrite MAX_BLOCKS_TO_UPDATE_eq, MIN_BLOCKS_TO_UPDATE_eq by lia. done. }
  split; [done|]. split; [done|]. split.
  - rewrite Hc. subst hi. lia.
  - intros H2. subst hi lo.
    pose proof (Z.div_le_upper_bound BLOCKS_TO_UPDATE 2 BLOCKS_TO_UPDATE). lia.
Qed.
End BudgetClamp.

Lemma blocksToUpdate_clamped_interval_witness :
  @blocksToUpdate_clamped engine_constants grid8 100 = 32.
Proof.
  destruct (@blocksToUpdate_clamped_interval engine_constants grid8 100)
    as (_ & Hc & _); [reflexivity|reflexivity|done|].
  rewrite Hc. reflexivity.
Defined.

(** C8 as stated fails for a low-resolution estimator: with 1000 squares per
    update and blocks of 32 squares, [BLOCKS_TO_UPDATE] is 1, the claimed
    interval [[4, 2]] is empty, and the budget is 4. *)
Lemma blocksToUpdate_clamped_above_double :
  @BLOCKS_TO_UPDATE engine_constants grid32 = 1
  /\ @blocksToUpdate_clamped engine_constants grid32 0 = 4
  /\ ~ (Z.max (@BLOCKS_TO_UPDATE engine_constants grid32 / 2) 4
        <= @blocksToUpdate_clamped engine_constants grid32 0
        <= @BLOCKS_TO_UPDATE engine_constants grid32 * 2).
Proof. vm_compute. split; [done|]. split; [done|]. intros [_ Hle]. now apply Hle. Qed.

(** ** The vertex table: CalculateVertex and the read of TestBlock *)

Section VertexTable.
Context {F : Type} `{!FloatOps F} `{!PathConstants} `{!Grid} `{!Collaborators F}.
Implicit Types (pe : CPathEstimator F).

Lemma GetBlockVertexOffset_stored d nx :
  d < PATH_DIRECTION_VERTICES -> GetBlockVertexOffset d nx = d.
Proof.
  intros Hd. unfold GetBlockVertexOffset.
  destruct (Z.ltb_spec d PATH_DIRECTION_VERTICES); [done|lia].
Qed.

Lemma store_vertex_blockStates pe idx c pe' :
  store_vertex pe idx c = Some pe' -> blockStates pe' = blockStates pe.
Proof.
  unfold store_vertex. destruct (vset _ _ _); simpl; [|discriminate].
  now intros [= <-].
Qed.

Lemma store_vertex_read pe idx c pe' :
  store_vertex pe idx c = Some pe' ->
  vget (vertexCosts pe') idx = Some c
  /\ forall j, j <> idx -> vget (vertexCosts pe') j = vget (vertexCosts pe) j.
Proof.
  unfold store_vertex. destruct (vset _ _ _) as [vc|] eqn:Hvc; simpl; [|discriminate].
  intros [= <-]. simpl. split.
  - eapply vget_vset_eq, Hvc.
  - intros j Hj. eapply vget_vset_ne; eauto.
Qed.

Lemma store_vertex_Some pe idx c :
  0 <= idx < Z.of_nat (length (vertexCosts pe)) -> is_Some (store_vertex pe idx c).
Proof. intros Hi. unfold store_vertex. rewrite vset_Some by done. now eexists. Qed.

(** The index [TestBlock] reads is the same from both endpoints of an
    edge. *)
Lemma vertexIdx_symmetric pe md a d :
  opposite_vectors -> 0 <= d < 8 ->
  vertexIdx pe md (BlockPosToIdx a) d
  = vertexIdx pe md (BlockPosToIdx (int2_add a (PE_DIRECTION_VECTORS d))) (opposite d).
Proof.
  intros Hopp Hd.
  assert (d = 0 \/ d = 1 \/ d = 2 \/ d = 3 \/ d = 4 \/ d = 5 \/ d = 6 \/ d = 7)
    as Hcases by lia.
  unfold vertexIdx, BlockPosToIdx, int2_add, GetBlockVertexOffset,
    PATH_DIRECTION_VERTICES. simpl.
  generalize (pathType md * GetSize (blockStates pe) * 4). intros base.
  destruct a as [ax ay]. simpl.
  destruct Hcases as [-> | [-> | [-> | [-> | [-> | [-> | [-> | ->]]]]]]];
    change (opposite 0) with 4; change (opposite 1) with 5;
    change (opposite 2) with 6; change (opposite 3) with 7;
    change (opposite 4) with 0; change (opposite 5) with 1;
    change (opposite 6) with 2; change (opposite 7) with 3; simpl.
  1: destruct (Hopp 0) as [Hx Hy]; [lia|]; change (opposite 0) with 4 in Hx, Hy.
  2: destruct (Hopp 1) as [Hx Hy]; [lia|]; change (opposite 1) with 5 in Hx, Hy.
  3: destruct (Hopp 2) as [Hx Hy]; [lia|]; change (opposite 2) with 6 in Hx, Hy.
  4: destruct (Hopp 3) as [Hx Hy]; [lia|]; change (opposite 3) with 7 in Hx, Hy.
  5: destruct (Hopp 4) as [Hx Hy]; [lia|]; change (opposite 4) with 0 in Hx, Hy.
  6: destruct (Hopp 5) as [Hx Hy]; [lia|]; change (opposite 5) with 1 in Hx, Hy.
  7: destruct (Hopp 6) as [Hx Hy]; [lia|]; change (opposite 6) with 2 in Hx, Hy.
  8: destruct (Hopp 7) as [Hx Hy]; [lia|]; change (opposite 7) with 3 in Hx, Hy.
  all: try rewrite Hx, Hy.
  all: unfold wrap32, to_int32; Z.mod_equality.
Qed.
End VertexTable.

Section VertexCosts.
Context {F : Type} `{!FloatOps F} `{!PathConstants} `{!Grid} `{!Collaborators F}.
Implicit Types (pe : CPathEstimator F).

(** Whatever branch it takes, [CalculateVertex] writes one entry, at
    [vertexNbr]. *)
Lemma CalculateVertex_stores pe md p d t pe' :
  CalculateVertex pe md p d t = Some pe' ->
  exists c, store_vertex pe (vertexNbr pe md p d) c = Some pe'.
Proof.
  unfold CalculateVertex.
  destruct (outside_map _); [eauto|].
  destruct (offset_at _ (BlockPosToIdx p) _) as [ps|]; simpl; [|discriminate].
  destruct (offset_at _ _ _) as [cs|]; simpl; [|discriminate].
  destruct (_ || _); [eauto|].
  destruct (GetPath _ _ _ _ _) as [r c].
  destruct (decide (r = Ok)); eauto.
Qed.

Lemma CalculateVertex_blockStates pe md p d t pe' :
  CalculateVertex pe md p d t = Some pe' -> blockStates pe' = blockStates pe.
Proof.
  intros Hc. apply CalculateVertex_stores in Hc as [c Hc].
  eapply store_vertex_blockStates, Hc.
Qed.

Lemma vertexIdx_blockStates pe pe' md n d :
  blockStates pe' = blockStates pe -> vertexIdx pe' md n d = vertexIdx pe md n d.
Proof. intros Hbs. unfold vertexIdx. now rewrite Hbs. Qed.

Lemma vertexIdx_stored pe md p d :
  d < PATH_DIRECTION_VERTICES -> vertexIdx pe md (BlockPosToIdx p) d = vertexNbr pe md p d.
Proof.
  intros Hd. unfold vertexIdx, vertexNbr.
  now rewrite GetBlockVertexOffset_stored.
Qed.

Lemma BlockPosToIdx_in_map (a : int2) :
  in_map a -> int2_x nbrOfBlocks * int2_y nbrOfBlocks <= 2 ^ 32 ->
  BlockPosToIdx a = int2_y a * int2_x nbrOfBlocks + int2_x a
  /\ 0 <= BlockPosToIdx a < int2_x nbrOfBlocks * int2_y nbrOfBlocks.
Proof.
  intros [Hx Hy] Hsz. unfold BlockPosToIdx.
  rewrite wrap32_small by nia. nia.
Qed.

Lemma vertexIdx_stored_range pe md a d :
  vertex_table_sized pe md -> in_map a -> 0 <= d < PATH_DIRECTION_VERTICES ->
  0 <= vertexIdx pe md (BlockPosToIdx a) d < Z.of_nat (length (vertexCosts pe)).
Proof.
  intros (Hsz & Hpt & Hlen & Hmax) Ha Hd.
  rewrite vertexIdx_stored by lia. unfold vertexNbr.
  unfold PATH_DIRECTION_VERTICES in *.
  assert (int2_x nbrOfBlocks * int2_y nbrOfBlocks <= 2 ^ 32) as Hs.
  { rewrite <- Hsz. destruct Ha. nia. }
  destruct (BlockPosToIdx_in_map a Ha Hs) as [_ Hr]. rewrite <- Hsz in Hr.
  rewrite wrap32_small by nia. nia.
Qed.

(** C1. For every move class, in-map block [a] and direction [d] whose
    neighbour [b = a + Delta(d)] is on the map, the cost the search reads
    for [(a, d)] is the cost it reads for [(b, opposite d)]; and the entry
    [CalculateVertex] writes for a stored direction of [a] is the one
    read back from both endpoints of the edge. *)
Theorem vertex_cost_symmetry pe (md : MoveDef) (a : int2) (d : Z) :
  opposite_vectors -> vertex_table_sized pe md -> 0 <= d < 8 ->
  in_map a -> in_map (int2_add a (PE_DIRECTION_VECTORS d)) ->
  let b := int2_add a (PE_DIRECTION_VECTORS d) in
  (exists c, vertex_cost pe md a d = Some c /\ vertex_cost pe md b (opposite d) = Some c)
  /\ (forall t pe', d < PATH_DIRECTION_VERTICES ->
        CalculateVertex pe md a d t = Some pe' ->
        exists c, store_vertex pe (vertexNbr pe md a d) c = Some pe'
                  /\ vertex_cost pe' md a d = Some c
                  /\ vertex_cost pe' md b (opposite d) = Some c).
Proof.
  intros Hopp Hsized Hd Ha Hb b. split.
  - assert (is_Some (vertex_cost pe md a d)) as [c Hc].
    { unfold vertex_cost.
      destruct (Z.lt_ge_cases d PATH_DIRECTION_VERTICES) as [Hlt|Hge].
      - apply vget_is_Some, vertexIdx_stored_range; [done|done|lia].
      - rewrite (vertexIdx_symmetric pe md a d Hopp Hd).
        apply vget_is_Some, vertexIdx_stored_range; [done|done|].
        unfold opposite, PATH_DIRECTION_VERTICES in *.
        pose proof (Z.mod_pos_bound (d + 4) 8).
        assert (d + 4 = 8 * 1 + (d - 4)) as Heq by lia.
        rewrite Heq, Z.add_comm, Z.mul_comm, Z_mod_plus_full, Z.mod_small; lia. }
    exists c. split; [done|].
    rewrite <- Hc. unfold vertex_cost.
    now rewrite (vertexIdx_symmetric pe md a d Hopp Hd).
  - intros t pe' Hst Hcalc.
    pose proof (CalculateVertex_blockStates _ _ _ _ _ _ Hcalc) as Hbs.
    apply CalculateVertex_stores in Hcalc as [c Hc].
    exists c. split; [done|].
    apply store_vertex_read in Hc as [Hread _].
    unfold vertex_cost.
    rewrite <- (vertexIdx_symmetric pe' md a d Hopp Hd).
    rewrite (vertexIdx_blockStates pe pe') by done.
    rewrite vertexIdx_stored by done. done.
Qed.

(** C6. [CalculateVertex] stores INFINITY when the child block is outside
    the map, when the start square or the goal square is blocked by a
    structure, and when the fine search does not return [Ok]; it stores
    the cost of the path found when the search returns [Ok]. *)
Theorem CalculateVertex_stored_cost pe (md : MoveDef) (parentBlock : int2) (d t : Z) :
  let childBlock := int2_add parentBlock (PE_DIRECTION_VECTORS d) in
  let vnbr := vertexNbr pe md parentBlock d in
  0 <= vnbr < Z.of_nat (length (vertexCosts pe)) ->
  (outside_map childBlock = false ->
     is_Some (offset_at (blockStates pe) (BlockPosToIdx parentBlock) (pathType md))
     /\ is_Some (offset_at (blockStates pe) (BlockPosToIdx childBlock) (pathType md))) ->
  exists pe' stored,
    CalculateVertex pe md parentBlock d t = Some pe'
    /\ vget (vertexCosts pe') vnbr = Some stored
    /\ (outside_map childBlock = true -> stored = PATHCOST_INFINITY)
    /\ (forall ps cs,
          outside_map childBlock = false ->
          offset_at (blockStates pe) (BlockPosToIdx parentBlock) (pathType md) = Some ps ->
          offset_at (blockStates pe) (BlockPosToIdx childBlock) (pathType md) = Some cs ->
          (Z.land (IsBlocked md ps) BLOCK_STRUCTURE <> 0
           \/ GoalIsBlocked md ps cs BLOCK_STRUCTURE = true ->
           stored = PATHCOST_INFINITY)
          /\ (Z.land (IsBlocked md ps) BLOCK_STRUCTURE = 0 ->
              GoalIsBlocked md ps cs BLOCK_STRUCTURE = false ->
              forall r c,
                GetPath t md ps cs (Z.shiftr MAX_SEARCHED_NODES_PF 2) = (r, c) ->
                (r <> Ok -> stored = PATHCOST_INFINITY) /\ (r = Ok -> stored = c))).
Proof.
  intros childBlock vnbr Hrange Hoffs.
  unfold CalculateVertex. fold childBlock. fold vnbr.
  destruct (outside_map childBlock) eqn:Hout.
  - destruct (store_vertex_Some pe vnbr PATHCOST_INFINITY Hrange) as [pe' Hs].
    exists pe', PATHCOST_INFINITY. rewrite Hs.
    apply store_vertex_read in Hs as [Hr _].
    repeat split; try done.
  - destruct (Hoffs eq_refl) as [[ps Hps] [cs Hcs]].
    rewrite Hps, Hcs. simpl.
    destruct (Z.eqb_spec (Z.land (IsBlocked md ps) BLOCK_STRUCTURE) 0) as [Hz|Hnz];
      simpl.
    + destruct (GoalIsBlocked md ps cs BLOCK_STRUCTURE) eqn:Hg.
      * destruct (store_vertex_Some pe vnbr PATHCOST_INFINITY Hrange) as [pe' Hs].
        exists pe', PATHCOST_INFINITY. rewrite Hs.
        apply store_vertex_read in Hs as [Hr _].
        split; [done|]. split; [done|]. split; [done|].
        intros ps' cs' _ [= <-] [= <-]. split; [done|].
        intros _ Hg'. congruence.
      * destruct (GetPath t md ps cs (Z.shiftr MAX_SEARCHED_NODES_PF 2)) as [r c] eqn:Hp.
        destruct (decide (r = Ok)) as [->|Hr].
        -- destruct (store_vertex_Some pe vnbr c Hrange) as [pe' Hs].
           exists pe', c. rewrite Hs.
           apply store_vertex_read in Hs as [Hrd _].
           split; [done|]. split; [done|]. split; [done|].
           intros ps' cs' _ [= <-] [= <-]. split.
           ++ intros [Hb|Hb]; [done|congruence].
           ++ intros _ _ r' c'. rewrite Hp. intros [= <- <-]. done.
        -- destruct (store_vertex_Some pe vnbr PATHCOST_INFINITY Hrange) as [pe' Hs].
           exists pe', PATHCOST_INFINITY. rewrite Hs.
           apply store_vertex_read in Hs as [Hrd _].
           split; [done|]. split; [done|]. split; [done|].
           intros ps' cs' _ [= <-] [= <-]. split; [done|].
           intros _ _ r' c'. rewrite Hp. intros [= <- <-]. done.
    + destruct (store_vertex_Some pe vnbr PATHCOST_INFINITY Hrange) as [pe' Hs].
      exists pe', PATHCOST_INFINITY. rewrite Hs.
      apply store_vertex_read in Hs as [Hr _].
      split; [done|]. split; [done|]. split; [done|].
      intros ps' cs' _ [= <-] [= <-]. split; [done|].
      intros Hz. done.
Qed.
End VertexCosts.

(** ** FindOffset *)

Lemma foldl_invariant {A B : Type} (P : A -> Prop) (Q : B -> Prop) (f : A -> B -> A) :
  (forall a b, P a -> Q b -> P (f a b)) ->
  forall l a, Forall Q l -> P a -> P (foldl f a l).
Proof.
  intros Hstep l. induction l as [|b l IH]; intros a Hl Ha; simpl; [done|].
  inversion Hl; subst. apply IH; auto.
Qed.

Lemma foldl_ext_Forall {A B : Type} (Q : B -> Prop) (f g : A -> B -> A) :
  (forall a b, Q b -> f a b = g a b) ->
  forall l a, Forall Q l -> foldl f a l = foldl g a l.
Proof.
  intros Hfg l. induction l as [|b l IH]; intros a Hl; simpl; [done|].
  inversion Hl; subst. rewrite Hfg by done. now apply IH.
Qed.

Lemma Forall_seqZ_range (n : Z) : Forall (fun x => 0 <= x < n) (seqZ 0 n).
Proof. apply list.Forall_forall. intros x Hx. apply elem_of_seqZ in Hx. lia. Qed.

Section FindOffsetFacts.
Context {F : Type} `{!FloatOps F} `{!PathConstants} `{!Grid} `{!Collaborators F}.

Lemma FindOffset_x_in_block md lx lz area z st x :
  0 <= x < BLOCK_SIZE -> 0 <= z < BLOCK_SIZE ->
  best_in_block st -> best_in_block (FindOffset_x md lx lz area z st x).
Proof.
  intros Hx Hz Hst. unfold FindOffset_x, best_in_block in *.
  destruct (curblock st); simpl; [done|].
  destruct (flt _ _); simpl; [lia|done].
Qed.

Lemma FindOffset_z_in_block md lx lz area st z :
  0 <= z < BLOCK_SIZE ->
  best_in_block st -> best_in_block (FindOffset_z md lx lz area st z).
Proof.
  intros Hz Hst. unfold FindOffset_z.
  assert (best_in_block
            (foldl (FindOffset_x md lx lz area z) st (seqZ 0 BLOCK_SIZE))) as Hin.
  { apply (foldl_invariant best_in_block (fun x => 0 <= x < BLOCK_SIZE));
      [|apply Forall_seqZ_range|done].
    intros a b Ha Hb. now apply FindOffset_x_in_block. }
  exact Hin.
Qed.

Lemma FindOffset_init_in_block md lx lz :
  0 < BLOCK_SIZE -> best_in_block (FindOffset_init md lx lz).
Proof.
  intros Hpos. unfold FindOffset_init, best_in_block. simpl.
  rewrite Z.shiftr_div_pow2 by lia. change (2 ^ 1) with 2.
  pose proof (Z.div_pos BLOCK_SIZE 2).
  pose proof (Z.div_lt BLOCK_SIZE 2). lia.
Qed.

Lemma FindOffset_scan_in_block md bx bz :
  0 < BLOCK_SIZE -> best_in_block (FindOffset_scan md bx bz).
Proof.
  intros Hpos. unfold FindOffset_scan.
  apply (foldl_invariant best_in_block (fun z => 0 <= z < BLOCK_SIZE));
    [|apply Forall_seqZ_range|now apply FindOffset_init_in_block].
  intros a b Ha Hb. now apply FindOffset_z_in_block.
Qed.

Lemma FindOffset_scan_all_blocked md bx bz :
  (forall x z, 0 <= x < BLOCK_SIZE -> 0 <= z < BLOCK_SIZE ->
     blocked_square md (wrap32 (wrap32 (bx * BLOCK_SIZE) + x))
                       (wrap32 (wrap32 (bz * BLOCK_SIZE) + z)) = true) ->
  0 < BLOCK_SIZE ->
  wrap32 (wrap32 (bx * BLOCK_SIZE) + 0) = wrap32 (bx * BLOCK_SIZE) ->
  wrap32 (wrap32 (bz * BLOCK_SIZE) + 0) = wrap32 (bz * BLOCK_SIZE) ->
  scan_untouched (FindOffset_scan md bx bz).
Proof.
  intros Hall Hpos Hx0 Hz0. unfold FindOffset_scan.
  set (lx := wrap32 (bx * BLOCK_SIZE)) in *.
  set (lz := wrap32 (bz * BLOCK_SIZE)) in *.
  apply (foldl_invariant scan_untouched (fun z => 0 <= z < BLOCK_SIZE));
    [|apply Forall_seqZ_range|].
  - intros st z Hst Hz. unfold FindOffset_z.
    assert (scan_untouched
              (foldl (FindOffset_x md lx lz
                        (wrap32 (BLOCK_SIZE * BLOCK_SIZE) / SQUARE_SIZE) z)
                 st (seqZ 0 BLOCK_SIZE))) as (_ & Hbx & Hbz).
    { apply (foldl_invariant scan_untouched (fun x => 0 <= x < BLOCK_SIZE));
        [|apply Forall_seqZ_range|done].
      intros st' x (Hcb & Hbx & Hbz) Hx. unfold FindOffset_x, scan_untouched.
      rewrite Hcb. simpl. split; [|done].
      apply (Hall x z Hx Hz). }
    destruct Hst as (Hcb & _ & _). unfold scan_untouched. simpl.
    rewrite Hcb. split; [|done].
    specialize (Hall 0 z ltac:(lia) Hz). rewrite Hx0 in Hall. exact Hall.
  - unfold FindOffset_init, scan_untouched. simpl. split; [|done].
    specialize (Hall 0 0 ltac:(lia) ltac:(lia)).
    rewrite Hx0, Hz0 in Hall. exact Hall.
Qed.

(** C10. For an in-map block, on a map whose squares fit an [int], the
    square [FindOffset] returns is given in map coordinates and lies in
    the block; when every square of the block is blocked it is the square
    at local offset [(BLOCK_SIZE/2, BLOCK_SIZE/2)]. *)
Theorem FindOffset_in_block (md : MoveDef) (bx bz : Z) :
  0 < BLOCK_SIZE ->
  in_map (mk_int2 bx bz) ->
  int2_x nbrOfBlocks * BLOCK_SIZE <= 2 ^ 31 ->
  int2_y nbrOfBlocks * BLOCK_SIZE <= 2 ^ 31 ->
  let sq := FindOffset md bx bz in
  (bx * BLOCK_SIZE <= int2_x sq < (bx + 1) * BLOCK_SIZE
   /\ bz * BLOCK_SIZE <= int2_y sq < (bz + 1) * BLOCK_SIZE)
  /\ ((forall x z, 0 <= x < BLOCK_SIZE -> 0 <= z < BLOCK_SIZE ->
         blocked_square md (bx * BLOCK_SIZE + x) (bz * BLOCK_SIZE + z) = true) ->
      sq = mk_int2 (bx * BLOCK_SIZE + BLOCK_SIZE / 2) (bz * BLOCK_SIZE + BLOCK_SIZE / 2)).
Proof.
  intros Hpos [Hbx Hbz] Hmx Hmz sq. simpl in Hbx, Hbz.
  destruct (FindOffset_scan_in_block md bx bz Hpos) as [Hx Hz].
  assert (forall b n v, 0 <= b < n -> n * BLOCK_SIZE <= 2 ^ 31 -> 0 <= v < BLOCK_SIZE ->
          to_int32 (wrap32 (b * BLOCK_SIZE + v)) = b * BLOCK_SIZE + v
          /\ b * BLOCK_SIZE <= b * BLOCK_SIZE + v < (b + 1) * BLOCK_SIZE) as Hconv.
  { intros b n v Hb Hn Hv.
    assert (0 <= b * BLOCK_SIZE + v < 2 ^ 31) by nia.
    rewrite wrap32_small by lia. rewrite to_int32_small by lia. lia. }
  destruct (Hconv bx _ _ Hbx Hmx Hx) as [Hcx Hrx].
  destruct (Hconv bz _ _ Hbz Hmz Hz) as [Hcz Hrz].
  split.
  - subst sq. unfold FindOffset. simpl. rewrite Hcx, Hcz. lia.
  - intros Hall.
    assert (forall b n, 0 <= b < n -> n * BLOCK_SIZE <= 2 ^ 31 ->
            wrap32 (b * BLOCK_SIZE) = b * BLOCK_SIZE
            /\ forall v, 0 <= v < BLOCK_SIZE ->
                 wrap32 (b * BLOCK_SIZE + v) = b * BLOCK_SIZE + v) as Hw.
    { intros b n Hb Hn. split; [|intros v Hv]; apply wrap32_small; nia. }
    destruct (Hw bx _ Hbx Hmx) as [Hwx Hwx'].
    destruct (Hw bz _ Hbz Hmz) as [Hwz Hwz'].
    destruct (FindOffset_scan_all_blocked md bx bz) as (_ & Hsx & Hsz).
    + intros x z Hxr Hzr. rewrite Hwx, Hwz, Hwx', Hwz' by done. now apply Hall.
    + done.
    + rewrite Hwx, Z.add_0_r. apply wrap32_small. nia.
    + rewrite Hwz, Z.add_0_r. apply wrap32_small. nia.
    + subst sq. unfold FindOffset. rewrite Hcx, Hcz, Hsx, Hsz.
      rewrite Z.shiftr_div_pow2 by lia. done.
Qed.
End FindOffsetFacts.

Lemma vset_idempotent {A} (v v' : list A) i a :
  vset v i a = Some v' -> vset v' i a = Some v'.
Proof.
  intros Hs. pose proof (vset_length _ _ _ _ Hs) as Hlen.
  unfold vset in *. case_decide; [|discriminate].
  injection Hs as <-. rewrite decide_True by (rewrite length_insert; lia).
  now rewrite list_insert_insert_eq.
Qed.

Section FindOffsetDeterminism.
Context {F : Type} `{!FloatOps F} `{!PathConstants} `{!Grid}.

Lemma FindOffset_scan_same_terrain (T1 T2 : Collaborators F) md bx bz :
  same_terrain_on_block T1 T2 md bx bz ->
  0 < BLOCK_SIZE ->
  @FindOffset_scan F _ _ _ T1 md bx bz = @FindOffset_scan F _ _ _ T2 md bx bz.
Proof.
  intros Hsame Hpos. unfold FindOffset_scan.
  set (lx := wrap32 (bx * BLOCK_SIZE)) in *.
  set (lz := wrap32 (bz * BLOCK_SIZE)) in *.
  set (area := wrap32 (BLOCK_SIZE * BLOCK_SIZE) / SQUARE_SIZE).
  assert (wrap32 (lx + 0) = lx) as Hlx.
  { rewrite Z.add_0_r. subst lx. unfold wrap32. apply Zmod_mod. }
  assert (wrap32 (lz + 0) = lz) as Hlz.
  { rewrite Z.add_0_r. subst lz. unfold wrap32. apply Zmod_mod. }
  assert (@FindOffset_init F _ _ T1 md lx lz = @FindOffset_init F _ _ T2 md lx lz) as ->.
  { unfold FindOffset_init.
    destruct (Hsame 0 0 ltac:(lia) ltac:(lia)) as (Hs & Hb & _). simpl in Hs, Hb.
    fold lx lz in Hs, Hb. rewrite Hlx, Hlz in Hs, Hb. now rewrite Hs, Hb. }
  apply (foldl_ext_Forall (fun z => 0 <= z < BLOCK_SIZE)); [|apply Forall_seqZ_range].
  intros st z Hz. unfold FindOffset_z.
  rewrite (foldl_ext_Forall (fun x => 0 <= x < BLOCK_SIZE)
             (@FindOffset_x F _ _ T1 md lx lz area z)
             (@FindOffset_x F _ _ T2 md lx lz area z));
    [|intros st' x Hx|apply Forall_seqZ_range].
  - destruct (Hsame 0 z ltac:(lia) Hz) as (Hs & Hb & _ & Hzm). simpl in Hs, Hb, Hzm.
    fold lx lz in Hs, Hb, Hzm. rewrite Hlx in Hs, Hb, Hzm.
    now rewrite Hs, Hb, Hzm.
  - unfold FindOffset_x.
    destruct (Hsame x z Hx Hz) as (Hs & Hb & Hxm & _). simpl in Hs, Hb, Hxm.
    fold lx lz in Hs, Hb, Hxm. now rewrite Hs, Hb, Hxm.
Qed.

Lemma store_offset_idempotent `{!Collaborators F} (pe pe' : CPathEstimator F) i j sq :
  store_offset pe i j sq = Some pe' -> store_offset pe' i j sq = Some pe'.
Proof.
  unfold store_offset.
  destruct (vget (peNodeOffsets (blockStates pe)) i) as [row|] eqn:Hrow;
    simpl; [|discriminate].
  destruct (vset row j sq) as [row'|] eqn:Hrow'; simpl; [|discriminate].
  destruct (vset (peNodeOffsets (blockStates pe)) i row') as [offs|] eqn:Hoffs;
    simpl; [|discriminate].
  intros [= <-]. simpl.
  rewrite (vget_vset_eq _ _ _ _ Hoffs). simpl.
  rewrite (vset_idempotent _ _ _ _ Hrow'). simpl.
  rewrite (vset_idempotent _ _ _ _ Hoffs). simpl.
  done.
Qed.

(** C9. [FindOffset] takes the move class and the block and reads nothing
    but the terrain queries on the squares of that block: two terrains
    that agree there give the same square, whatever else differs; so a
    second invocation for the same entry in the update path writes the
    value that is already there. *)
Theorem FindOffset_deterministic (T1 T2 : Collaborators F) (md : MoveDef) (bx bz : Z) :
  same_terrain_on_block T1 T2 md bx bz ->
  @FindOffset F _ _ _ T1 md bx bz = @FindOffset F _ _ _ T2 md bx bz
  /\ (forall (pe pe' : CPathEstimator F) (sb : SingleBlock),
        @Update_offset F _ _ _ T1 pe sb = Some pe' ->
        @Update_offset F _ _ _ T1 pe' sb = Some pe').
Proof.
  intros Hsame. split.
  - destruct (Z.lt_ge_cases 0 BLOCK_SIZE) as [Hpos|Hneg].
    + unfold FindOffset. now rewrite (FindOffset_scan_same_terrain T1 T2).
    + unfold FindOffset, FindOffset_scan. now rewrite seqZ_nil by lia.
  - intros pe pe' sb. unfold Update_offset. apply store_offset_idempotent.
Qed.
End FindOffsetDeterminism.

(** C5, the code on a concrete block. Block [(0, 0)] of 8 x 8 squares, every
    square passable with speed modifier 1 except the impassable square
    [(3, 3)]: the specified algorithm skips [(3, 3)] and returns [(4, 3)], the
    first of the remaining central squares; [FindOffset] scores square
    [(3, 3)] with the state it computed for square [(2, 3)] and returns the
    impassable square. *)
Lemma FindOffset_returns_blocked_square :
  @FindOffset xfloat _ engine_constants grid8 terrain_with_hole walker 0 0 = mk_int2 3 3
  /\ @blocked_square xfloat _ terrain_with_hole walker 3 3 = true
  /\ @find_offset_spec xfloat _ engine_constants grid8 terrain_with_hole walker 0 0
     = mk_int2 4 3
  /\ @blocked_square xfloat _ terrain_with_hole walker 4 3 = false.
Proof. vm_compute. done. Qed.

(** The same defect with a single passable square: only [(0, 0)] can be
    entered, and [FindOffset] returns [(1, 0)]. *)
Lemma FindOffset_misses_only_free_square :
  @FindOffset xfloat _ engine_constants grid8 terrain_corner_only walker 0 0 = mk_int2 1 0
  /\ @blocked_square xfloat _ terrain_corner_only walker 1 0 = true
  /\ @find_offset_spec xfloat _ engine_constants grid8 terrain_corner_only walker 0 0
     = mk_int2 0 0.
Proof. vm_compute. done. Qed.

(** ** The obsolete queue: MapChanged *)

Lemma fold_opt_invariant {A S : Type} (P : S -> Prop) (Q : A -> Prop)
    (f : S -> A -> option S) :
  (forall s a, P s -> Q a -> exists s', f s a = Some s' /\ P s') ->
  forall l s, Forall Q l -> P s -> exists s', fold_opt f s l = Some s' /\ P s'.
Proof.
  intros Hstep l. induction l as [|a l IH]; intros s Hl Hs; simpl; [eauto|].
  inversion Hl; subst.
  destruct (Hstep s a Hs) as (s1 & -> & Hs1); [done|]. simpl. now apply IH.
Qed.

Lemma Forall_down_range (hi lo : Z) : Forall (fun x => lo <= x <= hi) (down_range hi lo).
Proof.
  apply list.Forall_forall. intros x Hx. unfold down_range in Hx.
  apply elem_of_reverse, elem_of_seqZ in Hx. lia.
Qed.

Section GridFacts.
Context `{!Grid}.

Lemma BlockPosToIdx_eq (b : int2) :
  in_map b -> int2_x nbrOfBlocks * int2_y nbrOfBlocks <= 2 ^ 31 ->
  BlockPosToIdx b = int2_y b * int2_x nbrOfBlocks + int2_x b
  /\ to_int32 (BlockPosToIdx b) = BlockPosToIdx b
  /\ 0 <= BlockPosToIdx b < int2_x nbrOfBlocks * int2_y nbrOfBlocks.
Proof.
  intros [Hx Hy] Hsz. unfold BlockPosToIdx.
  rewrite wrap32_small by nia. rewrite to_int32_small by nia. nia.
Qed.

Lemma BlockPosToIdx_inj (a b : int2) :
  in_map a -> in_map b -> int2_x nbrOfBlocks * int2_y nbrOfBlocks <= 2 ^ 31 ->
  BlockPosToIdx a = BlockPosToIdx b -> a = b.
Proof.
  intros Ha Hb Hsz.
  destruct (BlockPosToIdx_eq a Ha Hsz) as (-> & _ & _).
  destruct (BlockPosToIdx_eq b Hb Hsz) as (-> & _ & _).
  destruct Ha as [Hax Hay], Hb as [Hbx Hby].
  destruct a as [ax ay], b as [bx by']. simpl in *. intros Heq.
  assert (ay = by') by nia. subst. f_equal. lia.
Qed.
End GridFacts.

Section MapChangedFacts.
Context {F : Type} `{!PathConstants} `{!Grid} `{!MoveDefHandler}.
Implicit Types (pe : CPathEstimator F).

Lemma obsolete_after_set m :
  PATHOPT_OBSOLETE <> 0 -> Z.land (Z.lor m PATHOPT_OBSOLETE) PATHOPT_OBSOLETE <> 0.
Proof.
  intros Hne. rewrite Z.land_lor_distr_l, Z.land_diag.
  intros Hz. apply Z.lor_eq_0_iff in Hz. tauto.
Qed.

Lemma obsolete_after_clear m :
  Z.land (Z.land m (Z.lnot PATHOPT_OBSOLETE)) PATHOPT_OBSOLETE = 0.
Proof.
  rewrite <- Z.land_assoc, (Z.land_comm (Z.lnot _)), Z.land_lnot_diag.
  apply Z.land_0_r.
Qed.

(** What one visit of [MapChanged] does to a block of the map. *)
Lemma MapChanged_block_spec pe z x :
  PATHOPT_OBSOLETE <> 0 ->
  tables_sized pe -> queue_invariant pe -> in_map (mk_int2 x z) ->
  exists pe',
    MapChanged_block pe z x = Some pe'
    /\ tables_sized pe' /\ queue_invariant pe'
    /\ exists new,
         updatedBlocks pe' = updatedBlocks pe ++ new
         /\ forall b, b ∈ new -> in_map b /\ ~ obsolete_bit pe b.
Proof.
  intros Hne Hsz Hinv Hin.
  pose proof Hsz as (Hnx & Hny & Hfit & Hfit' & Hsize & Hoffs & Hrows & Hvc).
  destruct (BlockPosToIdx_eq _ Hin Hfit) as (_ & Hint & Hrange).
  unfold MapChanged_block. rewrite Hint.
  destruct (vget_is_Some (nodeMask (blockStates pe)) (BlockPosToIdx (mk_int2 x z)))
    as [m Hm].
  { unfold GetSize in Hsize. lia. }
  rewrite Hm. simpl.
  destruct (Z.eqb_spec (Z.land m PATHOPT_OBSOLETE) 0) as [Hclear|Hset]; simpl.
  - rewrite vset_Some by (unfold GetSize in Hsize; lia). simpl.
    eexists. split; [reflexivity|].
    set (b0 := mk_int2 x z) in *.
    set (nm := <[Z.to_nat (BlockPosToIdx b0) := Z.lor m PATHOPT_OBSOLETE]>
                 (nodeMask (blockStates pe))).
    assert (vget nm (BlockPosToIdx b0) = Some (Z.lor m PATHOPT_OBSOLETE)) as Hnew.
    { eapply vget_vset_eq. apply vset_Some. unfold GetSize in Hsize. lia. }
    assert (forall j, j <> BlockPosToIdx b0 -> vget nm j = vget (nodeMask (blockStates pe)) j)
      as Hother.
    { intros j Hj. eapply vget_vset_ne; [apply vset_Some|congruence].
      unfold GetSize in Hsize. lia. }
    destruct Hinv as (Hnd & Hqin & Hiff).
    assert (~ obsolete_bit pe b0) as Hnot.
    { intros (m' & Hm' & Hb). rewrite Hm in Hm'. injection Hm' as <-. done. }
    assert (b0 ∉ updatedBlocks pe) as Hnotin by (rewrite Hiff; done).
    split; [|split].
    + unfold tables_sized, GetSize in *. simpl. subst nm.
      rewrite length_insert. done.
    + unfold queue_invariant. simpl. split; [|split].
      * apply list.NoDup_app. split; [done|]. split; [|apply list.NoDup_singleton].
        intros b Hb Hb'. apply list_elem_of_singleton in Hb'. now subst.
      * intros b Hb. apply elem_of_app in Hb as [Hb|Hb]; [auto|].
        apply list_elem_of_singleton in Hb. now subst.
      * intros b Hb. unfold obsolete_bit. simpl.
        destruct (decide (b = b0)) as [->|Hneq].
        -- split; [|intros _; apply elem_of_app; right; apply list_elem_of_singleton; done].
           intros _. exists (Z.lor m PATHOPT_OBSOLETE). split; [done|].
           now apply obsolete_after_set.
        -- rewrite Hother; [|intros Heq; apply Hneq; eapply BlockPosToIdx_inj; eauto].
           rewrite elem_of_app, list_elem_of_singleton, (Hiff b Hb).
           unfold obsolete_bit. tauto.
    + exists [b0]. split; [done|].
      intros b Hb. apply list_elem_of_singleton in Hb. now subst.
  - eexists. split; [reflexivity|]. split; [done|]. split; [done|].
    exists []. split; [now rewrite app_nil_r|]. intros b Hb. inversion Hb.
Qed.
End MapChangedFacts.

Section MapChangedTotal.
Context {F : Type} `{!PathConstants} `{!Grid} `{!MoveDefHandler}.
Implicit Types (pe : CPathEstimator F).

Lemma Clamp_in_range v n :
  0 < n <= 2 ^ 31 -> 0 <= Clamp v 0 (to_int32 (n - 1)) < n.
Proof.
  intros Hn. rewrite to_int32_small by lia. unfold Clamp. lia.
Qed.

(** [MapChanged] on a well-formed estimator: it returns, keeps the queue
    invariant, and appends to the queue only blocks of the map whose
    OBSOLETE bit was clear. *)
Lemma MapChanged_spec pe x1 z1 x2 z2 :
  PATHOPT_OBSOLETE <> 0 ->
  tables_sized pe -> queue_invariant pe ->
  exists pe' new,
    MapChanged pe x1 z1 x2 z2 = Some pe'
    /\ tables_sized pe' /\ queue_invariant pe'
    /\ updatedBlocks pe' = updatedBlocks pe ++ new
    /\ forall b, b ∈ new -> in_map b /\ ~ obsolete_bit pe b.
Proof.
  intros Hne Hsz Hinv.
  pose proof Hsz as (Hnx & Hny & Hfit & _).
  pose (P := fun pe' : CPathEstimator F =>
    tables_sized pe' /\ queue_invariant pe'
    /\ exists new, updatedBlocks pe' = updatedBlocks pe ++ new
                   /\ forall b, b ∈ new -> in_map b /\ ~ obsolete_bit pe b).
  assert (forall pe1 z x, P pe1 -> in_map (mk_int2 x z) ->
          exists pe2, MapChanged_block pe1 z x = Some pe2 /\ P pe2) as Hstep.
  { intros pe1 z x (Hsz1 & Hinv1 & new1 & Hq1 & Hnew1) Hin.
    destruct (MapChanged_block_spec pe1 z x Hne Hsz1 Hinv1 Hin)
      as (pe2 & Hrun & Hsz2 & Hinv2 & new2 & Hq2 & Hnew2).
    exists pe2. split; [done|]. split; [done|]. split; [done|].
    exists (new1 ++ new2). split; [now rewrite Hq2, Hq1, app_assoc|].
    intros b Hb. apply elem_of_app in Hb as [Hb|Hb]; [auto|].
    destruct (Hnew2 b Hb) as [Hbin Hbnot]. split; [done|].
    intros Hobs. apply Hbnot.
    destruct Hinv as (_ & _ & Hiff), Hinv1 as (_ & _ & Hiff1).
    apply Hiff1; [done|]. rewrite Hq1. apply elem_of_app. left. now apply Hiff. }
  assert (int2_y nbrOfBlocks <= 2 ^ 31 /\ int2_x nbrOfBlocks <= 2 ^ 31) as [Hy31 Hx31] by nia.
  unfold MapChanged.
  set (lowerX := Clamp (to_int32 (Z.min x1 x2 / BLOCK_SIZE)) 0 _).
  set (upperX := Clamp (to_int32 (Z.max x1 x2 / BLOCK_SIZE)) 0 _).
  set (lowerZ := Clamp (to_int32 (Z.min z1 z2 / BLOCK_SIZE)) 0 _).
  set (upperZ := Clamp (to_int32 (Z.max z1 z2 / BLOCK_SIZE)) 0 _).
  assert (0 <= lowerX < int2_x nbrOfBlocks) as HlX by (apply Clamp_in_range; lia).
  assert (0 <= upperX < int2_x nbrOfBlocks) as HuX by (apply Clamp_in_range; lia).
  assert (0 <= lowerZ < int2_y nbrOfBlocks) as HlZ by (apply Clamp_in_range; lia).
  assert (0 <= upperZ < int2_y nbrOfBlocks) as HuZ by (apply Clamp_in_range; lia).
  destruct (fold_opt_invariant P (fun z => lowerZ <= z <= upperZ)
              (fun pe' z => MapChanged_row pe' lowerX upperX z))
    with (l := down_range upperZ lowerZ) (s := pe)
    as (pe' & Hrun & Hsz' & Hinv' & new & Hq & Hnew).
  - intros pe1 z HP Hz. unfold MapChanged_row.
    apply (fold_opt_invariant P (fun x => lowerX <= x <= upperX));
      [|apply Forall_down_range|done].
    intros pe2 x HP2 Hx. apply Hstep; [done|].
    split; simpl; lia.
  - apply Forall_down_range.
  - split; [done|]. split; [done|]. exists []. split; [now rewrite app_nil_r|].
    intros b Hb. inversion Hb.
  - exists pe', new. repeat (split; [assumption|]). assumption.
Qed.
End MapChangedTotal.

(** ** The obsolete queue: Update *)

Section HandlerFacts.
Context `{!MoveDefHandler}.

Lemma handler_wf_range md :
  handler_wf -> md ∈ moveDefs -> 0 <= pathType md < GetNumMoveDefs.
Proof.
  intros Hwf Hin. apply list_elem_of_lookup in Hin as [i Hi].
  rewrite (Hwf i md Hi). apply lookup_lt_Some in Hi.
  unfold GetNumMoveDefs. lia.
Qed.

Lemma ascending_from_index (l : list MoveDef) (k : nat) :
  (forall (i : nat) md, l !! i = Some md -> pathType md = Z.of_nat (k + i)) ->
  ascending l.
Proof.
  revert k. induction l as [|a l IH]; intros k Hidx; [constructor|].
  constructor.
  - apply (IH (S k)). intros i md Hi.
    rewrite (Hidx (S i) md Hi). f_equal. lia.
  - apply list.Forall_forall. intros b Hb.
    apply list_elem_of_lookup in Hb as [i Hi].
    rewrite (Hidx 0%nat a eq_refl), (Hidx (S i) b Hi). lia.
Qed.

Lemma ascending_filter (P : MoveDef -> Prop) `{!forall md, Decision (P md)} l :
  ascending l -> ascending (filter P l).
Proof.
  induction 1 as [|a l Hl IH Ha]; [constructor|].
  rewrite filter_cons. destruct (decide (P a)); [|done].
  constructor; [done|].
  apply list.Forall_forall. intros b Hb.
  apply list_elem_of_filter in Hb as [_ Hb].
  rewrite list.Forall_forall in Ha. auto.
Qed.

Lemma moveDefs_in_use_ascending : handler_wf -> ascending moveDefs_in_use.
Proof.
  intros Hwf. apply ascending_filter.
  apply (ascending_from_index moveDefs 0). exact Hwf.
Qed.

Lemma moveDefs_in_use_nonempty : some_class_in_use -> moveDefs_in_use <> [].
Proof.
  intros (md & Hin & Huse) Hnil.
  assert (md ∈ moveDefs_in_use) as Hmd by (apply list_elem_of_filter; done).
  rewrite Hnil in Hmd. inversion Hmd.
Qed.

Lemma moveDefs_in_use_range md :
  handler_wf -> md ∈ moveDefs_in_use -> 0 <= pathType md < GetNumMoveDefs.
Proof.
  intros Hwf Hin. apply list_elem_of_filter in Hin as [_ Hin].
  now apply handler_wf_range.
Qed.

(** The head of an ascending list has the lowest path type. *)
Lemma ascending_head_le a l md :
  ascending (a :: l) -> md ∈ a :: l -> pathType a <= pathType md.
Proof.
  intros Hasc Hin. inversion Hasc as [|? ? _ Hall]; subst.
  apply elem_of_cons in Hin as [->|Hin]; [lia|].
  rewrite list.Forall_forall in Hall. specialize (Hall md Hin). lia.
Qed.
End HandlerFacts.

Section UpdateSteps.
Context {F : Type} `{!FloatOps F} `{!PathConstants} `{!Grid} `{!Collaborators F}
        `{!MoveDefHandler}.
Implicit Types (pe : CPathEstimator F).

Lemma same_masks_and_queue_refl pe : same_masks_and_queue pe pe.
Proof. done. Qed.

Lemma same_masks_and_queue_trans pe1 pe2 pe3 :
  same_masks_and_queue pe1 pe2 -> same_masks_and_queue pe2 pe3 ->
  same_masks_and_queue pe1 pe3.
Proof. intros [Ha Hb] [Hc Hd]. split; congruence. Qed.

Lemma offset_at_is_Some pe i j :
  tables_sized pe ->
  0 <= i < int2_x nbrOfBlocks * int2_y nbrOfBlocks -> 0 <= j < GetNumMoveDefs ->
  is_Some (offset_at (blockStates pe) i j).
Proof.
  intros (_ & _ & _ & _ & _ & Hoffs & Hrows & _) Hi Hj. unfold offset_at.
  destruct (vget_is_Some (peNodeOffsets (blockStates pe)) i) as [row Hrow]; [lia|].
  rewrite Hrow. simpl. apply vget_is_Some.
  rewrite list.Forall_forall in Hrows. rewrite Hrows; [done|].
  unfold vget in Hrow. case_decide; [|done].
  eapply list_elem_of_lookup_2, Hrow.
Qed.

Lemma store_offset_spec pe i j sq :
  tables_sized pe ->
  0 <= i < int2_x nbrOfBlocks * int2_y nbrOfBlocks -> 0 <= j < GetNumMoveDefs ->
  exists pe', store_offset pe i j sq = Some pe'
              /\ tables_sized pe' /\ same_masks_and_queue pe pe'.
Proof.
  intros Hsz Hi Hj.
  pose proof Hsz as (Hnx & Hny & Hfit & Hfit' & Hsize & Hoffs & Hrows & Hvc).
  unfold store_offset.
  destruct (vget_is_Some (peNodeOffsets (blockStates pe)) i) as [row Hrow]; [lia|].
  rewrite Hrow. simpl.
  assert (Z.of_nat (length row) = GetNumMoveDefs) as Hlen.
  { rewrite list.Forall_forall in Hrows. apply Hrows.
    unfold vget in Hrow. case_decide; [|done].
    eapply list_elem_of_lookup_2, Hrow. }
  rewrite vset_Some by lia. simpl. rewrite vset_Some by lia. simpl.
  eexists. split; [reflexivity|]. split; [|done].
  unfold tables_sized, GetSize. simpl. rewrite length_insert.
  repeat (split; [assumption|]). split; [|done].
  apply Forall_insert; [done|]. now rewrite length_insert.
Qed.

Lemma outside_map_false (b : int2) :
  outside_map b = false ->
  - 2 ^ 31 <= int2_x b < 2 ^ 31 -> - 2 ^ 31 <= int2_y b < 2 ^ 31 ->
  int2_x nbrOfBlocks <= 2 ^ 31 -> int2_y nbrOfBlocks <= 2 ^ 31 ->
  in_map b.
Proof.
  unfold outside_map, in_map, wrap32. intros Hout Hx Hy Hnx Hny.
  apply orb_false_iff in Hout as [Hox Hoy].
  apply Z.leb_gt in Hox, Hoy.
  assert (forall v n, - 2 ^ 31 <= v < 2 ^ 31 -> n <= 2 ^ 31 -> v mod 2 ^ 32 < n ->
          0 <= v < n) as Haux.
  { intros v n Hv Hn Hlt. destruct (Z.lt_ge_cases v 0) as [Hneg|Hpos].
    - assert (v mod 2 ^ 32 = v + 2 ^ 32); [|lia].
      symmetry. apply (Z.mod_unique_pos _ _ (-1)); lia.
    - rewrite Z.mod_small in Hlt; lia. }
  split; eapply Haux; eauto.
Qed.

Lemma int2_add_range (a b : int2) :
  - 2 ^ 31 <= int2_x (int2_add a b) < 2 ^ 31
  /\ - 2 ^ 31 <= int2_y (int2_add a b) < 2 ^ 31.
Proof. unfold int2_add. simpl. split; apply to_int32_range. Qed.

Lemma tables_sized_store_vertex pe idx c pe' :
  store_vertex pe idx c = Some pe' -> tables_sized pe -> tables_sized pe'.
Proof.
  unfold store_vertex. destruct (vset _ _ _) as [vc|] eqn:Hvc; simpl; [|discriminate].
  intros [= <-]. unfold tables_sized, GetSize. simpl.
  now rewrite (vset_length _ _ _ _ Hvc).
Qed.

Lemma store_vertex_frame pe idx c pe' :
  store_vertex pe idx c = Some pe' ->
  blockStates pe' = blockStates pe /\ updatedBlocks pe' = updatedBlocks pe.
Proof.
  unfold store_vertex. destruct (vset _ _ _); simpl; [|discriminate].
  now intros [= <-].
Qed.

Lemma CalculateVertex_total pe md p d t :
  tables_sized pe -> in_map p -> 0 <= pathType md < GetNumMoveDefs ->
  0 <= d < PATH_DIRECTION_VERTICES ->
  exists pe', CalculateVertex pe md p d t = Some pe'
              /\ tables_sized pe'
              /\ blockStates pe' = blockStates pe
              /\ updatedBlocks pe' = updatedBlocks pe.
Proof.
  intros Hsz Hp Hpt Hd.
  pose proof Hsz as (Hnx & Hny & Hfit & Hfit' & Hsize & Hoffs & Hrows & Hvc).
  assert (int2_x nbrOfBlocks * int2_y nbrOfBlocks <= 2 ^ 32) as Hfit32 by lia.
  destruct (BlockPosToIdx_in_map p Hp Hfit32) as [_ Hidx].
  assert (0 <= vertexNbr pe md p d < Z.of_nat (length (vertexCosts pe))) as Hrange.
  { unfold vertexNbr, PATH_DIRECTION_VERTICES in *. rewrite Hsize, Hvc.
    rewrite wrap32_small; nia. }
  assert (exists pe' c, CalculateVertex pe md p d t = Some pe'
                        /\ store_vertex pe (vertexNbr pe md p d) c = Some pe')
    as (pe' & c & Hrun & Hst).
  { unfold CalculateVertex.
    destruct (outside_map _) eqn:Hout.
    - destruct (store_vertex_Some pe _ PATHCOST_INFINITY Hrange) as [pe' Hs]. eauto.
    - destruct (int2_add_range p (PE_DIRECTION_VECTORS d)) as [Hcx Hcy].
      assert (in_map (int2_add p (PE_DIRECTION_VECTORS d))) as Hc.
      { apply outside_map_false; try done; nia. }
      destruct (BlockPosToIdx_in_map _ Hc Hfit32) as [_ Hcidx].
      destruct (offset_at_is_Some pe (BlockPosToIdx p) (pathType md) Hsz Hidx Hpt)
        as [ps ->].
      destruct (offset_at_is_Some pe _ (pathType md) Hsz Hcidx Hpt) as [cs ->].
      simpl. destruct (_ || _).
      + destruct (store_vertex_Some pe _ PATHCOST_INFINITY Hrange) as [pe' Hs]. eauto.
      + destruct (GetPath _ _ _ _ _) as [r c]. destruct (decide (r = Ok)).
        * destruct (store_vertex_Some pe _ c Hrange) as [pe' Hs]. eauto.
        * destruct (store_vertex_Some pe _ PATHCOST_INFINITY Hrange) as [pe' Hs]. eauto. }
  exists pe'. split; [done|]. split; [eapply tables_sized_store_vertex; eauto|].
  eapply store_vertex_frame, Hst.
Qed.

Lemma tables_sized_blockStates pe pe' :
  blockStates pe' = blockStates pe ->
  length (vertexCosts pe') = length (vertexCosts pe) ->
  tables_sized pe -> tables_sized pe'.
Proof. unfold tables_sized. intros -> ->. done. Qed.

Lemma CalculateVertices_total pe md p t :
  tables_sized pe -> in_map p -> 0 <= pathType md < GetNumMoveDefs ->
  exists pe', CalculateVertices pe md p t = Some pe'
              /\ tables_sized pe' /\ same_masks_and_queue pe pe'.
Proof.
  intros Hsz Hp Hpt. unfold CalculateVertices.
  destruct (CalculateVertex_total pe md p PATHDIR_LEFT t Hsz Hp Hpt)
    as (pe1 & -> & Hsz1 & Hbs1 & Hq1); [done|]. simpl.
  destruct (CalculateVertex_total pe1 md p PATHDIR_LEFT_UP t Hsz1 Hp Hpt)
    as (pe2 & -> & Hsz2 & Hbs2 & Hq2); [done|]. simpl.
  destruct (CalculateVertex_total pe2 md p PATHDIR_UP t Hsz2 Hp Hpt)
    as (pe3 & -> & Hsz3 & Hbs3 & Hq3); [done|]. simpl.
  destruct (CalculateVertex_total pe3 md p PATHDIR_RIGHT_UP t Hsz3 Hp Hpt)
    as (pe4 & -> & Hsz4 & Hbs4 & Hq4); [done|].
  exists pe4. split; [done|]. split; [done|].
  split; congruence.
Qed.

Lemma clear_obsolete_spec pe i :
  tables_sized pe -> 0 <= i < int2_x nbrOfBlocks * int2_y nbrOfBlocks ->
  exists pe' m,
    clear_obsolete pe i = Some pe'
    /\ vget (nodeMask (blockStates pe)) i = Some m
    /\ vset (nodeMask (blockStates pe)) i (Z.land m (Z.lnot PATHOPT_OBSOLETE))
       = Some (nodeMask (blockStates pe'))
    /\ tables_sized pe' /\ updatedBlocks pe' = updatedBlocks pe.
Proof.
  intros Hsz Hi.
  pose proof Hsz as (Hnx & Hny & Hfit & Hfit' & Hsize & Hoffs & Hrows & Hvc).
  unfold GetSize in Hsize. unfold clear_obsolete.
  destruct (vget_is_Some (nodeMask (blockStates pe)) i) as [m Hm]; [lia|].
  rewrite Hm. simpl. rewrite vset_Some by lia. simpl.
  eexists _, m. split; [reflexivity|]. split; [reflexivity|]. split; [now rewrite vset_Some by lia|].
  split; [|done].
  unfold tables_sized, GetSize. simpl. now rewrite length_insert.
Qed.
End UpdateSteps.

Section UpdateLoops.
Context {F : Type} `{!FloatOps F} `{!PathConstants} `{!Grid} `{!Collaborators F}
        `{!MoveDefHandler}.
Implicit Types (pe : CPathEstimator F).

(** On a queue whose blocks all carry the OBSOLETE bit, the first loop of
    [Update] takes a prefix of the queue and gives each of its blocks its
    run of entries. *)
Lemma Update_drain_spec mask btu (q : list int2) acc :
  (forall b, b ∈ q ->
     exists m, vget mask (to_int32 (BlockPosToIdx b)) = Some m
               /\ Z.land m PATHOPT_OBSOLETE <> 0) ->
  exists q1 q2,
    q = q1 ++ q2
    /\ Update_drain mask btu q acc = Some (q2, acc ++ concat (Update_entries <$> q1)).
Proof.
  revert acc. induction q as [|pos rest IH]; intros acc Hobs.
  - exists [], []. simpl. now rewrite app_nil_r.
  - destruct (Hobs pos) as (m & Hm & Hbit); [left|].
    simpl. rewrite Hm. simpl.
    destruct (Z.eqb_spec (Z.land m PATHOPT_OBSOLETE) 0) as [|_]; [done|].
    destruct (btu <=? Z.of_nat (length acc)).
    + exists [], (pos :: rest). simpl. now rewrite app_nil_r.
    + destruct (IH (acc ++ Update_entries pos)) as (q1 & q2 & -> & ->).
      { intros b Hb. apply Hobs. now right. }
      exists (pos :: q1), q2. simpl. now rewrite app_assoc.
Qed.

(** Whatever the queue holds, the first loop of [Update] takes entries
    only for blocks whose OBSOLETE bit is set. *)
Lemma Update_drain_only_obsolete mask btu (q : list int2) acc q2 cs :
  Update_drain mask btu q acc = Some (q2, cs) ->
  forall sb, sb ∈ cs ->
    sb ∈ acc
    \/ exists m, vget mask (to_int32 (BlockPosToIdx (sb_blockPos sb))) = Some m
                 /\ Z.land m PATHOPT_OBSOLETE <> 0.
Proof.
  revert acc. induction q as [|pos rest IH]; intros acc; simpl.
  - intros [= <- <-]. auto.
  - destruct (vget mask _) as [m|] eqn:Hm; simpl; [|discriminate].
    destruct (Z.eqb_spec (Z.land m PATHOPT_OBSOLETE) 0) as [|Hbit]; [apply IH|].
    destruct (btu <=? Z.of_nat (length acc)).
    + intros [= <- <-]. auto.
    + intros Hrun sb Hsb. destruct (IH _ Hrun sb Hsb) as [Hin|Hin]; [|auto].
      apply elem_of_app in Hin as [Hin|Hin]; [auto|]. right.
      unfold Update_entries in Hin. apply list_elem_of_fmap in Hin as (md & -> & _).
      simpl. eauto.
Qed.

(** The parallel loop: every entry is written, masks and queue stay. *)
Lemma Update_offsets_spec pe (cs : list SingleBlock) :
  tables_sized pe ->
  Forall (fun sb => in_map (sb_blockPos sb)
                    /\ 0 <= pathType (sb_moveDef sb) < GetNumMoveDefs) cs ->
  exists pe', fold_opt Update_offset pe cs = Some pe'
              /\ tables_sized pe' /\ same_masks_and_queue pe pe'.
Proof.
  intros Hsz Hcs.
  apply (fold_opt_invariant
           (fun pe' => tables_sized pe' /\ same_masks_and_queue pe pe')
           (fun sb => in_map (sb_blockPos sb)
                      /\ 0 <= pathType (sb_moveDef sb) < GetNumMoveDefs));
    [|done|done].
  intros pe1 sb [Hsz1 Hsame] [Hin Hpt]. unfold Update_offset.
  pose proof Hsz1 as (_ & _ & Hfit & _).
  destruct (BlockPosToIdx_eq _ Hin Hfit) as (_ & -> & Hidx).
  destruct (store_offset_spec pe1 _ (pathType (sb_moveDef sb))
              (FindOffset (sb_moveDef sb) (wrap32 (int2_x (sb_blockPos sb)))
                 (wrap32 (int2_y (sb_blockPos sb)))) Hsz1 Hidx Hpt)
    as (pe2 & Hrun & Hsz2 & Hsame2).
  exists pe2. split; [done|]. split; [done|].
  eapply same_masks_and_queue_trans; eauto.
Qed.

(** The serial loop on the run of one block: the vertices of every entry
    are computed and the OBSOLETE bit of the block is cleared at the last
    entry of the run. *)
Lemma Update_vertices_run pe (b : int2) (mds : list MoveDef) (rest : list SingleBlock) :
  tables_sized pe -> in_map b -> mds <> [] -> ascending mds ->
  (forall md, md ∈ mds -> 0 <= pathType md < GetNumMoveDefs) ->
  (forall nxt rest', rest = nxt :: rest' ->
     forall md, md ∈ mds -> pathType (sb_moveDef nxt) <= pathType md) ->
  exists pe1 m,
    Update_vertices pe ((mk_SingleBlock b <$> mds) ++ rest) = Update_vertices pe1 rest
    /\ tables_sized pe1 /\ updatedBlocks pe1 = updatedBlocks pe
    /\ vget (nodeMask (blockStates pe)) (BlockPosToIdx b) = Some m
    /\ vset (nodeMask (blockStates pe)) (BlockPosToIdx b)
            (Z.land m (Z.lnot PATHOPT_OBSOLETE))
       = Some (nodeMask (blockStates pe1)).
Proof.
  intros Hsz Hb Hne Hasc Hrange Hrest.
  revert pe Hsz. induction mds as [|md mds IH]; intros pe Hsz; [done|].
  pose proof Hsz as (_ & _ & Hfit & _).
  destruct (BlockPosToIdx_eq _ Hb Hfit) as (_ & Hint & Hidx).
  destruct (CalculateVertices_total pe md b 0 Hsz Hb) as (pe_a & Hcv & Hsz_a & Hm_a & Hq_a).
  { apply Hrange. left. }
  destruct mds as [|md' mds].
  - simpl. rewrite Hcv. simpl. rewrite Hint.
    destruct (clear_obsolete_spec pe_a (BlockPosToIdx b) Hsz_a Hidx)
      as (pe_b & m & Hcl & Hget & Hset & Hsz_b & Hq_b).
    assert (match rest with
            | [] => clear_obsolete pe_a (BlockPosToIdx b)
            | nxt :: _ =>
              if pathType (sb_moveDef nxt) <=? pathType md
              then clear_obsolete pe_a (BlockPosToIdx b) else Some pe_a
            end = Some pe_b) as ->.
    { destruct rest as [|nxt rest']; [done|].
      destruct (Z.leb_spec (pathType (sb_moveDef nxt)) (pathType md)) as [|Hgt]; [done|].
      specialize (Hrest nxt rest' eq_refl md ltac:(left)). lia. }
    simpl. exists pe_b, m. rewrite Hm_a in Hget, Hset.
    split; [done|]. split; [done|]. split; [congruence|]. done.
  - inversion Hasc as [|? ? Hasc' Hall]; subst.
    assert (pathType md < pathType md') as Hlt.
    { rewrite list.Forall_forall in Hall. apply Hall. left. }
    destruct (IH ltac:(done) Hasc') with (pe := pe_a)
      as (pe1 & m & Hrun & Hsz1 & Hq1 & Hget & Hset).
    { intros md0 Hmd0. apply Hrange. now right. }
    { intros nxt rest' Heq md0 Hmd0. eapply Hrest; [done|]. now right. }
    { done. }
    exists pe1, m. rewrite Hm_a in Hget, Hset.
    split; [|split; [done|split; [congruence|done]]].
    rewrite <- Hrun. change ((mk_SingleBlock b <$> md :: md' :: mds) ++ rest)
      with (mk_SingleBlock b md :: mk_SingleBlock b md' :: ((mk_SingleBlock b <$> mds) ++ rest)).
    change ((mk_SingleBlock b <$> md' :: mds) ++ rest)
      with (mk_SingleBlock b md' :: ((mk_SingleBlock b <$> mds) ++ rest)).
    cbn [Update_vertices sb_moveDef sb_blockPos]. rewrite Hcv.
    destruct (Z.leb_spec (pathType md') (pathType md)) as [Hle|_]; [lia|].
    reflexivity.
Qed.
End UpdateLoops.

Section UpdateTotal.
Context {F : Type} `{!FloatOps F} `{!PathConstants} `{!Grid} `{!Collaborators F}
        `{!MoveDefHandler}.
Implicit Types (pe : CPathEstimator F).

Lemma Update_entries_in sb (bl : list int2) :
  sb ∈ concat (Update_entries <$> bl) ->
  sb_blockPos sb ∈ bl /\ sb_moveDef sb ∈ moveDefs_in_use.
Proof.
  induction bl as [|b bl IH]; simpl; intros Hin; [inversion Hin|].
  apply elem_of_app in Hin as [Hin|Hin].
  - unfold Update_entries in Hin. apply list_elem_of_fmap in Hin as (md & -> & Hmd).
    split; [left|done].
  - destruct (IH Hin). split; [now right|done].
Qed.

(** The serial loop over the runs of the blocks [bl]: it returns, and
    clears the OBSOLETE bit of exactly these blocks. *)
Lemma Update_vertices_blocks pe (bl : list int2) :
  handler_wf -> some_class_in_use ->
  tables_sized pe -> (forall b, b ∈ bl -> in_map b) ->
  exists pe',
    Update_vertices pe (concat (Update_entries <$> bl)) = Some pe'
    /\ tables_sized pe' /\ updatedBlocks pe' = updatedBlocks pe
    /\ forall b, in_map b ->
         (b ∈ bl -> ~ obsolete_bit pe' b)
         /\ (b ∉ bl -> vget (nodeMask (blockStates pe')) (BlockPosToIdx b)
                       = vget (nodeMask (blockStates pe)) (BlockPosToIdx b)).
Proof.
  intros Hwf Huse. revert pe.
  induction bl as [|b0 bl IH]; intros pe Hsz Hbl.
  - exists pe. simpl. repeat (split; [done|]). intros b _. split; [|done].
    intros Hb. inversion Hb.
  - pose proof (moveDefs_in_use_nonempty Huse) as Hne.
    pose proof (moveDefs_in_use_ascending Hwf) as Hasc.
    assert (in_map b0) as Hb0 by (apply Hbl; left).
    pose proof Hsz as (_ & _ & Hfit & _).
    destruct (Update_vertices_run pe b0 moveDefs_in_use
                (concat (Update_entries <$> bl)) Hsz Hb0 Hne Hasc)
      as (pe1 & m & Hrun & Hsz1 & Hq1 & Hget & Hset).
    { intros md Hmd. now apply moveDefs_in_use_range. }
    { intros nxt rest' Heq md Hmd.
      destruct bl as [|b1 bl']; [discriminate|].
      simpl in Heq. unfold Update_entries at 1 in Heq.
      fold moveDefs_in_use in Heq.
      destruct moveDefs_in_use as [|r rs] eqn:Hrefs; [done|].
      simpl in Heq. injection Heq as <- _. simpl.
      eapply ascending_head_le; eauto. }
    destruct (IH pe1 Hsz1) as (pe' & Hrun' & Hsz' & Hq' & Hmask').
    { intros b Hb. apply Hbl. now right. }
    exists pe'. split.
    { rewrite <- Hrun'. rewrite <- Hrun. reflexivity. }
    split; [done|]. split; [congruence|].
    intros b Hb. destruct (Hmask' b Hb) as [Hin Hout]. split.
    + intros Hbin. destruct (decide (b ∈ bl)) as [Hbl'|Hnbl]; [auto|].
      apply elem_of_cons in Hbin as [->|]; [|done].
      intros (m' & Hm' & Hbit). rewrite (Hout Hnbl) in Hm'.
      rewrite (vget_vset_eq _ _ _ _ Hset) in Hm'. injection Hm' as <-.
      apply Hbit, obsolete_after_clear.
    + intros Hnotin. apply not_elem_of_cons in Hnotin as [Hneq Hnbl].
      rewrite (Hout Hnbl). eapply vget_vset_ne; [exact Hset|].
      intros Heq. apply Hneq. symmetry. eapply BlockPosToIdx_inj; eauto.
Qed.

(** [Update] on a well-formed estimator with a move class in use: it
    returns, keeps the queue invariant, and the blocks it processes are
    blocks whose OBSOLETE bit was set, is clear afterwards, and that have
    left the queue. *)
Lemma Update_spec pe :
  handler_wf -> some_class_in_use ->
  tables_sized pe -> queue_invariant pe ->
  exists pe' cs,
    Update pe = Some pe' /\ Update_consumed pe = Some cs
    /\ tables_sized pe' /\ queue_invariant pe'
    /\ (exists q1, updatedBlocks pe = q1 ++ updatedBlocks pe')
    /\ forall sb, sb ∈ cs ->
         obsolete_bit pe (sb_blockPos sb)
         /\ ~ obsolete_bit pe' (sb_blockPos sb)
         /\ sb_blockPos sb ∉ updatedBlocks pe'.
Proof.
  intros Hwf Huse Hsz Hinv.
  unfold Update, Update_consumed.
  destruct (Update_budget pe) as [[btu cb] pen].
  set (pe0 := set_blockUpdatePenalty pen pe).
  assert (tables_sized pe0) as Hsz0 by done.
  assert (queue_invariant pe0) as Hinv0 by done.
  destruct (Z.eqb_spec btu 0) as [_|Hbtu].
  { exists pe0, []. repeat (split; [done|]). split; [now exists []|].
    intros sb Hsb. inversion Hsb. }
  pose proof Hsz as (_ & _ & Hfit & _).
  pose proof Hinv as (Hnd & Hqin & Hiff).
  destruct (Update_drain_spec (nodeMask (blockStates pe)) btu (updatedBlocks pe) [])
    as (q1 & q2 & Hq & Hdrain).
  { intros b Hb. destruct (BlockPosToIdx_eq b (Hqin b Hb) Hfit) as (_ & -> & _).
    apply (Hiff b (Hqin b Hb)). done. }
  rewrite Hdrain. simpl.
  change (updatedBlocks pe0) with (updatedBlocks pe).
  change (nodeMask (blockStates pe0)) with (nodeMask (blockStates pe)).
  rewrite Hdrain. simpl.
  set (cs := concat (Update_entries <$> q1)).
  assert (forall b, b ∈ q1 -> in_map b) as Hq1in.
  { intros b Hb. apply Hqin. rewrite Hq. apply elem_of_app. now left. }
  rewrite Hq in Hnd. apply list.NoDup_app in Hnd as (Hnd1 & Hdisj & Hnd2).
  destruct (updatedBlocks pe) as [|p0 qrest] eqn:Hqueue.
  { destruct q1; [|discriminate]. destruct q2; [|discriminate].
    exists pe0, []. repeat (split; [done|]). split; [now exists []|].
    intros sb Hsb. inversion Hsb. }
  rewrite <- Hqueue in *. clear p0 qrest Hqueue.
  set (pe1 := set_updatedBlocks q2 pe0).
  assert (tables_sized pe1) as Hsz1 by done.
  destruct (Update_offsets_spec pe1 cs Hsz1) as (pe2 & Hoff & Hsz2 & Hm2 & Hq2).
  { apply list.Forall_forall. intros sb Hsb.
    apply Update_entries_in in Hsb as [Hb Hmd]. split; [auto|].
    now apply moveDefs_in_use_range. }
  rewrite Hoff. simpl.
  destruct (Update_vertices_blocks pe2 q1 Hwf Huse Hsz2 Hq1in)
    as (pe3 & Hrun & Hsz3 & Hq3 & Hmask3).
  exists pe3, cs. split; [done|]. split; [done|]. split; [done|].
  assert (updatedBlocks pe3 = q2) as Hqueue3 by (rewrite Hq3, Hq2; done).
  assert (forall b, in_map b -> b ∉ q1 -> obsolete_bit pe3 b <-> obsolete_bit pe b) as Hsame.
  { intros b Hb Hnot. destruct (Hmask3 b Hb) as [_ Hout].
    unfold obsolete_bit. rewrite (Hout Hnot), Hm2. done. }
  split.
  - split; [now rewrite Hqueue3|]. split.
    + rewrite Hqueue3. intros b Hb. apply Hqin. rewrite Hq. apply elem_of_app. now right.
    + intros b Hb. rewrite Hqueue3. destruct (decide (b ∈ q1)) as [Hin1|Hnin1].
      * destruct (Hmask3 b Hb) as [Hcl _]. split; [|intros Hobs; now apply Hcl in Hobs].
        intros Hin2. now apply Hdisj in Hin2.
      * rewrite (Hsame b Hb Hnin1), <- (Hiff b Hb), Hq, elem_of_app. tauto.
  - split; [exists q1; now rewrite Hqueue3|].
    intros sb Hsb. apply Update_entries_in in Hsb as [Hb _].
    assert (in_map (sb_blockPos sb)) as Hbin by auto.
    split; [|split].
    + apply (Hiff _ Hbin). rewrite Hq. apply elem_of_app. now left.
    + now apply (Hmask3 _ Hbin).
    + rewrite Hqueue3. now apply Hdisj.
Qed.
End UpdateTotal.

Section ObsoleteQueue.
Context {F : Type} `{!FloatOps F} `{!PathConstants} `{!Grid} `{!Collaborators F}
        `{!MoveDefHandler}.
Implicit Types (pe : CPathEstimator F).

Lemma between_calls_invariant pe0 pe :
  PATHOPT_OBSOLETE <> 0 -> handler_wf -> some_class_in_use ->
  tables_sized pe0 -> queue_invariant pe0 ->
  between_calls pe0 pe -> tables_sized pe /\ queue_invariant pe.
Proof.
  intros Hne Hwf Huse Hsz0 Hinv0. induction 1 as [|pe x1 z1 x2 z2 pe' _ IH Hrun|pe pe' _ IH Hrun].
  - done.
  - destruct IH as [Hsz Hinv].
    destruct (MapChanged_spec pe x1 z1 x2 z2 Hne Hsz Hinv) as (pe1 & new & Hrun1 & ? & ? & _).
    rewrite Hrun in Hrun1. injection Hrun1 as <-. done.
  - destruct IH as [Hsz Hinv].
    destruct (Update_spec pe Hwf Huse Hsz Hinv) as (pe1 & cs & Hrun1 & _ & ? & ? & _).
    rewrite Hrun in Hrun1. injection Hrun1 as <-. done.
Qed.

(** C7, amended. With at least one move class in use: in every state
    between calls of [MapChanged] and [Update], a block of the map is in
    the obsolete queue, once, iff its OBSOLETE bit is set; [MapChanged]
    returns and enqueues only blocks whose bit was clear; [Update] returns,
    sets no OBSOLETE bit, and the blocks it processes are blocks whose bit
    was set, is clear afterwards, and that are no longer queued, so that
    only a later [MapChanged] brings them back. *)
Theorem obsolete_queue_invariant (pe0 pe : CPathEstimator F) :
  PATHOPT_OBSOLETE <> 0 -> handler_wf -> some_class_in_use ->
  tables_sized pe0 -> queue_invariant pe0 ->
  between_calls pe0 pe ->
  queue_invariant pe
  /\ (forall x1 z1 x2 z2, exists pe' new,
        MapChanged pe x1 z1 x2 z2 = Some pe'
        /\ updatedBlocks pe' = updatedBlocks pe ++ new
        /\ forall b, b ∈ new -> in_map b /\ ~ obsolete_bit pe b)
  /\ (exists pe' cs,
        Update pe = Some pe' /\ Update_consumed pe = Some cs
        /\ (forall b, in_map b -> ~ obsolete_bit pe b -> ~ obsolete_bit pe' b)
        /\ forall sb, sb ∈ cs ->
             obsolete_bit pe (sb_blockPos sb)
             /\ ~ obsolete_bit pe' (sb_blockPos sb)
             /\ sb_blockPos sb ∉ updatedBlocks pe').
Proof.
  intros Hne Hwf Huse Hsz0 Hinv0 Hcalls.
  destruct (between_calls_invariant pe0 pe Hne Hwf Huse Hsz0 Hinv0 Hcalls) as [Hsz Hinv].
  split; [done|]. split.
  - intros x1 z1 x2 z2.
    destruct (MapChanged_spec pe x1 z1 x2 z2 Hne Hsz Hinv)
      as (pe' & new & Hrun & _ & _ & Hq & Hnew).
    exists pe', new. done.
  - destruct (Update_spec pe Hwf Huse Hsz Hinv)
      as (pe' & cs & Hrun & Hcs & _ & Hinv' & (q1 & Hq) & Hproc).
    exists pe', cs. split; [done|]. split; [done|]. split; [|done].
    intros b Hb Hclear Hset.
    destruct Hinv as (_ & _ & Hiff), Hinv' as (_ & _ & Hiff').
    apply Hclear, (Hiff b Hb). rewrite Hq. apply elem_of_app. right.
    now apply (Hiff' b Hb).
Qed.
End ObsoleteQueue.

(** The queue invariant holds of [queued_estimator]. *)
Lemma queued_estimator_invariant :
  @queue_invariant xfloat engine_constants grid8 queued_estimator.
Proof.
  split; [apply list.NoDup_singleton|]. split.
  - intros b Hb. apply list_elem_of_singleton in Hb as ->. vm_compute. done.
  - intros [x y] [Hx Hy]. simpl in Hx, Hy.
    change (int2_x nbrOfBlocks) with 4 in Hx. change (int2_y nbrOfBlocks) with 4 in Hy.
    unfold obsolete_bit.
    assert (x = 0 \/ x = 1 \/ x = 2 \/ x = 3) as Hxc by lia.
    assert (y = 0 \/ y = 1 \/ y = 2 \/ y = 3) as Hyc by lia.
    destruct Hxc as [-> | [-> | [-> | ->]]], Hyc as [-> | [-> | [-> | ->]]];
      (split;
       [ intros Hin; apply list_elem_of_singleton in Hin;
         first [ discriminate Hin | exists 128; vm_compute; split; [reflexivity|discriminate] ]
       | intros (m & Hm & Hbit); vm_compute in Hm; injection Hm as <-;
         first [ apply list_elem_of_singleton; reflexivity | exfalso; apply Hbit; reflexivity ] ]).
Qed.

(** C7 as stated fails when no move class is in use: [Update] drops block
    [(0, 0)] from the queue without processing it, and its OBSOLETE bit
    stays set. *)
Lemma Update_drops_block_of_unused_classes :
  @queue_invariant xfloat engine_constants grid8 queued_estimator
  /\ exists pe',
       @Update xfloat _ engine_constants grid8 terrain_with_hole unused_only
         queued_estimator = Some pe'
       /\ updatedBlocks pe' = []
       /\ @obsolete_bit xfloat engine_constants grid8 pe' (mk_int2 0 0)
       /\ ~ @queue_invariant xfloat engine_constants grid8 pe'.
Proof.
  split; [apply queued_estimator_invariant|].
  eexists. split; [vm_compute; reflexivity|].
  assert (@obsolete_bit xfloat engine_constants grid8
            (set_blockUpdatePenalty 0 (set_updatedBlocks [] queued_estimator))
            (mk_int2 0 0)) as Hbit.
  { exists 128. vm_compute. split; [reflexivity|discriminate]. }
  split; [reflexivity|]. split; [exact Hbit|].
  intros (_ & _ & Hiff).
  apply (Hiff (mk_int2 0 0)) in Hbit; [inversion Hbit|].
  vm_compute. done.
Qed.

(** ** The theorems above on concrete estimators *)

Lemma engine_opposite_vectors : @opposite_vectors engine_constants.
Proof.
  intros d Hd.
  assert (d = 0 \/ d = 1 \/ d = 2 \/ d = 3 \/ d = 4 \/ d = 5 \/ d = 6 \/ d = 7)
    as Hcases by lia.
  destruct Hcases as [-> | [-> | [-> | [-> | [-> | [-> | [-> | ->]]]]]]];
    vm_compute; done.
Qed.

Lemma fresh_estimator_sized : @tables_sized xfloat grid8 walkers fresh_estimator.
Proof.
  unfold tables_sized. repeat (split; [vm_compute; congruence|]).
  split; [|reflexivity].
  vm_compute. repeat constructor.
Qed.

Lemma queued_estimator_sized : @tables_sized xfloat grid8 walkers queued_estimator.
Proof. exact fresh_estimator_sized. Qed.

Lemma walkers_wf : @handler_wf walkers.
Proof.
  intros i md Hi. destruct i as [|i]; [|destruct i; discriminate].
  injection Hi as <-. reflexivity.
Qed.

Lemma walkers_in_use : @some_class_in_use walkers.
Proof. exists walker. split; [left|reflexivity]. Qed.

Lemma vertex_cost_symmetry_witness :
  exists c,
    @vertex_cost xfloat engine_constants grid8 fresh_estimator walker (mk_int2 1 1) 5 = Some c
    /\ @vertex_cost xfloat engine_constants grid8 fresh_estimator walker (mk_int2 0 0) 1 = Some c.
Proof.
  refine (proj1 (@vertex_cost_symmetry xfloat xfloat_ops engine_constants grid8
                   terrain_with_hole fresh_estimator walker (mk_int2 1 1) 5
                   engine_opposite_vectors _ _ _ _)).
  - unfold vertex_table_sized. repeat split; vm_compute; congruence.
  - lia.
  - vm_compute. repeat split; congruence.
  - vm_compute. repeat split; congruence.
Defined.

Lemma CalculateVertex_stored_cost_witness :
  exists pe' stored,
    @CalculateVertex xfloat _ engine_constants grid8 terrain_with_hole
      fresh_estimator walker (mk_int2 0 0) 0 0 = Some pe'
    /\ vget (vertexCosts pe') 0 = Some stored
    /\ stored = XFin (QArith_base.inject_Z 10).
Proof.
  destruct (@CalculateVertex_stored_cost xfloat xfloat_ops engine_constants grid8
              terrain_with_hole fresh_estimator walker (mk_int2 0 0) 0 0)
    as (pe' & stored & Hrun & Hget & _ & Hin).
  - vm_compute. split; congruence.
  - intros _. split; eexists; vm_compute; reflexivity.
  - exists pe', stored. split; [exact Hrun|]. split; [exact Hget|].
    destruct (Hin (mk_int2 0 0) (mk_int2 0 0)) as [_ Hok];
      [reflexivity|reflexivity|reflexivity|].
    destruct (Hok eq_refl eq_refl Ok (XFin (QArith_base.inject_Z 10)) eq_refl) as [_ Hc].
    exact (Hc eq_refl).
Defined.

Lemma FindOffset_in_block_witness :
  let sq := @FindOffset xfloat _ engine_constants grid8 terrain_blocked walker 1 2 in
  (8 <= int2_x sq < 16 /\ 16 <= int2_y sq < 24) /\ sq = mk_int2 12 20.
Proof.
  destruct (@FindOffset_in_block xfloat xfloat_ops engine_constants grid8
              terrain_blocked walker 1 2) as [Hin Hcentre].
  - reflexivity.
  - vm_compute. repeat split; congruence.
  - vm_compute. congruence.
  - vm_compute. congruence.
  - split; [exact Hin|]. apply Hcentre. intros x z _ _. reflexivity.
Defined.

Lemma FindOffset_deterministic_witness :
  @FindOffset xfloat _ engine_constants grid8 terrain_with_hole walker 0 0
  = @FindOffset xfloat _ engine_constants grid8 terrain_with_hole' walker 0 0.
Proof.
  refine (proj1 (@FindOffset_deterministic xfloat xfloat_ops engine_constants grid8
                   terrain_with_hole terrain_with_hole' walker 0 0 _)).
  intros x z _ _. repeat split; reflexivity.
Defined.

Lemma obsolete_queue_invariant_witness :
  @queue_invariant xfloat engine_constants grid8 queued_estimator
  /\ exists pe',
       @Update xfloat _ engine_constants grid8 terrain_with_hole walkers
         queued_estimator = Some pe'.
Proof.
  destruct (@obsolete_queue_invariant xfloat xfloat_ops engine_constants grid8
              terrain_with_hole walkers queued_estimator queued_estimator)
    as (Hinv & _ & pe' & cs & Hrun & _).
  - vm_compute. congruence.
  - exact walkers_wf.
  - exact walkers_in_use.
  - exact queued_estimator_sized.
  - exact queued_estimator_invariant.
  - constructor.
  - split; [exact Hinv|]. exists pe'. exact Hrun.
Defined.

(** ** The search: TestBlock *)

Section TestBlockFacts.
Context {F : Type} `{!FloatOps F} `{!PathConstants} `{!Grid} `{!CPathFinderDef F}
        `{!MoveDefHandler}.
Implicit Types (pe : CPathEstimator F).

Lemma opposite_upper d : 4 <= d < 8 -> opposite d = d - 4.
Proof.
  intros Hd. assert (d = 4 \/ d = 5 \/ d = 6 \/ d = 7) as Hc by lia.
  destruct Hc as [-> | [-> | [-> | ->]]]; reflexivity.
Qed.

(** The entry [TestBlock] reads lies in the table whenever both blocks of
    the edge are on the map. *)
Lemma vertexIdx_range pe md (a : int2) d :
  tables_sized pe -> 0 <= pathType md < GetNumMoveDefs ->
  in_map a -> 0 <= d < 8 -> in_map (int2_add a (PE_DIRECTION_VECTORS d)) ->
  0 <= vertexIdx pe md (BlockPosToIdx a) d < Z.of_nat (length (vertexCosts pe)).
Proof.
  intros Hsz Hpt Ha Hd Hb.
  pose proof Hsz as (Hnx & Hny & Hfit & Hfit' & Hsize & Hoffs & Hrows & Hvc).
  assert (int2_x nbrOfBlocks * int2_y nbrOfBlocks <= 2 ^ 32) as Hfit32 by lia.
  assert (forall c e, in_map c -> 0 <= e < 4 ->
          0 <= wrap32 (pathType md * GetSize (blockStates pe) * 4 + BlockPosToIdx c * 4 + e)
          < Z.of_nat (length (vertexCosts pe))) as Hstored.
  { intros c e Hc He. destruct (BlockPosToIdx_in_map c Hc Hfit32) as [_ Hr].
    rewrite Hsize, Hvc. rewrite wrap32_small; nia. }
  destruct (Z.lt_ge_cases d 4) as [Hlt|Hge].
  - unfold vertexIdx. rewrite GetBlockVertexOffset_stored by done.
    apply Hstored; [done|lia].
  - replace (vertexIdx pe md (BlockPosToIdx a) d)
      with (wrap32 (pathType md * GetSize (blockStates pe) * 4
                    + BlockPosToIdx (int2_add a (PE_DIRECTION_VECTORS d)) * 4 + (d - 4))).
    { apply Hstored; [done|lia]. }
    unfold vertexIdx, GetBlockVertexOffset, PATH_DIRECTION_VERTICES.
    destruct (Z.ltb_spec d 4) as [|_]; [lia|].
    rewrite opposite_upper by lia.
    unfold BlockPosToIdx, int2_add. simpl.
    generalize (pathType md * GetSize (blockStates pe) * 4). intros base.
    unfold wrap32, to_int32. Z.mod_equality.
Qed.

Lemma bounds_checks_in_map (p d : int2) :
  int2_x nbrOfBlocks <= 2 ^ 31 -> int2_y nbrOfBlocks <= 2 ^ 31 ->
  let block := int2_add p d in
  ((int2_x nbrOfBlocks <=? wrap32 (int2_x block)) = false
   /\ (int2_y nbrOfBlocks <=? wrap32 (int2_y block)) = false)
  <-> in_map block.
Proof.
  intros Hnx Hny block.
  destruct (int2_add_range p d) as [Hx Hy]. fold block in Hx, Hy.
  unfold in_map, wrap32. rewrite !Z.leb_gt.
  assert (forall v n, - 2 ^ 31 <= v < 2 ^ 31 -> n <= 2 ^ 31 ->
          (v mod 2 ^ 32 < n <-> 0 <= v < n)) as Haux.
  { intros v n Hv Hn. destruct (Z.lt_ge_cases v 0) as [Hneg|Hpos].
    - assert (v mod 2 ^ 32 = v + 2 ^ 32); [|lia].
      symmetry. apply (Z.mod_unique_pos _ _ (-1)); lia.
    - rewrite Z.mod_small; lia. }
  rewrite (Haux _ _ Hx Hnx), (Haux _ _ Hy Hny). done.
Qed.

(** The tail of [TestBlock] on a child of the map. *)
Lemma TestBlock_open_spec pe parent pathDir block m0 f g h :
  search_sized pe -> in_map block ->
  0 <= openBlockBuffer pe -> openBlockBuffer pe + 1 < MAX_SEARCHED_NODES_PE ->
  MAX_SEARCHED_NODES_PE <= 2 ^ 32 ->
  exists pe',
    TestBlock_open (set_testedBlocks (testedBlocks pe + 1) pe) parent pathDir block
      (BlockPosToIdx block) m0 f g h = Some (true, pe')
    /\ opened pe pe' parent pathDir block (BlockPosToIdx block) m0 f g h.
Proof.
  intros (Hsz & Hf & Hg & Hp) Hin Hbuf Hmax Hmax32.
  pose proof Hsz as (Hnx & Hny & Hfit & Hfit' & Hsize & Hoffs & Hrows & Hvc).
  unfold GetSize in Hsize.
  destruct (BlockPosToIdx_eq block Hin Hfit) as (_ & _ & Hidx).
  unfold TestBlock_open. simpl.
  rewrite wrap32_small by lia.
  destruct (Z.ltb_spec (openBlockBuffer pe + 1) MAX_SEARCHED_NODES_PE) as [_|]; [|lia].
  simpl.
  rewrite !vset_Some by lia. simpl.
  unfold opened. rewrite !vset_Some by lia.
  destruct (flt h (mGoalHeuristic pe)); simpl;
    (eexists; split; [reflexivity|]);
    eexists _, _, _, _; repeat (split; [reflexivity|]); reflexivity.
Qed.
End TestBlockFacts.

Section TestBlockCases.
Context {F : Type} `{!FloatOps F} `{!PathConstants} `{!Grid} `{!CPathFinderDef F}
        `{!MoveDefHandler}.
Implicit Types (pe : CPathEstimator F).

(** Every path through [TestBlock], on a well-formed estimator. *)
Lemma TestBlock_cases pe md (parent : PathNode F) pathDir synced :
  search_sized pe -> 0 <= pathType md < GetNumMoveDefs -> node_wf parent ->
  0 <= pathDir < 8 ->
  0 <= openBlockBuffer pe -> openBlockBuffer pe + 1 < MAX_SEARCHED_NODES_PE ->
  MAX_SEARCHED_NODES_PE <= 2 ^ 32 ->
  let block := int2_add (nodePos parent) (PE_DIRECTION_VECTORS pathDir) in
  let blockIdx := BlockPosToIdx block in
  exists res pe',
    TestBlock pe md parent pathDir synced = Some (res, pe')
    /\ ((~ in_map block /\ res = false /\ only_counted pe pe')
        \/ (in_map block /\ exists m sq v,
              vget (nodeMask (blockStates pe)) blockIdx = Some m
              /\ offset_at (blockStates pe) blockIdx (pathType md) = Some sq
              /\ vertex_cost pe md (nodePos parent) pathDir = Some v
              /\ let f := TestBlock_fCost md parent pathDir synced v sq in
                 let g := TestBlock_gCost md parent pathDir synced v sq in
                 let h := TestBlock_hCost sq in
                 ((Z.land m (Z.lor PATHOPT_BLOCKED PATHOPT_CLOSED) <> 0
                   /\ res = false /\ only_counted pe pe')
                  \/ (Z.land m (Z.lor PATHOPT_BLOCKED PATHOPT_CLOSED) = 0
                      /\ ((fle PATHCOST_INFINITY v = true
                           /\ res = false /\ only_counted pe pe')
                          \/ (fle PATHCOST_INFINITY v = false
                              /\ ((WithinConstraints (int2_x sq) (int2_y sq) = false
                                   /\ res = false /\ marked_blocked pe pe' blockIdx m)
                                  \/ (WithinConstraints (int2_x sq) (int2_y sq) = true
                                      /\ ((Z.land m PATHOPT_OPEN <> 0
                                           /\ exists stored,
                                                vget (fCost (blockStates pe)) blockIdx = Some stored
                                                /\ ((fle stored f = true
                                                     /\ res = true /\ only_counted pe pe')
                                                    \/ (fle stored f = false
                                                        /\ res = true
                                                        /\ opened pe pe' parent pathDir block blockIdx
                                                             (Z.land m (Z.lnot PATHOPT_CARDINALS)) f g h)))
                                          \/ (Z.land m PATHOPT_OPEN = 0
                                              /\ res = true
                                              /\ opened pe pe' parent pathDir block blockIdx m f g h)))))))))).
Proof.
  intros Hss Hpt [Hpin Hpnum] Hd Hbuf Hmax Hmax32 block blockIdx.
  pose proof Hss as (Hsz & Hf & Hg & Hp).
  pose proof Hsz as (Hnx & Hny & Hfit & Hfit' & Hsize & Hoffs & Hrows & Hvc).
  assert (int2_x nbrOfBlocks <= 2 ^ 31 /\ int2_y nbrOfBlocks <= 2 ^ 31) as [Hnx31 Hny31] by nia.
  pose proof (bounds_checks_in_map (nodePos parent) (PE_DIRECTION_VECTORS pathDir) Hnx31 Hny31)
    as Hchk. cbv zeta in Hchk. fold block in Hchk.
  unfold TestBlock. fold block. fold blockIdx.
  set (pe_t := set_testedBlocks (testedBlocks pe + 1) pe).
  destruct (int2_x nbrOfBlocks <=? wrap32 (int2_x block)) eqn:Hcx.
  { exists false, pe_t. split; [done|]. left. split; [|done].
    intros Hin. apply Hchk in Hin as [Hin _]. congruence. }
  destruct (int2_y nbrOfBlocks <=? wrap32 (int2_y block)) eqn:Hcy.
  { exists false, pe_t. split; [done|]. left. split; [|done].
    intros Hin. apply Hchk in Hin as [_ Hin]. congruence. }
  assert (in_map block) as Hin by (apply Hchk; done).
  destruct (BlockPosToIdx_eq block Hin Hfit) as (_ & _ & Hidx). fold blockIdx in Hidx.
  change (blockStates pe_t) with (blockStates pe).
  change (vertexCosts pe_t) with (vertexCosts pe).
  unfold GetSize in Hsize.
  destruct (vget_is_Some (nodeMask (blockStates pe)) blockIdx) as [m Hm]; [lia|].
  destruct (offset_at_is_Some pe blockIdx (pathType md) Hsz Hidx Hpt) as [sq Hsq].
  assert (is_Some (vertex_cost pe md (nodePos parent) pathDir)) as [v Hv].
  { apply vget_is_Some, vertexIdx_range; done. }
  assert (vget (vertexCosts pe) (vertexIdx pe_t md (nodeNum parent) pathDir) = Some v) as Hv'.
  { rewrite Hpnum. exact Hv. }
  rewrite Hm. simpl. rewrite Hsq. simpl. rewrite Hv'. simpl.
  destruct (Z.eqb_spec (Z.land m (Z.lor PATHOPT_BLOCKED PATHOPT_CLOSED)) 0) as [Hfree|Hunav];
    simpl.
  2: { exists false, pe_t. split; [done|]. right. split; [done|].
       exists m, sq, v. repeat (split; [done|]). left. done. }
  destruct (fle PATHCOST_INFINITY v) eqn:Hinf.
  { exists false, pe_t. split; [done|]. right. split; [done|].
    exists m, sq, v. repeat (split; [done|]). right. split; [done|]. left. done. }
  destruct (WithinConstraints (int2_x sq) (int2_y sq)) eqn:Hwc; simpl.
  2: { rewrite vset_Some by lia. simpl. eexists false, _. split; [reflexivity|].
       right. split; [done|]. exists m, sq, v. repeat (split; [done|]).
       right. split; [done|]. right. split; [done|]. left.
       split; [done|]. split; [done|].
       unfold marked_blocked. rewrite vset_Some by lia. eexists. split; reflexivity. }
  fold (TestBlock_gCost md parent pathDir synced v sq).
  fold (TestBlock_hCost sq).
  fold (TestBlock_fCost md parent pathDir synced v sq).
  set (f := TestBlock_fCost md parent pathDir synced v sq).
  set (g := TestBlock_gCost md parent pathDir synced v sq).
  set (h := TestBlock_hCost sq).
  destruct (Z.eqb_spec (Z.land m PATHOPT_OPEN) 0) as [Hnotopen|Hopen]; simpl.
  - destruct (TestBlock_open_spec pe parent pathDir block m f g h Hss Hin Hbuf Hmax Hmax32)
      as (pe' & Hrun & Hopened).
    exists true, pe'. split; [exact Hrun|].
    right. split; [done|]. exists m, sq, v. repeat (split; [done|]).
    right. split; [done|]. right. split; [done|]. right. split; [done|].
    right. done.
  - destruct (vget_is_Some (fCost (blockStates pe)) blockIdx) as [stored Hst]; [lia|].
    rewrite Hst. simpl.
    destruct (fle stored f) eqn:Hle.
    + exists true, pe_t. split; [done|].
      right. split; [done|]. exists m, sq, v. repeat (split; [done|]).
      right. split; [done|]. right. split; [done|]. right. split; [done|].
      left. split; [done|]. exists stored. split; [done|]. left. done.
    + destruct (TestBlock_open_spec pe parent pathDir block
                  (Z.land m (Z.lnot PATHOPT_CARDINALS)) f g h Hss Hin Hbuf Hmax Hmax32)
        as (pe' & Hrun & Hopened).
      exists true, pe'. split; [exact Hrun|].
      right. split; [done|]. exists m, sq, v. repeat (split; [done|]).
      right. split; [done|]. right. split; [done|]. right. split; [done|].
      left. split; [done|]. exists stored. split; [done|]. right. done.
Qed.
End TestBlockCases.

Section TestBlockContract.
Context {F : Type} `{!FloatOps F} `{!PathConstants} `{!Grid} `{!CPathFinderDef F}
        `{!MoveDefHandler}.
Implicit Types (pe : CPathEstimator F).

Lemma land_lor_flag m flag : flag <> 0 -> Z.land (Z.lor m flag) flag <> 0.
Proof.
  intros Hne. rewrite Z.land_lor_distr_l, Z.land_diag.
  intros Hz. apply Z.lor_eq_0_iff in Hz. tauto.
Qed.

Lemma land_cleared m field : Z.land (Z.land m (Z.lnot field)) field = 0.
Proof.
  rewrite <- Z.land_assoc, (Z.land_comm (Z.lnot _)), Z.land_lnot_diag.
  apply Z.land_0_r.
Qed.

Lemma land_lor_blocked_or_closed m :
  Z.land m (Z.lor PATHOPT_BLOCKED PATHOPT_CLOSED) = 0
  <-> Z.land m PATHOPT_BLOCKED = 0 /\ Z.land m PATHOPT_CLOSED = 0.
Proof. rewrite Z.land_lor_distr_r. apply Z.lor_eq_0_iff. Qed.

(** The tables after a block entered the open set. *)
Lemma opened_enters pe pe' parent pathDir block blockIdx m0 f g h :
  flags_disjoint -> 0 <= pathDir < 8 ->
  Z.land m0 PATHOPT_CARDINALS = 0 ->
  opened pe pe' parent pathDir block blockIdx m0 f g h ->
  enters_open_set pe pe' parent pathDir block blockIdx f g.
Proof.
  intros (Hoc & _ & _ & _ & _ & _ & Hopen & _ & _ & Hdir) Hd Hm0
         (nm & fs & gs & ps & Hnm & Hfs & Hgs & Hps & ->).
  unfold enters_open_set. simpl.
  split; [|repeat split; eauto using vget_vset_eq].
  eexists. split; [eapply vget_vset_eq, Hnm|]. split.
  - rewrite Z.lor_assoc. now apply land_lor_flag.
  - rewrite !Z.land_lor_distr_l, Hm0, Hoc, (Hdir pathDir Hd).
    rewrite Z.lor_0_l, Z.lor_0_r. done.
Qed.

(** C4. [TestBlock] on a well-formed estimator returns, and: it rejects and
    changes nothing but its call counter when the child is off the map,
    when the child is BLOCKED or CLOSED, and when the vertex cost is
    INFINITY; when the child's square is outside the constraints it
    rejects, sets BLOCKED on the child and appends it to the dirty list;
    when the child is OPEN with a stored f not above the new one it accepts
    and changes nothing but the counter; otherwise it accepts, clears the
    direction field of an OPEN child, and the child enters the open set
    with the new f and g, the parent's position, and OPEN with the arrival
    direction. *)
Theorem TestBlock_contract pe md (parent : PathNode F) pathDir synced :
  infinity_is_top -> flags_disjoint ->
  search_sized pe -> 0 <= pathType md < GetNumMoveDefs -> node_wf parent ->
  0 <= pathDir < 8 ->
  0 <= openBlockBuffer pe -> openBlockBuffer pe + 1 < MAX_SEARCHED_NODES_PE ->
  MAX_SEARCHED_NODES_PE <= 2 ^ 32 ->
  let block := int2_add (nodePos parent) (PE_DIRECTION_VECTORS pathDir) in
  let blockIdx := BlockPosToIdx block in
  exists res pe',
    TestBlock pe md parent pathDir synced = Some (res, pe')
    /\ (~ in_map block -> res = false /\ only_counted pe pe')
    /\ (in_map block ->
        exists m sq v,
          vget (nodeMask (blockStates pe)) blockIdx = Some m
          /\ offset_at (blockStates pe) blockIdx (pathType md) = Some sq
          /\ vertex_cost pe md (nodePos parent) pathDir = Some v
          /\ let f := TestBlock_fCost md parent pathDir synced v sq in
             let g := TestBlock_gCost md parent pathDir synced v sq in
             let h := TestBlock_hCost sq in
             (Z.land m PATHOPT_BLOCKED <> 0 \/ Z.land m PATHOPT_CLOSED <> 0
              \/ v = PATHCOST_INFINITY ->
              res = false /\ only_counted pe pe')
             /\ (Z.land m PATHOPT_BLOCKED = 0 -> Z.land m PATHOPT_CLOSED = 0 ->
                 v <> PATHCOST_INFINITY ->
                 (WithinConstraints (int2_x sq) (int2_y sq) = false ->
                  res = false /\ marked_blocked pe pe' blockIdx m
                  /\ (exists m', vget (nodeMask (blockStates pe')) blockIdx = Some m'
                                 /\ Z.land m' PATHOPT_BLOCKED <> 0)
                  /\ dirtyBlocks pe' = dirtyBlocks pe ++ [blockIdx]
                  /\ openBlocks pe' = openBlocks pe)
                 /\ (WithinConstraints (int2_x sq) (int2_y sq) = true ->
                     (Z.land m PATHOPT_OPEN <> 0 ->
                      exists stored,
                        vget (fCost (blockStates pe)) blockIdx = Some stored
                        /\ (fle stored f = true -> res = true /\ only_counted pe pe')
                        /\ (fle stored f = false ->
                            res = true
                            /\ opened pe pe' parent pathDir block blockIdx
                                 (Z.land m (Z.lnot PATHOPT_CARDINALS)) f g h
                            /\ enters_open_set pe pe' parent pathDir block blockIdx f g))
                     /\ (Z.land m PATHOPT_OPEN = 0 ->
                         res = true
                         /\ opened pe pe' parent pathDir block blockIdx m f g h
                         /\ (Z.land m PATHOPT_CARDINALS = 0 ->
                             enters_open_set pe pe' parent pathDir block blockIdx f g))))).
Proof.
  intros Htop Hflags Hss Hpt Hpwf Hd Hbuf Hmax Hmax32 block blockIdx.
  destruct (TestBlock_cases pe md parent pathDir synced Hss Hpt Hpwf Hd Hbuf Hmax Hmax32)
    as (res & pe' & Hrun & Hcases).
  fold block in Hcases. fold blockIdx in Hcases.
  exists res, pe'. split; [exact Hrun|].
  destruct Hcases as [(Hout & -> & Hsame) | (Hin & m & sq & v & Hm & Hsq & Hv & Hcases)].
  { split; [done|]. intros Hin. done. }
  split; [done|]. intros _. exists m, sq, v. repeat (split; [done|]).
  cbv zeta in Hcases. cbv zeta.
  set (f := TestBlock_fCost md parent pathDir synced v sq) in *.
  set (g := TestBlock_gCost md parent pathDir synced v sq) in *.
  set (h := TestBlock_hCost sq) in *.
  pose proof (land_lor_blocked_or_closed m) as Hbc.
  destruct Hcases as [(Hunav & -> & Hsame) | (Hfree & Hcases)].
  { split; [done|]. intros Hb Hc. exfalso. apply Hunav, Hbc. done. }
  apply Hbc in Hfree as [Hb Hc].
  destruct Hcases as [(Hinf & -> & Hsame) | (Hfin & Hcases)].
  { split; [done|]. intros _ _ Hne. exfalso. apply Hne, Htop, Hinf. }
  assert (v <> PATHCOST_INFINITY) as Hvfin.
  { intros Heq. apply Htop in Heq. congruence. }
  split.
  { intros [Hb'|[Hc'|Hv']]; done. }
  intros _ _ _.
  pose proof Hflags as (_ & _ & _ & _ & _ & _ & _ & _ & Hblocked & _).
  destruct Hcases as [(Hwc & -> & Hmarked) | (Hwc & Hcases)].
  { split; [|intros Hwc'; congruence]. intros _.
    split; [done|]. split; [done|].
    destruct Hmarked as (nm & Hnm & ->). simpl. split; [|done].
    eexists. split; [eapply vget_vset_eq, Hnm|]. now apply land_lor_flag. }
  split; [intros Hwc'; congruence|]. intros _.
  destruct Hcases as [(Hopen & stored & Hst & Hcases) | (Hnotopen & -> & Hopened)].
  - split; [|intros Hz; congruence]. intros _. exists stored. split; [done|].
    destruct Hcases as [(Hle & -> & Hsame) | (Hgt & -> & Hopened)].
    + split; [done|]. intros Hle'. congruence.
    + split; [intros Hle'; congruence|]. intros _. split; [done|]. split; [done|].
      eapply opened_enters; eauto. apply land_cleared.
  - split; [intros Hz; congruence|]. intros _. split; [done|]. split; [done|].
    intros Hcard. eapply opened_enters; eauto.
Qed.
End TestBlockContract.

(** ** The search: DoSearch *)

Section SearchSteps.
Context {F : Type} `{!FloatOps F} `{!PathConstants} `{!Grid} `{!CPathFinderDef F}
        `{!MoveDefHandler}.
Implicit Types (pe : CPathEstimator F).

Lemma same_shape_refl pe : same_shape pe pe.
Proof. unfold same_shape. done. Qed.

Lemma same_shape_trans pe1 pe2 pe3 :
  same_shape pe1 pe2 -> same_shape pe2 pe3 -> same_shape pe1 pe3.
Proof.
  unfold same_shape. intros (? & ? & ? & ? & ? & ? & ?) (? & ? & ? & ? & ? & ? & ?).
  repeat split; congruence.
Qed.

Lemma search_sized_same_shape pe pe' :
  same_shape pe pe' -> search_sized pe -> search_sized pe'.
Proof.
  unfold same_shape, search_sized, tables_sized, GetSize.
  intros (-> & -> & -> & -> & -> & -> & _). done.
Qed.

Lemma land_land_zero m X Y : Z.land m X = 0 -> Z.land (Z.land m Y) X = 0.
Proof.
  intros Hz. rewrite <- Z.land_assoc, (Z.land_comm Y X), Z.land_assoc, Hz.
  apply Z.land_0_l.
Qed.

Lemma direction_not_flag d flag :
  Z.land d PATHOPT_CARDINALS = d -> Z.land flag PATHOPT_CARDINALS = 0 ->
  Z.land d flag = 0.
Proof.
  intros Hd Hflag. rewrite <- Hd, <- Z.land_assoc, (Z.land_comm _ flag), Hflag.
  apply Z.land_0_r.
Qed.

(** One call of [TestBlock], as the loop of [DoSearch] sees it. *)
Lemma TestBlock_step pe md (parent : PathNode F) pathDir synced :
  flags_disjoint ->
  search_sized pe -> 0 <= pathType md < GetNumMoveDefs -> node_wf parent ->
  0 <= pathDir < 8 ->
  0 <= openBlockBuffer pe -> openBlockBuffer pe + 1 < MAX_SEARCHED_NODES_PE ->
  MAX_SEARCHED_NODES_PE <= 2 ^ 32 ->
  exists res pe' new,
    TestBlock pe md parent pathDir synced = Some (res, pe')
    /\ same_shape pe pe'
    /\ openBlocks pe' = openBlocks pe ++ new
    /\ (length new <= 1)%nat
    /\ openBlockBuffer pe' = openBlockBuffer pe + Z.of_nat (length new)
    /\ Forall (fun ob => node_wf ob /\ node_within pe md ob) new
    /\ mask_step pe pe' md.
Proof.
  intros Hflags Hss Hpt Hpwf Hd Hbuf Hmax Hmax32.
  destruct (TestBlock_cases pe md parent pathDir synced Hss Hpt Hpwf Hd Hbuf Hmax Hmax32)
    as (res & pe' & Hrun & Hcases).
  set (block := int2_add (nodePos parent) (PE_DIRECTION_VECTORS pathDir)) in *.
  set (blockIdx := BlockPosToIdx block) in *.
  exists res, pe'.
  assert (only_counted pe pe' ->
          same_shape pe pe' /\ openBlocks pe' = openBlocks pe ++ []
          /\ (length (@nil (PathNode F)) <= 1)%nat
          /\ openBlockBuffer pe' = openBlockBuffer pe + Z.of_nat (length (@nil (PathNode F)))
          /\ Forall (fun ob => node_wf ob /\ node_within pe md ob) []
          /\ mask_step pe pe' md) as Hcounted.
  { intros ->. simpl. split; [unfold same_shape; simpl; done|]. rewrite app_nil_r.
    split; [done|]. split; [lia|]. split; [lia|]. split; [constructor|].
    intros j. now left. }
  pose proof Hflags as (Hoc & Hocl & Hob & Hcb & Hcc & Hbc & Hopen & Hclosed & Hblocked & Hdir).
  assert (forall m m0 sq f g h,
            vget (nodeMask (blockStates pe)) blockIdx = Some m ->
            Z.land m (Z.lor PATHOPT_BLOCKED PATHOPT_CLOSED) = 0 ->
            (m0 = m \/ m0 = Z.land m (Z.lnot PATHOPT_CARDINALS)) ->
            in_map block ->
            offset_at (blockStates pe) blockIdx (pathType md) = Some sq ->
            WithinConstraints (int2_x sq) (int2_y sq) = true ->
            opened pe pe' parent pathDir block blockIdx m0 f g h ->
            same_shape pe pe'
            /\ openBlocks pe' = openBlocks pe ++ [mk_PathNode f g block blockIdx]
            /\ (length [mk_PathNode f g block blockIdx] <= 1)%nat
            /\ openBlockBuffer pe' = openBlockBuffer pe
                 + Z.of_nat (length [mk_PathNode f g block blockIdx])
            /\ Forall (fun ob => node_wf ob /\ node_within pe md ob)
                 [mk_PathNode f g block blockIdx]
            /\ mask_step pe pe' md) as Hopened.
  { intros m m0 sq f g h Hm Hfree Hm0 Hin Hsq Hwc
           (nm & fs & gs & ps & Hnm & Hfs & Hgs & Hps & ->).
    simpl. split.
    { unfold same_shape. simpl.
      rewrite (vset_length _ _ _ _ Hnm), (vset_length _ _ _ _ Hfs),
        (vset_length _ _ _ _ Hgs), (vset_length _ _ _ _ Hps). done. }
    split; [done|]. split; [simpl; lia|]. split; [simpl; lia|]. split.
    { constructor; [|constructor]. split; [done|]. exists sq. done. }
    intros j. destruct (decide (j = blockIdx)) as [->|Hne].
    - right. simpl. eexists _, sq. split; [eapply vget_vset_eq, Hnm|].
      apply land_lor_blocked_or_closed in Hfree as [Hfb Hfc].
      assert (Z.land m0 PATHOPT_CLOSED = 0 /\ Z.land m0 PATHOPT_BLOCKED = 0) as [Hm0c Hm0b].
      { destruct Hm0 as [->| ->]; [done|]. split; now apply land_land_zero. }
      assert (Z.land pathDir PATHOPT_CLOSED = 0) as Hdc
        by (apply direction_not_flag; auto).
      assert (Z.land pathDir PATHOPT_BLOCKED = 0) as Hdb
        by (apply direction_not_flag; auto).
      split; [|split; [done|]].
      + rewrite !Z.land_lor_distr_l, Hm0c, Hdc, Hocl. done.
      + rewrite !Z.land_lor_distr_l, Hm0b, Hdb, Hob. done.
    - left. simpl. eapply vget_vset_ne; [exact Hnm|congruence]. }
  destruct Hcases as [(Hout & -> & Hsame) | (Hin & m & sq & v & Hm & Hsq & Hv & Hcases)].
  { exists []. split; [done|]. now apply Hcounted. }
  cbv zeta in Hcases.
  destruct Hcases as [(Hunav & -> & Hsame) | (Hfree & Hcases)].
  { exists []. split; [done|]. now apply Hcounted. }
  destruct Hcases as [(Hinf & -> & Hsame) | (Hfin & Hcases)].
  { exists []. split; [done|]. now apply Hcounted. }
  destruct Hcases as [(Hwc & -> & Hmarked) | (Hwc & Hcases)].
  { exists []. split; [done|]. destruct Hmarked as (nm & Hnm & ->). simpl.
    split.
    { unfold same_shape. simpl. rewrite (vset_length _ _ _ _ Hnm). done. }
    rewrite app_nil_r. split; [done|]. split; [simpl; lia|]. split; [simpl; lia|].
    split; [constructor|].
    intros j. destruct (decide (j = blockIdx)) as [->|Hne].
    - right. simpl. eexists _, sq. split; [eapply vget_vset_eq, Hnm|].
      apply land_lor_blocked_or_closed in Hfree as [Hfb Hfc].
      split; [|done].
      rewrite Z.land_lor_distr_l, Hfc, (Z.land_comm PATHOPT_BLOCKED), Hcb. done.
    - left. simpl. eapply vget_vset_ne; [exact Hnm|congruence]. }
  destruct Hcases as [(Hopen' & stored & Hst & Hcases) | (Hnotopen & -> & Hop)].
  - destruct Hcases as [(Hle & -> & Hsame) | (Hgt & -> & Hop)].
    + exists []. split; [done|]. now apply Hcounted.
    + eexists. split; [done|].
      exact (Hopened m _ sq _ _ _ Hm Hfree (or_intror eq_refl) Hin Hsq Hwc Hop).
  - eexists. split; [done|].
    exact (Hopened m m sq _ _ _ Hm Hfree (or_introl eq_refl) Hin Hsq Hwc Hop).
Qed.
End SearchSteps.

Section OpenSetFacts.
Context {F : Type} `{!FloatOps F}.

Lemma pq_argmin_bound (l : list (PathNode F)) bi bf i :
  (bi < i)%nat -> (pq_argmin bi bf i l < i + length l)%nat.
Proof.
  revert bi bf i. induction l as [|n l IH]; intros bi bf i Hlt; simpl; [lia|].
  destruct (flt (node_fCost n) bf).
  - specialize (IH i (node_fCost n) (S i) ltac:(lia)). lia.
  - specialize (IH bi bf (S i) ltac:(lia)). lia.
Qed.

(** Popping a non-empty open set gives one of its entries and leaves the
    others. *)
Lemma pq_pop_spec (l : list (PathNode F)) :
  l <> [] ->
  exists ob rest i,
    pq_pop l = Some (ob, rest) /\ l !! i = Some ob /\ rest = delete i l
    /\ length l = S (length rest).
Proof.
  destruct l as [|n l]; [done|]. intros _. unfold pq_pop.
  set (i := pq_argmin 0 (node_fCost n) 1 l).
  assert (i < length (n :: l))%nat as Hi.
  { pose proof (pq_argmin_bound l 0 (node_fCost n) 1 ltac:(lia)). simpl. lia. }
  destruct (lookup_lt_is_Some_2 (n :: l) i Hi) as [ob Hob].
  rewrite Hob. simpl. exists ob, (delete i (n :: l)), i.
  repeat (split; [done|]).
  rewrite length_delete by eauto. simpl in *. lia.
Qed.

Lemma pq_pop_None (l : list (PathNode F)) : pq_pop l = None -> l = [].
Proof.
  intros Hnone. destruct l as [|n l]; [done|].
  destruct (pq_pop_spec (n :: l)) as (ob & rest & i & Hp & _); [done|]. congruence.
Qed.
End OpenSetFacts.

Section SearchExpand.
Context {F : Type} `{!FloatOps F} `{!PathConstants} `{!Grid} `{!CPathFinderDef F}
        `{!MoveDefHandler}.
Implicit Types (pe : CPathEstimator F).

Lemma node_within_same_shape pe pe' md ob :
  same_shape pe pe' -> node_within pe md ob -> node_within pe' md ob.
Proof.
  intros (_ & _ & _ & _ & Hoffs & _) (sq & Hsq & Hwc). exists sq.
  unfold offset_at in *. rewrite Hoffs. done.
Qed.

Lemma offset_at_same_shape pe pe' j pt :
  same_shape pe pe' ->
  offset_at (blockStates pe') j pt = offset_at (blockStates pe) j pt.
Proof.
  intros (_ & _ & _ & _ & Hoffs & _). unfold offset_at. now rewrite Hoffs.
Qed.

Lemma DoSearch_isGoal_same_shape pe pe' md ob :
  same_shape pe pe' -> DoSearch_isGoal pe' md ob = DoSearch_isGoal pe md ob.
Proof.
  intros Hsame. unfold DoSearch_isGoal. now rewrite (offset_at_same_shape pe pe').
Qed.

Lemma mask_step_refl pe md : mask_step pe pe md.
Proof. intros j. now left. Qed.

Lemma mask_step_trans pe1 pe2 pe3 md :
  same_shape pe1 pe2 ->
  mask_step pe1 pe2 md -> mask_step pe2 pe3 md -> mask_step pe1 pe3 md.
Proof.
  intros Hsame H12 H23 j.
  destruct (H23 j) as [Heq|(m' & sq & Hm' & Hc & Hsq & Hb)].
  - rewrite Heq. apply H12.
  - right. exists m', sq. rewrite <- (offset_at_same_shape pe1 pe2) by done. done.
Qed.

(** The calls of [TestBlock] for a list of directions. *)
Lemma TestBlock_fold pe md (ob : PathNode F) synced (dirs : list Z) :
  flags_disjoint ->
  search_sized pe -> 0 <= pathType md < GetNumMoveDefs -> node_wf ob ->
  Forall (fun d => 0 <= d < 8) dirs ->
  0 <= openBlockBuffer pe ->
  openBlockBuffer pe + Z.of_nat (length dirs) < MAX_SEARCHED_NODES_PE ->
  MAX_SEARCHED_NODES_PE <= 2 ^ 32 ->
  exists pe' new,
    fold_opt (TestBlock_ md ob synced) pe dirs = Some pe'
    /\ same_shape pe pe'
    /\ openBlocks pe' = openBlocks pe ++ new
    /\ (length new <= length dirs)%nat
    /\ openBlockBuffer pe' = openBlockBuffer pe + Z.of_nat (length new)
    /\ Forall (fun n => node_wf n /\ node_within pe md n) new
    /\ mask_step pe pe' md.
Proof.
  intros Hflags Hss Hpt Hob Hdirs. revert pe Hss.
  induction Hdirs as [|d dirs Hd Hdirs IH]; intros pe Hss Hbuf Hmax Hmax32.
  - exists pe, []. simpl. rewrite app_nil_r.
    split; [done|]. split; [apply same_shape_refl|]. split; [done|].
    split; [lia|]. split; [lia|]. split; [constructor|]. apply mask_step_refl.
  - simpl in Hmax.
    destruct (TestBlock_step pe md ob d synced Hflags Hss Hpt Hob Hd Hbuf)
      as (res & pe1 & new1 & Hrun & Hshape1 & Hopen1 & Hlen1 & Hbuf1 & Hnew1 & Hmask1);
      [lia|done|].
    destruct (IH pe1) as (pe2 & new2 & Hrun2 & Hshape2 & Hopen2 & Hlen2 & Hbuf2 & Hnew2 & Hmask2).
    { eapply search_sized_same_shape; eauto. }
    { lia. }
    { lia. }
    { done. }
    exists pe2, (new1 ++ new2). split.
    { cbn [fold_opt]. unfold TestBlock_. rewrite Hrun. exact Hrun2. }
    split; [eapply same_shape_trans; eauto|].
    split; [now rewrite Hopen2, Hopen1, app_assoc|].
    rewrite length_app. split; [simpl; lia|]. split; [lia|]. split.
    + apply Forall_app. split; [done|].
      eapply Forall_impl; [exact Hnew2|]. intros n [Hwf (sq & Hsq & Hwc)].
      split; [done|]. exists sq. rewrite <- (offset_at_same_shape pe pe1) by done. done.
    + eapply mask_step_trans; eauto.
Qed.
End SearchExpand.

Section SearchInvariants.
Context {F : Type} `{!FloatOps F} `{!PathConstants} `{!Grid} `{!CPathFinderDef F}
        `{!MoveDefHandler}.
Implicit Types (pe : CPathEstimator F).

Lemma node_wf_index pe (ob : PathNode F) :
  search_sized pe -> node_wf ob ->
  0 <= nodeNum ob < int2_x nbrOfBlocks * int2_y nbrOfBlocks.
Proof.
  intros ((_ & _ & Hfit & _) & _) [Hin ->].
  now destruct (BlockPosToIdx_eq _ Hin Hfit) as (_ & _ & Hr).
Qed.

(** The expansion of a popped block: eight calls of [TestBlock], then the
    CLOSED mark. *)
Lemma DoSearch_expand_spec pe md (ob : PathNode F) synced :
  flags_disjoint ->
  search_sized pe -> 0 <= pathType md < GetNumMoveDefs -> node_wf ob ->
  0 <= openBlockBuffer pe -> openBlockBuffer pe + 8 < MAX_SEARCHED_NODES_PE ->
  MAX_SEARCHED_NODES_PE <= 2 ^ 32 ->
  exists pe' new,
    DoSearch_expand pe md ob synced = Some pe'
    /\ same_shape pe pe'
    /\ openBlocks pe' = openBlocks pe ++ new
    /\ (length new <= 8)%nat
    /\ openBlockBuffer pe' = openBlockBuffer pe + Z.of_nat (length new)
    /\ Forall (fun n => node_wf n /\ node_within pe md n) new
    /\ exists pe1 m,
         same_shape pe pe1 /\ mask_step pe pe1 md
         /\ vget (nodeMask (blockStates pe1)) (nodeNum ob) = Some m
         /\ vset (nodeMask (blockStates pe1)) (nodeNum ob) (Z.lor m PATHOPT_CLOSED)
            = Some (nodeMask (blockStates pe')).
Proof.
  intros Hflags Hss Hpt Hob Hbuf Hmax Hmax32. unfold DoSearch_expand.
  destruct (TestBlock_fold pe md ob synced
              [PATHDIR_LEFT; PATHDIR_LEFT_UP; PATHDIR_UP; PATHDIR_RIGHT_UP;
               PATHDIR_RIGHT; PATHDIR_RIGHT_DOWN; PATHDIR_DOWN; PATHDIR_LEFT_DOWN]
              Hflags Hss Hpt Hob)
    as (pe1 & new & Hrun & Hshape & Hopen & Hlen & Hbuf1 & Hnew & Hmask);
    [repeat constructor; done|done|simpl; lia|done|].
  rewrite Hrun. simpl.
  pose proof (search_sized_same_shape pe pe1 Hshape Hss) as Hss1.
  pose proof (node_wf_index pe1 ob Hss1 Hob) as Hidx.
  pose proof Hss1 as ((_ & _ & _ & _ & Hsize & _) & _). unfold GetSize in Hsize.
  destruct (vget_is_Some (nodeMask (blockStates pe1)) (nodeNum ob)) as [m Hm]; [lia|].
  rewrite Hm. simpl. rewrite vset_Some by lia. simpl.
  eexists _, new. split; [reflexivity|]. simpl. split.
  { destruct Hshape as (Hl1 & Hl2 & Hl3 & Hl4 & Hl5 & Hl6 & Hl7).
    unfold same_shape. simpl. rewrite length_insert. done. }
  split; [done|]. split; [simpl in Hlen; lia|]. split; [done|]. split; [done|].
  exists pe1, m. split; [done|]. split; [done|]. split; [done|].
  now rewrite vset_Some by lia.
Qed.

Lemma blocked_outside_mask_step pe pe' md :
  same_shape pe pe' -> mask_step pe pe' md ->
  blocked_outside pe md -> blocked_outside pe' md.
Proof.
  intros Hshape Hstep Hbo j m Hm Hb.
  destruct (Hstep j) as [Heq|(m' & sq & Hm' & _ & Hsq & Hwc)].
  - rewrite Heq in Hm. destruct (Hbo j m Hm Hb) as (sq & Hsq & Hwc).
    exists sq. now rewrite (offset_at_same_shape pe pe').
  - rewrite Hm in Hm'. injection Hm' as <-. exists sq.
    rewrite (offset_at_same_shape pe pe') by done. auto.
Qed.

Lemma closed_not_goal_mask_step pe pe' md :
  same_shape pe pe' -> mask_step pe pe' md ->
  closed_not_goal pe md -> closed_not_goal pe' md.
Proof.
  intros Hshape Hstep Hcg ob m Hob Hm Hc.
  rewrite (DoSearch_isGoal_same_shape pe pe') by done.
  destruct (Hstep (nodeNum ob)) as [Heq|(m' & sq & Hm' & Hc' & _)].
  - rewrite Heq in Hm. eapply Hcg; eauto.
  - rewrite Hm in Hm'. injection Hm' as <-. done.
Qed.

Lemma DoSearch_isGoal_same_block pe md (a b : PathNode F) :
  search_sized pe -> node_wf a -> node_wf b -> nodeNum a = nodeNum b ->
  DoSearch_isGoal pe md a = DoSearch_isGoal pe md b.
Proof.
  intros ((_ & _ & Hfit & _) & _) [Ha Hna] [Hb Hnb] Heq.
  assert (nodePos a = nodePos b) as Hpos.
  { eapply BlockPosToIdx_inj; eauto. congruence. }
  unfold DoSearch_isGoal. now rewrite Heq, Hpos.
Qed.

(** An expansion keeps the facts a search from a seed relies on. *)
Lemma search_from_seed_expand pe pe' md (ob : PathNode F) new :
  flags_disjoint -> search_sized pe -> node_wf ob ->
  DoSearch_isGoal pe md ob = Some false ->
  closed_not_goal pe md -> blocked_outside pe md ->
  Forall (node_within pe md) (openBlocks pe) ->
  same_shape pe pe' ->
  openBlocks pe' = openBlocks pe ++ new ->
  Forall (fun n => node_wf n /\ node_within pe md n) new ->
  (exists pe1 m,
     same_shape pe pe1 /\ mask_step pe pe1 md
     /\ vget (nodeMask (blockStates pe1)) (nodeNum ob) = Some m
     /\ vset (nodeMask (blockStates pe1)) (nodeNum ob) (Z.lor m PATHOPT_CLOSED)
        = Some (nodeMask (blockStates pe'))) ->
  search_from_seed pe' md.
Proof.
  intros Hflags Hss Hob Hgoal Hcg Hbo Hwithin Hshape Hopen Hnew
         (pe1 & m & Hshape1 & Hstep & Hm & Hset).
  pose proof Hflags as (_ & _ & _ & Hcb & _).
  pose proof (blocked_outside_mask_step pe pe1 md Hshape1 Hstep Hbo) as Hbo1.
  pose proof (closed_not_goal_mask_step pe pe1 md Hshape1 Hstep Hcg) as Hcg1.
  split; [|split].
  - intros n mn Hn Hmn Hc.
    rewrite (DoSearch_isGoal_same_shape pe pe') by done.
    destruct (decide (nodeNum n = nodeNum ob)) as [Heq|Hne].
    + rewrite (DoSearch_isGoal_same_block pe md n ob); done.
    + rewrite (vget_vset_ne _ _ _ _ _ Hset) in Hmn by congruence.
      rewrite <- (DoSearch_isGoal_same_shape pe pe1) by done. eapply Hcg1; eauto.
  - intros j mj Hmj Hb.
    assert (exists m1, vget (nodeMask (blockStates pe1)) j = Some m1
                       /\ Z.land m1 PATHOPT_BLOCKED <> 0) as (m1 & Hm1 & Hb1).
    { destruct (decide (j = nodeNum ob)) as [->|Hne].
      - rewrite (vget_vset_eq _ _ _ _ Hset) in Hmj. injection Hmj as <-.
        exists m. split; [done|]. intros Hz. apply Hb.
        rewrite Z.land_lor_distr_l, Hz, Hcb. done.
      - rewrite (vget_vset_ne _ _ _ _ _ Hset) in Hmj by congruence. eauto. }
    destruct (Hbo1 j m1 Hm1 Hb1) as (sq & Hsq & Hwc). exists sq.
    rewrite (offset_at_same_shape pe pe') by done.
    rewrite <- (offset_at_same_shape pe pe1) by done. done.
  - left. rewrite Hopen. apply Forall_app. split.
    + eapply Forall_impl; [exact Hwithin|]. intros n. now apply node_within_same_shape.
    + eapply Forall_impl; [exact Hnew|]. intros n [_ Hn].
      now apply (node_within_same_shape pe pe').
Qed.
End SearchInvariants.

Section SearchLoop.
Context {F : Type} `{!FloatOps F} `{!PathConstants} `{!Grid} `{!CPathFinderDef F}
        `{!MoveDefHandler}.
Implicit Types (pe : CPathEstimator F).

Lemma DoSearch_continue_true pe :
  DoSearch_continue pe = true ->
  openBlocks pe <> [] /\ openBlockBuffer pe < maxBlocksToBeSearched pe.
Proof.
  unfold DoSearch_continue. intros Hc. apply andb_true_iff in Hc as [Ho Hb].
  apply negb_true_iff, bool_decide_eq_false in Ho. apply Z.ltb_lt in Hb. done.
Qed.

Lemma DoSearch_isGoal_is_Some pe md (ob : PathNode F) :
  search_sized pe -> 0 <= pathType md < GetNumMoveDefs -> node_wf ob ->
  is_Some (DoSearch_isGoal pe md ob).
Proof.
  intros Hss Hpt Hob. pose proof (node_wf_index pe ob Hss Hob) as Hidx.
  destruct Hss as [Hsz _]. unfold DoSearch_isGoal.
  destruct (offset_at_is_Some pe (nodeNum ob) (pathType md) Hsz Hidx Hpt) as [sq ->].
  simpl. eauto.
Qed.

(** A popped block that is skipped, in a search from a seed, is a block
    that failed the goal test. *)
Lemma skipped_not_goal pe md (ob : PathNode F) i m :
  search_from_seed pe md -> node_wf ob ->
  openBlocks pe !! i = Some ob ->
  vget (nodeMask (blockStates pe)) (nodeNum ob) = Some m ->
  Z.land m (Z.lor PATHOPT_BLOCKED PATHOPT_CLOSED) <> 0 ->
  DoSearch_isGoal pe md ob = Some false
  /\ Forall (node_within pe md) (openBlocks pe).
Proof.
  intros (Hcg & Hbo & Hopen) Hob Hi Hm Hskip.
  destruct Hopen as [Hwithin|[_ Hunv]]; [|exfalso; eapply Hskip, Hunv, Hm].
  split; [|done].
  destruct (Z.eq_dec (Z.land m PATHOPT_CLOSED) 0) as [Hc|Hc]; [|eapply Hcg; eauto].
  exfalso.
  assert (Z.land m PATHOPT_BLOCKED <> 0) as Hb.
  { intros Hb. apply Hskip, land_lor_blocked_or_closed. done. }
  destruct (Hbo _ _ Hm Hb) as (sq & Hsq & Hwc).
  rewrite list.Forall_forall in Hwithin.
  destruct (Hwithin ob) as (sq' & Hsq' & Hwc'); [eapply list_elem_of_lookup_2, Hi|].
  congruence.
Qed.

(** The loop of [DoSearch], with enough fuel. [pe0] is the state the search
    started in: the goal test reads only tables the loop leaves alone. *)
Lemma DoSearch_loop_spec (n : nat) pe md synced visited pe0 :
  flags_disjoint -> 0 <= pathType md < GetNumMoveDefs ->
  search_inv pe -> same_shape pe0 pe -> (DoSearch_measure pe < n)%nat ->
  exists found pe' new,
    DoSearch_loop n pe md synced visited = Some (found, pe', visited ++ new)
    /\ same_shape pe0 pe'
    /\ (found = true ->
        exists ob new0,
          new = new0 ++ [(ob, true)]
          /\ DoSearch_isGoal pe0 md ob = Some true
          /\ mGoalBlockIdx pe' = nodeNum ob /\ mGoalHeuristic pe' = f_of_Z 0
          /\ forall ob', (ob', true) ∈ new0 -> DoSearch_isGoal pe0 md ob' = Some false)
    /\ (found = false ->
        DoSearch_continue pe' = false
        /\ forall ob', (ob', true) ∈ new -> DoSearch_isGoal pe0 md ob' = Some false)
    /\ (search_from_seed pe md ->
        forall ob', (ob', false) ∈ new -> DoSearch_isGoal pe0 md ob' = Some false).
Proof.
  intros Hflags Hpt. revert pe visited.
  induction n as [|n IH]; intros pe visited Hinv Hshape0 Hfuel; [lia|].
  cbn [DoSearch_loop].
  destruct (DoSearch_continue pe) eqn:Hcont; simpl.
  2: { exists false, pe, []. rewrite app_nil_r. split; [done|]. split; [done|].
       split; [done|]. split.
       - intros _. split; [done|]. intros ob' Hin. inversion Hin.
       - intros _ ob' Hin. inversion Hin. }
  apply DoSearch_continue_true in Hcont as [Hne Hroom].
  destruct Hinv as (Hss & Hnodes & Hbuf & Hmax & Hmax32).
  destruct (pq_pop_spec (openBlocks pe) Hne) as (ob & rest & i & Hpop & Hi & Hrest & Hlen).
  rewrite Hpop. simpl.
  set (pe1 := set_openBlocks rest pe).
  assert (node_wf ob) as Hob.
  { rewrite list.Forall_forall in Hnodes. eapply Hnodes, list_elem_of_lookup_2, Hi. }
  assert (Forall node_wf rest) as Hnodes1 by (rewrite Hrest; now apply Forall_delete).
  assert (search_sized pe1) as Hss1 by done.
  assert (same_shape pe pe1) as Hshape1 by (unfold same_shape; done).
  assert (same_shape pe0 pe1) as Hshape01 by (eapply same_shape_trans; eauto).
  pose proof (node_wf_index pe ob Hss Hob) as Hidx.
  pose proof Hss as ((_ & _ & _ & _ & Hsize & _) & _). unfold GetSize in Hsize.
  destruct (vget_is_Some (nodeMask (blockStates pe)) (nodeNum ob)) as [m Hm]; [lia|].
  change (nodeMask (blockStates pe1)) with (nodeMask (blockStates pe)).
  rewrite Hm. simpl.
  destruct (Z.eqb_spec (Z.land m (Z.lor PATHOPT_BLOCKED PATHOPT_CLOSED)) 0) as [Hfree|Hskip];
    simpl.
  - (* the block goes on to the goal test *)
    destruct (DoSearch_isGoal_is_Some pe1 md ob Hss1 Hpt Hob) as [g Hg].
    rewrite Hg. simpl.
    assert (DoSearch_isGoal pe0 md ob = Some g) as Hg0.
    { rewrite <- Hg. symmetry. now apply DoSearch_isGoal_same_shape. }
    destruct g.
    + exists true, (set_goal (nodeNum ob) (f_of_Z 0) pe1), [(ob, true)].
      split; [done|]. split; [done|]. split; [|split].
      * intros _. exists ob, []. repeat (split; [done|]).
        intros ob' Hin. inversion Hin.
      * intros Hf. discriminate.
      * intros _ ob' Hin. apply list_elem_of_singleton in Hin. congruence.
    + destruct (DoSearch_expand_spec pe1 md ob synced Hflags Hss1 Hpt Hob)
        as (pe2 & new & Hrun & Hshape2 & Hopen2 & Hlen2 & Hbuf2 & Hnew2 & Hmasks);
        [done|simpl; lia|done|].
      rewrite Hrun. simpl.
      assert (search_inv pe2) as Hinv2.
      { split; [eapply search_sized_same_shape; eauto|].
        destruct Hshape2 as (_ & _ & _ & _ & _ & _ & Hmb).
        split; [|split; [simpl in Hbuf2; lia|split; [rewrite Hmb; done|done]]].
        rewrite Hopen2. apply Forall_app. split; [done|].
        eapply Forall_impl; [exact Hnew2|]. now intros x [? _]. }
      destruct (IH pe2 (visited ++ [(ob, true)]) Hinv2)
        as (found & pe' & new' & Hloop & Hshape' & Htrue & Hfalse & Hseed).
      { eapply same_shape_trans; eauto. }
      { unfold DoSearch_measure in *. rewrite Hopen2, length_app, Hbuf2.
        destruct Hshape2 as (_ & _ & _ & _ & _ & _ & ->). simpl in *. lia. }
      exists found, pe', ((ob, true) :: new').
      split; [rewrite Hloop; f_equal; f_equal; now rewrite <- app_assoc|].
      split; [done|]. split; [|split].
      * intros Hf. destruct (Htrue Hf) as (obg & new0 & -> & Hgoal & Hgi & Hgh & Hprev).
        exists obg, ((ob, true) :: new0). split; [done|]. repeat (split; [done|]).
        intros ob' Hin. apply elem_of_cons in Hin as [Heq|Hin]; [|auto].
        injection Heq as ->. done.
      * intros Hf. destruct (Hfalse Hf) as [Hstop Hprev]. split; [done|].
        intros ob' Hin. apply elem_of_cons in Hin as [Heq|Hin]; [|auto].
        injection Heq as ->. done.
      * intros Hsd ob' Hin. apply elem_of_cons in Hin as [Heq|Hin]; [discriminate|].
        apply Hseed; [|done].
        pose proof Hsd as (Hcg & Hbo & Hopen).
        assert (Forall (node_within pe1 md) (openBlocks pe1)) as Hwithin1.
        { simpl. destruct Hopen as [Hw|[Hone _]].
          - rewrite Hrest. now apply Forall_delete.
          - destruct rest; [constructor|simpl in *; lia]. }
        eapply (search_from_seed_expand pe1 pe2 md ob new); eauto.
  - (* the block is skipped *)
    assert (search_inv pe1) as Hinv1 by done.
    destruct (IH pe1 (visited ++ [(ob, false)]) Hinv1 Hshape01)
      as (found & pe' & new' & Hloop & Hshape' & Htrue & Hfalse & Hseed).
    { unfold DoSearch_measure in *. simpl. lia. }
    exists found, pe', ((ob, false) :: new').
    split; [rewrite Hloop; f_equal; f_equal; now rewrite <- app_assoc|].
    split; [done|]. split; [|split].
    + intros Hf. destruct (Htrue Hf) as (obg & new0 & -> & Hgoal & Hgi & Hgh & Hprev).
      exists obg, ((ob, false) :: new0). split; [done|]. repeat (split; [done|]).
      intros ob' Hin. apply elem_of_cons in Hin as [Heq|Hin]; [discriminate|auto].
    + intros Hf. destruct (Hfalse Hf) as [Hstop Hprev]. split; [done|].
      intros ob' Hin. apply elem_of_cons in Hin as [Heq|Hin]; [discriminate|auto].
    + intros Hsd ob' Hin.
      destruct (skipped_not_goal pe md ob i m Hsd Hob Hi Hm Hskip) as [Hng Hwithin].
      apply elem_of_cons in Hin as [Heq|Hin].
      * injection Heq as ->. rewrite <- Hng. symmetry.
        now apply DoSearch_isGoal_same_shape.
      * apply Hseed; [|done].
        destruct Hsd as (Hcg & Hbo & _). split; [done|]. split; [done|].
        left. simpl. rewrite Hrest. now apply Forall_delete.
Qed.

End SearchLoop.

Section SearchResult.
Context {F : Type} `{!FloatOps F} `{!PathConstants} `{!Grid} `{!CPathFinderDef F}
        `{!MoveDefHandler}.
Implicit Types (pe : CPathEstimator F).

End SearchResult.

(** ** The search theorems on a concrete estimator *)

Lemma xfloat_infinity_is_top : @infinity_is_top xfloat xfloat_ops.
Proof. intros v. destruct v; simpl; split; congruence. Qed.

Lemma engine_flags_disjoint : @flags_disjoint engine_constants.
Proof.
  unfold flags_disjoint. repeat (split; [vm_compute; congruence|]).
  intros d Hd.
  assert (d = 0 \/ d = 1 \/ d = 2 \/ d = 3 \/ d = 4 \/ d = 5 \/ d = 6 \/ d = 7)
    as Hcases by lia.
  destruct Hcases as [-> | [-> | [-> | [-> | [-> | [-> | [-> | ->]]]]]]]; reflexivity.
Qed.

Lemma seeded_estimator_sized : @search_sized xfloat grid8 walkers seeded_estimator.
Proof.
  unfold search_sized. split; [|repeat split; reflexivity].
  unfold tables_sized. repeat (split; [vm_compute; congruence|]).
  split; [vm_compute; repeat constructor|reflexivity].
Qed.

Lemma start_node_wf : @node_wf xfloat grid8 start_node.
Proof. split; [vm_compute; repeat split; congruence|reflexivity]. Qed.

Lemma seeded_estimator_inv :
  @search_inv xfloat engine_constants grid8 walkers seeded_estimator.
Proof.
  split; [exact seeded_estimator_sized|].
  split; [constructor; [exact start_node_wf|constructor]|].
  repeat split; vm_compute; congruence.
Qed.

Lemma TestBlock_contract_witness :
  exists res pe',
    @TestBlock xfloat _ engine_constants grid8 goal_far_corner seeded_estimator
      walker start_node PATHDIR_LEFT true = Some (res, pe').
Proof.
  destruct (@TestBlock_contract xfloat xfloat_ops engine_constants grid8 goal_far_corner
              walkers seeded_estimator walker start_node PATHDIR_LEFT true
              xfloat_infinity_is_top engine_flags_disjoint seeded_estimator_sized)
    as (res & pe' & Hrun & _).
  - vm_compute. split; congruence.
  - exact start_node_wf.
  - vm_compute. split; congruence.
  - vm_compute. congruence.
  - vm_compute. congruence.
  - vm_compute. congruence.
  - exists res, pe'. exact Hrun.
Defined.


(** ** The precompute driver *)

Lemma count_before_nonneg ws : 0 <= count_before ws.
Proof. induction ws as [|p ws IH]; simpl; [lia|]. destruct (before_barrier p); lia. Qed.

Lemma count_before_insert_same ws t p p' :
  ws !! t = Some p -> before_barrier p = before_barrier p' ->
  count_before (<[t := p']> ws) = count_before ws.
Proof.
  revert t. induction ws as [|q ws IH]; intros t Ht Heq; [done|].
  destruct t as [|t]; simpl in *.
  - injection Ht as ->. now rewrite Heq.
  - now rewrite (IH t).
Qed.

Lemma count_before_insert_leave ws t p p' :
  ws !! t = Some p -> before_barrier p = true -> before_barrier p' = false ->
  count_before (<[t := p']> ws) = count_before ws - 1.
Proof.
  revert t. induction ws as [|q ws IH]; intros t Ht Hp Hp'; [done|].
  destruct t as [|t]; simpl in *.
  - injection Ht as ->. rewrite Hp, Hp'. lia.
  - rewrite (IH t) by done. lia.
Qed.

Lemma count_before_zero ws :
  count_before ws = 0 -> Forall (fun p => before_barrier p = false) ws.
Proof.
  induction ws as [|p ws IH]; simpl; intros Hz; [constructor|].
  pose proof (count_before_nonneg ws).
  destruct (before_barrier p) eqn:Hp; [lia|]. constructor; [done|]. apply IH. lia.
Qed.

Lemma elem_of_insert_inv {A} (l : list A) t x y :
  y ∈ <[t := x]> l -> y = x \/ y ∈ l.
Proof.
  revert t. induction l as [|a l IH]; intros t Hy; [now right|].
  destruct t as [|t]; simpl in Hy.
  - apply elem_of_cons in Hy as [->|Hy]; [now left|]. right. now right.
  - apply elem_of_cons in Hy as [->|Hy]; [right; now left|].
    destruct (IH t Hy) as [->|Hin]; [now left|]. right. now right.
Qed.

Lemma elem_of_insert_other {A} (l : list A) t x q y :
  y ∈ l -> l !! t = Some q -> q <> y -> y ∈ <[t := x]> l.
Proof.
  revert t. induction l as [|a l IH]; intros t Hy Ht Hq; [inversion Hy|].
  destruct t as [|t]; simpl in *.
  - injection Ht as ->. apply elem_of_cons in Hy as [->|Hy]; [done|]. now right.
  - apply elem_of_cons in Hy as [->|Hy]; [now left|]. right. eapply IH; eauto.
Qed.

Lemma elem_of_insert_new {A} (l : list A) t x q :
  l !! t = Some q -> x ∈ <[t := x]> l.
Proof.
  intros Ht. eapply list_elem_of_lookup_2.
  apply list_lookup_insert_eq. eapply lookup_lt_Some, Ht.
Qed.

Section BlockWorkFacts.
Context {F : Type} `{!FloatOps F} `{!PathConstants} `{!Grid} `{!Collaborators F}
        `{!MoveDefHandler}.
Implicit Types (pe : CPathEstimator F).

Lemma store_offset_read pe i j sq pe' :
  store_offset pe i j sq = Some pe' ->
  offset_at (blockStates pe') i j = Some sq
  /\ (forall i' j', i' <> i \/ j' <> j ->
        offset_at (blockStates pe') i' j' = offset_at (blockStates pe) i' j')
  /\ nodeMask (blockStates pe') = nodeMask (blockStates pe).
Proof.
  unfold store_offset.
  destruct (vget (peNodeOffsets (blockStates pe)) i) as [row|] eqn:Hrow;
    simpl; [|discriminate].
  destruct (vset row j sq) as [row'|] eqn:Hrow'; simpl; [|discriminate].
  destruct (vset (peNodeOffsets (blockStates pe)) i row') as [offs|] eqn:Hoffs;
    simpl; [|discriminate].
  intros [= <-]. simpl. unfold offset_at. simpl. split; [|split; [|done]].
  - rewrite (vget_vset_eq _ _ _ _ Hoffs). simpl. eapply vget_vset_eq, Hrow'.
  - intros i' j' Hne. destruct (decide (i' = i)) as [->|Hi].
    + destruct Hne as [|Hj]; [done|].
      rewrite (vget_vset_eq _ _ _ _ Hoffs), Hrow. simpl.
      eapply vget_vset_ne; [exact Hrow'|congruence].
    + rewrite (vget_vset_ne _ _ _ _ _ Hoffs) by congruence. done.
Qed.

Lemma ascending_NoDup (l : list MoveDef) : ascending l -> NoDup (pathType <$> l).
Proof.
  induction 1 as [|a l Hl IH Ha]; simpl; [constructor|].
  constructor; [|done]. intros Hin.
  apply list_elem_of_fmap in Hin as (b & Heq & Hb).
  rewrite list.Forall_forall in Ha. specialize (Ha b Hb). lia.
Qed.

(** The loop of [CalculateBlockOffsets] over a list of move defs with
    distinct path types. *)
Lemma CalculateBlockOffsets_fold pe (b : Z) (v : MoveDef -> int2) (l : list MoveDef) pe' :
  NoDup (pathType <$> l) ->
  fold_opt (fun pe1 md => if 0 <? udRefCount md
                          then store_offset pe1 b (pathType md) (v md)
                          else Some pe1) pe l = Some pe' ->
  (forall md, md ∈ l -> 0 < udRefCount md ->
     offset_at (blockStates pe') b (pathType md) = Some (v md))
  /\ (forall j, j ∉ pathType <$> l ->
        offset_at (blockStates pe') b j = offset_at (blockStates pe) b j)
  /\ (forall b' j, b' <> b ->
        offset_at (blockStates pe') b' j = offset_at (blockStates pe) b' j)
  /\ nodeMask (blockStates pe') = nodeMask (blockStates pe).
Proof.
  revert pe. induction l as [|md l IH]; intros pe Hnd Hrun; simpl in *.
  - injection Hrun as <-. repeat split; try done. intros md Hmd. inversion Hmd.
  - apply NoDup_cons in Hnd as [Hnotin Hnd].
    destruct (if 0 <? udRefCount md then store_offset pe b (pathType md) (v md) else Some pe)
      as [pe1|] eqn:Hstep; simpl in Hrun; [|discriminate].
    destruct (IH pe1 Hnd Hrun) as (Hwr & Hkeep & Hother & Hmask).
    assert (offset_at (blockStates pe1) b (pathType md)
            = (if 0 <? udRefCount md then Some (v md)
               else offset_at (blockStates pe) b (pathType md))
            /\ (forall j, j <> pathType md ->
                  offset_at (blockStates pe1) b j = offset_at (blockStates pe) b j)
            /\ (forall b' j, b' <> b ->
                  offset_at (blockStates pe1) b' j = offset_at (blockStates pe) b' j)
            /\ nodeMask (blockStates pe1) = nodeMask (blockStates pe))
      as (Hhere & Hkeep1 & Hother1 & Hmask1).
    { destruct (0 <? udRefCount md).
      - apply store_offset_read in Hstep as (Hrd & Hrest & Hm).
        split; [done|]. split; [|split; [|done]]; intros; apply Hrest; auto.
      - injection Hstep as <-. done. }
    split; [|split; [|split]].
    + intros md' Hin Huse. apply elem_of_cons in Hin as [->|Hin]; [|auto].
      rewrite (Hkeep _ Hnotin), Hhere.
      destruct (Z.ltb_spec 0 (udRefCount md)); [done|lia].
    + intros j Hj. apply not_elem_of_cons in Hj as [Hne Hj].
      rewrite (Hkeep j Hj). now apply Hkeep1.
    + intros b' j Hb'. rewrite (Hother b' j Hb'). now apply Hother1.
    + congruence.
Qed.

Lemma CalculateBlockOffsets_written pe b t pe' :
  handler_wf ->
  CalculateBlockOffsets pe b t = Some pe' ->
  offsets_written pe' b
  /\ (forall b', b' <> b -> offsets_written pe b' -> offsets_written pe' b')
  /\ GetSize (blockStates pe') = GetSize (blockStates pe).
Proof.
  intros Hwf Hrun. unfold CalculateBlockOffsets in Hrun.
  apply (CalculateBlockOffsets_fold pe b
           (fun md => FindOffset md (int2_x (BlockIdxToPos b)) (int2_y (BlockIdxToPos b))))
    in Hrun as (Hwr & _ & Hother & Hmask).
  - split; [|split].
    + intros md Hmd Huse. now apply Hwr.
    + intros b' Hb' Hold md Hmd Huse. rewrite (Hother b' _ Hb'). now apply Hold.
    + unfold GetSize. now rewrite Hmask.
  - apply ascending_NoDup, (ascending_from_index moveDefs 0). exact Hwf.
Qed.

Lemma CalculateVertices_blockStates pe md p t pe' :
  CalculateVertices pe md p t = Some pe' -> blockStates pe' = blockStates pe.
Proof.
  unfold CalculateVertices.
  destruct (CalculateVertex pe md p PATHDIR_LEFT t) as [pe1|] eqn:H1'; simpl; [|discriminate].
  destruct (CalculateVertex pe1 md p PATHDIR_LEFT_UP t) as [pe2|] eqn:H2'; simpl; [|discriminate].
  destruct (CalculateVertex pe2 md p PATHDIR_UP t) as [pe3|] eqn:H3'; simpl; [|discriminate].
  intros H4'.
  apply CalculateVertex_blockStates in H1', H2', H3', H4'. congruence.
Qed.

Lemma EstimatePathCosts_blockStates pe b t pe' :
  EstimatePathCosts pe b t = Some pe' -> blockStates pe' = blockStates pe.
Proof.
  unfold EstimatePathCosts. generalize moveDefs. intros l. revert pe.
  induction l as [|md l IH]; intros pe; simpl.
  - now intros [= <-].
  - destruct (0 <? udRefCount md).
    + destruct (CalculateVertices pe md (BlockIdxToPos b) t) as [pe1|] eqn:Hcv;
        simpl; [|discriminate].
      intros Hrun. apply IH in Hrun. apply CalculateVertices_blockStates in Hcv. congruence.
    + simpl. apply IH.
Qed.
End BlockWorkFacts.

Section PrecomputeOrder.
Context {F : Type} `{!FloatOps F} `{!PathConstants} `{!Grid} `{!Collaborators F}
        `{!MoveDefHandler}.

Lemma count_before_replicate n : count_before (replicate n ClaimOffset) = Z.of_nat n.
Proof. induction n as [|n IH]; simpl; [done|]. rewrite IH. lia. Qed.

Lemma precompute_init_inv (pe0 : CPathEstimator F) (n : nat) :
  GetSize (blockStates pe0) = int2_x nbrOfBlocks * int2_y nbrOfBlocks ->
  precompute_inv (precompute_init pe0 n).
Proof.
  intros Hsize. unfold precompute_inv, precompute_init. simpl.
  split; [done|]. split; [lia|]. split; [|split].
  - left. split; [done|]. split; [now rewrite count_before_replicate|].
    apply list.Forall_forall. intros p Hp. apply elem_of_replicate in Hp as [-> _].
    now left.
  - intros (p & Hp & Hne & _). apply elem_of_replicate in Hp as [-> _]. done.
  - intros b Hb. right. right. lia.
Qed.

Lemma offsets_written_blockStates (pe pe' : CPathEstimator F) b :
  blockStates pe' = blockStates pe -> offsets_written pe b -> offsets_written pe' b.
Proof. unfold offsets_written. intros ->. done. Qed.

(** Every atomic action of every thread keeps the invariant. *)
Lemma precompute_step_inv (s s' : Precompute F) :
  handler_wf -> 0 <= int2_x nbrOfBlocks * int2_y nbrOfBlocks <= 2 ^ 32 ->
  precompute_inv s -> precompute_step s s' -> precompute_inv s'.
Proof.
  intros Hwf Hrange (Hsize & Hle & Hbar & Hpast & Hblocks) [t Hstep].
  set (size := int2_x nbrOfBlocks * int2_y nbrOfBlocks) in *.
  assert (forall p, workers s !! t = Some p -> before_barrier p = true ->
          barrier_generation s = 0
          /\ barrier_count s = count_before (workers s)
          /\ Forall (fun p => before_barrier p = true \/ p = Blocked 0) (workers s))
    as Hgen0.
  { intros p Hp Hbefore. destruct Hbar as [Hg0|(Hg1 & Hall)]; [done|].
    rewrite list.Forall_forall in Hall.
    destruct (Hall p) as [->|Hafter]; [eapply list_elem_of_lookup_2, Hp|done|].
    destruct p; done. }
  assert (forall p, workers s !! t = Some p -> before_barrier p = false -> p <> Blocked 0 ->
          barrier_generation s = 1
          /\ Forall (fun p => p = Blocked 0 \/ after_barrier p = true) (workers s))
    as Hgen1.
  { intros p Hp Hnb Hnz. destruct Hbar as [(Hg0 & _ & Hall)|Hg1]; [|done].
    rewrite list.Forall_forall in Hall.
    destruct (Hall p) as [Hb| ->]; [eapply list_elem_of_lookup_2, Hp|congruence|done]. }
  assert (forall p, workers s !! t = Some p -> p <> ClaimOffset ->
          (forall b, p <> InOffsets b) -> offsetBlockNum s < 0) as Hpast_t.
  { intros p Hp Hn1 Hn2. apply Hpast. exists p. split; [|done].
    eapply list_elem_of_lookup_2, Hp. }
  assert (forall p p', workers s !! t = Some p -> (forall b, p <> InOffsets b) ->
          forall b, 0 <= b < size ->
            offsets_written (pre_pe s) b
            \/ InOffsets b ∈ <[t := p']> (workers s)
            \/ size - 1 - b < offsetBlockNum s) as Hblocks_keep.
  { intros p p' Hp Hn b Hb. destruct (Hblocks b Hb) as [Hw|[Hin|Hun]]; [auto| |auto].
    right. left. eapply elem_of_insert_other; eauto. }
  assert (forall p p', workers s !! t = Some p -> p' <> ClaimOffset ->
          (exists q, q ∈ <[t := p']> (workers s) /\ q <> ClaimOffset
                     /\ (forall b, q <> InOffsets b)) ->
          (p <> ClaimOffset /\ (forall b, p <> InOffsets b)) \/ offsetBlockNum s < 0 ->
          (forall b, p' <> InOffsets b) -> offsetBlockNum s < 0) as Hpast_keep.
  { intros p p' Hp _ _ [[Hn1 Hn2]|Hneg] _; [eapply Hpast_t; eauto|done]. }
  inversion Hstep as
    [s0 Hw Hge | s0 Hw Hlt | s0 b0 pe' Hw Hrun | s0 Hw Hlast | s0 Hw Hmore
     | s0 gen Hw Hgen | s0 Hw Hge | s0 Hw Hlt | s0 b0 pe' Hw Hrun]; subst s0 s';
    unfold precompute_inv; simpl; fold size.
  - (* a block is claimed for phase 1 *)
    destruct (Hgen0 _ Hw eq_refl) as (Hg & Hcount & Hall).
    split; [done|]. split; [lia|]. split; [|split].
    + left. split; [done|]. split.
      * now rewrite (count_before_insert_same _ _ _ _ Hw).
      * apply Forall_insert; [done|]. now left.
    + intros (q & Hq & Hn1 & Hn2). apply elem_of_insert_inv in Hq as [->|Hq].
      * exfalso. eapply Hn2. reflexivity.
      * assert (offsetBlockNum s < 0); [|lia]. apply Hpast. eauto.
    + intros b Hb. destruct (Hblocks b Hb) as [Hwr|[Hin|Hun]]; [auto| |].
      * right. left. eapply elem_of_insert_other; eauto; done.
      * destruct (Z.eq_dec (size - 1 - b) (offsetBlockNum s - 1)) as [Heq|Hne];
          [|right; right; lia].
        right. left. rewrite Hsize.
        assert (wrap32 (wrap32 (size - 1) - (offsetBlockNum s - 1)) = b) as ->.
        { rewrite (wrap32_small (size - 1)) by lia. rewrite wrap32_small; lia. }
        eapply elem_of_insert_new, Hw.
  - (* phase 1 is exhausted for this thread *)
    destruct (Hgen0 _ Hw eq_refl) as (Hg & Hcount & Hall).
    split; [done|]. split; [lia|]. split; [|split].
    + left. split; [done|]. split.
      * now rewrite (count_before_insert_same _ _ _ _ Hw).
      * apply Forall_insert; [done|]. now left.
    + intros _. lia.
    + intros b Hb. destruct (Hblocks b Hb) as [Hwr|[Hin|Hun]]; [auto| |lia].
      right. left. eapply elem_of_insert_other; eauto; done.
  - (* the offsets of a block are written *)
    destruct (Hgen0 _ Hw eq_refl) as (Hg & Hcount & Hall).
    destruct (CalculateBlockOffsets_written _ _ _ _ Hwf Hrun) as (Hnew & Hold & Hsz').
    split; [congruence|]. split; [done|]. split; [|split].
    + left. split; [done|]. split.
      * now rewrite (count_before_insert_same _ _ _ _ Hw).
      * apply Forall_insert; [done|]. now left.
    + intros (q & Hq & Hn1 & Hn2). apply elem_of_insert_inv in Hq as [->|Hq]; [done|].
      apply Hpast. eauto.
    + intros b Hb. destruct (decide (b = b0)) as [->|Hne]; [now left|].
      destruct (Hblocks b Hb) as [Hwr|[Hin|Hun]]; [left; auto| |auto].
      right. left. eapply elem_of_insert_other; eauto; congruence.
  - (* the last thread arrives at the barrier *)
    destruct (Hgen0 _ Hw eq_refl) as (Hg & Hcount & Hall).
    split; [done|]. split; [done|]. split; [|split].
    + right. split; [lia|].
      assert (Forall (fun p => before_barrier p = false) (<[t := ClaimCost]> (workers s)))
        as Hnone.
      { apply count_before_zero.
        rewrite (count_before_insert_leave _ _ _ _ Hw) by done. lia. }
      rewrite list.Forall_forall in Hnone, Hall. apply list.Forall_forall.
      intros q Hq. specialize (Hnone q Hq).
      apply elem_of_insert_inv in Hq as [->|Hq]; [now right|].
      destruct (Hall q Hq) as [Hb|Hb]; [congruence|now left].
    + intros _. eapply Hpast_t; eauto; done.
    + eapply Hblocks_keep; eauto; done.
  - (* a thread arrives at the barrier and blocks *)
    destruct (Hgen0 _ Hw eq_refl) as (Hg & Hcount & Hall).
    split; [done|]. split; [done|]. split; [|split].
    + left. split; [done|]. split.
      * rewrite (count_before_insert_leave _ _ _ _ Hw) by done. lia.
      * apply Forall_insert; [done|]. right. now rewrite Hg.
    + intros _. eapply Hpast_t; eauto; done.
    + eapply Hblocks_keep; eauto; done.
  - (* a blocked thread sees the new generation *)
    assert (barrier_generation s = 1
            /\ Forall (fun p => p = Blocked 0 \/ after_barrier p = true) (workers s))
      as (Hg & Hall).
    { destruct Hbar as [(Hg0 & _ & Hall)|Hg1]; [|done].
      rewrite list.Forall_forall in Hall.
      destruct (Hall (Blocked gen)) as [Hb|Hb];
        [eapply list_elem_of_lookup_2, Hw|done|congruence]. }
    split; [done|]. split; [done|]. split; [|split].
    + right. split; [done|]. apply Forall_insert; [done|]. now right.
    + intros _. eapply Hpast_t; eauto; done.
    + eapply Hblocks_keep; eauto; done.
  - (* a block is claimed for phase 2 *)
    destruct (Hgen1 _ Hw eq_refl) as (Hg & Hall); [done|].
    split; [done|]. split; [done|]. split; [|split].
    + right. split; [done|]. apply Forall_insert; [done|]. now right.
    + intros _. eapply Hpast_t; eauto; done.
    + eapply Hblocks_keep; eauto; done.
  - (* phase 2 is exhausted for this thread *)
    destruct (Hgen1 _ Hw eq_refl) as (Hg & Hall); [done|].
    split; [done|]. split; [done|]. split; [|split].
    + right. split; [done|]. apply Forall_insert; [done|]. now right.
    + intros _. eapply Hpast_t; eauto; done.
    + eapply Hblocks_keep; eauto; done.
  - (* the vertex costs of a block are written *)
    destruct (Hgen1 _ Hw eq_refl) as (Hg & Hall); [done|].
    pose proof (EstimatePathCosts_blockStates _ _ _ _ Hrun) as Hbs.
    split; [now rewrite Hbs|]. split; [done|]. split; [|split].
    + right. split; [done|]. apply Forall_insert; [done|]. now right.
    + intros _. eapply Hpast_t; eauto; done.
    + intros b Hb.
      destruct (Hblocks_keep _ ClaimCost Hw ltac:(done) b Hb) as [Hwr|[Hin|Hun]]; [|auto|auto].
      left. now apply (offsets_written_blockStates (pre_pe s)).
Qed.

Lemma precompute_reachable_inv (pe0 : CPathEstimator F) (n : nat) (s : Precompute F) :
  handler_wf -> 0 <= int2_x nbrOfBlocks * int2_y nbrOfBlocks <= 2 ^ 32 ->
  GetSize (blockStates pe0) = int2_x nbrOfBlocks * int2_y nbrOfBlocks ->
  rtc precompute_step (precompute_init pe0 n) s -> precompute_inv s.
Proof.
  intros Hwf Hrange Hsize Hrun.
  refine (rtc_ind_r (R := precompute_step) precompute_inv _ _ _ _ Hrun);
    [now apply precompute_init_inv|].
  intros s1 s2 _ Hstep Hinv. eapply precompute_step_inv; eauto.
Qed.

(** C2. In every state the threads of [CalcOffsetsAndPathCosts] can reach:
    as soon as one thread is past the barrier, every thread has finished
    phase 1 and called [wait], and the offsets of every block are written;
    in particular when a thread is inside [EstimatePathCosts]. *)
Theorem precompute_two_phases (pe0 : CPathEstimator F) (n : nat) (s : Precompute F) :
  handler_wf -> 0 <= int2_x nbrOfBlocks * int2_y nbrOfBlocks < 2 ^ 31 ->
  GetSize (blockStates pe0) = int2_x nbrOfBlocks * int2_y nbrOfBlocks ->
  rtc precompute_step (precompute_init pe0 n) s ->
  (forall p, p ∈ workers s -> after_barrier p = true ->
     Forall (fun q => before_barrier q = false) (workers s)
     /\ forall b, 0 <= b < int2_x nbrOfBlocks * int2_y nbrOfBlocks ->
          offsets_written (pre_pe s) b)
  /\ (forall t blockIdx, workers s !! t = Some (InCosts blockIdx) ->
        forall b, 0 <= b < int2_x nbrOfBlocks * int2_y nbrOfBlocks ->
          offsets_written (pre_pe s) b).
Proof.
  intros Hwf Hrange Hsize Hrun.
  destruct (precompute_reachable_inv pe0 n s Hwf ltac:(lia) Hsize Hrun)
    as (_ & _ & Hbar & Hpast & Hblocks).
  assert (forall p, p ∈ workers s -> after_barrier p = true ->
     Forall (fun q => before_barrier q = false) (workers s)
     /\ forall b, 0 <= b < int2_x nbrOfBlocks * int2_y nbrOfBlocks ->
          offsets_written (pre_pe s) b) as Hmain.
  { intros p Hp Hafter.
    assert (Forall (fun q => before_barrier q = false) (workers s)) as Hnone.
    { destruct Hbar as [(_ & _ & Hall)|(_ & Hall)].
      - rewrite list.Forall_forall in Hall.
        destruct (Hall p Hp) as [Hb| ->]; [destruct p; done|done].
      - eapply Forall_impl; [exact Hall|]. intros q [->|Hq]; [done|destruct q; done]. }
    split; [done|]. intros b Hb.
    assert (offsetBlockNum s < 0) as Hneg.
    { apply Hpast. exists p. split; [done|]. destruct p; done. }
    destruct (Hblocks b Hb) as [Hw|[Hin|Hun]]; [done| |lia].
    rewrite list.Forall_forall in Hnone. specialize (Hnone _ Hin). done. }
  split; [exact Hmain|].
  intros t blockIdx Ht. eapply (Hmain (InCosts blockIdx)); [|done].
  eapply list_elem_of_lookup_2, Ht.
Qed.
End PrecomputeOrder.

(** One action of thread [t] by the given rule, the state reached being
    evaluated before the next action. *)
Ltac thread_step t rule :=
  eapply rtc_l;
  [ exists t; eapply rule; [reflexivity | vm_compute; first [reflexivity | congruence]]
  | match goal with
    | |- rtc ?R ?x ?z => let x' := eval vm_compute in x in change (rtc R x' z)
    end ].

(** Two threads on the two-block map: thread 0 takes block 0, thread 1 takes
    block 1, both run out of blocks, thread 0 blocks in [wait] and thread 1,
    arriving last, is released. *)
Lemma precompute_two_phases_witness :
  rtc (@precompute_step xfloat xfloat_ops engine_constants grid_pair
         terrain_with_hole walkers)
      (@precompute_init xfloat grid_pair pair_estimator 2) pair_released
  /\ forall b, 0 <= b < 2 ->
       @offsets_written xfloat xfloat_ops engine_constants grid_pair
         terrain_with_hole walkers (pre_pe pair_released) b.
Proof.
  assert (rtc (@precompute_step xfloat xfloat_ops engine_constants grid_pair
                 terrain_with_hole walkers)
              (@precompute_init xfloat grid_pair pair_estimator 2) pair_released)
    as Hrun.
  { thread_step 0%nat @step_claim_offset.
    thread_step 1%nat @step_claim_offset.
    thread_step 0%nat @step_offsets_done.
    thread_step 1%nat @step_offsets_done.
    thread_step 0%nat @step_offsets_exhausted.
    thread_step 1%nat @step_offsets_exhausted.
    thread_step 0%nat @step_wait_block.
    thread_step 1%nat @step_wait_last.
    apply rtc_refl. }
  split; [exact Hrun|].
  refine (proj2 (proj1 (@precompute_two_phases xfloat xfloat_ops engine_constants
                          grid_pair terrain_with_hole walkers pair_estimator 2%nat
                          pair_released walkers_wf _ _ Hrun) ClaimCost _ _)).
  - vm_compute. split; congruence.
  - reflexivity.
  - right. left.
  - reflexivity.
Defined.

(** * Part III: the rest of the file *)

(** ** MapChanged: the blocks it marks *)

Lemma fold_opt_visits {A S : Type} (I : S -> Prop) (R : S -> S -> Prop)
    (Q : A -> Prop) (D : A -> S -> Prop) (f : S -> A -> option S) :
  (forall s, R s s) -> (forall s1 s2 s3, R s1 s2 -> R s2 s3 -> R s1 s3) ->
  (forall a s s', D a s -> I s -> R s s' -> D a s') ->
  (forall s a, I s -> Q a -> exists s', f s a = Some s' /\ I s' /\ R s s' /\ D a s') ->
  forall l s, Forall Q l -> I s ->
    exists s', fold_opt f s l = Some s' /\ I s' /\ R s s' /\ forall a, a ∈ l -> D a s'.
Proof.
  intros Hrefl Htrans Hstable Hstep l.
  induction l as [|a l IH]; intros s HQ HI; simpl.
  - exists s. split; [done|]. split; [done|]. split; [done|]. intros a Ha. inversion Ha.
  - apply list.Forall_cons in HQ as [Ha Hl].
    destruct (Hstep s a HI Ha) as (s1 & Hf & HI1 & HR1 & HD1). rewrite Hf. simpl.
    destruct (IH s1 Hl HI1) as (s' & Hrun & HI' & HR' & HD').
    exists s'. split; [done|]. split; [done|]. split; [eauto|].
    intros a' Ha'. apply elem_of_cons in Ha' as [->|Ha']; [|auto].
    eapply Hstable; eauto.
Qed.

Lemma fold_opt_fixed {A S : Type} (f : S -> A -> option S) (s : S) (l : list A) :
  (forall a, a ∈ l -> f s a = Some s) -> fold_opt f s l = Some s.
Proof.
  induction l as [|a l IH]; intros Hfix; simpl; [done|].
  rewrite Hfix by left. simpl. apply IH. intros a' Ha'. apply Hfix. now right.
Qed.

Lemma elem_of_down_range (hi lo x : Z) : lo <= x <= hi -> x ∈ down_range hi lo.
Proof.
  intros Hx. unfold down_range. apply elem_of_reverse, elem_of_seqZ. lia.
Qed.

Section MapChangedRect.
Context {F : Type} `{!PathConstants} `{!Grid} `{!MoveDefHandler}.
Implicit Types (pe : CPathEstimator F).

Lemma only_masks_and_queue_refl pe : only_masks_and_queue pe pe.
Proof. unfold only_masks_and_queue. now destruct pe as [[] ]. Qed.

Lemma only_masks_and_queue_trans pe1 pe2 pe3 :
  only_masks_and_queue pe1 pe2 -> only_masks_and_queue pe2 pe3 ->
  only_masks_and_queue pe1 pe3.
Proof.
  unfold only_masks_and_queue. intros H12 H23. rewrite H23 at 1. rewrite H12 at 1 2.
  reflexivity.
Qed.

Lemma tables_sized_masks pe pe' :
  only_masks_and_queue pe pe' ->
  length (nodeMask (blockStates pe')) = length (nodeMask (blockStates pe)) ->
  tables_sized pe -> tables_sized pe'.
Proof.
  intros Hfr Hlen Hsz. unfold tables_sized, GetSize in *. rewrite Hlen. rewrite Hfr.
  simpl. exact Hsz.
Qed.

Lemma marked_between_refl x1 z1 x2 z2 pe : marked_between x1 z1 x2 z2 pe pe.
Proof.
  split; [apply only_masks_and_queue_refl|]. split; [done|].
  exists []. split; [now rewrite app_nil_r|]. split; [constructor|].
  split; [intros b Hb; inversion Hb|].
  split; [|done]. intros b _. split; [now left|]. intros [Hb|Hb]; [done|inversion Hb].
Qed.

Lemma marked_between_trans x1 z1 x2 z2 pe1 pe2 pe3 :
  marked_between x1 z1 x2 z2 pe1 pe2 -> marked_between x1 z1 x2 z2 pe2 pe3 ->
  marked_between x1 z1 x2 z2 pe1 pe3.
Proof.
  intros (Hfr1 & Hlen1 & new1 & Hq1 & Hnd1 & Hnew1 & Hiff1 & Hkeep1)
         (Hfr2 & Hlen2 & new2 & Hq2 & Hnd2 & Hnew2 & Hiff2 & Hkeep2).
  split; [eapply only_masks_and_queue_trans; eauto|]. split; [congruence|].
  exists (new1 ++ new2). split; [now rewrite Hq2, Hq1, app_assoc|].
  split; [|split; [|split]].
  - apply list.NoDup_app. split; [done|]. split; [|done].
    intros b Hb1 Hb2. destruct (Hnew2 b Hb2) as (Hin & _ & Hnot).
    apply Hnot, Hiff1; auto.
  - intros b Hb. apply elem_of_app in Hb as [Hb|Hb]; [auto|].
    destruct (Hnew2 b Hb) as (Hin & Hrect & Hnot). split; [done|]. split; [done|].
    intros Hobs. apply Hnot, Hiff1; auto.
  - intros b Hin. rewrite (Hiff2 b Hin), (Hiff1 b Hin), elem_of_app. tauto.
  - intros b Hin Hb. rewrite elem_of_app in Hb.
    rewrite Hkeep2, Hkeep1; tauto.
Qed.

(** One visit of the inner loop, on a block of the rectangle. *)
Lemma MapChanged_block_marks x1 z1 x2 z2 pe z x :
  PATHOPT_OBSOLETE <> 0 -> tables_sized pe ->
  in_map (mk_int2 x z) -> in_changed_rect x1 z1 x2 z2 (mk_int2 x z) ->
  exists pe',
    MapChanged_block pe z x = Some pe'
    /\ tables_sized pe' /\ marked_between x1 z1 x2 z2 pe pe'
    /\ obsolete_bit pe' (mk_int2 x z).
Proof.
  intros Hne Hsz Hin Hrect.
  pose proof Hsz as (Hnx & Hny & Hfit & Hfit' & Hsize & Hoffs & Hrows & Hvc).
  destruct (BlockPosToIdx_eq _ Hin Hfit) as (_ & Hint & Hrange).
  unfold MapChanged_block. rewrite Hint.
  destruct (vget_is_Some (nodeMask (blockStates pe)) (BlockPosToIdx (mk_int2 x z)))
    as [m Hm].
  { unfold GetSize in Hsize. lia. }
  rewrite Hm. simpl.
  destruct (Z.eqb_spec (Z.land m PATHOPT_OBSOLETE) 0) as [Hclear|Hset]; simpl.
  - rewrite vset_Some by (unfold GetSize in Hsize; lia). simpl.
    eexists. split; [reflexivity|].
    set (b0 := mk_int2 x z) in *.
    set (nm := <[Z.to_nat (BlockPosToIdx b0) := Z.lor m PATHOPT_OBSOLETE]>
                 (nodeMask (blockStates pe))).
    assert (vget nm (BlockPosToIdx b0) = Some (Z.lor m PATHOPT_OBSOLETE)) as Hnew.
    { eapply vget_vset_eq. apply vset_Some. unfold GetSize in Hsize. lia. }
    assert (forall j, j <> BlockPosToIdx b0 -> vget nm j = vget (nodeMask (blockStates pe)) j)
      as Hother.
    { intros j Hj. eapply vget_vset_ne; [apply vset_Some|congruence].
      unfold GetSize in Hsize. lia. }
    assert (~ obsolete_bit pe b0) as Hnot.
    { intros (m' & Hm' & Hb). rewrite Hm in Hm'. injection Hm' as <-. done. }
    assert (obsolete_bit
              (set_blockStates (set_nodeMask nm (blockStates pe))
                 (set_updatedBlocks (updatedBlocks pe ++ [b0]) pe)) b0) as Hobs.
    { exists (Z.lor m PATHOPT_OBSOLETE). split; [done|]. now apply obsolete_after_set. }
    split; [|split; [|done]].
    + unfold tables_sized, GetSize in *. simpl. subst nm. rewrite length_insert. done.
    + split; [reflexivity|]. split; [subst nm; simpl; apply length_insert|].
      exists [b0]. split; [done|]. split; [apply list.NoDup_singleton|]. split; [|split].
      * intros b Hb. apply list_elem_of_singleton in Hb. now subst.
      * intros b Hb. rewrite list_elem_of_singleton.
        destruct (decide (b = b0)) as [->|Hneq]; [tauto|].
        unfold obsolete_bit at 1. simpl. rewrite Hother; [unfold obsolete_bit; tauto|].
        intros Heq. apply Hneq. eapply BlockPosToIdx_inj; eauto.
      * intros b Hb Hnb. rewrite list_elem_of_singleton in Hnb. simpl.
        apply Hother. intros Heq. apply Hnb. eapply BlockPosToIdx_inj; eauto.
  - exists pe. split; [done|]. split; [done|]. split; [apply marked_between_refl|].
    exists m. done.
Qed.

(** [MapChanged] on sized tables: it returns, and what it changed is
    described by [marked_between]; every block of the rectangle has the
    OBSOLETE bit afterwards. *)
Lemma MapChanged_rect pe x1 z1 x2 z2 :
  PATHOPT_OBSOLETE <> 0 -> tables_sized pe ->
  exists pe',
    MapChanged pe x1 z1 x2 z2 = Some pe'
    /\ tables_sized pe' /\ marked_between x1 z1 x2 z2 pe pe'
    /\ forall b, in_map b -> in_changed_rect x1 z1 x2 z2 b -> obsolete_bit pe' b.
Proof.
  intros Hne Hsz.
  pose proof Hsz as (Hnx & Hny & Hfit & _).
  assert (int2_y nbrOfBlocks <= 2 ^ 31 /\ int2_x nbrOfBlocks <= 2 ^ 31) as [Hy31 Hx31] by nia.
  unfold MapChanged.
  set (lowerX := Clamp (to_int32 (Z.min x1 x2 / BLOCK_SIZE)) 0 (to_int32 (int2_x nbrOfBlocks - 1))).
  set (upperX := Clamp (to_int32 (Z.max x1 x2 / BLOCK_SIZE)) 0 (to_int32 (int2_x nbrOfBlocks - 1))).
  set (lowerZ := Clamp (to_int32 (Z.min z1 z2 / BLOCK_SIZE)) 0 (to_int32 (int2_y nbrOfBlocks - 1))).
  set (upperZ := Clamp (to_int32 (Z.max z1 z2 / BLOCK_SIZE)) 0 (to_int32 (int2_y nbrOfBlocks - 1))).
  assert (0 <= lowerX < int2_x nbrOfBlocks) as HlX by (apply Clamp_in_range; lia).
  assert (0 <= upperX < int2_x nbrOfBlocks) as HuX by (apply Clamp_in_range; lia).
  assert (0 <= lowerZ < int2_y nbrOfBlocks) as HlZ by (apply Clamp_in_range; lia).
  assert (0 <= upperZ < int2_y nbrOfBlocks) as HuZ by (apply Clamp_in_range; lia).
  assert (forall b, in_changed_rect x1 z1 x2 z2 b <->
            (lowerX <= int2_x b <= upperX /\ lowerZ <= int2_y b <= upperZ)) as Hrect.
  { intros b. reflexivity. }
  pose (I := fun pe1 : CPathEstimator F => tables_sized pe1).
  pose (R := marked_between (F:=F) x1 z1 x2 z2).
  assert (forall b (s s' : CPathEstimator F),
            in_map b -> obsolete_bit s b -> R s s' -> obsolete_bit s' b) as Hmono.
  { intros b s s' Hin Hobs (_ & _ & new & _ & _ & _ & Hiff & _). apply Hiff; auto. }
  assert (forall z, lowerZ <= z <= upperZ -> forall pe1, I pe1 ->
          exists pe2, MapChanged_row pe1 lowerX upperX z = Some pe2 /\ I pe2 /\ R pe1 pe2
                      /\ forall x, lowerX <= x <= upperX -> obsolete_bit pe2 (mk_int2 x z))
    as Hrow.
  { intros z Hz pe1 HI1. unfold MapChanged_row.
    destruct (fold_opt_visits I R (fun x => lowerX <= x <= upperX)
                (fun x s => in_map (mk_int2 x z) -> obsolete_bit s (mk_int2 x z))
                (fun pe' x => MapChanged_block pe' z x))
      with (l := down_range upperX lowerX) (s := pe1)
      as (pe2 & Hrun & HI2 & HR2 & HD2).
    - intros s. apply marked_between_refl.
    - intros s1 s2 s3. apply marked_between_trans.
    - intros x s s' HD HI HR Hin. eapply Hmono; eauto.
    - intros s x HI Hx.
      assert (in_map (mk_int2 x z)) as Hin by (split; simpl; lia).
      destruct (MapChanged_block_marks x1 z1 x2 z2 s z x Hne HI Hin)
        as (s' & Hrun & Hsz' & HR' & Hobs).
      { apply Hrect. simpl. lia. }
      exists s'. auto.
    - apply Forall_down_range.
    - done.
    - exists pe2. split; [done|]. split; [done|]. split; [done|].
      intros x Hx. apply HD2; [now apply elem_of_down_range|split; simpl; lia]. }
  destruct (fold_opt_visits I R (fun z => lowerZ <= z <= upperZ)
              (fun z s => forall x, lowerX <= x <= upperX -> in_map (mk_int2 x z) ->
                                    obsolete_bit s (mk_int2 x z))
              (fun pe' z => MapChanged_row pe' lowerX upperX z))
    with (l := down_range upperZ lowerZ) (s := pe)
    as (pe' & Hrun & HI' & HR' & HD').
  - intros s. apply marked_between_refl.
  - intros s1 s2 s3. apply marked_between_trans.
  - intros z s s' HD HI HR x Hx Hin. eapply Hmono; eauto.
  - intros s z HI Hz. destruct (Hrow z Hz s HI) as (s' & Hr & HIs' & HRs' & Hobs).
    exists s'. auto.
  - apply Forall_down_range.
  - done.
  - exists pe'. split; [done|]. split; [done|]. split; [done|].
    intros [bx bz] Hin Hb. destruct (proj1 (Hrect _) Hb) as [Hbx Hbz].
    cbn [int2_x int2_y] in Hbx, Hbz.
    apply (HD' bz); [apply elem_of_down_range; lia|lia|done].
Qed.
End MapChangedRect.

Section MapChangedProperties.
Context {F : Type} `{!PathConstants} `{!Grid} `{!MoveDefHandler}.
Implicit Types (pe : CPathEstimator F).

(** A visit of a block whose bit is set changes nothing. *)
Lemma MapChanged_block_noop pe z x :
  int2_x nbrOfBlocks * int2_y nbrOfBlocks <= 2 ^ 31 ->
  in_map (mk_int2 x z) -> obsolete_bit pe (mk_int2 x z) ->
  MapChanged_block pe z x = Some pe.
Proof.
  intros Hfit Hin (m & Hm & Hset).
  destruct (BlockPosToIdx_eq _ Hin Hfit) as (_ & Hint & _).
  unfold MapChanged_block. rewrite Hint, Hm. simpl.
  destruct (Z.eqb_spec (Z.land m PATHOPT_OBSOLETE) 0); [done|reflexivity].
Qed.

Lemma MapChanged_noop pe x1 z1 x2 z2 :
  tables_sized pe ->
  (forall b, in_map b -> in_changed_rect x1 z1 x2 z2 b -> obsolete_bit pe b) ->
  MapChanged pe x1 z1 x2 z2 = Some pe.
Proof.
  intros Hsz Hall.
  pose proof Hsz as (Hnx & Hny & Hfit & _).
  assert (int2_y nbrOfBlocks <= 2 ^ 31 /\ int2_x nbrOfBlocks <= 2 ^ 31) as [Hy31 Hx31] by nia.
  unfold MapChanged.
  set (lowerX := Clamp (to_int32 (Z.min x1 x2 / BLOCK_SIZE)) 0 (to_int32 (int2_x nbrOfBlocks - 1))).
  set (upperX := Clamp (to_int32 (Z.max x1 x2 / BLOCK_SIZE)) 0 (to_int32 (int2_x nbrOfBlocks - 1))).
  set (lowerZ := Clamp (to_int32 (Z.min z1 z2 / BLOCK_SIZE)) 0 (to_int32 (int2_y nbrOfBlocks - 1))).
  set (upperZ := Clamp (to_int32 (Z.max z1 z2 / BLOCK_SIZE)) 0 (to_int32 (int2_y nbrOfBlocks - 1))).
  assert (0 <= lowerX < int2_x nbrOfBlocks) as HlX by (apply Clamp_in_range; lia).
  assert (0 <= upperX < int2_x nbrOfBlocks) as HuX by (apply Clamp_in_range; lia).
  assert (0 <= lowerZ < int2_y nbrOfBlocks) as HlZ by (apply Clamp_in_range; lia).
  assert (0 <= upperZ < int2_y nbrOfBlocks) as HuZ by (apply Clamp_in_range; lia).
  apply fold_opt_fixed. intros z Hz.
  pose proof (proj1 (list.Forall_forall _ _) (Forall_down_range upperZ lowerZ) z Hz) as Hzr.
  unfold MapChanged_row. apply fold_opt_fixed. intros x Hx.
  pose proof (proj1 (list.Forall_forall _ _) (Forall_down_range upperX lowerX) x Hx) as Hxr.
  simpl in Hzr, Hxr.
  assert (in_map (mk_int2 x z)) as Hin by (split; simpl; lia).
  apply MapChanged_block_noop; [done|done|].
  apply Hall; [done|]. split; simpl; fold lowerX upperX lowerZ upperZ; lia.
Qed.

(** X1. [MapChanged] on sized tables returns; it changes the node masks and
    the obsolete queue only; afterwards a block of the map has the OBSOLETE
    bit iff it had it before or lies in the clamped block rectangle; the
    queue grows by exactly the blocks of the rectangle whose bit was clear,
    each once; and the block of every square of the changed area that lies
    on the map is marked. *)
Theorem MapChanged_marks_rectangle pe (x1 z1 x2 z2 : Z) :
  PATHOPT_OBSOLETE <> 0 -> tables_sized pe -> 2 <= BLOCK_SIZE ->
  0 <= x1 < 2 ^ 32 -> 0 <= x2 < 2 ^ 32 -> 0 <= z1 < 2 ^ 32 -> 0 <= z2 < 2 ^ 32 ->
  exists pe' new,
    MapChanged pe x1 z1 x2 z2 = Some pe'
    /\ only_masks_and_queue pe pe'
    /\ updatedBlocks pe' = updatedBlocks pe ++ new /\ NoDup new
    /\ (forall b, in_map b ->
          (obsolete_bit pe' b <-> obsolete_bit pe b \/ in_changed_rect x1 z1 x2 z2 b))
    /\ (forall b, b ∈ new <->
          in_map b /\ in_changed_rect x1 z1 x2 z2 b /\ ~ obsolete_bit pe b)
    /\ (forall b, in_map b -> ~ in_changed_rect x1 z1 x2 z2 b ->
          vget (nodeMask (blockStates pe')) (BlockPosToIdx b)
          = vget (nodeMask (blockStates pe)) (BlockPosToIdx b))
    /\ (forall sx sz,
          Z.min x1 x2 <= sx <= Z.max x1 x2 -> Z.min z1 z2 <= sz <= Z.max z1 z2 ->
          sx < int2_x nbrOfBlocks * BLOCK_SIZE -> sz < int2_y nbrOfBlocks * BLOCK_SIZE ->
          obsolete_bit pe' (mk_int2 (sx / BLOCK_SIZE) (sz / BLOCK_SIZE))).
Proof.
  intros Hne Hsz Hbs Hx1 Hx2 Hz1 Hz2.
  destruct (MapChanged_rect pe x1 z1 x2 z2 Hne Hsz)
    as (pe' & Hrun & Hsz' & (Hfr & Hlen & new & Hq & Hnd & Hnew & Hiff & Hkeep) & Hall).
  exists pe', new. split; [done|]. split; [done|]. split; [done|]. split; [done|].
  assert (forall b, b ∈ new <->
            in_map b /\ in_changed_rect x1 z1 x2 z2 b /\ ~ obsolete_bit pe b) as Hnew_iff.
  { intros b. split; [apply Hnew|].
    intros (Hin & Hrect & Hnot). destruct (proj1 (Hiff b Hin) (Hall b Hin Hrect)); tauto. }
  split; [|split; [done|split]].
  - intros b Hin. rewrite (Hiff b Hin). split; [|intros [Hb|Hb]; [tauto|]].
    + intros [Hb|Hb]; [tauto|]. right. now apply Hnew.
    + destruct (proj1 (Hiff b Hin) (Hall b Hin Hb)); tauto.
  - intros b Hin Hout. apply Hkeep; [done|]. intros Hb. apply Hout. now apply Hnew.
  - intros sx sz Hsx Hsz2 Hxin Hzin.
    pose proof Hsz as (Hnx & Hny & Hfit & _).
    assert (int2_y nbrOfBlocks <= 2 ^ 31 /\ int2_x nbrOfBlocks <= 2 ^ 31) as [Hy31 Hx31] by nia.
    assert (forall a1 a2 s n, 0 <= a1 < 2 ^ 32 -> 0 <= a2 < 2 ^ 32 ->
              0 < n <= 2 ^ 31 -> Z.min a1 a2 <= s <= Z.max a1 a2 -> s < n * BLOCK_SIZE ->
              0 <= s / BLOCK_SIZE < n
              /\ fst (MapChanged_bounds a1 a2 n) <= s / BLOCK_SIZE
                 <= snd (MapChanged_bounds a1 a2 n)) as Hbounds.
    { intros a1 a2 s n Ha1 Ha2 Hn Hs Hsn. unfold MapChanged_bounds. simpl.
      assert (0 <= Z.min a1 a2 / BLOCK_SIZE <= s / BLOCK_SIZE) as Hlo.
      { split; [apply Z.div_pos; lia|apply Z.div_le_mono; lia]. }
      assert (s / BLOCK_SIZE <= Z.max a1 a2 / BLOCK_SIZE) as Hhi
        by (apply Z.div_le_mono; lia).
      assert (s / BLOCK_SIZE < n) as Hsn' by (apply Z.div_lt_upper_bound; lia).
      assert (Z.max a1 a2 / BLOCK_SIZE < 2 ^ 31) as Hmax.
      { apply Z.div_lt_upper_bound; lia. }
      rewrite !to_int32_small by lia. unfold Clamp. lia. }
    destruct (Hbounds x1 x2 sx (int2_x nbrOfBlocks)) as [Hbx Hrx]; try done; try lia.
    destruct (Hbounds z1 z2 sz (int2_y nbrOfBlocks)) as [Hbz Hrz]; try done; try lia.
    apply Hall; [split; simpl; lia|].
    unfold in_changed_rect.
    destruct (MapChanged_bounds x1 x2 (int2_x nbrOfBlocks)) as [lx ux].
    destruct (MapChanged_bounds z1 z2 (int2_y nbrOfBlocks)) as [lz uz].
    simpl in *. lia.
Qed.

(** X2. A second call of [MapChanged] with the same rectangle changes
    nothing: the blocks it would mark are marked, and none is queued
    again. *)
Theorem MapChanged_idempotent pe pe' (x1 z1 x2 z2 : Z) :
  PATHOPT_OBSOLETE <> 0 -> tables_sized pe ->
  MapChanged pe x1 z1 x2 z2 = Some pe' ->
  MapChanged pe' x1 z1 x2 z2 = Some pe'.
Proof.
  intros Hne Hsz Hrun.
  destruct (MapChanged_rect pe x1 z1 x2 z2 Hne Hsz) as (pe1 & Hrun1 & Hsz1 & _ & Hall).
  rewrite Hrun in Hrun1. injection Hrun1 as <-.
  now apply MapChanged_noop.
Qed.
End MapChangedProperties.

(** ** CalculateVertices: the four entries of a block *)

Section VertexSlots.
Context {F : Type} `{!FloatOps F} `{!PathConstants} `{!Grid} `{!Collaborators F}
        `{!MoveDefHandler}.
Implicit Types (pe : CPathEstimator F).

Lemma only_vertexCosts_refl pe : only_vertexCosts pe pe.
Proof. unfold only_vertexCosts. now destruct pe. Qed.

Lemma only_vertexCosts_trans pe1 pe2 pe3 :
  only_vertexCosts pe1 pe2 -> only_vertexCosts pe2 pe3 -> only_vertexCosts pe1 pe3.
Proof. unfold only_vertexCosts. intros H12 H23. rewrite H23 at 1. now rewrite H12 at 1. Qed.

Lemma only_vertexCosts_blockStates pe pe' :
  only_vertexCosts pe pe' -> blockStates pe' = blockStates pe.
Proof. intros ->. reflexivity. Qed.

(** [CalculateVertex] stores [edge_cost] at [vertexNbr]. *)
Lemma CalculateVertex_edge_cost pe md p d t :
  CalculateVertex pe md p d t
  = c ← edge_cost (blockStates pe) md p d t; store_vertex pe (vertexNbr pe md p d) c.
Proof.
  unfold CalculateVertex, edge_cost.
  destruct (outside_map _); [reflexivity|].
  destruct (offset_at _ (BlockPosToIdx p) _) as [ps|]; [|reflexivity]. simpl.
  destruct (offset_at _ _ _) as [cs|]; [|reflexivity]. simpl.
  destruct (_ || _); [reflexivity|].
  destruct (GetPath _ _ _ _ _) as [r c]. simpl. now destruct (decide (r = Ok)).
Qed.

(** The index of an entry, without wrap-around, and its range. *)
Lemma vertexNbr_eq pe md p d :
  tables_sized pe -> in_map p -> 0 <= pathType md < GetNumMoveDefs ->
  0 <= d < PATH_DIRECTION_VERTICES ->
  vertexNbr pe md p d
  = (pathType md * (int2_x nbrOfBlocks * int2_y nbrOfBlocks) + BlockPosToIdx p) * 4 + d
  /\ 0 <= BlockPosToIdx p < int2_x nbrOfBlocks * int2_y nbrOfBlocks
  /\ 0 <= vertexNbr pe md p d < Z.of_nat (length (vertexCosts pe)).
Proof.
  intros Hsz Hp Hpt Hd.
  pose proof Hsz as (Hnx & Hny & Hfit & Hfit' & Hsize & Hoffs & Hrows & Hvc).
  assert (int2_x nbrOfBlocks * int2_y nbrOfBlocks <= 2 ^ 32) as Hfit32 by lia.
  destruct (BlockPosToIdx_in_map p Hp Hfit32) as [_ Hidx].
  unfold vertexNbr, PATH_DIRECTION_VERTICES in *. rewrite Hsize, Hvc.
  rewrite wrap32_small by nia. split; [ring|]. split; [done|nia].
Qed.

(** Entries of different move defs, blocks or directions are different. *)
Lemma vertexNbr_inj pe md md' p p' d d' :
  tables_sized pe -> in_map p -> in_map p' ->
  0 <= pathType md < GetNumMoveDefs -> 0 <= pathType md' < GetNumMoveDefs ->
  0 <= d < PATH_DIRECTION_VERTICES -> 0 <= d' < PATH_DIRECTION_VERTICES ->
  vertexNbr pe md p d = vertexNbr pe md' p' d' ->
  pathType md = pathType md' /\ p = p' /\ d = d'.
Proof.
  intros Hsz Hp Hp' Hpt Hpt' Hd Hd' Heq.
  destruct (vertexNbr_eq pe md p d Hsz Hp Hpt Hd) as (E1 & R1 & _).
  destruct (vertexNbr_eq pe md' p' d' Hsz Hp' Hpt' Hd') as (E2 & R2 & _).
  rewrite E1, E2 in Heq. unfold PATH_DIRECTION_VERTICES in *.
  pose proof Hsz as (_ & _ & Hfit & _).
  set (S := int2_x nbrOfBlocks * int2_y nbrOfBlocks) in *.
  assert (pathType md * S + BlockPosToIdx p = pathType md' * S + BlockPosToIdx p' /\ d = d')
    as [Ha Hdd] by lia.
  assert (pathType md = pathType md') as Hm.
  { destruct (Z.lt_trichotomy (pathType md) (pathType md')) as [Hlt|[Heq'|Hgt]];
      [nia|done|nia]. }
  assert (BlockPosToIdx p = BlockPosToIdx p') as Hb by (rewrite Hm in Ha; lia).
  split; [done|]. split; [|done]. eapply BlockPosToIdx_inj; eauto.
Qed.

Lemma vertexNbr_blockStates pe pe' md p d :
  blockStates pe' = blockStates pe -> vertexNbr pe' md p d = vertexNbr pe md p d.
Proof. unfold vertexNbr. now intros ->. Qed.

Lemma store_vertex_only pe idx c pe' :
  store_vertex pe idx c = Some pe' ->
  only_vertexCosts pe pe' /\ length (vertexCosts pe') = length (vertexCosts pe).
Proof.
  unfold store_vertex. destruct (vset _ _ _) as [vc|] eqn:Hset; [|done].
  simpl. intros [= <-]. split; [reflexivity|]. simpl. eapply vset_length, Hset.
Qed.

(** One call of [CalculateVertex] on sized tables. *)
Lemma CalculateVertex_slot pe md p d t :
  tables_sized pe -> in_map p -> 0 <= pathType md < GetNumMoveDefs ->
  0 <= d < PATH_DIRECTION_VERTICES ->
  exists pe' c,
    CalculateVertex pe md p d t = Some pe'
    /\ edge_cost (blockStates pe) md p d t = Some c
    /\ only_vertexCosts pe pe' /\ tables_sized pe'
    /\ vget (vertexCosts pe') (vertexNbr pe md p d) = Some c
    /\ forall j, j <> vertexNbr pe md p d ->
         vget (vertexCosts pe') j = vget (vertexCosts pe) j.
Proof.
  intros Hsz Hp Hpt Hd.
  destruct (CalculateVertex_total pe md p d t Hsz Hp Hpt Hd) as (pe' & Hrun & Hsz' & _).
  pose proof Hrun as Hrun'. rewrite CalculateVertex_edge_cost in Hrun'.
  destruct (edge_cost _ _ _ _ _) as [c|]; [|done]. simpl in Hrun'.
  exists pe', c. split; [done|]. split; [done|].
  destruct (store_vertex_only _ _ _ _ Hrun') as [Hfr _].
  destruct (store_vertex_read _ _ _ _ Hrun') as [Hread Hother].
  auto.
Qed.

(** [CalculateVertices] on sized tables: the four entries it writes. *)
Lemma CalculateVertices_slots pe (md : MoveDef) (p : int2) (t : Z) :
  tables_sized pe -> in_map p -> 0 <= pathType md < GetNumMoveDefs ->
  exists pe',
    CalculateVertices pe md p t = Some pe'
    /\ only_vertexCosts pe pe' /\ tables_sized pe'
    /\ (forall d, 0 <= d < PATH_DIRECTION_VERTICES ->
          exists c, edge_cost (blockStates pe) md p d t = Some c
                    /\ vget (vertexCosts pe') (vertexNbr pe md p d) = Some c)
    /\ (forall j, (forall d, 0 <= d < PATH_DIRECTION_VERTICES -> j <> vertexNbr pe md p d) ->
          vget (vertexCosts pe') j = vget (vertexCosts pe) j).
Proof.
  intros Hsz Hp Hpt. unfold CalculateVertices.
  destruct (CalculateVertex_slot pe md p PATHDIR_LEFT t Hsz Hp Hpt)
    as (pe1 & c0 & -> & Hc0 & Hfr1 & Hsz1 & Hr1 & Ho1); [done|]. simpl.
  pose proof (only_vertexCosts_blockStates _ _ Hfr1) as Hbs1.
  destruct (CalculateVertex_slot pe1 md p PATHDIR_LEFT_UP t Hsz1 Hp Hpt)
    as (pe2 & c1 & -> & Hc1 & Hfr2 & Hsz2 & Hr2 & Ho2); [done|]. simpl.
  pose proof (only_vertexCosts_blockStates _ _ Hfr2) as Hbs2.
  destruct (CalculateVertex_slot pe2 md p PATHDIR_UP t Hsz2 Hp Hpt)
    as (pe3 & c2 & -> & Hc2 & Hfr3 & Hsz3 & Hr3 & Ho3); [done|]. simpl.
  pose proof (only_vertexCosts_blockStates _ _ Hfr3) as Hbs3.
  destruct (CalculateVertex_slot pe3 md p PATHDIR_RIGHT_UP t Hsz3 Hp Hpt)
    as (pe4 & c3 & -> & Hc3 & Hfr4 & Hsz4 & Hr4 & Ho4); [done|].
  rewrite Hbs1 in Hc1. rewrite Hbs2, Hbs1 in Hc2. rewrite Hbs3, Hbs2, Hbs1 in Hc3.
  rewrite (vertexNbr_blockStates pe pe1) in Hr2, Ho2 by done.
  rewrite (vertexNbr_blockStates pe pe2) in Hr3, Ho3 by congruence.
  rewrite (vertexNbr_blockStates pe pe3) in Hr4, Ho4 by congruence.
  assert (forall d d', 0 <= d < 4 -> 0 <= d' < 4 -> d <> d' ->
            vertexNbr pe md p d <> vertexNbr pe md p d') as Hdiff.
  { intros d d' Hd Hd' Hne Heq.
    destruct (vertexNbr_inj pe md md p p d d' Hsz Hp Hp Hpt Hpt Hd Hd' Heq) as (_ & _ & E).
    done. }
  exists pe4. split; [done|].
  split; [eauto using only_vertexCosts_trans|]. split; [done|].
  unfold PATHDIR_LEFT, PATHDIR_LEFT_UP, PATHDIR_UP, PATHDIR_RIGHT_UP,
    PATH_DIRECTION_VERTICES in *.
  split.
  - intros d Hd.
    assert (d = 0 \/ d = 1 \/ d = 2 \/ d = 3) as [-> | [-> | [-> | ->]]] by lia.
    + exists c0. split; [done|]. rewrite Ho4, Ho3, Ho2 by (apply Hdiff; lia). done.
    + exists c1. split; [done|]. rewrite Ho4, Ho3 by (apply Hdiff; lia). done.
    + exists c2. split; [done|]. rewrite Ho4 by (apply Hdiff; lia). done.
    + exists c3. split; done.
  - intros j Hj. rewrite Ho4, Ho3, Ho2, Ho1 by (apply Hj; lia). done.
Qed.

(** X3. [CalculateVertices] on sized tables returns; it changes the vertex
    table only, and there only the four entries of the block for the move
    def; each holds the cost of its edge, INFINITY or the cost of the fine
    path as [edge_cost] tells from the offsets, and that is the cost the
    search reads for the block in the four stored directions. *)
Theorem CalculateVertices_four_entries pe (md : MoveDef) (p : int2) (t : Z) :
  tables_sized pe -> in_map p -> 0 <= pathType md < GetNumMoveDefs ->
  exists pe',
    CalculateVertices pe md p t = Some pe'
    /\ only_vertexCosts pe pe'
    /\ length (vertexCosts pe') = length (vertexCosts pe)
    /\ (forall d, 0 <= d < PATH_DIRECTION_VERTICES ->
          exists c, edge_cost (blockStates pe) md p d t = Some c
                    /\ vget (vertexCosts pe') (vertexNbr pe md p d) = Some c
                    /\ vertex_cost pe' md p d = Some c)
    /\ (forall j, (forall d, 0 <= d < PATH_DIRECTION_VERTICES -> j <> vertexNbr pe md p d) ->
          vget (vertexCosts pe') j = vget (vertexCosts pe) j).
Proof.
  intros Hsz Hp Hpt.
  destruct (CalculateVertices_slots pe md p t Hsz Hp Hpt)
    as (pe' & Hrun & Hfr & Hsz' & Hslots & Hother).
  exists pe'. split; [done|]. split; [done|]. split.
  { pose proof Hsz as (_ & _ & _ & _ & _ & _ & _ & Hvc).
    pose proof Hsz' as (_ & _ & _ & _ & _ & _ & _ & Hvc'). lia. }
  split; [|done].
  intros d Hd. destruct (Hslots d Hd) as (c & Hc & Hget).
  exists c. split; [done|]. split; [done|].
  unfold vertex_cost. rewrite vertexIdx_stored by lia.
  rewrite (vertexNbr_blockStates pe pe'); [done|].
  now apply only_vertexCosts_blockStates.
Qed.
End VertexSlots.

(** ** Update: what it recomputes *)

Section UpdateContent.
Context {F : Type} `{!FloatOps F} `{!PathConstants} `{!Grid} `{!Collaborators F}
        `{!MoveDefHandler}.
Implicit Types (pe : CPathEstimator F).

Lemma handler_wf_unique md md' :
  handler_wf -> md ∈ moveDefs -> md' ∈ moveDefs -> pathType md = pathType md' -> md = md'.
Proof.
  intros Hwf Hmd Hmd' Heq.
  apply list_elem_of_lookup in Hmd as [i Hi]. apply list_elem_of_lookup in Hmd' as [i' Hi'].
  rewrite (Hwf i md Hi), (Hwf i' md' Hi') in Heq.
  assert (i = i') as -> by lia. congruence.
Qed.

Lemma entry_wf_range sb :
  handler_wf -> entry_wf sb ->
  in_map (sb_blockPos sb) /\ 0 <= pathType (sb_moveDef sb) < GetNumMoveDefs.
Proof. intros Hwf [Hin Hmd]. split; [done|]. now apply handler_wf_range. Qed.

Lemma edge_cost_offsets (bs bs' : PathNodeStateBuffer F) md p d t :
  peNodeOffsets bs' = peNodeOffsets bs -> edge_cost bs' md p d t = edge_cost bs md p d t.
Proof. unfold edge_cost, offset_at. now intros ->. Qed.

Lemma store_offset_only pe i j sq pe' :
  store_offset pe i j sq = Some pe' -> only_offsets pe pe'.
Proof.
  unfold store_offset.
  destruct (vget _ i) as [row|]; simpl; [|discriminate].
  destruct (vset row j sq) as [row'|]; simpl; [|discriminate].
  destruct (vset _ i row') as [offs|]; simpl; [|discriminate].
  intros [= <-]. reflexivity.
Qed.

Lemma only_offsets_trans pe1 pe2 pe3 :
  only_offsets pe1 pe2 -> only_offsets pe2 pe3 -> only_offsets pe1 pe3.
Proof. unfold only_offsets. intros H12 H23. rewrite H23 at 1. now rewrite H12 at 1 2. Qed.

(** The parallel loop of [Update]: the offset of every entry is the one
    [FindOffset] gives, the others are as before. *)
Lemma Update_offsets_content (cs : list SingleBlock) pe :
  handler_wf -> tables_sized pe -> Forall entry_wf cs ->
  exists pe',
    fold_opt Update_offset pe cs = Some pe'
    /\ tables_sized pe' /\ only_offsets pe pe'
    /\ forall i pt,
         (offset_at (blockStates pe') i pt = offset_at (blockStates pe) i pt
          /\ forall sb, sb ∈ cs ->
               ~ (i = BlockPosToIdx (sb_blockPos sb) /\ pt = pathType (sb_moveDef sb)))
         \/ exists sb, sb ∈ cs /\ i = BlockPosToIdx (sb_blockPos sb)
                       /\ pt = pathType (sb_moveDef sb)
                       /\ offset_at (blockStates pe') i pt
                          = Some (FindOffset (sb_moveDef sb) (int2_x (sb_blockPos sb))
                                    (int2_y (sb_blockPos sb))).
Proof.
  intros Hwf. revert pe. induction cs as [|sb cs IH]; intros pe Hsz Hcs.
  - exists pe. split; [done|]. split; [done|]. split; [now destruct pe as [[] ]|].
    intros i pt. left. split; [done|]. intros sb Hsb. inversion Hsb.
  - apply list.Forall_cons in Hcs as [Hsb Hcs].
    destruct (entry_wf_range sb Hwf Hsb) as [Hin Hpt].
    pose proof Hsz as (Hnx & Hny & Hfit & _).
    destruct (BlockPosToIdx_eq _ Hin Hfit) as (_ & Hint & Hidx).
    assert (Update_offset pe sb
            = store_offset pe (BlockPosToIdx (sb_blockPos sb)) (pathType (sb_moveDef sb))
                (FindOffset (sb_moveDef sb) (int2_x (sb_blockPos sb))
                   (int2_y (sb_blockPos sb)))) as Heq.
    { unfold Update_offset. cbv zeta. rewrite Hint.
      destruct Hin. rewrite !wrap32_small by nia. reflexivity. }
    destruct (store_offset_spec pe _ (pathType (sb_moveDef sb))
                (FindOffset (sb_moveDef sb) (int2_x (sb_blockPos sb))
                   (int2_y (sb_blockPos sb))) Hsz Hidx Hpt)
      as (pe1 & Hst & Hsz1 & _).
    cbn [fold_opt]. rewrite Heq, Hst. simpl.
    destruct (IH pe1 Hsz1 Hcs) as (pe' & Hrun & Hsz' & Hfr & Hall).
    exists pe'. split; [done|]. split; [done|].
    split; [eapply only_offsets_trans; [eapply store_offset_only|]; eauto|].
    destruct (store_offset_read _ _ _ _ _ Hst) as (Hrd & Hother & _).
    intros i pt. destruct (Hall i pt) as [[Hsame Hnot]|(sb' & Hsb' & -> & -> & Hval)].
    + destruct (decide (i = BlockPosToIdx (sb_blockPos sb))) as [->|Hi].
      * destruct (decide (pt = pathType (sb_moveDef sb))) as [->|Hp].
        -- right. exists sb. split; [left|]. split; [done|]. split; [done|]. congruence.
        -- left. split; [rewrite Hsame; apply Hother; auto|].
           intros sb0 Hsb0. apply elem_of_cons in Hsb0 as [->|Hsb0]; [tauto|auto].
      * left. split; [rewrite Hsame; apply Hother; auto|].
        intros sb0 Hsb0. apply elem_of_cons in Hsb0 as [->|Hsb0]; [tauto|auto].
    + right. exists sb'. split; [now right|]. done.
Qed.

Lemma only_masks_and_vertexCosts_trans pe1 pe2 pe3 :
  only_masks_and_vertexCosts pe1 pe2 -> only_masks_and_vertexCosts pe2 pe3 ->
  only_masks_and_vertexCosts pe1 pe3.
Proof.
  unfold only_masks_and_vertexCosts. intros H12 H23. rewrite H23 at 1.
  now rewrite H12 at 1 2.
Qed.

Lemma only_vertexCosts_masks pe pe' :
  only_vertexCosts pe pe' -> only_masks_and_vertexCosts pe pe'.
Proof.
  unfold only_vertexCosts, only_masks_and_vertexCosts. intros ->. simpl.
  now destruct pe as [[] ].
Qed.

Lemma clear_obsolete_only pe i pe' :
  clear_obsolete pe i = Some pe' ->
  only_masks_and_vertexCosts pe pe'
  /\ length (nodeMask (blockStates pe')) = length (nodeMask (blockStates pe))
  /\ vertexCosts pe' = vertexCosts pe.
Proof.
  unfold clear_obsolete.
  destruct (vget _ i) as [m|]; simpl; [|discriminate].
  destruct (vset _ i _) as [nm|] eqn:Hset; simpl; [|discriminate].
  intros [= <-]. split; [now destruct pe|]. split; [|done]. simpl.
  eapply vset_length, Hset.
Qed.

Lemma only_masks_and_vertexCosts_offsets pe pe' :
  only_masks_and_vertexCosts pe pe' ->
  peNodeOffsets (blockStates pe') = peNodeOffsets (blockStates pe).
Proof. intros ->. reflexivity. Qed.

Lemma vertexNbr_size pe pe' md p d :
  length (nodeMask (blockStates pe')) = length (nodeMask (blockStates pe)) ->
  vertexNbr pe' md p d = vertexNbr pe md p d.
Proof. unfold vertexNbr, GetSize. now intros ->. Qed.

(** The serial loop of [Update]: the four entries of every [SingleBlock]
    hold the costs of their edges, the others are as before. *)
Lemma Update_vertices_content (cs : list SingleBlock) pe :
  handler_wf -> tables_sized pe -> Forall entry_wf cs ->
  exists pe',
    Update_vertices pe cs = Some pe'
    /\ tables_sized pe' /\ only_masks_and_vertexCosts pe pe'
    /\ length (nodeMask (blockStates pe')) = length (nodeMask (blockStates pe))
    /\ forall j,
         (vget (vertexCosts pe') j = vget (vertexCosts pe) j
          /\ forall sb d, sb ∈ cs -> 0 <= d < PATH_DIRECTION_VERTICES ->
               j <> vertexNbr pe (sb_moveDef sb) (sb_blockPos sb) d)
         \/ exists sb d c,
              sb ∈ cs /\ 0 <= d < PATH_DIRECTION_VERTICES
              /\ j = vertexNbr pe (sb_moveDef sb) (sb_blockPos sb) d
              /\ edge_cost (blockStates pe) (sb_moveDef sb) (sb_blockPos sb) d 0 = Some c
              /\ vget (vertexCosts pe') j = Some c.
Proof.
  intros Hwf. revert pe. induction cs as [|sb cs IH]; intros pe Hsz Hcs.
  - exists pe. split; [done|]. split; [done|]. split; [now destruct pe as [[] ]|].
    split; [done|]. intros j. left. split; [done|]. intros sb d Hsb. inversion Hsb.
  - apply list.Forall_cons in Hcs as [Hsb Hcs].
    destruct (entry_wf_range sb Hwf Hsb) as [Hin Hpt].
    pose proof Hsz as (Hnx & Hny & Hfit & _).
    destruct (BlockPosToIdx_eq _ Hin Hfit) as (_ & Hint & Hidx).
    destruct (CalculateVertices_slots pe (sb_moveDef sb) (sb_blockPos sb) 0 Hsz Hin Hpt)
      as (pe1 & Hcv & Hfr1 & Hsz1 & Hslots & Hother).
    pose proof (only_vertexCosts_blockStates _ _ Hfr1) as Hbs1.
    cbn [Update_vertices]. rewrite Hcv, Hint. simpl.
    destruct (clear_obsolete_spec pe1 (BlockPosToIdx (sb_blockPos sb)) Hsz1 Hidx)
      as (pe_c & m & Hcl & _ & _ & Hsz_c & _).
    destruct (clear_obsolete_only _ _ _ Hcl) as (Hfr_c & Hlen_c & Hvc_c).
    assert (exists pe2,
              match cs with
              | [] => clear_obsolete pe1 (BlockPosToIdx (sb_blockPos sb))
              | nxt :: _ =>
                if pathType (sb_moveDef nxt) <=? pathType (sb_moveDef sb)
                then clear_obsolete pe1 (BlockPosToIdx (sb_blockPos sb)) else Some pe1
              end = Some pe2
              /\ tables_sized pe2 /\ only_masks_and_vertexCosts pe1 pe2
              /\ length (nodeMask (blockStates pe2)) = length (nodeMask (blockStates pe1))
              /\ vertexCosts pe2 = vertexCosts pe1) as (pe2 & -> & Hsz2 & Hfr2 & Hlen2 & Hvc2).
    { assert (only_masks_and_vertexCosts pe1 pe1) as Hrefl by now destruct pe1 as [[] ].
      destruct cs as [|nxt cs']; [eauto 10|].
      destruct (_ <=? _); eauto 10. }
    simpl.
    destruct (IH pe2 Hsz2 Hcs) as (pe' & Hrun & Hsz' & Hfr' & Hlen' & Hall).
    assert (length (nodeMask (blockStates pe2)) = length (nodeMask (blockStates pe))) as Hlen
      by (rewrite Hlen2, Hbs1; done).
    assert (peNodeOffsets (blockStates pe2) = peNodeOffsets (blockStates pe)) as Hoffs.
    { rewrite (only_masks_and_vertexCosts_offsets _ _ Hfr2), Hbs1. done. }
    exists pe'. split; [done|]. split; [done|]. split.
    { eapply only_masks_and_vertexCosts_trans; [|exact Hfr'].
      eapply only_masks_and_vertexCosts_trans; [|exact Hfr2].
      now apply only_vertexCosts_masks. }
    split; [congruence|].
    intros j. destruct (Hall j) as [[Hsame Hnot]|(sb' & d & c & Hsb' & Hd & -> & Hc & Hval)].
    + rewrite Hvc2 in Hsame.
      assert ((exists d, 0 <= d < PATH_DIRECTION_VERTICES
                         /\ j = vertexNbr pe (sb_moveDef sb) (sb_blockPos sb) d)
              \/ forall d, 0 <= d < PATH_DIRECTION_VERTICES ->
                   j <> vertexNbr pe (sb_moveDef sb) (sb_blockPos sb) d) as [(d & Hd & ->)|Hj].
      { unfold PATH_DIRECTION_VERTICES.
        destruct (decide (j = vertexNbr pe (sb_moveDef sb) (sb_blockPos sb) 0)); [left; exists 0; split; [lia|done]|].
        destruct (decide (j = vertexNbr pe (sb_moveDef sb) (sb_blockPos sb) 1)); [left; exists 1; split; [lia|done]|].
        destruct (decide (j = vertexNbr pe (sb_moveDef sb) (sb_blockPos sb) 2)); [left; exists 2; split; [lia|done]|].
        destruct (decide (j = vertexNbr pe (sb_moveDef sb) (sb_blockPos sb) 3)); [left; exists 3; split; [lia|done]|].
        right. intros d Hd.
        assert (d = 0 \/ d = 1 \/ d = 2 \/ d = 3) as [-> | [-> | [-> | ->]]] by lia; done. }
      * destruct (Hslots d Hd) as (c & Hc & Hget).
        right. exists sb, d, c. split; [left|]. split; [done|]. split; [done|].
        split; [done|]. congruence.
      * left. split; [rewrite Hsame; now apply Hother|].
        intros sb0 d Hsb0 Hd. apply elem_of_cons in Hsb0 as [->|Hsb0]; [auto|].
        rewrite <- (vertexNbr_size pe pe2) by done. now apply Hnot.
    + right. exists sb', d, c. split; [now right|]. split; [done|].
      split; [now apply vertexNbr_size|]. split; [|done].
      rewrite <- Hc. symmetry. now apply edge_cost_offsets.
Qed.

Lemma Update_frame_fields pe pe' :
  fCost (blockStates pe') = fCost (blockStates pe) ->
  gCost (blockStates pe') = gCost (blockStates pe) ->
  peParentNodePos (blockStates pe') = peParentNodePos (blockStates pe) ->
  maxCostF (blockStates pe') = maxCostF (blockStates pe) ->
  maxCostG (blockStates pe') = maxCostG (blockStates pe) ->
  openBlocks pe' = openBlocks pe -> openBlockBuffer pe' = openBlockBuffer pe ->
  dirtyBlocks pe' = dirtyBlocks pe ->
  maxBlocksToBeSearched pe' = maxBlocksToBeSearched pe ->
  testedBlocks pe' = testedBlocks pe ->
  mGoalBlockIdx pe' = mGoalBlockIdx pe -> mGoalHeuristic pe' = mGoalHeuristic pe ->
  Update_frame pe pe'.
Proof.
  unfold Update_frame. destruct pe' as [[] ]. simpl. intros. subst. reflexivity.
Qed.

Lemma SingleBlock_unique (sb sb' : SingleBlock) :
  handler_wf -> int2_x nbrOfBlocks * int2_y nbrOfBlocks <= 2 ^ 31 ->
  entry_wf sb -> entry_wf sb' ->
  BlockPosToIdx (sb_blockPos sb) = BlockPosToIdx (sb_blockPos sb') ->
  pathType (sb_moveDef sb) = pathType (sb_moveDef sb') -> sb = sb'.
Proof.
  intros Hwf Hfit [Hin Hmd] [Hin' Hmd'] Hidx Hpt.
  destruct sb as [p md], sb' as [p' md']. simpl in *. f_equal.
  - eapply BlockPosToIdx_inj; eauto.
  - now apply handler_wf_unique.
Qed.

(** X4. [Update] on a well-formed estimator returns, and for the entries
    [Update_consumed] lists: the offset of each entry is the one
    [FindOffset] finds for its block and move def, and its four vertex
    costs are the costs of its edges computed from the offsets as they are
    after the call, so that an edge between two refreshed blocks uses both
    new offsets. Every other offset and vertex cost is as before, and so
    are the costs, parents and the search state of every block. *)
Theorem Update_refreshes_consumed pe :
  handler_wf -> tables_sized pe -> queue_invariant pe ->
  exists pe' cs,
    Update pe = Some pe' /\ Update_consumed pe = Some cs
    /\ Update_frame pe pe'
    /\ (forall sb, sb ∈ cs ->
          offset_at (blockStates pe') (BlockPosToIdx (sb_blockPos sb))
            (pathType (sb_moveDef sb))
          = Some (FindOffset (sb_moveDef sb) (int2_x (sb_blockPos sb))
                    (int2_y (sb_blockPos sb))))
    /\ (forall i pt,
          (forall sb, sb ∈ cs ->
             ~ (i = BlockPosToIdx (sb_blockPos sb) /\ pt = pathType (sb_moveDef sb))) ->
          offset_at (blockStates pe') i pt = offset_at (blockStates pe) i pt)
    /\ (forall sb d, sb ∈ cs -> 0 <= d < PATH_DIRECTION_VERTICES ->
          exists c,
            edge_cost (blockStates pe') (sb_moveDef sb) (sb_blockPos sb) d 0 = Some c
            /\ vget (vertexCosts pe') (vertexNbr pe (sb_moveDef sb) (sb_blockPos sb) d)
               = Some c)
    /\ (forall j,
          (forall sb d, sb ∈ cs -> 0 <= d < PATH_DIRECTION_VERTICES ->
             j <> vertexNbr pe (sb_moveDef sb) (sb_blockPos sb) d) ->
          vget (vertexCosts pe') j = vget (vertexCosts pe) j).
Proof.
  intros Hwf Hsz Hinv.
  unfold Update, Update_consumed.
  destruct (Update_budget pe) as [[btu cb] pen].
  set (pe0 := set_blockUpdatePenalty pen pe).
  assert (Update_frame pe pe0) as Hfr0 by now destruct pe as [[] ].
  destruct (Z.eqb_spec btu 0) as [_|Hbtu].
  { exists pe0, []. repeat (split; [done|]).
    split; [intros sb Hsb; inversion Hsb|]. split; [done|].
    split; [intros sb d Hsb; inversion Hsb|done]. }
  pose proof Hsz as (_ & _ & Hfit & _).
  pose proof Hinv as (Hnd & Hqin & Hiff).
  destruct (Update_drain_spec (nodeMask (blockStates pe)) btu (updatedBlocks pe) [])
    as (q1 & q2 & Hq & Hdrain).
  { intros b Hb. destruct (BlockPosToIdx_eq b (Hqin b Hb) Hfit) as (_ & -> & _).
    apply (Hiff b (Hqin b Hb)). done. }
  rewrite Hdrain. simpl.
  change (updatedBlocks pe0) with (updatedBlocks pe).
  change (nodeMask (blockStates pe0)) with (nodeMask (blockStates pe)).
  rewrite Hdrain. simpl.
  set (cs := concat (Update_entries <$> q1)).
  destruct (updatedBlocks pe) as [|p0 qrest] eqn:Hqueue.
  { destruct q1; [|discriminate]. destruct q2; [|discriminate].
    exists pe0, []. repeat (split; [done|]).
    split; [intros sb Hsb; inversion Hsb|]. split; [done|].
    split; [intros sb d Hsb; inversion Hsb|done]. }
  rewrite <- Hqueue in *. clear p0 qrest Hqueue.
  set (pe1 := set_updatedBlocks q2 pe0).
  assert (tables_sized pe1) as Hsz1 by done.
  assert (Forall entry_wf cs) as Hcs.
  { apply list.Forall_forall. intros sb Hsb.
    apply Update_entries_in in Hsb as [Hb Hmd]. split.
    - apply Hqin. rewrite Hq. apply elem_of_app. now left.
    - unfold moveDefs_in_use in Hmd. now apply list_elem_of_filter in Hmd as [_ Hmd]. }
  destruct (Update_offsets_content cs pe1 Hwf Hsz1 Hcs) as (pe2 & Hoff & Hsz2 & Hfr2 & Hoffs).
  rewrite Hoff. simpl.
  destruct (Update_vertices_content cs pe2 Hwf Hsz2 Hcs)
    as (pe3 & Hrun & Hsz3 & Hfr3 & Hlen3 & Hverts).
  exists pe3, cs. split; [done|]. split; [done|].
  pose proof (only_masks_and_vertexCosts_offsets _ _ Hfr3) as Hoffs3.
  assert (length (nodeMask (blockStates pe2)) = length (nodeMask (blockStates pe))) as Hlen2.
  { rewrite Hfr2. reflexivity. }
  assert (vertexCosts pe2 = vertexCosts pe) as Hvc2 by (rewrite Hfr2; reflexivity).
  assert (forall i pt, offset_at (blockStates pe3) i pt = offset_at (blockStates pe2) i pt)
    as Hoff3 by (intros i pt; unfold offset_at; now rewrite Hoffs3).
  rewrite list.Forall_forall in Hcs.
  split; [|split; [|split; [|split]]].
  - apply Update_frame_fields; rewrite Hfr3; simpl; rewrite Hfr2; reflexivity.
  - intros sb Hsb. rewrite Hoff3.
    destruct (Hoffs (BlockPosToIdx (sb_blockPos sb)) (pathType (sb_moveDef sb)))
      as [[_ Hnot]|(sb' & Hsb' & Hi & Hp & Hval)].
    + exfalso. eapply Hnot; eauto.
    + assert (sb = sb') as <- by (apply SingleBlock_unique; auto).
      exact Hval.
  - intros i pt Hnot. rewrite Hoff3.
    destruct (Hoffs i pt) as [[Hsame _]|(sb' & Hsb' & Hi & Hp & _)]; [done|].
    exfalso. eapply Hnot; eauto.
  - intros sb d Hsb Hd.
    destruct (Hverts (vertexNbr pe2 (sb_moveDef sb) (sb_blockPos sb) d))
      as [[_ Hnot]|(sb' & d' & c & Hsb' & Hd' & Hj & Hc & Hval)].
    + exfalso. eapply Hnot; eauto.
    + destruct (entry_wf_range sb Hwf (Hcs sb Hsb)) as [Hin Hpt].
      destruct (entry_wf_range sb' Hwf (Hcs sb' Hsb')) as [Hin' Hpt'].
      destruct (vertexNbr_inj pe2 _ _ _ _ d d' Hsz2 Hin Hin' Hpt Hpt' Hd Hd' Hj)
        as (Hp & Hb & ->).
      assert (sb = sb') as <-.
      { apply SingleBlock_unique; auto. congruence. }
      exists c. split.
      * rewrite <- Hc. now apply edge_cost_offsets.
      * rewrite <- (vertexNbr_size pe pe2) by done. exact Hval.
  - intros j Hnot.
    destruct (Hverts j) as [[Hsame _]|(sb' & d' & c & Hsb' & Hd' & Hj & _)].
    + now rewrite Hsame, Hvc2.
    + exfalso. eapply (Hnot sb' d'); eauto.
      rewrite Hj. now apply vertexNbr_size.
Qed.
End UpdateContent.

(** ** Start-up *)

(** X5. The threads of the precomputation. With at least one core, a
    path finder of at least two bytes and 32-bit footprints,
    [InitEstimator] computes a number of extra threads below the thread
    count of [GetNumThreads]; the memory it requests for all path finders
    does not overflow and stays within the configured maximum, unless one
    path finder alone exceeds it, in which case no extra thread is
    started; and one more thread would not fit unless every thread is
    already in use. *)
Theorem InitEstimator_thread_budget (pathingThreadCount numCores minMem maxMem : Z) :
  1 <= numCores < 2 ^ 31 -> pathingThreadCount < 2 ^ 31 ->
  2 <= minMem < 2 ^ 32 -> 0 <= maxMem < 2 ^ 32 ->
  let numThreads := wrap32 (GetNumThreads pathingThreadCount numCores) in
  1 <= numThreads
  /\ exists n,
       numExtraThreads minMem maxMem numThreads = Some n
       /\ 0 <= n <= numThreads - 1
       /\ reqMemFootPrint minMem n = minMem * (n + 1)
       /\ minMem * (n + 1) <= Z.max minMem maxMem
       /\ (maxMem < minMem -> n = 0)
       /\ (n = numThreads - 1 \/ maxMem < minMem * (n + 2)).
Proof.
  intros Hcores Hcfg Hmin Hmax numThreads.
  assert (1 <= numThreads < 2 ^ 31) as Hnt.
  { subst numThreads. unfold GetNumThreads.
    destruct (Z.eqb_spec (Z.max 0 pathingThreadCount) 0); rewrite wrap32_small; lia. }
  split; [lia|].
  set (q := maxMem / minMem).
  assert (0 <= q /\ q * minMem <= maxMem < (q + 1) * minMem /\ q < 2 ^ 31) as (Hq0 & Hq & Hq31).
  { subst q. pose proof (Z.div_mod maxMem minMem ltac:(lia)) as Hdm.
    pose proof (Z.mod_pos_bound maxMem minMem ltac:(lia)) as Hmod.
    assert (0 <= maxMem / minMem) by (apply Z.div_pos; lia). nia. }
  unfold numExtraThreads.
  destruct (Z.eqb_spec minMem 0) as [|_]; [lia|]. fold q.
  rewrite (to_int32_small q), (to_int32_small numThreads) by lia.
  destruct (Z.eqb_spec q (- 2 ^ 31)) as [|_]; [lia|].
  destruct (Z.eqb_spec numThreads (- 2 ^ 31)) as [|_]; [lia|]. simpl.
  set (c := Clamp (q - 1) 0 (numThreads - 1)).
  assert (0 <= c <= numThreads - 1) as Hc by (apply Clamp_bounds; lia).
  assert (c = Z.min (numThreads - 1) (Z.max 0 (q - 1))) as Hceq by reflexivity.
  exists (wrap32 c). rewrite (wrap32_small c) by lia.
  split; [done|]. split; [done|].
  assert (minMem * (c + 1) <= Z.max minMem maxMem) as Hfit by nia.
  split; [|split; [done|split]].
  - unfold reqMemFootPrint. rewrite (wrap32_small (c + 1)) by lia.
    apply wrap32_small. nia.
  - intros Hlt. assert (q = 0) by nia. lia.
  - destruct (decide (c = numThreads - 1)) as [|Hne]; [now left|right].
    assert (c = Z.max 0 (q - 1)) by lia. nia.
Qed.

Section StartUpFacts.
Context {F : Type} `{!FloatOps F} `{!Grid} `{!MoveDefHandler}.
Implicit Types (pe : CPathEstimator F).

Lemma length_resize {A} (l : list A) n v : 0 <= n -> Z.of_nat (length (resize l n v)) = n.
Proof.
  intros Hn. unfold resize. rewrite length_app, length_take, length_replicate. lia.
Qed.

Lemma resize_same {A} (l : list A) n v : Z.of_nat (length l) = n -> resize l n v = l.
Proof.
  intros <-. unfold resize. rewrite Nat2Z.id, firstn_all, Nat.sub_diag. apply app_nil_r.
Qed.

Lemma resize_lookup {A} (l : list A) n v (i : nat) :
  (i < length l)%nat -> (i < Z.to_nat n)%nat -> resize l n v !! i = l !! i.
Proof.
  intros Hi Hn. unfold resize. rewrite lookup_app_l by (rewrite length_take; lia).
  now apply lookup_take_lt.
Qed.

Lemma resize_new {A} (l : list A) n v (i : nat) :
  (length l <= i)%nat -> (i < Z.to_nat n)%nat -> resize l n v !! i = Some v.
Proof.
  intros Hi Hn. unfold resize.
  rewrite lookup_app_r by (rewrite length_take; lia).
  apply lookup_replicate_2. rewrite length_take. lia.
Qed.

(** The loop of [InitBlocks], from block [length done] on. *)
Lemma InitBlocks_fold (rest done : list (list int2)) pe :
  peNodeOffsets (blockStates pe)
  = ((fun row => resize row GetNumMoveDefs (mk_int2 0 0)) <$> done) ++ rest ->
  fold_opt InitBlocks_block pe
    (seqZ (Z.of_nat (length done)) (Z.of_nat (length rest)))
  = Some (set_blockStates
            (set_peNodeOffsets
               ((fun row => resize row GetNumMoveDefs (mk_int2 0 0)) <$> (done ++ rest))
               (blockStates pe)) pe).
Proof.
  revert done pe. induction rest as [|r rest IH]; intros done pe Hoffs.
  - simpl. rewrite app_nil_r in *. rewrite <- Hoffs. now destruct pe as [[] ].
  - rewrite seqZ_cons by (simpl; lia).
    replace (Z.pred (Z.of_nat (length (r :: rest)))) with (Z.of_nat (length rest))
      by (simpl; lia).
    set (f := fun row => resize row GetNumMoveDefs (mk_int2 0 0)) in *.
    assert (length (f <$> done) = length done) as Hlen by apply length_fmap.
    set (pe1 := set_blockStates
                  (set_peNodeOffsets ((f <$> (done ++ [r])) ++ rest) (blockStates pe)) pe).
    assert (InitBlocks_block pe (Z.of_nat (length done)) = Some pe1) as Hstep.
    { unfold InitBlocks_block.
      assert (vget (peNodeOffsets (blockStates pe)) (Z.of_nat (length done)) = Some r) as ->.
      { unfold vget. destruct (decide _); [|lia]. rewrite Nat2Z.id, Hoffs.
        rewrite lookup_app_r by lia. now rewrite Hlen, Nat.sub_diag. }
      simpl. rewrite vset_Some.
      2:{ rewrite Hoffs, length_app, Hlen. simpl. lia. }
      simpl. rewrite Nat2Z.id. subst pe1. do 3 f_equal.
      rewrite Hoffs, fmap_app. simpl. rewrite <- app_assoc. simpl.
      replace (length done) with (length (f <$> done) + 0)%nat by lia.
      now rewrite insert_app_r. }
    cbn [fold_opt]. rewrite Hstep. simpl.
    replace (Z.succ (Z.of_nat (length done))) with (Z.of_nat (length (done ++ [r])))
      by (rewrite length_app; simpl; lia).
    rewrite (IH (done ++ [r]) pe1) by reflexivity.
    rewrite <- app_assoc. reflexivity.
Qed.

(** X6. After the constructor and [InitBlocks], on a block map that fits
    the machine integers and block tables as the base class sizes them, the
    tables have the sizes every later function relies on: one row of
    [GetNumMoveDefs()] offsets per block, the offsets already present kept
    and the new ones [(0, 0)], and four vertex costs per block and move
    def, the new ones INFINITY; nothing else changes but the penalty, which
    is 0. *)
Theorem InitBlocks_sizes_tables pe :
  0 < int2_x nbrOfBlocks -> 0 < int2_y nbrOfBlocks ->
  int2_x nbrOfBlocks * int2_y nbrOfBlocks <= 2 ^ 31 ->
  GetNumMoveDefs * (int2_x nbrOfBlocks * int2_y nbrOfBlocks) * 4 < 2 ^ 32 ->
  GetSize (blockStates pe) = int2_x nbrOfBlocks * int2_y nbrOfBlocks ->
  Z.of_nat (length (peNodeOffsets (blockStates pe)))
  = int2_x nbrOfBlocks * int2_y nbrOfBlocks ->
  exists pe',
    InitBlocks (CPathEstimator_ctor pe) = Some pe'
    /\ tables_sized pe'
    /\ only_offsets (CPathEstimator_ctor pe) pe'
    /\ blockUpdatePenalty pe' = 0
    /\ (forall (i j : nat) row,
          peNodeOffsets (blockStates pe) !! i = Some row ->
          (j < length moveDefs)%nat ->
          exists row', peNodeOffsets (blockStates pe') !! i = Some row'
                       /\ row' !! j = Some (default (mk_int2 0 0) (row !! j)))
    /\ (forall j : nat,
          Z.of_nat j < GetNumMoveDefs * (int2_x nbrOfBlocks * int2_y nbrOfBlocks) * 4 ->
          vertexCosts pe' !! j = Some (default PATHCOST_INFINITY (vertexCosts pe !! j)))
    /\ InitBlocks pe' = Some pe'.
Proof.
  intros Hnx Hny Hfit Hfit' Hsize Hoffs.
  set (f := fun row : list int2 => resize row GetNumMoveDefs (mk_int2 0 0)).
  set (pe0 := CPathEstimator_ctor pe).
  assert (0 <= GetNumMoveDefs) as Hn by (unfold GetNumMoveDefs; lia).
  assert (wrap32 (wrap32 (GetNumMoveDefs * GetSize (blockStates pe)) * PATH_DIRECTION_VERTICES)
          = GetNumMoveDefs * (int2_x nbrOfBlocks * int2_y nbrOfBlocks) * 4) as Hvsize.
  { rewrite Hsize. unfold PATH_DIRECTION_VERTICES.
    rewrite (wrap32_small (GetNumMoveDefs * _)) by nia. apply wrap32_small. nia. }
  assert (forall q : CPathEstimator F,
            Z.of_nat (length (peNodeOffsets (blockStates q))) = GetSize (blockStates q) ->
            InitBlocks q
            = Some (set_blockStates
                      (set_peNodeOffsets (f <$> peNodeOffsets (blockStates q)) (blockStates q))
                      q)) as Hinit.
  { intros q Hq. unfold InitBlocks. rewrite <- Hq.
    apply (InitBlocks_fold (peNodeOffsets (blockStates q)) [] q). reflexivity. }
  assert (vertexCosts pe0
          = resize (vertexCosts pe)
              (GetNumMoveDefs * (int2_x nbrOfBlocks * int2_y nbrOfBlocks) * 4)
              PATHCOST_INFINITY) as Hvc0.
  { subst pe0. unfold CPathEstimator_ctor.
    cbn [vertexCosts set_blockUpdatePenalty set_vertexCosts]. now rewrite Hvsize. }
  assert (blockStates pe0 = blockStates pe) as Hbs0 by reflexivity.
  exists (set_blockStates
            (set_peNodeOffsets (f <$> peNodeOffsets (blockStates pe0)) (blockStates pe0)) pe0).
  split; [apply Hinit; rewrite Hbs0; lia|].
  split; [|split; [reflexivity|split; [reflexivity|split; [|split]]]].
  - unfold tables_sized, GetSize.
    cbn [blockStates set_blockStates set_peNodeOffsets nodeMask peNodeOffsets vertexCosts].
    rewrite Hvc0, Hbs0, length_fmap. unfold GetSize in Hsize.
    split; [done|]. split; [done|]. split; [done|]. split; [lia|].
    split; [done|]. split; [done|]. split.
    + apply list.Forall_forall. intros row Hrow.
      apply list_elem_of_fmap in Hrow as (r & -> & _). now apply length_resize.
    + apply length_resize. nia.
  - intros i j row Hrow Hj.
    cbn [blockStates set_blockStates set_peNodeOffsets peNodeOffsets].
    rewrite Hbs0, list_lookup_fmap, Hrow. simpl.
    eexists. split; [reflexivity|]. subst f. simpl.
    destruct (decide (j < length row)%nat) as [Hlt|Hge].
    + rewrite resize_lookup by (unfold GetNumMoveDefs; lia).
      destruct (lookup_lt_is_Some_2 row j Hlt) as [x ->]. done.
    + rewrite resize_new by (unfold GetNumMoveDefs; lia).
      now rewrite (lookup_ge_None_2 row j) by lia.
  - intros j Hj. cbn [vertexCosts set_blockStates]. rewrite Hvc0.
    destruct (decide (j < length (vertexCosts pe))%nat) as [Hlt|Hge].
    + rewrite resize_lookup by lia.
      destruct (lookup_lt_is_Some_2 _ j Hlt) as [x ->]. done.
    + rewrite resize_new by lia. now rewrite (lookup_ge_None_2 _ j) by lia.
  - rewrite Hinit.
    2:{ cbn [blockStates set_blockStates set_peNodeOffsets nodeMask peNodeOffsets GetSize].
        unfold GetSize. cbn [nodeMask set_peNodeOffsets]. rewrite Hbs0, length_fmap.
        unfold GetSize in Hsize. lia. }
    cbn [blockStates set_blockStates set_peNodeOffsets peNodeOffsets].
    rewrite <- list_fmap_compose.
    rewrite (list_fmap_ext (f ∘ f) f (peNodeOffsets (blockStates pe0))); [reflexivity|].
    intros i row _. simpl. subst f. simpl. apply resize_same. now apply length_resize.
Qed.
End StartUpFacts.

(** ** The cache file *)

Lemma length_le32 v : length (le32 v) = 4%nat.
Proof. reflexivity. Qed.

Lemma le32_bytes v : Forall (fun b => 0 <= b < 256) (le32 v).
Proof.
  unfold le32. repeat constructor;
    (change 255 with (Z.ones 8); rewrite Z.land_ones by lia; apply Z.mod_pos_bound; lia).
Qed.

Lemma of_le32_le32 v : 0 <= v < 2 ^ 32 -> of_le32 (le32 v) = v.
Proof.
  intros Hv. unfold of_le32, le32.
  change 255 with (Z.ones 8). rewrite !Z.land_ones by lia.
  rewrite !Z.shiftr_div_pow2, !Z.shiftl_mul_pow2 by lia.
  change (2 ^ 8) with 256. change (2 ^ 16) with 65536. change (2 ^ 24) with 16777216.
  pose proof (Z.div_mod v 256 ltac:(lia)).
  pose proof (Z.div_mod (v / 256) 256 ltac:(lia)).
  pose proof (Z.div_mod (v / 65536) 256 ltac:(lia)).
  assert (v / 256 / 256 = v / 65536) as E1 by (rewrite Z.div_div by lia; reflexivity).
  assert (v / 65536 / 256 = v / 16777216) as E2 by (rewrite Z.div_div by lia; reflexivity).
  assert (0 <= v / 16777216 < 256).
  { split; [apply Z.div_pos; lia|apply Z.div_lt_upper_bound; lia]. }
  rewrite (Z.mod_small (v / 16777216)) by lia. lia.
Qed.

Lemma int2_of_bytes_int2_bytes (p : int2) :
  int2_in_range p -> int2_of_bytes (int2_bytes p) = p.
Proof.
  intros [Hx Hy]. unfold int2_of_bytes, int2_bytes.
  rewrite take_app_length' by reflexivity.
  rewrite drop_app_length' by reflexivity.
  rewrite firstn_all2 by (simpl; lia).
  rewrite !of_le32_le32 by apply wrap32_range.
  assert (forall v, - 2 ^ 31 <= v < 2 ^ 31 -> to_int32 (wrap32 v) = v) as Hrt.
  { intros v Hv. rewrite <- (to_int32_small v) at 2 by done.
    unfold to_int32, wrap32. now rewrite Zplus_mod_idemp_l. }
  destruct p as [x y]. simpl in *. now rewrite !Hrt.
Qed.

(** Decoding what was encoded item by item. *)
Lemma chunks_concat {A} (encode : A -> list Z) (decode : list Z -> A) (w : nat)
    (l : list A) (rest : list Z) :
  Forall (fun a => length (encode a) = w /\ decode (encode a) = a) l ->
  chunks decode w (length l) (concat (encode <$> l) ++ rest) = l.
Proof.
  induction 1 as [|a l [Hlen Hdec] _ IH]; [done|].
  rewrite fmap_cons. cbn [length chunks concat].
  rewrite <- app_assoc.
  rewrite take_app_length' by done. rewrite drop_app_length' by done.
  now rewrite Hdec, IH.
Qed.

Lemma length_concat_const {A} (encode : A -> list Z) (w : nat) (l : list A) :
  Forall (fun a => length (encode a) = w) l ->
  length (concat (encode <$> l)) = (w * length l)%nat.
Proof.
  induction 1 as [|a l Hlen _ IH]; [simpl; lia|].
  rewrite fmap_cons. cbn [concat length]. rewrite length_app, Hlen, IH. lia.
Qed.

Section CacheFacts.
Context {F : Type} `{!FloatBits F} `{!Grid} `{!MoveDefHandler}.
Implicit Types (pe : CPathEstimator F).

Lemma length_offsets_bytes (row : list int2) :
  length (offsets_bytes row) = (8 * length row)%nat.
Proof. apply length_concat_const. apply list.Forall_forall. reflexivity. Qed.

Lemma row_bytes_sized (row : list int2) :
  1 <= GetNumMoveDefs < 2 ^ 29 ->
  length row = length moveDefs -> row_bytes row = Some (offsets_bytes row).
Proof.
  unfold GetNumMoveDefs. intros Hn Hlen. unfold row_bytes, GetNumMoveDefs.
  rewrite wrap32_small by lia.
  destruct (decide _) as [_|]; [|lia].
  f_equal. apply take_ge. fold (offsets_bytes row). rewrite length_offsets_bytes. lia.
Qed.

Lemma length_costs_bytes (vc : list F) : length (costs_bytes vc) = (4 * length vc)%nat.
Proof. apply length_concat_const. apply list.Forall_forall. reflexivity. Qed.

(** The rows [WriteFile] collects, from block [length done] on. *)
Lemma WriteFile_rows (rest done : list (list int2)) pe :
  1 <= GetNumMoveDefs < 2 ^ 29 ->
  peNodeOffsets (blockStates pe) = done ++ rest ->
  Forall (fun row => length row = length moveDefs) rest ->
  mapM (fun blocknr => row ← vget (peNodeOffsets (blockStates pe)) blocknr; row_bytes row)
    (seqZ (Z.of_nat (length done)) (Z.of_nat (length rest)))
  = Some (offsets_bytes <$> rest).
Proof.
  intros Hn. revert done.
  induction rest as [|r rest IH]; intros done Hoffs Hrows; [reflexivity|].
  apply list.Forall_cons in Hrows as [Hr Hrows].
  rewrite seqZ_cons by (simpl; lia).
  replace (Z.pred (Z.of_nat (length (r :: rest)))) with (Z.of_nat (length rest))
    by (simpl; lia).
  replace (Z.succ (Z.of_nat (length done))) with (Z.of_nat (length (done ++ [r])))
    by (rewrite length_app; simpl; lia).
  cbn [mapM]. rewrite (IH (done ++ [r])); [|now rewrite <- app_assoc|done].
  assert (vget (peNodeOffsets (blockStates pe)) (Z.of_nat (length done)) = Some r) as ->.
  { unfold vget. destruct (decide _); [|lia]. rewrite Nat2Z.id, Hoffs.
    rewrite lookup_app_r by lia. now rewrite Nat.sub_diag. }
  simpl. now rewrite row_bytes_sized.
Qed.

(** The data of [WriteFile] on sized rows. *)
Lemma WriteFile_data pe (hash : Z) :
  rows_sized pe -> 1 <= GetNumMoveDefs < 2 ^ 29 -> GetSize (blockStates pe) < 2 ^ 31 ->
  vertexCosts pe <> [] -> 4 * Z.of_nat (length (vertexCosts pe)) < 2 ^ 32 ->
  WriteFile pe hash
  = Some (le32 hash ++ concat (offsets_bytes <$> peNodeOffsets (blockStates pe))
          ++ costs_bytes (vertexCosts pe)).
Proof.
  intros [Hlen Hrows] Hn Hsize Hvc Hvc32. unfold WriteFile.
  destruct (Z.leb_spec (2 ^ 31) (GetSize (blockStates pe))) as [|_]; [lia|].
  rewrite <- Hlen.
  pose proof (WriteFile_rows (peNodeOffsets (blockStates pe)) [] pe Hn eq_refl Hrows) as Hm.
  change (Z.of_nat (length [])) with 0 in Hm. rewrite Hm. cbn [mbind option_bind].
  rewrite bool_decide_eq_false_2 by done.
  rewrite wrap32_small by lia. do 3 f_equal.
  apply take_ge. fold (costs_bytes (vertexCosts pe)). rewrite length_costs_bytes. lia.
Qed.

(** The first loop of [ReadFile], from block [length done] on, on a buffer
    that holds the rows [todo] at [pre]. *)
Lemma ReadFile_blocks (buffer : list Z) (todo old done : list (list int2)) pe1
    (pre post : list Z) :
  buffer = pre ++ concat (offsets_bytes <$> todo) ++ post ->
  peNodeOffsets (blockStates pe1) = done ++ old -> length old = length todo ->
  Forall (fun row => length row = length moveDefs) todo ->
  Forall (fun row => length row = length moveDefs) old ->
  Forall (Forall int2_in_range) todo ->
  1 <= GetNumMoveDefs ->
  Z.of_nat (length pre) + 8 * Z.of_nat (length moveDefs) * Z.of_nat (length todo) < 2 ^ 32 ->
  fold_opt (ReadFile_block buffer (8 * Z.of_nat (length moveDefs)))
    (pe1, Z.of_nat (length pre))
    (seqZ (Z.of_nat (length done)) (Z.of_nat (length todo)))
  = Some (set_blockStates (set_peNodeOffsets (done ++ todo) (blockStates pe1)) pe1,
          Z.of_nat (length pre)
          + 8 * Z.of_nat (length moveDefs) * Z.of_nat (length todo)).
Proof.
  revert old done pe1 pre.
  induction todo as [|r todo IH];
    intros old done pe1 pre Hbuf Hoffs Hlen Htodo Hold Hrange Hn1 Hfit;
    unfold GetNumMoveDefs in Hn1.
  - destruct old; [|discriminate]. simpl. rewrite app_nil_r in *.
    rewrite <- Hoffs. f_equal. f_equal; [now destruct pe1 as [[] ]|lia].
  - destruct old as [|o old]; [discriminate|].
    apply list.Forall_cons in Htodo as [Hr Htodo].
    apply list.Forall_cons in Hold as [Ho Hold].
    apply list.Forall_cons in Hrange as [Hrr Hrange].
    rewrite seqZ_cons by (simpl; lia).
    replace (Z.pred (Z.of_nat (length (r :: todo)))) with (Z.of_nat (length todo))
      by (simpl; lia).
    replace (Z.succ (Z.of_nat (length done))) with (Z.of_nat (length (done ++ [r])))
      by (rewrite length_app; simpl; lia).
    set (n := length moveDefs) in *.
    set (pe2 := set_blockStates
                  (set_peNodeOffsets ((done ++ [r]) ++ old) (blockStates pe1)) pe1).
    assert (ReadFile_block buffer (8 * Z.of_nat n) (pe1, Z.of_nat (length pre))
              (Z.of_nat (length done))
            = Some (pe2, Z.of_nat (length (pre ++ offsets_bytes r)))) as Hstep.
    { unfold ReadFile_block.
      assert (vget (peNodeOffsets (blockStates pe1)) (Z.of_nat (length done)) = Some o) as ->.
      { unfold vget. destruct (decide _); [|lia]. rewrite Nat2Z.id, Hoffs.
        rewrite lookup_app_r by lia. now rewrite Nat.sub_diag. }
      cbn [mbind option_bind].
      replace (Z.to_nat (8 * Z.of_nat n)) with (8 * n)%nat by lia.
      rewrite Nat2Z.id.
      assert (length buffer
              = (length pre
                 + (8 * n + (length (concat (offsets_bytes <$> todo)) + length post)))%nat)
        as Hblen.
      { rewrite Hbuf, fmap_cons. cbn [concat].
        rewrite !length_app, length_offsets_bytes, Hr. lia. }
      destruct (decide _) as [_|Hno]; [|lia].
      replace (8 * n / 8)%nat with n by (rewrite Nat.mul_comm, Nat.div_mul; lia).
      assert (chunks int2_of_bytes 8 n (drop (length pre) buffer) = r) as ->.
      { rewrite Hbuf, drop_app_length, fmap_cons. cbn [concat]. rewrite <- app_assoc.
        rewrite <- Hr. unfold offsets_bytes at 1. apply chunks_concat.
        eapply Forall_impl; [exact Hrr|]. intros p Hp. split; [reflexivity|].
        now apply int2_of_bytes_int2_bytes. }
      replace (drop n o) with (@nil int2) by (subst n; rewrite <- Ho; now rewrite drop_all).
      rewrite app_nil_r.
      rewrite vset_Some by (rewrite Hoffs, length_app; simpl; lia).
      cbn [mbind option_bind]. rewrite Nat2Z.id. f_equal. f_equal.
      - subst pe2. do 2 f_equal. rewrite Hoffs.
        replace (length done) with (length done + 0)%nat by lia.
        rewrite insert_app_r. simpl. now rewrite <- app_assoc.
      - rewrite length_app, length_offsets_bytes, Hr.
        rewrite wrap32_small; [lia|]. simpl length in Hfit. lia. }
    cbn [fold_opt]. rewrite Hstep. simpl.
    rewrite (IH old (done ++ [r]) pe2 (pre ++ offsets_bytes r)); try done.
    + subst pe2. simpl. f_equal. f_equal.
      * now rewrite <- app_assoc.
      * rewrite length_app, length_offsets_bytes, Hr. simpl length. lia.
    + rewrite Hbuf, fmap_cons. cbn [concat]. now rewrite <- !app_assoc.
    + simpl in Hlen. lia.
    + rewrite length_app, length_offsets_bytes, Hr. simpl length in Hfit. lia.
Qed.

(** [ReadFile] on a buffer that starts with the hash and the rows of [pe],
    followed by [tail]: the offsets are read, and the vertex costs if
    [tail] has all their bytes. *)
Lemma ReadFile_prefix pe pe0 (hash crc : Z) (tail : list Z) :
  rows_sized pe -> rows_sized pe0 ->
  GetSize (blockStates pe0) = GetSize (blockStates pe) ->
  Forall (Forall int2_in_range) (peNodeOffsets (blockStates pe)) ->
  0 <= hash < 2 ^ 32 -> 1 <= GetNumMoveDefs < 2 ^ 29 ->
  4 + 8 * GetNumMoveDefs * GetSize (blockStates pe) < 2 ^ 32 ->
  let pe1 := set_blockStates
               (set_peNodeOffsets (peNodeOffsets (blockStates pe)) (blockStates pe0)) pe0 in
  ReadFile pe0 hash
    (Some (crc, le32 hash ++ concat (offsets_bytes <$> peNodeOffsets (blockStates pe))
                ++ tail))
  = if Z.of_nat (length tail) <? Z.of_nat (length (vertexCosts pe0)) * 4
    then Some (false, pe1, Some crc)
    else if bool_decide (vertexCosts pe0 = []) then None
    else Some (true,
               set_vertexCosts
                 (chunks (fun bs => f_of_bits (of_le32 bs)) 4 (length (vertexCosts pe0)) tail)
                 pe1,
               Some crc).
Proof.
  intros [Hlen Hrows] [Hlen0 Hrows0] Hsize Hrange Hhash Hfit8 Hfit pe1.
  set (R := concat (offsets_bytes <$> peNodeOffsets (blockStates pe))).
  set (n := Z.of_nat (length moveDefs)).
  assert (GetNumMoveDefs = n) as Hn by reflexivity. rewrite Hn in Hfit, Hfit8.
  assert (Z.of_nat (length R) = 8 * n * GetSize (blockStates pe)) as HR.
  { subst R. rewrite (length_concat_const offsets_bytes (8 * length moveDefs)).
    - rewrite <- Hlen. subst n. lia.
    - eapply Forall_impl; [exact Hrows|]. intros row Hrow.
      now rewrite length_offsets_bytes, Hrow. }
  assert (0 <= GetSize (blockStates pe)) as Hs0 by (unfold GetSize; lia).
  assert (0 <= n) as Hn0 by (subst n; lia).
  unfold ReadFile.
  rewrite !length_app, length_le32.
  destruct (Z.ltb_spec (Z.of_nat (4 + (length R + length tail))) 4) as [|_]; [lia|].
  rewrite take_app_length' by reflexivity. rewrite of_le32_le32 by done.
  rewrite Z.eqb_refl. cbn [negb].
  rewrite Hn, Hsize.
  replace (wrap32 (n * 8)) with (8 * n) by (rewrite wrap32_small; nia).
  rewrite (wrap32_small (8 * n * _)) by nia.
  rewrite (wrap32_small (4 + _)) by nia.
  destruct (Z.ltb_spec (Z.of_nat (4 + (length R + length tail)))
              (4 + 8 * n * GetSize (blockStates pe))) as [|_]; [lia|].
  destruct (Z.leb_spec (2 ^ 31) (GetSize (blockStates pe))) as [|_]; [nia|].
  pose proof (ReadFile_blocks (le32 hash ++ R ++ tail)
                (peNodeOffsets (blockStates pe)) (peNodeOffsets (blockStates pe0)) []
                pe0 (le32 hash) tail eq_refl eq_refl) as Hfold.
  rewrite length_le32 in Hfold. change (Z.of_nat (length [])) with 0 in Hfold.
  change (Z.of_nat 4) with 4 in Hfold. fold n in Hfold.
  assert (Z.of_nat (length (peNodeOffsets (blockStates pe))) = GetSize (blockStates pe))
    as Hlen' by done.
  rewrite Hlen' in Hfold. rewrite Hfold; try done; [|unfold GetNumMoveDefs; lia|lia].
  cbn [mbind option_bind app]. fold pe1.
  change (vertexCosts pe1) with (vertexCosts pe0).
  replace (Z.to_nat (4 + 8 * n * GetSize (blockStates pe))) with (length (le32 hash ++ R))
    by (rewrite length_app, length_le32; lia).
  rewrite app_assoc, drop_app_length.
  destruct (Z.ltb_spec (Z.of_nat (length tail)) (Z.of_nat (length (vertexCosts pe0)) * 4));
    destruct (Z.ltb_spec (Z.of_nat (4 + (length R + length tail)))
                (4 + 8 * n * GetSize (blockStates pe)
                 + Z.of_nat (length (vertexCosts pe0)) * 4)); try lia; reflexivity.
Qed.

(** X7. What [WriteFile] writes, [ReadFile] reads back: with at least one
    move def, rows sized by [InitBlocks], a vertex table that is not empty
    and takes less than 4 GB, offsets that are [int] values, costs whose
    bytes read back as the same [float], and offsets that end below 4 GB,
    [ReadFile] with the same hash accepts the data on an estimator of the
    same shape, and leaves it with the offsets and the vertex costs that
    were written. *)
Theorem WriteFile_ReadFile_roundtrip pe pe0 (hash crc : Z) :
  rows_sized pe -> rows_sized pe0 ->
  GetSize (blockStates pe0) = GetSize (blockStates pe) ->
  length (vertexCosts pe0) = length (vertexCosts pe) ->
  vertexCosts pe <> [] -> 4 * Z.of_nat (length (vertexCosts pe)) < 2 ^ 32 ->
  Forall (Forall int2_in_range) (peNodeOffsets (blockStates pe)) ->
  Forall representable (vertexCosts pe) ->
  0 <= hash < 2 ^ 32 -> 1 <= GetNumMoveDefs < 2 ^ 29 ->
  4 + 8 * GetNumMoveDefs * GetSize (blockStates pe) < 2 ^ 32 ->
  exists data,
    WriteFile pe hash = Some data
    /\ Z.of_nat (length data)
       = 4 + 8 * GetNumMoveDefs * GetSize (blockStates pe)
         + 4 * Z.of_nat (length (vertexCosts pe))
    /\ ReadFile pe0 hash (Some (crc, data))
       = Some (true,
               set_vertexCosts (vertexCosts pe)
                 (set_blockStates
                    (set_peNodeOffsets (peNodeOffsets (blockStates pe)) (blockStates pe0))
                    pe0),
               Some crc).
Proof.
  intros Hrs Hrs0 Hsize Hvlen Hvc Hvc32 Hrange Hrep Hhash Hfit8 Hfit.
  assert (GetSize (blockStates pe) < 2 ^ 31) as Hs31.
  { assert (0 <= GetSize (blockStates pe)) by (unfold GetSize; lia). nia. }
  eexists. split; [apply WriteFile_data; done|]. split.
  - destruct Hrs as [Hlen Hrows].
    rewrite !length_app, length_le32, length_costs_bytes.
    rewrite (length_concat_const offsets_bytes (8 * length moveDefs)).
    + unfold GetNumMoveDefs. rewrite <- Hlen. lia.
    + eapply Forall_impl; [exact Hrows|]. intros row Hrow.
      now rewrite length_offsets_bytes, Hrow.
  - rewrite (ReadFile_prefix pe pe0 hash crc) by done.
    rewrite length_costs_bytes, Hvlen.
    destruct (Z.ltb_spec (Z.of_nat (4 * length (vertexCosts pe)))
                (Z.of_nat (length (vertexCosts pe)) * 4)) as [|_]; [lia|].
    rewrite bool_decide_eq_false_2
      by (intros Heq; rewrite Heq in Hvlen; now destruct (vertexCosts pe)).
    assert (chunks (fun bs => f_of_bits (of_le32 bs)) 4 (length (vertexCosts pe))
              (costs_bytes (vertexCosts pe)) = vertexCosts pe) as ->; [|reflexivity].
    rewrite <- (app_nil_r (costs_bytes (vertexCosts pe))).
    apply (chunks_concat (fun c => le32 (f_bits c))).
    eapply Forall_impl; [exact Hrep|]. intros c [Hbits Hback].
    split; [reflexivity|]. now rewrite of_le32_le32.
Qed.

(** X8. [ReadFile] rejects the file of an estimator of another block size:
    the hashes of two estimators on the same map and move defs differ when
    their block sizes do, and on data whose first four bytes are another
    hash [ReadFile] returns false and changes nothing; only
    [pathChecksum] is assigned. Without an archive entry nothing is
    assigned at all. *)
Theorem ReadFile_rejects_other_block_size (G1 G2 : Grid) pe pe0
    (mapChecksum moveDefChecksum version crc : Z) (data : list Z) :
  0 <= @BLOCK_SIZE G1 < 2 ^ 32 -> 0 <= @BLOCK_SIZE G2 < 2 ^ 32 ->
  @BLOCK_SIZE G1 <> @BLOCK_SIZE G2 ->
  WriteFile pe (@Hash G1 mapChecksum moveDefChecksum version) = Some data ->
  @Hash G1 mapChecksum moveDefChecksum version <> @Hash G2 mapChecksum moveDefChecksum version
  /\ ReadFile pe0 (@Hash G2 mapChecksum moveDefChecksum version) (Some (crc, data))
     = Some (false, pe0, Some crc)
  /\ ReadFile pe0 (@Hash G2 mapChecksum moveDefChecksum version) None
     = Some (false, pe0, None).
Proof.
  intros Hb1 Hb2 Hne Hwrite.
  assert (@Hash G1 mapChecksum moveDefChecksum version
          <> @Hash G2 mapChecksum moveDefChecksum version) as Hhash.
  { unfold Hash, wrap32. intros Heq.
    apply (f_equal (fun h => (h - (mapChecksum + moveDefChecksum + version)) mod 2 ^ 32))
      in Heq.
    rewrite !Zminus_mod_idemp_l in Heq.
    replace (mapChecksum + moveDefChecksum + @BLOCK_SIZE G1 + version
             - (mapChecksum + moveDefChecksum + version)) with (@BLOCK_SIZE G1) in Heq by ring.
    replace (mapChecksum + moveDefChecksum + @BLOCK_SIZE G2 + version
             - (mapChecksum + moveDefChecksum + version)) with (@BLOCK_SIZE G2) in Heq by ring.
    rewrite !Z.mod_small in Heq by done. done. }
  split; [done|]. split; [|reflexivity].
  unfold WriteFile in Hwrite.
  destruct (2 ^ 31 <=? _); [discriminate|].
  destruct (mapM _ _) as [rows|]; [|discriminate]. cbn [mbind option_bind] in Hwrite.
  destruct (bool_decide _); [discriminate|].
  apply (inj Some) in Hwrite. subst data.
  unfold ReadFile. rewrite length_app, length_le32.
  match goal with
  | |- context [?a <? 4] => destruct (Z.ltb_spec a 4) as [|_]; [lia|]
  end.
  rewrite take_app_length' by reflexivity.
  rewrite of_le32_le32 by apply wrap32_range.
  destruct (Z.eqb_spec (@Hash G1 mapChecksum moveDefChecksum version)
              (@Hash G2 mapChecksum moveDefChecksum version)); [done|reflexivity].
Qed.

(** X9. A truncated cache file is never accepted. On any proper prefix of
    the data [WriteFile] wrote, [ReadFile] returns false and leaves the
    vertex costs as they were; the estimator is unchanged when the prefix
    ends inside the hash or the offsets, and has the offsets of the file
    when it ends inside the vertex costs. *)
Theorem ReadFile_truncated pe pe0 (hash crc : Z) (data : list Z) (k : nat) :
  rows_sized pe -> rows_sized pe0 ->
  GetSize (blockStates pe0) = GetSize (blockStates pe) ->
  length (vertexCosts pe0) = length (vertexCosts pe) ->
  vertexCosts pe <> [] -> 4 * Z.of_nat (length (vertexCosts pe)) < 2 ^ 32 ->
  Forall (Forall int2_in_range) (peNodeOffsets (blockStates pe)) ->
  0 <= hash < 2 ^ 32 -> 1 <= GetNumMoveDefs < 2 ^ 29 ->
  4 + 8 * GetNumMoveDefs * GetSize (blockStates pe) < 2 ^ 32 ->
  WriteFile pe hash = Some data -> (k < length data)%nat ->
  exists pe1,
    ReadFile pe0 hash (Some (crc, take k data)) = Some (false, pe1, Some crc)
    /\ vertexCosts pe1 = vertexCosts pe0
    /\ (Z.of_nat k < 4 + 8 * GetNumMoveDefs * GetSize (blockStates pe) -> pe1 = pe0)
    /\ (4 + 8 * GetNumMoveDefs * GetSize (blockStates pe) <= Z.of_nat k ->
        pe1 = set_blockStates
                (set_peNodeOffsets (peNodeOffsets (blockStates pe)) (blockStates pe0)) pe0).
Proof.
  intros Hrs Hrs0 Hsize Hvlen Hvc Hvc32 Hrange Hhash Hfit8 Hfit Hwrite Hk.
  assert (GetSize (blockStates pe) < 2 ^ 31) as Hs31.
  { assert (0 <= GetSize (blockStates pe)) by (unfold GetSize; lia). nia. }
  rewrite WriteFile_data in Hwrite by (done || lia).
  apply (inj Some) in Hwrite. subst data.
  set (R := concat (offsets_bytes <$> peNodeOffsets (blockStates pe))) in *.
  set (C := costs_bytes (vertexCosts pe)) in *.
  set (n := Z.of_nat (length moveDefs)).
  assert (GetNumMoveDefs = n) as Hn by reflexivity. rewrite Hn in *.
  assert (Z.of_nat (length R) = 8 * n * GetSize (blockStates pe)) as HR.
  { destruct Hrs as [Hlen Hrows]. subst R.
    rewrite (length_concat_const offsets_bytes (8 * length moveDefs)).
    - rewrite <- Hlen. subst n. lia.
    - eapply Forall_impl; [exact Hrows|]. intros row Hrow.
      now rewrite length_offsets_bytes, Hrow. }
  assert (0 <= GetSize (blockStates pe)) as Hs0 by (unfold GetSize; lia).
  assert (0 <= n) as Hn0 by (subst n; lia).
  rewrite !length_app, length_le32 in Hk.
  destruct (decide (Z.of_nat k < 4 + 8 * n * GetSize (blockStates pe))) as [Hshort|Hlong].
  - exists pe0. split; [|split; [done|split; [done|lia]]].
    unfold ReadFile. rewrite length_take.
    rewrite !length_app, length_le32.
    replace (k `min` (4 + (length R + length C)))%nat with k by lia.
    destruct (Z.ltb_spec (Z.of_nat k) 4) as [|Hk4]; [reflexivity|].
    rewrite take_take. replace (4 `min` k)%nat with 4%nat by lia.
    rewrite take_app_length' by reflexivity. rewrite of_le32_le32 by done.
    rewrite Z.eqb_refl. cbn [negb]. rewrite Hn, Hsize.
    replace (wrap32 (n * 8)) with (8 * n) by (rewrite wrap32_small; lia).
    rewrite (wrap32_small (8 * n * _)) by nia.
    rewrite (wrap32_small (4 + _)) by nia.
    destruct (Z.ltb_spec (Z.of_nat k) (4 + 8 * n * GetSize (blockStates pe))); [done|lia].
  - exists (set_blockStates
              (set_peNodeOffsets (peNodeOffsets (blockStates pe)) (blockStates pe0)) pe0).
    split; [|split; [reflexivity|split; [lia|done]]].
    assert (take k (le32 hash ++ R ++ C)
            = le32 hash ++ R ++ take (k - (4 + length R)) C) as ->.
    { rewrite app_assoc, take_app_ge by (rewrite length_app, length_le32; lia).
      rewrite length_app, length_le32, <- app_assoc. reflexivity. }
    rewrite (ReadFile_prefix pe pe0 hash crc) by done.
    rewrite length_take. subst C. rewrite length_costs_bytes in *.
    destruct (Z.ltb_spec
                (Z.of_nat ((k - (4 + length R)) `min` (4 * length (vertexCosts pe))))
                (Z.of_nat (length (vertexCosts pe0)) * 4)); [reflexivity|lia].
Qed.
End CacheFacts.

(** ** FinishSearch *)

Section FinishSearchFacts.
Context {F : Type} `{!FloatOps F} `{!PathConstants} `{!Grid} `{!HeightMap F}.
Implicit Types (pe : CPathEstimator F).

(** The loop along a chain of parents. *)
Lemma FinishSearch_loop_chain pe md start (chain : list Z) (wps : list (float3 F))
    blockIdx acc (fuel : nat) :
  parent_chain pe start blockIdx chain ->
  Forall2 (block_waypoint pe md) chain wps ->
  (length chain < fuel)%nat ->
  FinishSearch_loop fuel pe md start blockIdx acc = Some (acc ++ wps).
Proof.
  revert wps blockIdx acc fuel.
  induction chain as [|b chain IH]; intros wps blockIdx acc fuel Hchain Hsq Hfuel.
  - apply Forall2_nil_inv_l in Hsq as ->. simpl in Hchain. subst blockIdx.
    destruct fuel as [|fuel]; [simpl in Hfuel; lia|].
    simpl. rewrite Z.eqb_refl. now rewrite app_nil_r.
  - apply Forall2_cons_inv_l in Hsq as (wp & wps' & (sq & Hb & Hwp) & Hsq & ->).
    destruct Hchain as (-> & Hne & parent & Hparent & Hchain).
    destruct fuel as [|fuel]; [simpl in Hfuel; lia|].
    cbn [FinishSearch_loop].
    destruct (Z.eqb_spec blockIdx start) as [|_]; [done|].
    rewrite Hb. cbn [mbind option_bind]. rewrite Hwp. cbn [mbind option_bind].
    rewrite Hparent. cbn [mbind option_bind].
    rewrite (IH wps' _ _ fuel Hchain Hsq) by (simpl in Hfuel; lia).
    now rewrite <- app_assoc.
Qed.

(** X10. [FinishSearch] along the parents. When the parents stored from
    the goal block on lead to the start block, and the squares of the
    blocks on the way have world coordinates in the range of [int],
    [FinishSearch] returns with any fuel above the number of these blocks:
    it appends to the path the waypoint of each of them, goal block first
    and start block left out; the path goal is the first waypoint of the
    path, and stays as it was when the path is empty, as it is when the goal
    block is the start block; the path cost is the f-cost of the goal block
    minus the goal heuristic. *)
Theorem FinishSearch_follows_parents pe (md : MoveDef) (start : Z) (foundPath : Path F)
    (chain : list Z) (wps : list (float3 F)) (goalCost : F) (fuel : nat) :
  parent_chain pe start (mGoalBlockIdx pe) chain ->
  Forall2 (block_waypoint pe md) chain wps ->
  vget (fCost (blockStates pe)) (mGoalBlockIdx pe) = Some goalCost ->
  (length chain < fuel)%nat ->
  exists result,
    FinishSearch fuel pe md start foundPath = Some result
    /\ path result = path foundPath ++ wps
    /\ pathCost result = fsub goalCost (mGoalHeuristic pe)
    /\ (path result = [] -> pathGoal result = pathGoal foundPath)
    /\ (forall front rest, path result = front :: rest -> pathGoal result = front)
    /\ (mGoalBlockIdx pe = start -> path result = path foundPath)
    /\ (forall wp rest, wps = wp :: rest -> block_waypoint pe md (mGoalBlockIdx pe) wp).
Proof.
  intros Hchain Hsq Hcost Hfuel. unfold FinishSearch.
  rewrite (FinishSearch_loop_chain pe md start chain wps) by done.
  cbn [mbind option_bind]. rewrite Hcost. cbn [mbind option_bind].
  eexists. split; [reflexivity|]. cbn [path pathCost pathGoal].
  split; [done|]. split; [done|]. split; [|split; [|split]].
  - now intros ->.
  - now intros front rest ->.
  - intros Hstart. destruct chain as [|b chain].
    + apply Forall2_nil_inv_l in Hsq as ->. simpl. now rewrite app_nil_r.
    + destruct Hchain as (-> & Hne & _). done.
  - intros wp rest ->.
    apply Forall2_cons_inv_r in Hsq as (b & chain' & Hb & _ & ->).
    destruct Hchain as (-> & _). done.
Qed.
End FinishSearchFacts.

(** ** The precompute driver: progress and result *)

Section BlockWorkTotal.
Context {F : Type} `{!FloatOps F} `{!PathConstants} `{!Grid} `{!Collaborators F}
        `{!MoveDefHandler}.
Implicit Types (pe : CPathEstimator F).

Lemma BlockIdxToPos_in_map (b : Z) :
  0 < int2_x nbrOfBlocks ->
  0 <= b < int2_x nbrOfBlocks * int2_y nbrOfBlocks ->
  int2_x nbrOfBlocks * int2_y nbrOfBlocks <= 2 ^ 31 ->
  in_map (BlockIdxToPos b) /\ BlockPosToIdx (BlockIdxToPos b) = b.
Proof.
  intros Hnx Hb Hfit.
  assert (in_map (BlockIdxToPos b)) as Hin.
  { unfold in_map, BlockIdxToPos. simpl.
    pose proof (Z.mod_pos_bound b (int2_x nbrOfBlocks) Hnx).
    split; [done|]. split; [apply Z.div_pos; lia|].
    apply Z.div_lt_upper_bound; lia. }
  split; [done|].
  destruct (BlockPosToIdx_eq _ Hin Hfit) as (-> & _). unfold BlockIdxToPos.
  cbn [int2_x int2_y].
  pose proof (Z_div_mod_eq_full b (int2_x nbrOfBlocks)). lia.
Qed.

(** [CalculateBlockOffsets] returns on sized tables. *)
Lemma CalculateBlockOffsets_total pe (b t : Z) :
  handler_wf -> tables_sized pe ->
  0 <= b < int2_x nbrOfBlocks * int2_y nbrOfBlocks ->
  exists pe', CalculateBlockOffsets pe b t = Some pe' /\ tables_sized pe'.
Proof.
  intros Hwf Hsz Hb. unfold CalculateBlockOffsets.
  apply (fold_opt_invariant (fun pe' => tables_sized pe') (fun md => md ∈ moveDefs));
    [|apply list.Forall_forall; auto|done].
  intros pe1 md Hsz1 Hmd. destruct (0 <? udRefCount md); [|eauto].
  destruct (store_offset_spec pe1 b (pathType md)
              (FindOffset md (int2_x (BlockIdxToPos b)) (int2_y (BlockIdxToPos b)))
              Hsz1 Hb (handler_wf_range md Hwf Hmd)) as (pe2 & Hrun & Hsz2 & _).
  eauto.
Qed.

(** The loop of [EstimatePathCosts] over move defs with distinct path
    types. *)
Lemma EstimatePathCosts_fold (l : list MoveDef) pe (p : int2) (t : Z) :
  handler_wf -> tables_sized pe -> in_map p ->
  (forall md, md ∈ l -> md ∈ moveDefs) -> NoDup (pathType <$> l) ->
  exists pe',
    fold_opt (fun pe1 md => if 0 <? udRefCount md then CalculateVertices pe1 md p t
                            else Some pe1) pe l = Some pe'
    /\ tables_sized pe' /\ only_vertexCosts pe pe'
    /\ (forall md d, md ∈ l -> 0 < udRefCount md -> 0 <= d < PATH_DIRECTION_VERTICES ->
          exists c, edge_cost (blockStates pe) md p d t = Some c
                    /\ vget (vertexCosts pe') (vertexNbr pe md p d) = Some c)
    /\ (forall j,
          (forall md d, md ∈ l -> 0 < udRefCount md -> 0 <= d < PATH_DIRECTION_VERTICES ->
             j <> vertexNbr pe md p d) ->
          vget (vertexCosts pe') j = vget (vertexCosts pe) j).
Proof.
  intros Hwf. revert pe. induction l as [|md l IH]; intros pe Hsz Hp Hl Hnd.
  - exists pe. split; [done|]. split; [done|]. split; [apply only_vertexCosts_refl|].
    split; [|done]. intros md d Hmd. inversion Hmd.
  - rewrite fmap_cons in Hnd. apply NoDup_cons in Hnd as [Hnotin Hnd].
    assert (md ∈ moveDefs) as Hmd by (apply Hl; left).
    pose proof (handler_wf_range md Hwf Hmd) as Hpt.
    cbn [fold_opt].
    assert (exists pe1,
              (if 0 <? udRefCount md then CalculateVertices pe md p t else Some pe) = Some pe1
              /\ tables_sized pe1 /\ only_vertexCosts pe pe1
              /\ (0 < udRefCount md -> forall d, 0 <= d < PATH_DIRECTION_VERTICES ->
                    exists c, edge_cost (blockStates pe) md p d t = Some c
                              /\ vget (vertexCosts pe1) (vertexNbr pe md p d) = Some c)
              /\ (forall j,
                    (0 < udRefCount md -> forall d, 0 <= d < PATH_DIRECTION_VERTICES ->
                       j <> vertexNbr pe md p d) ->
                    vget (vertexCosts pe1) j = vget (vertexCosts pe) j))
      as (pe1 & -> & Hsz1 & Hfr1 & Hslots1 & Hother1).
    { destruct (Z.ltb_spec 0 (udRefCount md)) as [Huse|Hno].
      - destruct (CalculateVertices_slots pe md p t Hsz Hp Hpt)
          as (pe1 & Hrun & Hfr & Hsz1 & Hslots & Hother).
        exists pe1. split; [done|]. split; [done|]. split; [done|].
        split; [auto|]. intros j Hj. apply Hother. auto.
      - exists pe. split; [done|]. split; [done|]. split; [apply only_vertexCosts_refl|].
        split; [lia|done]. }
    cbn [mbind option_bind].
    pose proof (only_vertexCosts_blockStates _ _ Hfr1) as Hbs1.
    destruct (IH pe1 Hsz1 Hp) as (pe' & Hrun & Hsz' & Hfr' & Hslots' & Hother'); [|done|].
    { intros md' Hmd'. apply Hl. now right. }
    exists pe'. split; [done|]. split; [done|].
    split; [eapply only_vertexCosts_trans; eauto|]. split.
    + intros md' d Hmd' Huse Hd. apply elem_of_cons in Hmd' as [->|Hmd'].
      * destruct (Hslots1 Huse d Hd) as (c & Hc & Hget). exists c. split; [done|].
        rewrite Hother'; [done|].
        intros md2 d2 Hmd2 Huse2 Hd2. rewrite (vertexNbr_blockStates pe pe1) by done.
        intros Heq.
        destruct (vertexNbr_inj pe md md2 p p d d2 Hsz Hp Hp Hpt
                    (handler_wf_range md2 Hwf (Hl md2 ltac:(now right))) Hd Hd2 Heq)
          as (Hsame & _).
        apply Hnotin. rewrite Hsame. apply list_elem_of_fmap. eauto.
      * destruct (Hslots' md' d Hmd' Huse Hd) as (c & Hc & Hget).
        exists c. rewrite Hbs1 in Hc. split; [done|].
        now rewrite <- (vertexNbr_blockStates pe pe1) by done.
    + intros j Hj. rewrite Hother', Hother1; [done| |].
      * intros Huse d Hd. apply Hj; [left|done|done].
      * intros md2 d2 Hmd2 Huse2 Hd2. rewrite (vertexNbr_blockStates pe pe1) by done.
        apply Hj; [now right|done|done].
Qed.

(** [EstimatePathCosts] on sized tables: it returns and writes the vertex
    costs of the block, and only these. *)
Lemma EstimatePathCosts_content pe (b t : Z) :
  handler_wf -> tables_sized pe ->
  0 <= b < int2_x nbrOfBlocks * int2_y nbrOfBlocks ->
  exists pe',
    EstimatePathCosts pe b t = Some pe'
    /\ tables_sized pe' /\ only_vertexCosts pe pe'
    /\ costs_written pe' b
    /\ (forall j,
          (forall md d, md ∈ moveDefs -> 0 < udRefCount md ->
             0 <= d < PATH_DIRECTION_VERTICES ->
             j <> vertexNbr pe md (BlockIdxToPos b) d) ->
          vget (vertexCosts pe') j = vget (vertexCosts pe) j).
Proof.
  intros Hwf Hsz Hb.
  pose proof Hsz as (Hnx & _ & Hfit & _).
  destruct (BlockIdxToPos_in_map b Hnx Hb Hfit) as [Hin _].
  destruct (EstimatePathCosts_fold moveDefs pe (BlockIdxToPos b) t Hwf Hsz Hin)
    as (pe' & Hrun & Hsz' & Hfr & Hslots & Hother); [done| |].
  { apply ascending_NoDup, (ascending_from_index moveDefs 0). exact Hwf. }
  exists pe'. split; [done|]. split; [done|]. split; [done|]. split; [|done].
  pose proof (only_vertexCosts_blockStates _ _ Hfr) as Hbs.
  intros md Hmd Huse d Hd. destruct (Hslots md d Hmd Huse Hd) as (c & Hc & Hget).
  exists t, c. rewrite Hbs, (vertexNbr_blockStates pe pe') by done. done.
Qed.
End BlockWorkTotal.

(** ** The layout of the vertex table *)

Section VertexLayout.
Context {F : Type} `{!FloatOps F} `{!PathConstants} `{!Grid} `{!Collaborators F}
        `{!MoveDefHandler}.
Implicit Types (pe : CPathEstimator F).

(** X18. The vertex table is covered exactly. On sized tables the index
    [CalculateVertex] computes for a valid path type, a block of the map
    and one of the four stored directions lies in the table and does not
    wrap around; two of them are equal only for the same path type, block
    and direction; and every index of the table is the index of one such
    triple. *)
Theorem vertexCosts_layout pe :
  tables_sized pe ->
  (forall md p d,
     in_map p -> 0 <= pathType md < GetNumMoveDefs -> 0 <= d < PATH_DIRECTION_VERTICES ->
     0 <= vertexNbr pe md p d < Z.of_nat (length (vertexCosts pe))
     /\ vertexNbr pe md p d
        = (pathType md * (int2_x nbrOfBlocks * int2_y nbrOfBlocks) + BlockPosToIdx p) * 4 + d)
  /\ (forall md md' p p' d d',
        in_map p -> in_map p' ->
        0 <= pathType md < GetNumMoveDefs -> 0 <= pathType md' < GetNumMoveDefs ->
        0 <= d < PATH_DIRECTION_VERTICES -> 0 <= d' < PATH_DIRECTION_VERTICES ->
        vertexNbr pe md p d = vertexNbr pe md' p' d' ->
        pathType md = pathType md' /\ p = p' /\ d = d')
  /\ (forall j, 0 <= j < Z.of_nat (length (vertexCosts pe)) ->
        exists pt p d,
          0 <= pt < GetNumMoveDefs /\ in_map p /\ 0 <= d < PATH_DIRECTION_VERTICES
          /\ forall md, pathType md = pt -> vertexNbr pe md p d = j).
Proof.
  intros Hsz. split; [|split].
  - intros md p d Hp Hpt Hd.
    destruct (vertexNbr_eq pe md p d Hsz Hp Hpt Hd) as (Heq & _ & Hrange). done.
  - intros md md' p p' d d' Hp Hp' Hpt Hpt' Hd Hd'.
    now apply vertexNbr_inj.
  - intros j Hj.
    pose proof Hsz as (Hnx & Hny & Hfit & _ & _ & _ & _ & Hvc).
    set (S := int2_x nbrOfBlocks * int2_y nbrOfBlocks) in *.
    assert (0 < S) as HS by (subst S; nia).
    rewrite Hvc in Hj.
    pose proof (Z_div_mod_eq_full j (S * 4)) as Hj1.
    pose proof (Z.mod_pos_bound j (S * 4) ltac:(lia)) as Hr.
    set (pt := j / (S * 4)) in *. set (r := j mod (S * 4)) in *.
    pose proof (Z_div_mod_eq_full r 4) as Hr1.
    pose proof (Z.mod_pos_bound r 4 ltac:(lia)) as Hd.
    set (b := r / 4) in *. set (d := r mod 4) in *.
    assert (0 <= pt < GetNumMoveDefs) as Hpt.
    { subst pt. split; [apply Z.div_pos; lia|apply Z.div_lt_upper_bound; lia]. }
    assert (0 <= b < S) as Hb.
    { subst b. split; [apply Z.div_pos; lia|apply Z.div_lt_upper_bound; lia]. }
    destruct (BlockIdxToPos_in_map b Hnx Hb Hfit) as [Hin Hidx].
    exists pt, (BlockIdxToPos b), d. split; [done|]. split; [done|]. split; [done|].
    intros md Hmd.
    destruct (vertexNbr_eq pe md (BlockIdxToPos b) d Hsz Hin) as (Heq & _);
      [now rewrite Hmd|done|].
    rewrite Heq, Hidx, Hmd. fold S. lia.
Qed.
End VertexLayout.

Section PrecomputeProgress.
Context {F : Type} `{!FloatOps F} `{!PathConstants} `{!Grid} `{!Collaborators F}
        `{!MoveDefHandler}.

Lemma precompute_inv_before (s : Precompute F) t p :
  precompute_inv s -> workers s !! t = Some p -> before_barrier p = true ->
  barrier_generation s = 0
  /\ barrier_count s = count_before (workers s)
  /\ Forall (fun p => before_barrier p = true \/ p = Blocked 0) (workers s).
Proof.
  intros (_ & _ & Hbar & _) Hp Hbefore. destruct Hbar as [Hg0|(Hg1 & Hall)]; [done|].
  rewrite list.Forall_forall in Hall.
  destruct (Hall p) as [->|Hafter]; [eapply list_elem_of_lookup_2, Hp|done|].
  destruct p; done.
Qed.

Lemma precompute_inv_after (s : Precompute F) t p :
  precompute_inv s -> workers s !! t = Some p -> before_barrier p = false ->
  p <> Blocked 0 ->
  barrier_generation s = 1
  /\ Forall (fun p => p = Blocked 0 \/ after_barrier p = true) (workers s).
Proof.
  intros (_ & _ & Hbar & _) Hp Hnb Hnz. destruct Hbar as [(Hg0 & _ & Hall)|Hg1]; [|done].
  rewrite list.Forall_forall in Hall.
  destruct (Hall p) as [Hb| ->]; [eapply list_elem_of_lookup_2, Hp|congruence|done].
Qed.

Lemma no_before_after_barrier (ws : list WorkerPC) :
  Forall (fun p => p = Blocked 0 \/ after_barrier p = true) ws ->
  forall p, p ∈ ws -> before_barrier p = false.
Proof.
  intros Hall p Hp. rewrite list.Forall_forall in Hall.
  destruct (Hall p Hp) as [->|Ha]; [done|destruct p; done].
Qed.

Lemma costs_written_frame (pe pe' : CPathEstimator F) (b b0 : Z) :
  tables_sized pe ->
  0 <= b < int2_x nbrOfBlocks * int2_y nbrOfBlocks ->
  0 <= b0 < int2_x nbrOfBlocks * int2_y nbrOfBlocks -> b <> b0 ->
  handler_wf -> only_vertexCosts pe pe' ->
  (forall j,
     (forall md d, md ∈ moveDefs -> 0 < udRefCount md -> 0 <= d < PATH_DIRECTION_VERTICES ->
        j <> vertexNbr pe md (BlockIdxToPos b0) d) ->
     vget (vertexCosts pe') j = vget (vertexCosts pe) j) ->
  costs_written pe b -> costs_written pe' b.
Proof.
  intros Hsz Hb Hb0 Hne Hwf Hfr Hother Hold md Hmd Huse d Hd.
  pose proof Hsz as (Hnx & _ & Hfit & _).
  destruct (BlockIdxToPos_in_map b Hnx Hb Hfit) as [Hin Hidx].
  destruct (BlockIdxToPos_in_map b0 Hnx Hb0 Hfit) as [Hin0 Hidx0].
  destruct (Hold md Hmd Huse d Hd) as (t & c & Hc & Hget).
  pose proof (only_vertexCosts_blockStates _ _ Hfr) as Hbs.
  exists t, c. rewrite Hbs, (vertexNbr_blockStates pe pe') by done. split; [done|].
  rewrite Hother; [done|].
  intros md' d' Hmd' Huse' Hd' Heq.
  destruct (vertexNbr_inj pe md md' _ _ d d' Hsz Hin Hin0
              (handler_wf_range md Hwf Hmd) (handler_wf_range md' Hwf Hmd') Hd Hd' Heq)
    as (_ & Hpos & _).
  apply Hne. rewrite <- Hidx, <- Hidx0. now rewrite Hpos.
Qed.

(** Every atomic action of every thread keeps [precompute_progress_inv]. *)
Lemma precompute_step_progress_inv (s s' : Precompute F) :
  handler_wf -> 0 <= int2_x nbrOfBlocks * int2_y nbrOfBlocks <= 2 ^ 32 ->
  precompute_inv s -> precompute_progress_inv s -> precompute_step s s' ->
  precompute_progress_inv s'.
Proof.
  intros Hwf Hrange Hinv (Hsz & Hidx & Hcle & Hcnt & Hphase & Hfin & Hcosts) [t Hstep].
  pose proof Hinv as (Hsize & Hle & Hbar & Hpast & Hblocks).
  set (size := int2_x nbrOfBlocks * int2_y nbrOfBlocks) in *.
  assert (forall p p', workers s !! t = Some p ->
            (forall b, p' <> InOffsets b) -> (forall b, p' <> InCosts b) ->
            forall b, InOffsets b ∈ <[t := p']> (workers s)
                      \/ InCosts b ∈ <[t := p']> (workers s) -> 0 <= b < size) as Hidx_keep.
  { intros p p' Hp Hn1 Hn2 b [Hb|Hb]; apply elem_of_insert_inv in Hb as [Hb|Hb];
      try (symmetry in Hb; now (apply Hn1 in Hb || apply Hn2 in Hb)); apply Hidx; auto. }
  assert (forall p p', workers s !! t = Some p -> before_barrier p = true ->
            (exists q, q ∈ <[t := p']> (workers s) /\ before_barrier q = true) ->
            costBlockNum s = size) as Hphase_keep.
  { intros p p' Hp Hb _. apply Hphase. exists p. split; [|done].
    eapply list_elem_of_lookup_2, Hp. }
  assert (forall p p', workers s !! t = Some p -> p' <> Finished ->
            Finished ∈ <[t := p']> (workers s) -> costBlockNum s < 0) as Hfin_keep.
  { intros p p' Hp Hne Hin. apply elem_of_insert_inv in Hin as [Hin|Hin]; [done|auto]. }
  assert (forall p p', workers s !! t = Some p -> (forall b, p <> InCosts b) ->
            forall b, 0 <= b < size ->
              costs_written (pre_pe s) b
              \/ InCosts b ∈ <[t := p']> (workers s)
              \/ size - 1 - b < costBlockNum s) as Hcosts_keep.
  { intros p p' Hp Hn b Hb. destruct (Hcosts b Hb) as [Hw|[Hin|Hun]]; [auto| |auto].
    right. left. eapply elem_of_insert_other; eauto. }
  assert (forall p, workers s !! t = Some p -> before_barrier p = true ->
            forall b, 0 <= b < size ->
              size - 1 - b < costBlockNum s) as Hunclaimed.
  { intros p Hp Hb b Hbr.
    rewrite (Hphase (ex_intro _ p (conj (list_elem_of_lookup_2 _ _ _ Hp) Hb))). lia. }
  assert (forall p', <[t := p']> (workers s) <> [] -> workers s <> []) as Hne_keep.
  { intros p' Hne Hnil. rewrite Hnil in Hne. done. }
  inversion Hstep as
    [s0 Hw Hge | s0 Hw Hlt | s0 b0 pe' Hw Hrun | s0 Hw Hlast | s0 Hw Hmore
     | s0 gen Hw Hgen | s0 Hw Hge | s0 Hw Hlt | s0 b0 pe' Hw Hrun]; subst s0 s';
    unfold precompute_progress_inv; simpl; fold size.
  - (* a block is claimed for phase 1 *)
    destruct (precompute_inv_before s t _ Hinv Hw eq_refl) as (Hg & Hcount & Hall).
    split; [done|]. split; [|split; [done|split; [|split; [|split]]]].
    + intros b [Hb|Hb]; apply elem_of_insert_inv in Hb as [Hb|Hb];
        [|apply Hidx; auto|done|apply Hidx; auto].
      injection Hb as ->. rewrite Hsize. fold size.
      rewrite (wrap32_small (size - 1)) by lia. rewrite wrap32_small; lia.
    + intros _ Hne. rewrite (count_before_insert_same _ _ _ _ Hw) by done. eauto.
    + eapply Hphase_keep; eauto.
    + eapply Hfin_keep; eauto; done.
    + eapply Hcosts_keep; eauto; done.
  - (* phase 1 is exhausted for this thread *)
    destruct (precompute_inv_before s t _ Hinv Hw eq_refl) as (Hg & Hcount & Hall).
    split; [done|]. split; [eapply Hidx_keep; eauto; done|].
    split; [done|]. split; [|split; [|split]].
    + intros _ Hne. rewrite (count_before_insert_same _ _ _ _ Hw) by done. eauto.
    + eapply Hphase_keep; eauto.
    + eapply Hfin_keep; eauto; done.
    + eapply Hcosts_keep; eauto; done.
  - (* the offsets of a block are written *)
    destruct (precompute_inv_before s t _ Hinv Hw eq_refl) as (Hg & Hcount & Hall).
    assert (0 <= b0 < size) as Hb0.
    { apply Hidx. left. eapply list_elem_of_lookup_2, Hw. }
    destruct (CalculateBlockOffsets_total (pre_pe s) b0 (Z.of_nat t) Hwf Hsz Hb0)
      as (pe1 & Hrun1 & Hsz1).
    rewrite Hrun in Hrun1. injection Hrun1 as <-.
    split; [done|]. split; [eapply Hidx_keep; eauto; done|].
    split; [done|]. split; [|split; [|split]].
    + intros _ Hne. rewrite (count_before_insert_same _ _ _ _ Hw) by done. eauto.
    + eapply Hphase_keep; eauto.
    + eapply Hfin_keep; eauto; done.
    + intros b Hb. right. right. eapply Hunclaimed; eauto.
  - (* the last thread arrives at the barrier *)
    destruct (precompute_inv_before s t _ Hinv Hw eq_refl) as (Hg & Hcount & Hall).
    split; [done|]. split; [eapply Hidx_keep; eauto; done|].
    split; [done|]. split; [|split; [|split]].
    + intros Hg'. lia.
    + intros (q & Hq & Hqb). exfalso.
      assert (Forall (fun p => before_barrier p = false) (<[t := ClaimCost]> (workers s)))
        as Hnone.
      { apply count_before_zero.
        rewrite (count_before_insert_leave _ _ _ _ Hw) by done. lia. }
      rewrite list.Forall_forall in Hnone. specialize (Hnone q Hq). congruence.
    + eapply Hfin_keep; eauto; done.
    + eapply Hcosts_keep; eauto; done.
  - (* a thread arrives at the barrier and blocks *)
    destruct (precompute_inv_before s t _ Hinv Hw eq_refl) as (Hg & Hcount & Hall).
    split; [done|]. split; [eapply Hidx_keep; eauto; done|].
    split; [done|]. split; [|split; [|split]].
    + intros _ _. rewrite (count_before_insert_leave _ _ _ _ Hw) by done.
      pose proof (count_before_nonneg (<[t := Blocked (barrier_generation s)]> (workers s)))
        as Hnn.
      rewrite (count_before_insert_leave _ _ _ _ Hw) in Hnn by done. lia.
    + eapply Hphase_keep; eauto.
    + eapply Hfin_keep; eauto; done.
    + eapply Hcosts_keep; eauto; done.
  - (* a blocked thread sees the new generation *)
    assert (barrier_generation s = 1
            /\ Forall (fun p => p = Blocked 0 \/ after_barrier p = true) (workers s))
      as (Hg & Hall).
    { destruct Hbar as [(Hg0 & _ & Hall)|Hg1]; [|done].
      rewrite list.Forall_forall in Hall.
      destruct (Hall (Blocked gen)) as [Hb|Hb];
        [eapply list_elem_of_lookup_2, Hw|done|congruence]. }
    split; [done|]. split; [eapply Hidx_keep; eauto; done|].
    split; [done|]. split; [|split; [|split]].
    + intros Hg'. lia.
    + intros (q & Hq & Hqb). exfalso.
      apply elem_of_insert_inv in Hq as [->|Hq]; [done|].
      rewrite (no_before_after_barrier _ Hall q Hq) in Hqb. done.
    + eapply Hfin_keep; eauto; done.
    + eapply Hcosts_keep; eauto; done.
  - (* a block is claimed for phase 2 *)
    destruct (precompute_inv_after s t _ Hinv Hw eq_refl) as (Hg & Hall); [done|].
    split; [done|]. split; [|split; [lia|split; [|split; [|split]]]].
    + intros b [Hb|Hb]; apply elem_of_insert_inv in Hb as [Hb|Hb];
        [done|apply Hidx; auto| |apply Hidx; auto].
      injection Hb as ->. rewrite Hsize. fold size.
      rewrite (wrap32_small (size - 1)) by lia. rewrite wrap32_small; lia.
    + intros Hg'. lia.
    + intros (q & Hq & Hqb). exfalso.
      apply elem_of_insert_inv in Hq as [->|Hq]; [done|].
      rewrite (no_before_after_barrier _ Hall q Hq) in Hqb. done.
    + intros Hin. apply elem_of_insert_inv in Hin as [Hin|Hin]; [done|].
      specialize (Hfin Hin). lia.
    + intros b Hb. destruct (Hcosts b Hb) as [Hwr|[Hin|Hun]]; [auto| |].
      * right. left. eapply elem_of_insert_other; eauto; done.
      * destruct (Z.eq_dec (size - 1 - b) (costBlockNum s - 1)) as [Heq|Hne];
          [|right; right; lia].
        right. left. rewrite Hsize. fold size.
        assert (wrap32 (wrap32 (size - 1) - (costBlockNum s - 1)) = b) as ->.
        { rewrite (wrap32_small (size - 1)) by lia. rewrite wrap32_small; lia. }
        eapply elem_of_insert_new, Hw.
  - (* phase 2 is exhausted for this thread *)
    destruct (precompute_inv_after s t _ Hinv Hw eq_refl) as (Hg & Hall); [done|].
    split; [done|]. split; [eapply Hidx_keep; eauto; done|].
    split; [lia|]. split; [|split; [|split]].
    + intros Hg'. lia.
    + intros (q & Hq & Hqb). exfalso.
      apply elem_of_insert_inv in Hq as [->|Hq]; [done|].
      rewrite (no_before_after_barrier _ Hall q Hq) in Hqb. done.
    + intros _. lia.
    + intros b Hb. destruct (Hcosts b Hb) as [Hwr|[Hin|Hun]]; [auto| |lia].
      right. left. eapply elem_of_insert_other; eauto; done.
  - (* the vertex costs of a block are written *)
    destruct (precompute_inv_after s t _ Hinv Hw eq_refl) as (Hg & Hall); [done|].
    assert (0 <= b0 < size) as Hb0.
    { apply Hidx. right. eapply list_elem_of_lookup_2, Hw. }
    destruct (EstimatePathCosts_content (pre_pe s) b0 (Z.of_nat t) Hwf Hsz Hb0)
      as (pe1 & Hrun1 & Hsz1 & Hfr1 & Hwritten & Hother).
    rewrite Hrun in Hrun1. injection Hrun1 as <-.
    split; [done|]. split; [eapply Hidx_keep; eauto; done|].
    split; [done|]. split; [|split; [|split]].
    + intros Hg'. lia.
    + intros (q & Hq & Hqb). exfalso.
      apply elem_of_insert_inv in Hq as [->|Hq]; [done|].
      rewrite (no_before_after_barrier _ Hall q Hq) in Hqb. done.
    + eapply Hfin_keep; eauto; done.
    + intros b Hb. destruct (decide (b = b0)) as [->|Hne]; [now left|].
      destruct (Hcosts b Hb) as [Hwr|[Hin|Hun]]; [left| |auto].
      * eapply (costs_written_frame (pre_pe s) pe' b b0); eauto.
      * right. left. eapply elem_of_insert_other; eauto; congruence.
Qed.

Lemma precompute_init_progress_inv (pe0 : CPathEstimator F) (n : nat) :
  tables_sized pe0 -> precompute_progress_inv (precompute_init pe0 n).
Proof.
  intros Hsz. unfold precompute_progress_inv, precompute_init. simpl.
  split; [done|]. split; [|split; [lia|split; [|split; [done|split]]]].
  - intros b [Hb|Hb]; apply elem_of_replicate in Hb as [Hb _]; done.
  - intros _ Hne. rewrite count_before_replicate. destruct n; [done|lia].
  - intros Hb. apply elem_of_replicate in Hb as [Hb _]. done.
  - intros b Hb. right. right. lia.
Qed.

Lemma precompute_step_length (s s' : Precompute F) :
  precompute_step s s' -> length (workers s') = length (workers s).
Proof. intros [t Hstep]. inversion Hstep; subst; simpl; apply length_insert. Qed.

(** Both invariants hold of every reachable state, and the number of
    threads stays. *)
Lemma precompute_reachable (pe0 : CPathEstimator F) (n : nat) (s : Precompute F) :
  handler_wf -> tables_sized pe0 ->
  rtc precompute_step (precompute_init pe0 n) s ->
  precompute_inv s /\ precompute_progress_inv s /\ length (workers s) = n.
Proof.
  intros Hwf Hsz Hrun.
  pose proof Hsz as (Hnx & Hny & Hfit & _ & Hsize & _).
  assert (0 <= int2_x nbrOfBlocks * int2_y nbrOfBlocks <= 2 ^ 32) as Hrange by lia.
  refine (rtc_ind_r (R := precompute_step)
            (fun s => precompute_inv s /\ precompute_progress_inv s
                      /\ length (workers s) = n) _ _ _ _ Hrun).
  - split; [now apply precompute_init_inv|].
    split; [now apply precompute_init_progress_inv|]. apply length_replicate.
  - intros s1 s2 _ Hstep (Hinv & Hpinv & Hlen).
    split; [eapply precompute_step_inv; eauto|].
    split; [eapply precompute_step_progress_inv; eauto|].
    rewrite <- Hlen. now apply precompute_step_length.
Qed.

(** In a reachable state in which a thread has not finished, some thread
    can take a step. *)
Lemma precompute_can_step (pe0 : CPathEstimator F) (n : nat) (s : Precompute F) :
  handler_wf -> tables_sized pe0 ->
  rtc precompute_step (precompute_init pe0 n) s ->
  (exists p, p ∈ workers s /\ p <> Finished) ->
  exists s', precompute_step s s'.
Proof.
  intros Hwf Hsz0 Hrun (p & Hp & Hnf).
  destruct (precompute_reachable pe0 n s Hwf Hsz0 Hrun) as (Hinv & Hpinv & _).
  pose proof Hinv as (Hsize & Hle & Hbar & Hpast & Hblocks).
  destruct Hpinv as (Hsz & Hidx & Hcle & Hcnt & Hphase & Hfin & Hcosts).
  assert (forall t q, workers s !! t = Some q -> q <> Finished ->
            (q = Blocked 0 -> barrier_generation s = 1) ->
            (forall g, q = Blocked g -> g = 0) ->
            exists s', precompute_step s s') as Hstep.
  { intros t q Hq Hqf Hblk Hblk0. destruct q as [|b| |g| |b|].
    - destruct (decide (0 <= offsetBlockNum s - 1)).
      + eexists. exists t. now apply step_claim_offset.
      + eexists. exists t. apply step_offsets_exhausted; [done|lia].
    - assert (0 <= b < int2_x nbrOfBlocks * int2_y nbrOfBlocks) as Hb.
      { apply Hidx. left. eapply list_elem_of_lookup_2, Hq. }
      destruct (CalculateBlockOffsets_total (pre_pe s) b (Z.of_nat t) Hwf Hsz Hb)
        as (pe' & Hrun' & _).
      eexists. exists t. eapply step_offsets_done; eauto.
    - destruct (decide (barrier_count s - 1 = 0)).
      + eexists. exists t. now apply step_wait_last.
      + eexists. exists t. now apply step_wait_block.
    - rewrite (Hblk0 g eq_refl) in Hq. specialize (Hblk ltac:(now rewrite (Hblk0 g eq_refl))).
      eexists. exists t. eapply step_wake; [exact Hq|lia].
    - destruct (decide (0 <= costBlockNum s - 1)).
      + eexists. exists t. now apply step_claim_cost.
      + eexists. exists t. apply step_costs_exhausted; [done|lia].
    - assert (0 <= b < int2_x nbrOfBlocks * int2_y nbrOfBlocks) as Hb.
      { apply Hidx. right. eapply list_elem_of_lookup_2, Hq. }
      destruct (EstimatePathCosts_content (pre_pe s) b (Z.of_nat t) Hwf Hsz Hb)
        as (pe' & Hrun' & _).
      eexists. exists t. eapply step_costs_done; eauto.
    - done. }
  destruct Hbar as [(Hg0 & Hcount & Hall)|(Hg1 & Hall)].
  - (* the barrier is closed: a thread has yet to arrive, and it can move *)
    assert (workers s <> []) as Hne by (intros Hnil; rewrite Hnil in Hp; inversion Hp).
    specialize (Hcnt Hg0 Hne).
    assert (exists t q, workers s !! t = Some q /\ before_barrier q = true)
      as (t & q & Hq & Hqb).
    { clear -Hcnt. induction (workers s) as [|w ws IH]; simpl in Hcnt; [lia|].
      destruct (before_barrier w) eqn:Hw.
      - exists 0%nat, w. done.
      - destruct IH as (t & q & Hq & Hqb); [lia|]. exists (S t), q. done. }
    apply (Hstep t q Hq); [destruct q; done|intros ->; done|intros g ->; done].
  - (* the barrier has opened: every thread that has not finished can move *)
    apply list_elem_of_lookup in Hp as [t Ht].
    apply (Hstep t p Ht Hnf); [done|].
    intros g ->. rewrite list.Forall_forall in Hall.
    destruct (Hall (Blocked g)) as [Heq|Ha]; [eapply list_elem_of_lookup_2, Ht| |done].
    congruence.
Qed.

Lemma sum_list_rank_insert (ws : list WorkerPC) t p p' :
  ws !! t = Some p ->
  (sum_list (WorkerPC_rank <$> <[t := p']> ws) + WorkerPC_rank p
   = sum_list (WorkerPC_rank <$> ws) + WorkerPC_rank p')%nat.
Proof.
  revert t. induction ws as [|w ws IH]; intros t Ht; [done|].
  destruct t as [|t]; simpl in *;
    change (list_fmap WorkerPC nat WorkerPC_rank) with (fmap (M:=list) WorkerPC_rank) in *.
  - injection Ht as ->.
    generalize (WorkerPC_rank p) (WorkerPC_rank p') (sum_list (WorkerPC_rank <$> ws)).
    intros a b c. lia.
  - specialize (IH t Ht). revert IH.
    generalize (WorkerPC_rank p) (WorkerPC_rank p') (WorkerPC_rank w)
      (sum_list (WorkerPC_rank <$> <[t := p']> ws))
      (sum_list (WorkerPC_rank <$> ws)).
    intros a b c d e. lia.
Qed.

(** Every action of a thread lowers the measure. *)
Lemma precompute_step_measure (s s' : Precompute F) :
  precompute_step s s' -> (precompute_measure s' < precompute_measure s)%nat.
Proof.
  intros [t Hstep]. unfold precompute_measure.
  inversion Hstep as
    [s0 Hw Hge | s0 Hw Hlt | s0 b0 pe' Hw Hrun | s0 Hw Hlast | s0 Hw Hmore
     | s0 gen Hw Hgen | s0 Hw Hge | s0 Hw Hlt | s0 b0 pe' Hw Hrun]; subst s0 s'; simpl;
    match goal with
    | |- context [<[t := ?p']> (workers s)] =>
      pose proof (sum_list_rank_insert (workers s) t _ p' Hw) as Hsum; simpl in Hsum
    end; lia.
Qed.

(** X11. The precomputation cannot deadlock: in every state the threads
    can reach, as long as a thread has not finished, some thread can take a
    step (a thread waiting at the barrier is released once the last one has
    arrived, and no call of [CalculateBlockOffsets] or [EstimatePathCosts]
    leaves the tables); and from every such state the threads can reach a
    state in which all of them have finished. *)
Theorem precompute_no_deadlock (pe0 : CPathEstimator F) (n : nat) (s : Precompute F) :
  handler_wf -> tables_sized pe0 ->
  rtc precompute_step (precompute_init pe0 n) s ->
  ((exists p, p ∈ workers s /\ p <> Finished) -> exists s', precompute_step s s')
  /\ exists s_end,
       rtc precompute_step s s_end /\ Forall (fun p => p = Finished) (workers s_end).
Proof.
  intros Hwf Hsz Hrun. split; [now apply (precompute_can_step pe0 n)|].
  remember (precompute_measure s) as m eqn:Hm.
  revert s Hrun Hm. induction m as [m IH] using lt_wf_ind. intros s Hrun Hm.
  destruct (decide (Forall (fun p => p = Finished) (workers s))) as [Hall|Hnot].
  - exists s. split; [apply rtc_refl|done].
  - apply not_Forall_Exists in Hnot; [|intros p; apply _].
    apply Exists_exists in Hnot as (p & Hp & Hnf).
    destruct (precompute_can_step pe0 n s Hwf Hsz Hrun) as [s' Hstep]; [eauto|].
    pose proof (precompute_step_measure s s' Hstep) as Hlt.
    destruct (IH (precompute_measure s') ltac:(lia) s') as (s_end & Hend & Hfin);
      [eapply rtc_r; eauto|done|].
    exists s_end. split; [eapply rtc_l; eauto|done].
Qed.

(** X12. The precomputation terminates: a run of [k] actions of [n]
    threads on a map of [size] blocks has [k <= 7 * n + 4 * size], whatever
    the interleaving; every action lowers [precompute_measure]. *)
Theorem precompute_run_bounded (pe0 : CPathEstimator F) (n k : nat) (s : Precompute F) :
  nsteps precompute_step k (precompute_init pe0 n) s ->
  (k + precompute_measure s
   <= 7 * n + 4 * Z.to_nat (int2_x nbrOfBlocks * int2_y nbrOfBlocks))%nat.
Proof.
  intros Hrun.
  assert (precompute_measure (precompute_init pe0 n)
          = (7 * n + 4 * Z.to_nat (int2_x nbrOfBlocks * int2_y nbrOfBlocks))%nat) as Hinit.
  { unfold precompute_measure, precompute_init. simpl.
    assert (sum_list (WorkerPC_rank <$> replicate n ClaimOffset) = (7 * n)%nat) as ->.
    { clear. induction n as [|n IH]; [reflexivity|].
      cbn [replicate]. rewrite fmap_cons. cbn [sum_list_with id WorkerPC_rank].
      rewrite IH. lia. }
    lia. }
  rewrite <- Hinit. clear Hinit.
  induction Hrun as [|k s1 s2 s3 Hstep _ IH]; [lia|].
  apply precompute_step_measure in Hstep. lia.
Qed.

(** X13. The result of the precomputation. In a reachable state in which
    every thread has finished, and there is at least one, every block has
    its offsets as [FindOffset] finds them and its vertex costs as the fine
    path finder finds them between these offsets, for every move def in
    use; if the path finders of the threads find the same paths, each
    vertex cost is the one thread 0 would compute, so that the tables do
    not depend on the interleaving nor on the number of threads. *)
Theorem precompute_complete (pe0 : CPathEstimator F) (n : nat) (s : Precompute F) :
  handler_wf -> tables_sized pe0 -> (1 <= n)%nat ->
  rtc precompute_step (precompute_init pe0 n) s ->
  Forall (fun p => p = Finished) (workers s) ->
  forall b, 0 <= b < int2_x nbrOfBlocks * int2_y nbrOfBlocks ->
    offsets_written (pre_pe s) b
    /\ costs_written (pre_pe s) b
    /\ (GetPath_thread_independent ->
        forall md d, md ∈ moveDefs -> 0 < udRefCount md ->
          0 <= d < PATH_DIRECTION_VERTICES ->
          exists c,
            edge_cost (blockStates (pre_pe s)) md (BlockIdxToPos b) d 0 = Some c
            /\ vget (vertexCosts (pre_pe s))
                 (vertexNbr (pre_pe s) md (BlockIdxToPos b) d) = Some c).
Proof.
  intros Hwf Hsz0 Hn Hrun Hall b Hb.
  destruct (precompute_reachable pe0 n s Hwf Hsz0 Hrun) as (Hinv & Hpinv & Hlen).
  destruct Hinv as (Hsize & Hle & Hbar & Hpast & Hblocks).
  destruct Hpinv as (Hsz & Hidx & Hcle & Hcnt & Hphase & Hfin & Hcosts).
  rewrite list.Forall_forall in Hall.
  assert (Finished ∈ workers s) as Hin.
  { destruct (workers s) as [|w ws]; [simpl in Hlen; lia|].
    assert (w = Finished) as -> by (apply Hall; left). left. }
  assert (offsetBlockNum s < 0) as Hneg.
  { apply Hpast. exists Finished. done. }
  specialize (Hfin Hin).
  assert (offsets_written (pre_pe s) b) as Hoff.
  { destruct (Hblocks b Hb) as [Hw|[Hw|Hun]]; [done| |lia].
    apply Hall in Hw. done. }
  assert (costs_written (pre_pe s) b) as Hcost.
  { destruct (Hcosts b Hb) as [Hw|[Hw|Hun]]; [done| |lia].
    apply Hall in Hw. done. }
  split; [done|]. split; [done|].
  intros Hind md d Hmd Huse Hd.
  destruct (Hcost md Hmd Huse d Hd) as (t & c & Hc & Hget).
  exists c. split; [|done]. rewrite <- Hc.
  unfold edge_cost. destruct (outside_map _); [done|].
  destruct (offset_at _ _ _) as [ps|]; [|done]. simpl.
  destruct (offset_at _ _ _) as [cs|]; [|done]. simpl.
  destruct (_ || _); [done|]. now rewrite (Hind 0 t).
Qed.
End PrecomputeProgress.

(** ** What a search touches *)

Section SearchEffect.
Context {F : Type} `{!FloatOps F} `{!PathConstants} `{!Grid} `{!CPathFinderDef F}
        `{!MoveDefHandler}.
Implicit Types (pe : CPathEstimator F).

Lemma search_effect_refl pe seeds : search_effect pe pe seeds [].
Proof. unfold search_effect. rewrite app_nil_r. repeat split; auto. Qed.

Lemma search_effect_trans pe1 pe2 pe3 (seeds1 seeds2 new1 new2 : list Z) :
  search_effect pe1 pe2 seeds1 new1 -> search_effect pe2 pe3 seeds2 new2 ->
  (forall j, j ∈ seeds2 -> j ∈ seeds1 \/ j ∈ new1) ->
  search_effect pe1 pe3 seeds1 (new1 ++ new2).
Proof.
  intros (Ho1 & Hv1 & Hu1 & Hp1 & Hm1 & Hd1 & Hop1 & Hc1 & Hk1)
         (Ho2 & Hv2 & Hu2 & Hp2 & Hm2 & Hd2 & Hop2 & Hc2 & Hk2) Hseeds.
  unfold search_effect.
  split; [congruence|]. split; [congruence|]. split; [congruence|].
  split; [congruence|]. split; [congruence|].
  split; [rewrite Hd2, Hd1; now rewrite app_assoc|].
  split; [|split].
  - intros ob Hob. rewrite elem_of_app.
    destruct (Hop2 ob Hob) as [Hin|Hin]; [|auto].
    destruct (Hop1 ob Hin); auto.
  - intros j Hj. rewrite elem_of_app in Hj.
    destruct (Hc1 j) as (? & ? & ?); [tauto|].
    destruct (Hc2 j) as (? & ? & ?); [tauto|].
    repeat split; congruence.
  - intros j Hj Hs. rewrite elem_of_app in Hj.
    rewrite Hk2, Hk1; [done|tauto|done|tauto|].
    intros Hin. destruct (Hseeds j Hin); tauto.
Qed.

Lemma search_effect_seeds pe pe' (seeds seeds' new : list Z) :
  search_effect pe pe' seeds new -> (forall j, j ∈ seeds -> j ∈ seeds') ->
  search_effect pe pe' seeds' new.
Proof.
  intros (Ho & Hv & Hu & Hp & Hm & Hd & Hop & Hc & Hk) Hsub.
  unfold search_effect. repeat (split; [done|]). intros j Hj Hs. apply Hk; auto.
Qed.

(** One call of [TestBlock] touches the child block at most, and puts it on
    the dirty list if it does. *)
Lemma TestBlock_effect pe md (parent : PathNode F) pathDir synced res pe' :
  search_sized pe -> 0 <= pathType md < GetNumMoveDefs -> node_wf parent ->
  0 <= pathDir < 8 ->
  0 <= openBlockBuffer pe -> openBlockBuffer pe + 1 < MAX_SEARCHED_NODES_PE ->
  MAX_SEARCHED_NODES_PE <= 2 ^ 32 ->
  TestBlock pe md parent pathDir synced = Some (res, pe') ->
  testedBlocks pe' = testedBlocks pe + 1
  /\ exists new, search_effect pe pe' [] new.
Proof.
  intros Hss Hpt Hpwf Hd Hbuf Hmax Hmax32 Hrun.
  destruct (TestBlock_cases pe md parent pathDir synced Hss Hpt Hpwf Hd Hbuf Hmax Hmax32)
    as (res0 & pe0 & Hrun0 & Hcases).
  rewrite Hrun in Hrun0. injection Hrun0 as <- <-.
  set (block := int2_add (nodePos parent) (PE_DIRECTION_VECTORS pathDir)) in *.
  set (blockIdx := BlockPosToIdx block) in *.
  assert (only_counted pe pe'
          \/ (exists m, marked_blocked pe pe' blockIdx m)
          \/ (exists m0 f g h, opened pe pe' parent pathDir block blockIdx m0 f g h))
    as Hkinds.
  { destruct Hcases as [(_ & _ & ?) | (_ & m & sq & v & _ & _ & _ & Hcases)]; [auto|].
    cbv zeta in Hcases.
    destruct Hcases as [(_ & _ & ?) | (_ & Hcases)]; [auto|].
    destruct Hcases as [(_ & _ & ?) | (_ & Hcases)]; [auto|].
    destruct Hcases as [(_ & _ & ?) | (_ & Hcases)]; [eauto|].
    destruct Hcases as [(_ & stored & _ & Hcases) | (_ & _ & ?)]; [|eauto 10].
    destruct Hcases as [(_ & _ & ?) | (_ & _ & ?)]; [auto|eauto 10]. }
  clear Hcases.
  destruct Hkinds as [-> | [(m & nm & Hnm & ->) | (m0 & f & g & h & Hop)]].
  - split; [done|]. exists []. unfold search_effect. simpl. rewrite app_nil_r.
    repeat split; auto.
  - split; [done|]. exists [blockIdx]. unfold search_effect. simpl.
    repeat (split; [done|]). split; [auto|]. split; [done|].
    intros j Hj _. eapply vget_vset_ne; [exact Hnm|].
    intros ->. apply Hj. left.
  - destruct Hop as (nm & fs & gs & ps & Hnm & Hfs & Hgs & Hps & ->).
    split; [done|]. exists [blockIdx]. unfold search_effect. simpl.
    repeat (split; [done|]). split; [|split].
    + intros ob Hob. apply elem_of_app in Hob as [?|Hob]; [auto|].
      apply list_elem_of_singleton in Hob as ->. right. simpl. left.
    + intros j Hj. assert (blockIdx <> j) by (intros ->; apply Hj; left).
      repeat split; eapply vget_vset_ne; eauto.
    + intros j Hj _. eapply vget_vset_ne; [exact Hnm|].
      intros ->. apply Hj. left.
Qed.

(** The calls of [TestBlock] for a list of directions. *)
Lemma TestBlock_fold_effect pe md (ob : PathNode F) synced (dirs : list Z) pe' :
  flags_disjoint ->
  search_sized pe -> 0 <= pathType md < GetNumMoveDefs -> node_wf ob ->
  Forall (fun d => 0 <= d < 8) dirs ->
  0 <= openBlockBuffer pe ->
  openBlockBuffer pe + Z.of_nat (length dirs) < MAX_SEARCHED_NODES_PE ->
  MAX_SEARCHED_NODES_PE <= 2 ^ 32 ->
  fold_opt (TestBlock_ md ob synced) pe dirs = Some pe' ->
  testedBlocks pe' = testedBlocks pe + Z.of_nat (length dirs)
  /\ exists new, search_effect pe pe' [] new.
Proof.
  intros Hflags Hss Hpt Hob Hdirs. revert pe Hss.
  induction Hdirs as [|d dirs Hd Hdirs IH]; intros pe Hss Hbuf Hmax Hmax32 Hrun.
  - injection Hrun as <-. split; [simpl; lia|]. exists []. apply search_effect_refl.
  - simpl in Hmax. cbn [fold_opt] in Hrun.
    destruct (TestBlock_step pe md ob d synced Hflags Hss Hpt Hob Hd Hbuf)
      as (res & pe1 & new1 & Hrun1 & Hshape1 & Hopen1 & Hlen1 & Hbuf1 & _);
      [lia|done|].
    assert (TestBlock_ md ob synced pe d = Some pe1) as Hstep
      by (unfold TestBlock_; now rewrite Hrun1).
    rewrite Hstep in Hrun.
    destruct (TestBlock_effect pe md ob d synced res pe1) as (Ht1 & n1 & He1);
      [done|done|done|done|done|lia|done|done|].
    destruct (IH pe1) as (Ht2 & n2 & He2);
      [eapply search_sized_same_shape; eauto|lia|lia|done|done|].
    split; [simpl length; lia|]. exists (n1 ++ n2).
    eapply search_effect_trans; [exact He1|exact He2|]. intros j Hj. inversion Hj.
Qed.

(** The expansion of a popped block touches the masks of the block and of
    its neighbours, and the costs and parents of its neighbours. *)
Lemma DoSearch_expand_effect pe md (ob : PathNode F) synced pe' :
  flags_disjoint ->
  search_sized pe -> 0 <= pathType md < GetNumMoveDefs -> node_wf ob ->
  0 <= openBlockBuffer pe -> openBlockBuffer pe + 8 < MAX_SEARCHED_NODES_PE ->
  MAX_SEARCHED_NODES_PE <= 2 ^ 32 ->
  DoSearch_expand pe md ob synced = Some pe' ->
  testedBlocks pe' = testedBlocks pe + 8
  /\ exists new, search_effect pe pe' [nodeNum ob] new.
Proof.
  intros Hflags Hss Hpt Hob Hbuf Hmax Hmax32 Hrun. unfold DoSearch_expand in Hrun.
  destruct (fold_opt _ _ _) as [pe1|] eqn:Hfold; [|discriminate].
  cbn [mbind option_bind] in Hrun.
  destruct (TestBlock_fold_effect pe md ob synced
              [PATHDIR_LEFT; PATHDIR_LEFT_UP; PATHDIR_UP; PATHDIR_RIGHT_UP;
               PATHDIR_RIGHT; PATHDIR_RIGHT_DOWN; PATHDIR_DOWN; PATHDIR_LEFT_DOWN]
              pe1 Hflags Hss Hpt Hob) as (Ht & new & He);
    [repeat constructor; done|done|simpl; lia|done|done|].
  destruct (vget (nodeMask (blockStates pe1)) (nodeNum ob)) as [m|]; [|discriminate].
  cbn [mbind option_bind] in Hrun.
  destruct (vset _ _ _) as [nm|] eqn:Hnm; [|discriminate].
  injection Hrun as <-. split; [simpl in *; lia|]. exists new.
  replace new with (new ++ []) by apply app_nil_r.
  eapply (search_effect_trans pe pe1 _ [nodeNum ob] [nodeNum ob]).
  - eapply search_effect_seeds; [exact He|]. intros j Hj. inversion Hj.
  - unfold search_effect. simpl. rewrite app_nil_r. repeat (split; [done|]).
    split; [auto|]. split; [done|]. intros j _ Hj.
    eapply vget_vset_ne; [exact Hnm|]. intros Heq. apply Hj. rewrite <- Heq. left.
  - auto.
Qed.
End SearchEffect.

Section SearchEffectLoop.
Context {F : Type} `{!FloatOps F} `{!PathConstants} `{!Grid} `{!CPathFinderDef F}
        `{!MoveDefHandler}.
Implicit Types (pe : CPathEstimator F).

Lemma expanded_blocks_skipped (ob : PathNode F) vis found :
  expanded_blocks ((ob, false) :: vis) found = expanded_blocks vis found.
Proof. unfold expanded_blocks. rewrite filter_cons_False by (simpl; done). done. Qed.

Lemma expanded_blocks_tested (ob : PathNode F) vis found :
  expanded_blocks ((ob, true) :: vis) found = 1 + expanded_blocks vis found.
Proof.
  unfold expanded_blocks. rewrite filter_cons_True by done. simpl length. lia.
Qed.

(** The loop of [DoSearch], with enough fuel: what it touches, how often
    it calls [TestBlock], and how far the open-block buffer grows. *)
Lemma DoSearch_loop_effect (n : nat) pe md synced visited :
  flags_disjoint -> 0 <= pathType md < GetNumMoveDefs ->
  search_inv pe -> (DoSearch_measure pe < n)%nat ->
  exists found pe' vis new,
    DoSearch_loop n pe md synced visited = Some (found, pe', visited ++ vis)
    /\ search_effect pe pe' (nodeNum <$> openBlocks pe) new
    /\ testedBlocks pe' = testedBlocks pe + 8 * expanded_blocks vis found
    /\ openBlockBuffer pe <= openBlockBuffer pe'
       <= Z.max (openBlockBuffer pe) (maxBlocksToBeSearched pe + 7).
Proof.
  intros Hflags Hpt. revert pe visited.
  induction n as [|n IH]; intros pe visited Hinv Hfuel; [lia|].
  cbn [DoSearch_loop].
  destruct (DoSearch_continue pe) eqn:Hcont; simpl.
  { apply DoSearch_continue_true in Hcont as [Hne Hroom].
    destruct Hinv as (Hss & Hnodes & Hbuf & Hmax & Hmax32).
    destruct (pq_pop_spec (openBlocks pe) Hne) as (ob & rest & i & Hpop & Hi & Hrest & Hlen).
    rewrite Hpop. simpl.
    set (pe1 := set_openBlocks rest pe).
    assert (ob ∈ openBlocks pe) as Hobin by (eapply list_elem_of_lookup_2, Hi).
    assert (node_wf ob) as Hob by (rewrite list.Forall_forall in Hnodes; auto).
    assert (Forall node_wf rest) as Hnodes1 by (rewrite Hrest; now apply Forall_delete).
    assert (search_sized pe1) as Hss1 by done.
    assert (search_effect pe pe1 (nodeNum <$> openBlocks pe) []) as Hpopped.
    { unfold search_effect. simpl. rewrite app_nil_r. repeat (split; [done|]).
      split; [|done]. intros x Hx. left. rewrite Hrest in Hx.
      eapply list_elem_of_delete_inv, Hx. }
    assert (forall j, j ∈ nodeNum <$> rest -> j ∈ nodeNum <$> openBlocks pe) as Hsub.
    { intros j Hj. apply list_elem_of_fmap in Hj as (x & -> & Hx).
      apply list_elem_of_fmap. exists x. split; [done|].
      rewrite Hrest in Hx. eapply list_elem_of_delete_inv, Hx. }
    pose proof (node_wf_index pe ob Hss Hob) as Hidx.
    pose proof Hss as ((_ & _ & _ & _ & Hsize & _) & _). unfold GetSize in Hsize.
    destruct (vget_is_Some (nodeMask (blockStates pe)) (nodeNum ob)) as [m Hm]; [lia|].
    change (nodeMask (blockStates pe1)) with (nodeMask (blockStates pe)).
    rewrite Hm. simpl.
    destruct (Z.eqb_spec (Z.land m (Z.lor PATHOPT_BLOCKED PATHOPT_CLOSED)) 0) as [Hfree|Hskip];
      simpl.
    - destruct (DoSearch_isGoal_is_Some pe1 md ob Hss1 Hpt Hob) as [g Hg].
      rewrite Hg. simpl. destruct g.
      + exists true, (set_goal (nodeNum ob) (f_of_Z 0) pe1), [(ob, true)], [].
        split; [done|]. split; [exact Hpopped|]. split; [|simpl; lia].
        unfold expanded_blocks. rewrite filter_cons_True by done. simpl. lia.
      + destruct (DoSearch_expand_spec pe1 md ob synced Hflags Hss1 Hpt Hob)
          as (pe2 & new & Hrun & Hshape2 & Hopen2 & Hlen2 & Hbuf2 & Hnew2 & _);
          [done|simpl; lia|done|].
        rewrite Hrun. simpl.
        destruct (DoSearch_expand_effect pe1 md ob synced pe2) as (Ht2 & d2 & He2);
          [done|done|done|done|done|simpl; lia|done|done|].
        pose proof Hshape2 as (_ & _ & _ & _ & _ & _ & Hmb).
        assert (search_inv pe2) as Hinv2.
        { split; [eapply search_sized_same_shape; eauto|].
          split; [|split; [simpl in Hbuf2; lia|split; [rewrite Hmb; done|done]]].
          rewrite Hopen2. apply Forall_app. split; [done|].
          eapply Forall_impl; [exact Hnew2|]. now intros x [? _]. }
        destruct (IH pe2 (visited ++ [(ob, true)]) Hinv2)
          as (found & pe' & vis & d' & Hloop & He' & Ht' & Hb').
        { unfold DoSearch_measure in *. rewrite Hopen2, length_app, Hbuf2, Hmb.
          simpl in *. lia. }
        exists found, pe', ((ob, true) :: vis), (d2 ++ d').
        split; [rewrite Hloop; f_equal; f_equal; now rewrite <- app_assoc|].
        split; [|split].
        * assert (search_effect pe pe2 (nodeNum <$> openBlocks pe) d2) as He02.
          { change d2 with ([] ++ d2).
            eapply (search_effect_trans pe pe1 pe2 _ [nodeNum ob]);
              [exact Hpopped|exact He2|].
            intros j Hj. apply list_elem_of_singleton in Hj as ->. left.
            apply list_elem_of_fmap. eauto. }
          eapply search_effect_trans; [exact He02|exact He'|].
          intros j Hj. apply list_elem_of_fmap in Hj as (x & -> & Hx).
          destruct He02 as (_ & _ & _ & _ & _ & _ & Hop & _).
          destruct (Hop x Hx) as [Hin|Hin]; [left|now right].
          apply list_elem_of_fmap. eauto.
        * rewrite expanded_blocks_tested, Ht', Ht2. simpl. lia.
        * rewrite Hmb in Hb'. simpl in *. lia.
    - assert (search_inv pe1) as Hinv1 by done.
      destruct (IH pe1 (visited ++ [(ob, false)]) Hinv1)
        as (found & pe' & vis & d' & Hloop & He' & Ht' & Hb').
      { unfold DoSearch_measure in *. simpl. lia. }
      exists found, pe', ((ob, false) :: vis), d'.
      split; [rewrite Hloop; f_equal; f_equal; now rewrite <- app_assoc|].
      split; [|split].
      + change d' with ([] ++ d').
        eapply search_effect_trans; [exact Hpopped|exact He'|]. intros j Hj. left. auto.
      + now rewrite expanded_blocks_skipped.
      + simpl in Hb'. lia. }
  exists false, pe, [], []. rewrite app_nil_r. split; [done|].
  split; [apply search_effect_refl|]. unfold expanded_blocks. simpl. lia.
Qed.

(** X14. What a search touches. With enough fuel [DoSearch] returns, and
    it has left the offsets, the vertex costs, the obsolete queue, the
    update penalty and the node budget as they were; the dirty list has
    only grown; the costs and the parent of a block were written only
    if the block was put on the dirty list, and its mask only if it
    was, or was in the open set at the start; so when every entry of
    the open set was dirty at the start, cleaning the dirty blocks cleans
    all the search wrote. [TestBlock] was called eight times for each
    block expanded, and the open-block buffer has not shrunk and has not
    grown beyond [maxBlocksToBeSearched + 7], unless it was beyond
    before: it stays below [MAX_SEARCHED_NODES_PE] if it was. *)
Theorem DoSearch_touches_dirty_blocks pe md synced (fuel : nat) :
  flags_disjoint -> 0 <= pathType md < GetNumMoveDefs ->
  search_inv pe -> (DoSearch_measure pe < fuel)%nat ->
  exists res pe' visited new,
    DoSearch fuel pe md synced = Some (res, pe', visited)
    /\ search_effect pe pe' (nodeNum <$> openBlocks pe) new
    /\ (Forall (fun ob => nodeNum ob ∈ dirtyBlocks pe) (openBlocks pe) ->
        Forall (fun ob => nodeNum ob ∈ dirtyBlocks pe') (openBlocks pe')
        /\ forall j, j ∉ dirtyBlocks pe' ->
             vget (nodeMask (blockStates pe')) j = vget (nodeMask (blockStates pe)) j
             /\ vget (fCost (blockStates pe')) j = vget (fCost (blockStates pe)) j
             /\ vget (gCost (blockStates pe')) j = vget (gCost (blockStates pe)) j
             /\ vget (peParentNodePos (blockStates pe')) j
                = vget (peParentNodePos (blockStates pe)) j)
    /\ testedBlocks pe' = testedBlocks pe
         + 8 * expanded_blocks visited (bool_decide (res = Ok))
    /\ openBlockBuffer pe <= openBlockBuffer pe'
       <= Z.max (openBlockBuffer pe) (maxBlocksToBeSearched pe + 7)
    /\ (openBlockBuffer pe < MAX_SEARCHED_NODES_PE ->
        openBlockBuffer pe' < MAX_SEARCHED_NODES_PE).
Proof.
  intros Hflags Hpt Hinv Hfuel.
  destruct (DoSearch_loop_effect fuel pe md synced [] Hflags Hpt Hinv Hfuel)
    as (found & pe' & vis & new & Hloop & He & Ht & Hb).
  unfold DoSearch. rewrite Hloop. simpl.
  exists (DoSearch_result found pe'), pe', vis, new.
  split; [done|]. split; [done|].
  pose proof He as (_ & _ & _ & _ & _ & Hd & Hop & Hc & Hk).
  split; [|split; [|split; [done|]]].
  - intros Hdirty. rewrite list.Forall_forall in Hdirty. split.
    + apply list.Forall_forall. intros ob Hob. rewrite Hd, elem_of_app.
      destruct (Hop ob Hob); auto.
    + intros j Hj. rewrite Hd, elem_of_app in Hj.
      destruct (Hc j) as (? & ? & ?); [tauto|].
      split; [|done]. apply Hk; [tauto|].
      intros Hin. apply list_elem_of_fmap in Hin as (x & -> & Hx).
      apply Hj. left. auto.
  - rewrite Ht. do 2 f_equal. unfold DoSearch_result. destruct found.
    + now rewrite bool_decide_eq_true_2.
    + rewrite bool_decide_eq_false_2; [done|].
      destruct (_ <=? _); [done|]. now destruct (bool_decide (openBlocks pe' = [])).
  - destruct Hinv as (_ & _ & _ & Hmax & _). lia.
Qed.
End SearchEffectLoop.

(** ** Update, call after call *)

Section UpdateProgress.
Context {F : Type} `{!FloatOps F} `{!PathConstants} `{!Grid} `{!Collaborators F}
        `{!MoveDefHandler}.
Implicit Types (pe : CPathEstimator F).

Lemma Update_entries_nonempty (pos : int2) :
  some_class_in_use -> exists sb, sb ∈ Update_entries pos /\ sb_blockPos sb = pos.
Proof.
  intros (md & Hmd & Huse). exists (mk_SingleBlock pos md). split; [|done].
  unfold Update_entries. apply list_elem_of_fmap. exists md. split; [done|].
  apply list_elem_of_filter. done.
Qed.

(** One call of [Update]: the queue loses entries from its front, at least
    one unless it is empty or the penalty leaves no block to update; in the
    latter case the penalty has dropped by the clamped budget, which is at
    least 4. *)
Lemma Update_progress pe :
  handler_wf -> some_class_in_use -> tables_sized pe -> queue_invariant pe ->
  ceil_of_zero ->
  exists pe',
    Update pe = Some pe' /\ tables_sized pe' /\ queue_invariant pe'
    /\ (exists q1, updatedBlocks pe = q1 ++ updatedBlocks pe')
    /\ (updatedBlocks pe = []
        \/ (length (updatedBlocks pe') < length (updatedBlocks pe))%nat
        \/ (updatedBlocks pe' = updatedBlocks pe
            /\ 0 <= blockUpdatePenalty pe' <= blockUpdatePenalty pe - 4)).
Proof.
  intros Hwf Huse Hsz Hinv Hceil.
  destruct (Update_spec pe Hwf Huse Hsz Hinv)
    as (pe' & cs & Hrun & Hcs & Hsz' & Hinv' & Hsuffix & Hcons).
  exists pe'. repeat (split; [done|]).
  destruct (updatedBlocks pe) as [|p rest] eqn:Hq; [now left|right].
  unfold Update in Hrun. unfold Update_consumed in Hcs.
  destruct (Update_budget pe) as [[btu cb] pen] eqn:Hbud.
  destruct (Z.eqb_spec btu 0) as [Hzero|Hbtu].
  - right. injection Hrun as <-. simpl. split; [done|].
    unfold Update_budget in Hbud.
    set (C := blocksToUpdate_clamped (progressiveUpdates pe)) in *.
    assert (4 <= C) as HC.
    { pose proof (Clamp_bounds (progressiveUpdates pe) MIN_BLOCKS_TO_UPDATE
                    MAX_BLOCKS_TO_UPDATE MIN_le_MAX_BLOCKS_TO_UPDATE) as Hcl.
      pose proof MIN_BLOCKS_TO_UPDATE_ge_4. subst C. unfold blocksToUpdate_clamped. lia. }
    injection Hbud as Hb _ Hp. rewrite Hb, Hzero in Hp.
    unfold ceil_of_zero in Hceil. rewrite Hceil in Hp.
    rewrite Z.mul_0_r, Z.mul_0_l in Hp. change (to_int32 0) with 0 in Hp.
    clearbody C.
    destruct (Z.ltb_spec 0 (Z.max 0 (blockUpdatePenalty pe - C))) as [Hpos|Hnot]; lia.
  - left.
    destruct Hsuffix as [q1 Hq1].
    destruct q1 as [|x q1]; [|apply (f_equal length) in Hq1; simpl in Hq1;
                               rewrite length_app in Hq1; simpl; lia].
    exfalso. simpl in Hq1.
    pose proof Hinv as (_ & Hqin & Hiff).
    assert (in_map p) as Hpin by (apply Hqin; rewrite Hq; left).
    assert (obsolete_bit pe p) as (m & Hm & Hbit) by (apply Hiff; [done|rewrite Hq; left]).
    pose proof Hsz as (_ & _ & Hfit & _).
    destruct (BlockPosToIdx_eq p Hpin Hfit) as (_ & Hidx & _).
    rewrite Hq in Hcs. cbn [Update_drain] in Hcs. rewrite Hidx, Hm in Hcs.
    cbn [mbind option_bind length] in Hcs. change (Z.of_nat 0) with 0 in Hcs.
    destruct (Z.eqb_spec (Z.land m PATHOPT_OBSOLETE) 0) as [|_]; [done|].
    destruct (Z.leb_spec btu 0) as [Hle|_].
    { unfold Update_budget in Hbud.
      set (C := blocksToUpdate_clamped (progressiveUpdates pe)) in *.
      assert (4 <= C) as HC.
      { pose proof (Clamp_bounds (progressiveUpdates pe) MIN_BLOCKS_TO_UPDATE
                      MAX_BLOCKS_TO_UPDATE MIN_le_MAX_BLOCKS_TO_UPDATE) as Hcl.
        pose proof MIN_BLOCKS_TO_UPDATE_ge_4. subst C. unfold blocksToUpdate_clamped. lia. }
      injection Hbud as Hb _ _. clearbody C. revert Hb.
      destruct (0 <? Z.max 0 (blockUpdatePenalty pe - C)); lia. }
    destruct (Update_drain_spec (nodeMask (blockStates pe)) btu rest (Update_entries p))
      as (r1 & r2 & Hr & Hdrain).
    { intros b Hb.
      assert (b ∈ updatedBlocks pe) as Hbq by (rewrite Hq; now right).
      destruct (BlockPosToIdx_eq b (Hqin b Hbq) Hfit) as (_ & -> & _).
      apply (Hiff b (Hqin b Hbq)). done. }
    change ([] ++ Update_entries p) with (Update_entries p) in Hcs.
    rewrite Hdrain in Hcs. simpl in Hcs. injection Hcs as <-.
    destruct (Update_entries_nonempty p Huse) as (sb & Hsb & Hpos).
    destruct (Hcons sb) as (_ & _ & Hout); [apply elem_of_app; now left|].
    apply Hout. rewrite Hpos, <- Hq1. left.
Qed.

(** X15. Every change of the map is processed in the end. On a
    well-formed estimator with a move def in use, one call of [Update]
    takes entries off the front of the obsolete queue, at least one unless
    the queue is empty or the penalty leaves no block to update, and then the
    penalty has dropped by at least 4; so some number of calls in a row
    empties the queue, and then no block of the map is obsolete. *)
Theorem Update_drains_queue pe :
  handler_wf -> some_class_in_use -> tables_sized pe -> queue_invariant pe ->
  ceil_of_zero ->
  (exists pe1,
     Update pe = Some pe1
     /\ (exists q1, updatedBlocks pe = q1 ++ updatedBlocks pe1)
     /\ (updatedBlocks pe = []
         \/ (length (updatedBlocks pe1) < length (updatedBlocks pe))%nat
         \/ (updatedBlocks pe1 = updatedBlocks pe
             /\ 0 <= blockUpdatePenalty pe1 <= blockUpdatePenalty pe - 4)))
  /\ exists k pe',
       Update_times k pe = Some pe'
       /\ updatedBlocks pe' = []
       /\ forall b, in_map b -> ~ obsolete_bit pe' b.
Proof.
  intros Hwf Huse Hsz Hinv Hceil. split.
  { destruct (Update_progress pe Hwf Huse Hsz Hinv Hceil)
      as (pe1 & Hrun & _ & _ & Hsuffix & Hcases).
    exists pe1. done. }
  assert (forall n p pe0,
            length (updatedBlocks pe0) = n -> Z.to_nat (blockUpdatePenalty pe0) = p ->
            tables_sized pe0 -> queue_invariant pe0 ->
            exists k pe', Update_times k pe0 = Some pe'
                          /\ updatedBlocks pe' = [] /\ queue_invariant pe') as Hdrain.
  { induction n as [n IHn] using lt_wf_ind.
    induction p as [p IHp] using lt_wf_ind.
    intros pe0 Hn Hp Hsz0 Hinv0.
    destruct (Update_progress pe0 Hwf Huse Hsz0 Hinv0 Hceil)
      as (pe1 & Hrun & Hsz1 & Hinv1 & _ & [Hempty|[Hshorter|[Hsame Hpen]]]).
    - exists 0%nat, pe0. done.
    - destruct (IHn (length (updatedBlocks pe1)) ltac:(lia) _ pe1 eq_refl eq_refl Hsz1 Hinv1)
        as (k & pe' & Hk & Hq & Hi).
      exists (S k), pe'. cbn [Update_times]. rewrite Hrun. done.
    - destruct (IHp (Z.to_nat (blockUpdatePenalty pe1)) ltac:(lia) pe1) as (k & pe' & Hk & Hq & Hi);
        [congruence|done|done|done|].
      exists (S k), pe'. cbn [Update_times]. rewrite Hrun. done. }
  destruct (Hdrain _ _ pe eq_refl eq_refl Hsz Hinv) as (k & pe' & Hk & Hq & (_ & _ & Hiff)).
  exists k, pe'. split; [done|]. split; [done|].
  intros b Hb Hobs. apply Hiff in Hobs; [|done]. rewrite Hq in Hobs. inversion Hobs.
Qed.
End UpdateProgress.

(** ** A change of the map, then updates *)

Section MapChangedThenUpdate.
Context {F : Type} `{!FloatOps F} `{!PathConstants} `{!Grid} `{!Collaborators F}
        `{!MoveDefHandler}.
Implicit Types (pe : CPathEstimator F).

Lemma Update_entries_of (b : int2) md (bl : list int2) :
  b ∈ bl -> md ∈ moveDefs -> 0 < udRefCount md ->
  mk_SingleBlock b md ∈ concat (Update_entries <$> bl).
Proof.
  intros Hb Hmd Huse. induction bl as [|x bl IH]; [inversion Hb|].
  rewrite fmap_cons. cbn [concat]. apply elem_of_app.
  apply elem_of_cons in Hb as [->|Hb]; [left|right; auto].
  unfold Update_entries. apply list_elem_of_fmap. exists md. split; [done|].
  now apply list_elem_of_filter.
Qed.

(** One call of [Update], on the offsets: the blocks taken off the queue
    have the offsets [FindOffset] finds, the other offsets are as before. *)
Lemma Update_step_offsets pe :
  handler_wf -> some_class_in_use -> tables_sized pe -> queue_invariant pe ->
  exists pe' q1,
    Update pe = Some pe' /\ updatedBlocks pe = q1 ++ updatedBlocks pe'
    /\ (forall b, b ∈ q1 -> offsets_fresh pe' b)
    /\ (forall b pt, in_map b -> b ∉ q1 ->
          offset_at (blockStates pe') (BlockPosToIdx b) pt
          = offset_at (blockStates pe) (BlockPosToIdx b) pt).
Proof.
  intros Hwf Huse Hsz Hinv.
  unfold Update.
  destruct (Update_budget pe) as [[btu cb] pen].
  set (pe0 := set_blockUpdatePenalty pen pe).
  destruct (Z.eqb_spec btu 0) as [_|Hbtu].
  { exists pe0, []. split; [done|]. split; [done|]. split; [|done].
    intros b Hb. inversion Hb. }
  pose proof Hsz as (_ & _ & Hfit & _).
  pose proof Hinv as (Hnd & Hqin & Hiff).
  destruct (Update_drain_spec (nodeMask (blockStates pe)) btu (updatedBlocks pe) [])
    as (q1 & q2 & Hq & Hdrain).
  { intros b Hb. destruct (BlockPosToIdx_eq b (Hqin b Hb) Hfit) as (_ & -> & _).
    apply (Hiff b (Hqin b Hb)). done. }
  change (updatedBlocks pe0) with (updatedBlocks pe).
  change (nodeMask (blockStates pe0)) with (nodeMask (blockStates pe)).
  rewrite Hdrain. simpl.
  set (cs := concat (Update_entries <$> q1)).
  destruct (updatedBlocks pe) as [|p0 qrest] eqn:Hqueue.
  { destruct q1; [|discriminate]. destruct q2; [|discriminate].
    exists pe0, []. split; [done|]. split; [done|]. split; [|done].
    intros b Hb. inversion Hb. }
  rewrite <- Hqueue in *. clear p0 qrest Hqueue.
  set (pe1 := set_updatedBlocks q2 pe0).
  assert (tables_sized pe1) as Hsz1 by done.
  assert (forall b, b ∈ q1 -> in_map b) as Hq1in.
  { intros b Hb. apply Hqin. rewrite Hq. apply elem_of_app. now left. }
  assert (Forall entry_wf cs) as Hcs.
  { apply list.Forall_forall. intros sb Hsb.
    apply Update_entries_in in Hsb as [Hb Hmd]. split; [auto|].
    unfold moveDefs_in_use in Hmd. now apply list_elem_of_filter in Hmd as [_ Hmd]. }
  destruct (Update_offsets_content cs pe1 Hwf Hsz1 Hcs) as (pe2 & Hoff & Hsz2 & Hfr2 & Hoffs).
  rewrite Hoff. simpl.
  destruct (Update_vertices_content cs pe2 Hwf Hsz2 Hcs)
    as (pe3 & Hrun & Hsz3 & Hfr3 & Hlen3 & Hverts).
  exists pe3, q1. split; [done|].
  pose proof (only_masks_and_vertexCosts_offsets _ _ Hfr3) as Hoffs3.
  assert (forall i pt, offset_at (blockStates pe3) i pt = offset_at (blockStates pe2) i pt)
    as Hoff3 by (intros i pt; unfold offset_at; now rewrite Hoffs3).
  rewrite list.Forall_forall in Hcs.
  split; [|split].
  - rewrite Hfr3. simpl. rewrite Hfr2. simpl. exact Hq.
  - intros b Hb md Hmd Hmduse. rewrite Hoff3.
    pose proof (Update_entries_of b md q1 Hb Hmd Hmduse) as Hsb. fold cs in Hsb.
    destruct (Hoffs (BlockPosToIdx b) (pathType md))
      as [[_ Hnot]|(sb' & Hsb' & Hi & Hp & Hval)].
    + exfalso. eapply Hnot; eauto.
    + assert (mk_SingleBlock b md = sb') as <- by (apply SingleBlock_unique; auto).
      exact Hval.
  - intros b pt Hin Hout. rewrite Hoff3.
    destruct (Hoffs (BlockPosToIdx b) pt) as [[Hsame _]|(sb' & Hsb' & Hi & _)]; [done|].
    exfalso. apply Hout.
    apply Update_entries_in in Hsb' as [Hb' _].
    apply BlockPosToIdx_inj in Hi; [|done|auto|done]. now rewrite Hi.
Qed.

(** Calls of [Update] until the queue is empty: a block of the map that
    was obsolete or had fresh offsets has fresh offsets in the end. *)
Lemma Update_times_refresh pe :
  handler_wf -> some_class_in_use -> tables_sized pe -> queue_invariant pe ->
  ceil_of_zero ->
  exists k pe',
    Update_times k pe = Some pe' /\ updatedBlocks pe' = []
    /\ forall b, in_map b -> obsolete_bit pe b \/ offsets_fresh pe b -> offsets_fresh pe' b.
Proof.
  intros Hwf Huse Hsz Hinv Hceil.
  assert (forall n p pe0,
            length (updatedBlocks pe0) = n -> Z.to_nat (blockUpdatePenalty pe0) = p ->
            tables_sized pe0 -> queue_invariant pe0 ->
            exists k pe',
              Update_times k pe0 = Some pe' /\ updatedBlocks pe' = []
              /\ forall b, in_map b -> obsolete_bit pe0 b \/ offsets_fresh pe0 b ->
                   offsets_fresh pe' b) as Hdrain.
  { induction n as [n IHn] using lt_wf_ind.
    induction p as [p IHp] using lt_wf_ind.
    intros pe0 Hn Hp Hsz0 Hinv0.
    destruct (updatedBlocks pe0) as [|x q] eqn:Hq0.
    { exists 0%nat, pe0. split; [done|]. split; [done|].
      intros b Hb [Hobs|Hfresh]; [|done].
      destruct Hinv0 as (_ & _ & Hiff). apply Hiff in Hobs; [|done].
      rewrite Hq0 in Hobs. inversion Hobs. }
    destruct (Update_progress pe0 Hwf Huse Hsz0 Hinv0 Hceil)
      as (pe1 & Hrun & Hsz1 & Hinv1 & _ & Hcases).
    destruct (Update_step_offsets pe0 Hwf Huse Hsz0 Hinv0)
      as (pe1' & q1 & Hrun' & Hsplit & Hfresh1 & Hkeep1).
    rewrite Hrun in Hrun'. injection Hrun' as <-.
    assert (forall b, in_map b -> obsolete_bit pe0 b \/ offsets_fresh pe0 b ->
              obsolete_bit pe1 b \/ offsets_fresh pe1 b) as Hstep.
    { intros b Hb Hcase.
      destruct (decide (b ∈ q1)) as [Hin|Hout]; [right; auto|].
      destruct Hcase as [Hobs|Hfresh].
      - left. destruct Hinv0 as (_ & _ & Hiff0). destruct Hinv1 as (_ & _ & Hiff1).
        apply Hiff1; [done|]. apply Hiff0 in Hobs; [|done].
        rewrite Hsplit in Hobs. apply elem_of_app in Hobs as [?|?]; done.
      - right. intros md Hmd Hmduse. rewrite Hkeep1 by done. now apply Hfresh. }
    assert (exists k pe', Update_times k pe1 = Some pe' /\ updatedBlocks pe' = []
              /\ forall b, in_map b -> obsolete_bit pe1 b \/ offsets_fresh pe1 b ->
                   offsets_fresh pe' b) as (k & pe' & Hk & Hq & Hall).
    { rewrite Hq0 in Hcases. destruct Hcases as [Hempty|[Hshorter|[Hsame Hpen]]].
      - discriminate.
      - apply (IHn (length (updatedBlocks pe1)) ltac:(simpl in *; lia)
                 (Z.to_nat (blockUpdatePenalty pe1)) pe1); done.
      - apply (IHp (Z.to_nat (blockUpdatePenalty pe1)) ltac:(lia) pe1); try done.
        rewrite Hsame, <- Hn. done. }
    exists (S k), pe'. cbn [Update_times]. rewrite Hrun. split; [done|]. split; [done|].
    intros b Hb Hcase. apply Hall; auto. }
  apply (Hdrain _ _ pe eq_refl eq_refl Hsz Hinv).
Qed.

(** X17. A change of the map reaches the offsets. After [MapChanged] on a
    well-formed estimator with a move def in use, some number of calls of
    [Update] empties the obsolete queue, and then every block of the
    changed rectangle, and every block that was obsolete before, has for
    every move def in use the offset [FindOffset] finds. *)
Theorem MapChanged_then_Update_refreshes pe (x1 z1 x2 z2 : Z) :
  PATHOPT_OBSOLETE <> 0 ->
  handler_wf -> some_class_in_use -> tables_sized pe -> queue_invariant pe ->
  ceil_of_zero ->
  exists pe1 k pe',
    MapChanged pe x1 z1 x2 z2 = Some pe1
    /\ Update_times k pe1 = Some pe'
    /\ updatedBlocks pe' = []
    /\ (forall b, in_map b -> ~ obsolete_bit pe' b)
    /\ (forall b, in_map b -> obsolete_bit pe b \/ in_changed_rect x1 z1 x2 z2 b ->
          offsets_fresh pe' b).
Proof.
  intros Hne Hwf Huse Hsz Hinv Hceil.
  destruct (MapChanged_spec pe x1 z1 x2 z2 Hne Hsz Hinv)
    as (pe1 & new & Hrun & Hsz1 & Hinv1 & Hq1 & Hnew).
  destruct (MapChanged_rect pe x1 z1 x2 z2 Hne Hsz)
    as (pe1' & Hrun' & _ & (_ & _ & new' & _ & _ & _ & Hobs & _) & Hrect).
  rewrite Hrun in Hrun'. injection Hrun' as <-.
  destruct (Update_times_refresh pe1 Hwf Huse Hsz1 Hinv1 Hceil) as (k & pe' & Hk & Hq & Hall).
  exists pe1, k, pe'. repeat (split; [done|]).
  assert (queue_invariant pe') as (_ & _ & Hiff').
  { clear - Hk Hinv1 Hsz1 Hwf Huse. revert pe1 Hk Hinv1 Hsz1.
    induction k as [|k IH]; intros pe1 Hk Hinv1 Hsz1.
    - injection Hk as <-. done.
    - cbn [Update_times] in Hk.
      destruct (Update_spec pe1 Hwf Huse Hsz1 Hinv1)
        as (pe2 & cs & Hrun & _ & Hsz2 & Hinv2 & _).
      rewrite Hrun in Hk. simpl in Hk. eapply IH; eauto. }
  split.
  - intros b Hb Hobs'. apply Hiff' in Hobs'; [|done]. rewrite Hq in Hobs'. inversion Hobs'.
  - intros b Hb [Hold|Hin]; apply Hall; try done; left; [|auto].
    apply Hobs; auto.
Qed.
End MapChangedThenUpdate.

(** ** From the goal back to the start *)

Section SearchParents.
Context {F : Type} `{!FloatOps F} `{!PathConstants} `{!Grid} `{!CPathFinderDef F}
        `{!MoveDefHandler}.
Implicit Types (pe : CPathEstimator F).

Lemma parent_chain_frame pe pe' start b (chain : list Z) :
  (forall j, j ∈ chain ->
     vget (peParentNodePos (blockStates pe')) j = vget (peParentNodePos (blockStates pe)) j) ->
  parent_chain pe start b chain -> parent_chain pe' start b chain.
Proof.
  revert b. induction chain as [|c chain IH]; intros b Hsame Hchain; [done|].
  destruct Hchain as (-> & Hne & parent & Hparent & Hchain).
  split; [done|]. split; [done|]. exists parent. split.
  - rewrite Hsame; [done|left].
  - apply IH; [|done]. intros j Hj. apply Hsame. now right.
Qed.

Lemma parent_chain_head pe start b (chain : list Z) :
  parent_chain pe start b chain -> forall j, j ∈ chain -> j = b \/ j ∈ tail chain.
Proof.
  destruct chain as [|c chain]; intros Hchain j Hj; [inversion Hj|].
  destruct Hchain as (-> & _). apply elem_of_cons in Hj as [->|Hj]; auto.
Qed.

Lemma rooted_start pe start cur : rooted pe start cur start.
Proof. exists []. split; [done|constructor]. Qed.

(** What one step of the search does to the parents: it touches one block
    [c] that is not settled, and either leaves its parent or makes the
    block being expanded its parent. *)
Lemma rooted_step pe pe' start (cur c : Z) :
  ~ settled pe (Some cur) c ->
  (forall j, j <> c ->
     vget (peParentNodePos (blockStates pe')) j = vget (peParentNodePos (blockStates pe)) j
     /\ vget (nodeMask (blockStates pe')) j = vget (nodeMask (blockStates pe)) j) ->
  (vget (peParentNodePos (blockStates pe')) c = vget (peParentNodePos (blockStates pe)) c
   \/ exists p, vget (peParentNodePos (blockStates pe')) c = Some p
                /\ BlockPosToIdx p = cur) ->
  rooted pe start (Some cur) cur ->
  (forall x, rooted pe start (Some cur) x -> rooted pe' start (Some cur) x)
  /\ ((exists p, vget (peParentNodePos (blockStates pe')) c = Some p
                 /\ BlockPosToIdx p = cur) ->
      rooted pe' start (Some cur) c).
Proof.
  intros Hfree Hother Hparent Hcur.
  assert (forall j, settled pe (Some cur) j -> settled pe' (Some cur) j) as Hset.
  { intros j [(m & Hm & Hbit)|Hj]; [left|now right].
    exists m. split; [|done].
    assert (j <> c) as Hj by (intros ->; apply Hfree; left; exists m; done).
    rewrite (proj2 (Hother j Hj)). done. }
  assert (forall l, Forall (settled pe (Some cur)) l ->
            Forall (settled pe' (Some cur)) l
            /\ forall j, j ∈ l ->
                 vget (peParentNodePos (blockStates pe')) j
                 = vget (peParentNodePos (blockStates pe)) j) as Htail.
  { intros l Hl. split; [eapply Forall_impl; eauto|].
    intros j Hj. rewrite list.Forall_forall in Hl.
    apply Hother. intros ->. apply Hfree. auto. }
  assert ((exists p, vget (peParentNodePos (blockStates pe')) c = Some p
                     /\ BlockPosToIdx p = cur) ->
          rooted pe' start (Some cur) c) as Hnew.
  { intros (p & Hp & Hidx).
    destruct (decide (c = start)) as [->|Hne]; [apply rooted_start|].
    destruct Hcur as (ch & Hch & Hst).
    assert (Forall (settled pe (Some cur)) ch) as Hall.
    { destruct ch as [|x ch]; [constructor|].
      destruct Hch as (-> & _). constructor; [now right|done]. }
    destruct (Htail ch Hall) as [Hall' Hsame].
    exists (c :: ch). split; [|done].
    split; [done|]. split; [done|]. exists p. split; [done|].
    rewrite Hidx. eapply parent_chain_frame; eauto. }
  split; [|done].
  intros x (ch & Hch & Hst).
  destruct (Htail _ Hst) as [Hst' Hsame].
  destruct (decide (x = c)) as [->|Hx].
  - destruct Hparent as [Hkeep|Hset']; [|now apply Hnew].
    exists ch. split; [|done].
    eapply parent_chain_frame; [|done].
    intros j Hj. destruct (parent_chain_head _ _ _ _ Hch j Hj) as [->|Hj']; auto.
  - exists ch. split; [|done].
    eapply parent_chain_frame; [|done].
    intros j Hj. destruct (parent_chain_head _ _ _ _ Hch j Hj) as [->|Hj']; [|auto].
    apply Hother. done.
Qed.

(** [rooted] depends on the parents and the masks only. *)
Lemma rooted_same_tables pe pe' start cur x :
  peParentNodePos (blockStates pe') = peParentNodePos (blockStates pe) ->
  nodeMask (blockStates pe') = nodeMask (blockStates pe) ->
  rooted pe start cur x -> rooted pe' start cur x.
Proof.
  intros Hp Hm (ch & Hch & Hst). exists ch. split.
  - eapply parent_chain_frame; [|done]. intros j _. now rewrite Hp.
  - eapply Forall_impl; [exact Hst|]. intros j [(m & Hmj & Hbit)|Hj]; [left|now right].
    exists m. now rewrite Hm.
Qed.

(** One call of [TestBlock] while block [nodeNum parent] is expanded. *)
Lemma TestBlock_rooted pe md (parent : PathNode F) pathDir synced start res pe' :
  directions_move ->
  search_sized pe -> 0 <= pathType md < GetNumMoveDefs -> node_wf parent ->
  0 <= pathDir < 8 ->
  0 <= openBlockBuffer pe -> openBlockBuffer pe + 1 < MAX_SEARCHED_NODES_PE ->
  MAX_SEARCHED_NODES_PE <= 2 ^ 32 ->
  rooted pe start (Some (nodeNum parent)) (nodeNum parent) ->
  TestBlock pe md parent pathDir synced = Some (res, pe') ->
  (forall x, rooted pe start (Some (nodeNum parent)) x ->
             rooted pe' start (Some (nodeNum parent)) x)
  /\ (forall ob, ob ∈ openBlocks pe' ->
        ob ∈ openBlocks pe \/ rooted pe' start (Some (nodeNum parent)) (nodeNum ob))
  /\ (mGoalBlockIdx pe' = mGoalBlockIdx pe
      \/ rooted pe' start (Some (nodeNum parent)) (mGoalBlockIdx pe')).
Proof.
  intros Hdirs Hss Hpt Hpwf Hd Hbuf Hmax Hmax32 Hcur Hrun.
  destruct (TestBlock_cases pe md parent pathDir synced Hss Hpt Hpwf Hd Hbuf Hmax Hmax32)
    as (res0 & pe0 & Hrun0 & Hcases).
  rewrite Hrun in Hrun0. injection Hrun0 as <- <-.
  set (block := int2_add (nodePos parent) (PE_DIRECTION_VECTORS pathDir)) in *.
  set (blockIdx := BlockPosToIdx block) in *.
  pose proof Hss as ((_ & _ & Hfit & _) & _).
  assert (only_counted pe pe' ->
          (forall x, rooted pe start (Some (nodeNum parent)) x ->
                     rooted pe' start (Some (nodeNum parent)) x)
          /\ (forall ob, ob ∈ openBlocks pe' ->
                ob ∈ openBlocks pe \/ rooted pe' start (Some (nodeNum parent)) (nodeNum ob))
          /\ (mGoalBlockIdx pe' = mGoalBlockIdx pe
              \/ rooted pe' start (Some (nodeNum parent)) (mGoalBlockIdx pe'))) as Hcounted.
  { intros ->. simpl. split; [|auto]. intros x Hx. now apply (rooted_same_tables pe). }
  assert (forall m, in_map block ->
            vget (nodeMask (blockStates pe)) blockIdx = Some m ->
            Z.land m (Z.lor PATHOPT_BLOCKED PATHOPT_CLOSED) = 0 ->
            ~ settled pe (Some (nodeNum parent)) blockIdx) as Hfree.
  { intros m Hin Hm Hzero [(m' & Hm' & Hbit)|Heq].
    - rewrite Hm in Hm'. injection Hm' as <-.
      apply land_lor_blocked_or_closed in Hzero as [_ Hc]. done.
    - injection Heq as Heq. destruct Hpwf as [Hpin Hpnum]. rewrite Hpnum in Heq.
      apply BlockPosToIdx_inj in Heq; [|done|done|done].
      destruct (Hdirs pathDir Hd) as (Hdx & Hdz & Hnz). apply Hnz.
      destruct (nodePos parent) as [px pz], (PE_DIRECTION_VECTORS pathDir) as [dx dz].
      subst block. unfold int2_add in Heq. simpl in *. injection Heq as Hx Hz.
      unfold to_int32 in Hx, Hz.
      pose proof (Z_div_mod_eq_full (px + dx + 2 ^ 31) (2 ^ 32)).
      pose proof (Z_div_mod_eq_full (pz + dz + 2 ^ 31) (2 ^ 32)).
      f_equal; lia. }
  destruct Hcases as [(_ & _ & ?) | (Hin & m & sq & v & Hm & _ & _ & Hcases)]; [auto|].
  cbv zeta in Hcases.
  destruct Hcases as [(_ & _ & ?) | (Hzero & Hcases)]; [auto|].
  specialize (Hfree m Hin Hm Hzero).
  destruct Hcases as [(_ & _ & ?) | (_ & Hcases)]; [auto|].
  assert (forall m0 f g h, opened pe pe' parent pathDir block blockIdx m0 f g h ->
          (forall x, rooted pe start (Some (nodeNum parent)) x ->
                     rooted pe' start (Some (nodeNum parent)) x)
          /\ (forall ob, ob ∈ openBlocks pe' ->
                ob ∈ openBlocks pe \/ rooted pe' start (Some (nodeNum parent)) (nodeNum ob))
          /\ (mGoalBlockIdx pe' = mGoalBlockIdx pe
              \/ rooted pe' start (Some (nodeNum parent)) (mGoalBlockIdx pe'))) as Hopened.
  { intros m0 f g h (nm & fs & gs & ps & Hnm & Hfs & Hgs & Hps & Hpe).
    assert (vget (peParentNodePos (blockStates pe')) blockIdx = Some (nodePos parent)
            /\ BlockPosToIdx (nodePos parent) = nodeNum parent) as Hlink.
    { rewrite Hpe. simpl. split; [eapply vget_vset_eq; eauto|]. symmetry. apply Hpwf. }
    destruct (rooted_step pe pe' start (nodeNum parent) blockIdx Hfree) as [Hkeep Hnew].
    - intros j Hj. rewrite Hpe. simpl. split; eapply vget_vset_ne; eauto.
    - right. exists (nodePos parent). exact Hlink.
    - done.
    - assert (rooted pe' start (Some (nodeNum parent)) blockIdx) as Hroot
        by (apply Hnew; exists (nodePos parent); exact Hlink).
      split; [done|]. split.
      + intros ob Hob. rewrite Hpe in Hob. simpl in Hob.
        apply elem_of_app in Hob as [?|Hob]; [auto|].
        apply list_elem_of_singleton in Hob as ->. right. exact Hroot.
      + assert (mGoalBlockIdx pe'
                = if flt h (mGoalHeuristic pe) then blockIdx else mGoalBlockIdx pe) as Hg
          by (rewrite Hpe; reflexivity).
        destruct (flt h (mGoalHeuristic pe)); [right; now rewrite Hg|now left]. }
  destruct Hcases as [(_ & _ & Hmarked) | (_ & Hcases)].
  - destruct Hmarked as (nm & Hnm & Hpe).
    destruct (rooted_step pe pe' start (nodeNum parent) blockIdx Hfree) as [Hkeep _].
    + intros j Hj. rewrite Hpe. simpl. split; [done|]. eapply vget_vset_ne; eauto.
    + left. now rewrite Hpe.
    + done.
    + split; [done|]. rewrite Hpe. simpl. auto.
  - destruct Hcases as [(_ & stored & _ & Hcases) | (_ & _ & Hop)]; [|eauto].
    destruct Hcases as [(_ & _ & ?) | (_ & _ & Hop)]; [auto|eauto].
Qed.

(** The calls of [TestBlock] for a list of directions. *)
Lemma TestBlock_fold_rooted pe md (ob : PathNode F) synced (dirs : list Z) start pe' :
  directions_move -> flags_disjoint ->
  search_sized pe -> 0 <= pathType md < GetNumMoveDefs -> node_wf ob ->
  Forall (fun d => 0 <= d < 8) dirs ->
  0 <= openBlockBuffer pe ->
  openBlockBuffer pe + Z.of_nat (length dirs) < MAX_SEARCHED_NODES_PE ->
  MAX_SEARCHED_NODES_PE <= 2 ^ 32 ->
  rooted pe start (Some (nodeNum ob)) (nodeNum ob) ->
  fold_opt (TestBlock_ md ob synced) pe dirs = Some pe' ->
  (forall x, rooted pe start (Some (nodeNum ob)) x -> rooted pe' start (Some (nodeNum ob)) x)
  /\ (forall ob', ob' ∈ openBlocks pe' ->
        ob' ∈ openBlocks pe \/ rooted pe' start (Some (nodeNum ob)) (nodeNum ob'))
  /\ (mGoalBlockIdx pe' = mGoalBlockIdx pe
      \/ rooted pe' start (Some (nodeNum ob)) (mGoalBlockIdx pe')).
Proof.
  intros Hmove Hflags Hss Hpt Hob Hdirs. revert pe Hss.
  induction Hdirs as [|d dirs Hd Hdirs IH]; intros pe Hss Hbuf Hmax Hmax32 Hcur Hrun.
  - injection Hrun as <-. auto.
  - simpl in Hmax. cbn [fold_opt] in Hrun.
    destruct (TestBlock_step pe md ob d synced Hflags Hss Hpt Hob Hd Hbuf)
      as (res & pe1 & new1 & Hrun1 & Hshape1 & Hopen1 & Hlen1 & Hbuf1 & _);
      [lia|done|].
    assert (TestBlock_ md ob synced pe d = Some pe1) as Hstep
      by (unfold TestBlock_; now rewrite Hrun1).
    rewrite Hstep in Hrun.
    destruct (TestBlock_rooted pe md ob d synced start res pe1) as (Hk1 & Ho1 & Hg1);
      [done|done|done|done|done|done|lia|done|done|done|].
    destruct (IH pe1) as (Hk2 & Ho2 & Hg2);
      [eapply search_sized_same_shape; eauto|lia|lia|done|auto|done|].
    split; [auto|]. split.
    + intros ob' Hin. destruct (Ho2 ob' Hin) as [Hin1|?]; [|auto].
      destruct (Ho1 ob' Hin1); auto.
    + destruct Hg2 as [Heq|?]; [|auto]. rewrite Heq.
      destruct Hg1 as [?|?]; auto.
Qed.

Lemma rooted_weaken pe start cur x : rooted pe start None x -> rooted pe start (Some cur) x.
Proof.
  intros (ch & Hch & Hst). exists ch. split; [done|].
  eapply Forall_impl; [exact Hst|]. intros j [?|?]; [now left|done].
Qed.

(** The CLOSED mark on the block that was expanded. *)
Lemma rooted_close pe start (cur m : Z) (nm : list Z) x :
  PATHOPT_CLOSED <> 0 ->
  vget (nodeMask (blockStates pe)) cur = Some m ->
  vset (nodeMask (blockStates pe)) cur (Z.lor m PATHOPT_CLOSED) = Some nm ->
  rooted pe start (Some cur) x ->
  rooted (set_blockStates (set_nodeMask nm (blockStates pe)) pe) start None x.
Proof.
  intros Hflag Hm Hnm (ch & Hch & Hst). exists ch. split.
  - eapply parent_chain_frame; [|done]. done.
  - eapply Forall_impl; [exact Hst|]. intros j Hj. left.
    destruct (decide (j = cur)) as [->|Hne].
    + exists (Z.lor m PATHOPT_CLOSED). simpl.
      split; [eapply vget_vset_eq; eauto|]. now apply land_lor_flag.
    + destruct Hj as [(mj & Hmj & Hbit)|Hj]; [|congruence].
      exists mj. simpl. split; [|done].
      erewrite vget_vset_ne; eauto.
Qed.

(** The expansion of a popped block. *)
Lemma DoSearch_expand_rooted pe md (ob : PathNode F) synced start pe' :
  directions_move -> flags_disjoint ->
  search_sized pe -> 0 <= pathType md < GetNumMoveDefs -> node_wf ob ->
  0 <= openBlockBuffer pe -> openBlockBuffer pe + 8 < MAX_SEARCHED_NODES_PE ->
  MAX_SEARCHED_NODES_PE <= 2 ^ 32 ->
  rooted pe start None (nodeNum ob) ->
  DoSearch_expand pe md ob synced = Some pe' ->
  (forall x, rooted pe start None x -> rooted pe' start None x)
  /\ (forall ob', ob' ∈ openBlocks pe' ->
        ob' ∈ openBlocks pe \/ rooted pe' start None (nodeNum ob'))
  /\ (mGoalBlockIdx pe' = mGoalBlockIdx pe \/ rooted pe' start None (mGoalBlockIdx pe')).
Proof.
  intros Hmove Hflags Hss Hpt Hob Hbuf Hmax Hmax32 Hcur Hrun.
  unfold DoSearch_expand in Hrun.
  destruct (fold_opt _ _ _) as [pe1|] eqn:Hfold; [|discriminate].
  cbn [mbind option_bind] in Hrun.
  destruct (TestBlock_fold_rooted pe md ob synced
              [PATHDIR_LEFT; PATHDIR_LEFT_UP; PATHDIR_UP; PATHDIR_RIGHT_UP;
               PATHDIR_RIGHT; PATHDIR_RIGHT_DOWN; PATHDIR_DOWN; PATHDIR_LEFT_DOWN]
              start pe1 Hmove Hflags Hss Hpt Hob) as (Hk & Ho & Hg);
    [repeat constructor; done|done|simpl; lia|done|now apply rooted_weaken|done|].
  destruct (vget (nodeMask (blockStates pe1)) (nodeNum ob)) as [m|] eqn:Hm; [|discriminate].
  cbn [mbind option_bind] in Hrun.
  destruct (vset _ _ _) as [nm|] eqn:Hnm; [|discriminate].
  injection Hrun as <-.
  pose proof Hflags as (_ & _ & _ & _ & _ & _ & _ & Hclosed & _).
  assert (forall x, rooted pe1 start (Some (nodeNum ob)) x ->
            rooted (set_blockStates (set_nodeMask nm (blockStates pe1)) pe1) start None x)
    as Hclose by (intros x; now apply (rooted_close pe1 start (nodeNum ob) m nm)).
  split; [|split].
  - intros x Hx. apply Hclose, Hk. now apply rooted_weaken.
  - simpl. intros ob' Hin. destruct (Ho ob' Hin); auto.
  - simpl. destruct Hg; auto.
Qed.

(** The loop of [DoSearch]: once every entry of the open set and the best
    block so far are rooted, they stay so. *)
Lemma DoSearch_loop_rooted (n : nat) pe md synced visited start :
  directions_move -> flags_disjoint -> 0 <= pathType md < GetNumMoveDefs ->
  search_inv pe -> (DoSearch_measure pe < n)%nat ->
  (forall ob, ob ∈ openBlocks pe -> rooted pe start None (nodeNum ob)) ->
  rooted pe start None (mGoalBlockIdx pe) ->
  forall found pe' vis,
    DoSearch_loop n pe md synced visited = Some (found, pe', vis) ->
    rooted pe' start None (mGoalBlockIdx pe').
Proof.
  intros Hmove Hflags Hpt. revert pe visited.
  induction n as [|n IH]; intros pe visited Hinv Hfuel Hopen Hgoal found pe' vis Hrun; [lia|].
  cbn [DoSearch_loop] in Hrun.
  destruct (DoSearch_continue pe) eqn:Hcont; simpl in Hrun;
    [|injection Hrun as _ <- _; done].
  apply DoSearch_continue_true in Hcont as [Hne Hroom].
  destruct Hinv as (Hss & Hnodes & Hbuf & Hmax & Hmax32).
  destruct (pq_pop_spec (openBlocks pe) Hne) as (ob & rest & i & Hpop & Hi & Hrest & Hlen).
  rewrite Hpop in Hrun. simpl in Hrun.
  set (pe1 := set_openBlocks rest pe) in *.
  assert (ob ∈ openBlocks pe) as Hobin by (eapply list_elem_of_lookup_2, Hi).
  assert (node_wf ob) as Hob by (rewrite list.Forall_forall in Hnodes; auto).
  assert (Forall node_wf rest) as Hnodes1 by (rewrite Hrest; now apply Forall_delete).
  assert (search_sized pe1) as Hss1 by done.
  assert (forall x, rooted pe start None x -> rooted pe1 start None x) as Hpe1
    by (intros x; now apply rooted_same_tables).
  assert (forall ob', ob' ∈ rest -> rooted pe1 start None (nodeNum ob')) as Hopen1.
  { intros ob' Hin. apply Hpe1, Hopen. rewrite Hrest in Hin.
    eapply list_elem_of_delete_inv, Hin. }
  change (nodeMask (blockStates pe1)) with (nodeMask (blockStates pe)) in Hrun.
  destruct (vget (nodeMask (blockStates pe)) (nodeNum ob)) as [m|]; [|discriminate].
  simpl in Hrun.
  destruct (Z.eqb_spec (Z.land m (Z.lor PATHOPT_BLOCKED PATHOPT_CLOSED)) 0) as [Hfree|Hskip];
    simpl in Hrun.
  - destruct (DoSearch_isGoal pe1 md ob) as [g|]; [|discriminate]. simpl in Hrun.
    destruct g.
    + injection Hrun as _ <- _.
      apply (rooted_same_tables pe1); [done|done|]. simpl. auto.
    + destruct (DoSearch_expand_spec pe1 md ob synced Hflags Hss1 Hpt Hob)
        as (pe2 & new & Hexp & Hshape2 & Hopen2 & Hlen2 & Hbuf2 & Hnew2 & _);
        [done|simpl; lia|done|].
      rewrite Hexp in Hrun. simpl in Hrun.
      destruct (DoSearch_expand_rooted pe1 md ob synced start pe2) as (Hk & Ho & Hg);
        [done|done|done|done|done|done|simpl; lia|done|auto|done|].
      pose proof Hshape2 as (_ & _ & _ & _ & _ & _ & Hmb).
      eapply (IH pe2); [| | | |exact Hrun].
      * split; [eapply search_sized_same_shape; eauto|].
        split; [|split; [simpl in Hbuf2; lia|split; [rewrite Hmb; done|done]]].
        rewrite Hopen2. apply Forall_app. split; [done|].
        eapply Forall_impl; [exact Hnew2|]. now intros x [? _].
      * unfold DoSearch_measure in *. rewrite Hopen2, length_app, Hbuf2, Hmb.
        simpl in *. lia.
      * intros ob' Hin. destruct (Ho ob' Hin) as [Hin1|?]; [|done]. auto.
      * destruct Hg as [Heq|?]; [|done]. rewrite Heq. auto.
  - eapply (IH pe1); [done| |done|auto|exact Hrun].
    unfold DoSearch_measure in *. simpl. lia.
Qed.
End SearchParents.

Section SearchThenFinish.
Context {F : Type} `{!FloatOps F} `{!PathConstants} `{!Grid} `{!CPathFinderDef F}
        `{!MoveDefHandler} `{!HeightMap F}.
Implicit Types (pe : CPathEstimator F).

(** Every block of a chain of parents has a waypoint. *)
Lemma parent_chain_waypoints pe md start b (chain : list Z) :
  search_sized pe -> 0 <= pathType md < GetNumMoveDefs -> waypoints_defined pe md ->
  parent_chain pe start b chain ->
  exists wps, Forall2 (block_waypoint pe md) chain wps.
Proof.
  intros Hss Hpt Hwp. revert b.
  induction chain as [|c chain IH]; intros b Hchain; [exists []; constructor|].
  destruct Hchain as (-> & _ & parent & Hparent & Hchain).
  destruct (IH _ Hchain) as [wps Hwps].
  pose proof Hss as (Hsz & _ & _ & Hplen).
  apply vget_Some_lt in Hparent. rewrite Hplen in Hparent.
  destruct (offset_at_is_Some pe b (pathType md) Hsz Hparent Hpt) as [sq Hsq].
  destruct (Hwp b sq Hsq) as [wp Hwpt].
  exists (wp :: wps). constructor; [|done]. exists sq. done.
Qed.

(** X16. A search leaves a way back to the start. In a search that starts
    with no block but the start block in the open set, and with the start
    block as goal block so far, with directions that are steps to
    neighbours, [DoSearch] returns with the parents leading from the block
    it leaves in [mGoalBlockIdx] back to the start block, through CLOSED
    blocks; so [FinishSearch] terminates on the result, whatever it is, and
    appends one waypoint per block on the way. *)
Theorem DoSearch_leaves_way_back pe md synced (fuel : nat) (start : Z) (foundPath : Path F) :
  flags_disjoint -> directions_move -> 0 <= pathType md < GetNumMoveDefs ->
  search_inv pe -> (DoSearch_measure pe < fuel)%nat ->
  0 <= start < int2_x nbrOfBlocks * int2_y nbrOfBlocks ->
  (forall ob, ob ∈ openBlocks pe -> nodeNum ob = start) ->
  mGoalBlockIdx pe = start ->
  waypoints_defined pe md ->
  exists res pe' visited chain result,
    DoSearch fuel pe md synced = Some (res, pe', visited)
    /\ parent_chain pe' start (mGoalBlockIdx pe') chain
    /\ Forall (closed_block pe') (tail chain)
    /\ FinishSearch (S (length chain)) pe' md start foundPath = Some result
    /\ length (path result) = (length (path foundPath) + length chain)%nat.
Proof.
  intros Hflags Hmove Hpt Hinv Hfuel Hstart Hseed Hgoal Hwp.
  destruct (DoSearch_loop_spec fuel pe md synced [] pe Hflags Hpt Hinv
              (same_shape_refl pe) Hfuel)
    as (found & pe' & vis & Hloop & Hshape & _).
  pose proof (DoSearch_loop_rooted fuel pe md synced [] start Hmove Hflags Hpt Hinv Hfuel)
    as Hrooted.
  destruct (Hrooted) with (found := found) (pe' := pe') (vis := [] ++ vis)
    as (chain & Hchain & Hclosed).
  { intros ob Hob. rewrite (Hseed ob Hob). apply rooted_start. }
  { rewrite Hgoal. apply rooted_start. }
  { exact Hloop. }
  pose proof Hinv as (Hss & _).
  pose proof (search_sized_same_shape pe pe' Hshape Hss) as Hss'.
  assert (waypoints_defined pe' md) as Hwp'.
  { intros j sq Hsq. apply (Hwp j sq). rewrite <- Hsq. symmetry.
    now apply offset_at_same_shape. }
  destruct (parent_chain_waypoints pe' md start _ chain Hss' Hpt Hwp' Hchain) as [wps Hwps].
  assert (is_Some (vget (fCost (blockStates pe')) (mGoalBlockIdx pe'))) as [goalCost Hcost].
  { apply vget_is_Some. destruct Hss' as (_ & Hflen & _ & Hplen). rewrite Hflen.
    destruct chain as [|c chain].
    - simpl in Hchain. now rewrite Hchain.
    - destruct Hchain as (<- & _ & parent & Hparent & _).
      apply vget_Some_lt in Hparent. now rewrite Hplen in Hparent. }
  unfold DoSearch. rewrite Hloop. simpl.
  exists (DoSearch_result found pe'), pe', vis, chain.
  eexists. split; [done|]. split; [done|].
  split; [eapply Forall_impl; [exact Hclosed|]; now intros j [?|?]|].
  unfold FinishSearch.
  rewrite (FinishSearch_loop_chain pe' md start chain wps) by (done || lia).
  cbn [mbind option_bind]. rewrite Hcost. cbn [mbind option_bind].
  split; [reflexivity|]. cbn [path].
  rewrite length_app. apply Forall2_length in Hwps. lia.
Qed.
End SearchThenFinish.

(** ** InitEstimator: a first start, and the starts after it *)

Section InitEstimatorFacts.
Context {F : Type} `{!FloatOps F} `{!FloatBits F} `{!PathConstants} `{!Grid}
        `{!Collaborators F} `{!MoveDefHandler}.
Implicit Types (pe : CPathEstimator F).

(** On sized tables [InitBlocks] changes nothing. *)
Lemma InitBlocks_sized pe : tables_sized pe -> InitBlocks pe = Some pe.
Proof.
  intros (_ & _ & _ & _ & Hsize & Hoffs & Hrows & _).
  unfold InitBlocks. rewrite Hsize, <- Hoffs.
  rewrite (InitBlocks_fold (peNodeOffsets (blockStates pe)) [] pe) by reflexivity.
  f_equal. simpl.
  rewrite (list_fmap_ext _ id (peNodeOffsets (blockStates pe))).
  - rewrite list_fmap_id. now destruct pe as [[] ].
  - intros i row Hrow. simpl. apply resize_same.
    rewrite list.Forall_forall in Hrows. apply Hrows. eapply list_elem_of_lookup_2, Hrow.
Qed.

Lemma tables_sized_rows pe : tables_sized pe -> rows_sized pe.
Proof.
  intros (_ & _ & _ & _ & Hsize & Hoffs & Hrows & _). split; [lia|].
  eapply Forall_impl; [exact Hrows|]. unfold GetNumMoveDefs. intros row Hrow. lia.
Qed.

(** With a core and 32-bit footprints the number of extra threads is
    defined. *)
Lemma numExtraThreads_is_Some (pathingThreadCount numCores minMem maxMem : Z) :
  1 <= numCores < 2 ^ 31 -> pathingThreadCount < 2 ^ 31 ->
  2 <= minMem < 2 ^ 32 -> 0 <= maxMem < 2 ^ 32 ->
  1 <= wrap32 (GetNumThreads pathingThreadCount numCores)
  /\ is_Some (numExtraThreads minMem maxMem
                (wrap32 (GetNumThreads pathingThreadCount numCores))).
Proof.
  intros Hcores Hcfg Hmin Hmax.
  set (numThreads := wrap32 (GetNumThreads pathingThreadCount numCores)).
  assert (1 <= numThreads < 2 ^ 31) as Hnt.
  { subst numThreads. unfold GetNumThreads.
    destruct (Z.eqb_spec (Z.max 0 pathingThreadCount) 0); rewrite wrap32_small; lia. }
  split; [lia|].
  assert (0 <= maxMem / minMem < 2 ^ 31) as Hq.
  { split; [apply Z.div_pos; lia|apply Z.div_lt_upper_bound; lia]. }
  unfold numExtraThreads.
  destruct (Z.eqb_spec minMem 0) as [|_]; [lia|].
  rewrite (to_int32_small (maxMem / minMem)), (to_int32_small numThreads) by lia.
  destruct (Z.eqb_spec (maxMem / minMem) (- 2 ^ 31)) as [|_]; [lia|].
  destruct (Z.eqb_spec numThreads (- 2 ^ 31)) as [|_]; [lia|]. simpl. eauto.
Qed.

(** The threads can finish. *)
Lemma precompute_finishes (pe0 : CPathEstimator F) (n : nat) :
  handler_wf -> tables_sized pe0 ->
  exists s, rtc precompute_step (precompute_init pe0 n) s
            /\ Forall (fun p => p = Finished) (workers s).
Proof.
  intros Hwf Hsz.
  assert (forall m s, precompute_measure s = m ->
            rtc precompute_step (precompute_init pe0 n) s ->
            exists s_end, rtc precompute_step (precompute_init pe0 n) s_end
                          /\ Forall (fun p => p = Finished) (workers s_end)) as Hend.
  { induction m as [m IH] using lt_wf_ind. intros s Hm Hrun.
    destruct (decide (Forall (fun p => p = Finished) (workers s))) as [Hall|Hnot];
      [now exists s|].
    apply not_Forall_Exists in Hnot; [|intros p; apply _].
    apply Exists_exists in Hnot as (p & Hp & Hnf).
    destruct (precompute_can_step pe0 n s Hwf Hsz Hrun) as [s' Hstep]; [eauto|].
    pose proof (precompute_step_measure s s' Hstep) as Hlt.
    apply (IH (precompute_measure s') ltac:(lia) s' eq_refl).
    eapply rtc_r; eauto. }
  apply (Hend _ (precompute_init pe0 n) eq_refl). apply rtc_refl.
Qed.

(** The tables when all threads have finished. *)
Lemma precompute_finished_tables (pe0 : CPathEstimator F) (n : nat) (s : Precompute F) :
  handler_wf -> tables_sized pe0 -> (1 <= n)%nat ->
  rtc precompute_step (precompute_init pe0 n) s ->
  Forall (fun p => p = Finished) (workers s) ->
  tables_sized (pre_pe s)
  /\ forall b, 0 <= b < int2_x nbrOfBlocks * int2_y nbrOfBlocks ->
       offsets_written (pre_pe s) b /\ costs_written (pre_pe s) b.
Proof.
  intros Hwf Hsz0 Hn Hrun Hall.
  destruct (precompute_reachable pe0 n s Hwf Hsz0 Hrun) as (Hinv & Hpinv & Hlen).
  destruct Hinv as (Hsize & Hle & Hbar & Hpast & Hblocks).
  destruct Hpinv as (Hsz & Hidx & Hcle & Hcnt & Hphase & Hfin & Hcosts).
  split; [done|]. intros b Hb.
  rewrite list.Forall_forall in Hall.
  assert (Finished ∈ workers s) as Hin.
  { destruct (workers s) as [|w ws]; [simpl in Hlen; lia|].
    assert (w = Finished) as -> by (apply Hall; left). left. }
  assert (offsetBlockNum s < 0) as Hneg by (apply Hpast; exists Finished; done).
  specialize (Hfin Hin). split.
  - destruct (Hblocks b Hb) as [Hw|[Hw|Hun]]; [done| |lia]. apply Hall in Hw. done.
  - destruct (Hcosts b Hb) as [Hw|[Hw|Hun]]; [done| |lia]. apply Hall in Hw. done.
Qed.

(** X19. A first start, and the starts after it. On sized tables, with a
    move def, tables below 4 GB and a thread budget as in X5: without a
    cache file [InitEstimator] can run to its end, computing the tables
    and writing the file; whenever it does, every block has the offsets and
    vertex costs of the precomputation; and if the offsets are [int]
    values and the bytes of the costs read back as the same [float], every
    later start that finds this file and the same hash, whatever its thread
    settings, reads back exactly these offsets and vertex costs, and
    neither computes nor writes anything. *)
Theorem InitEstimator_cache_restart pe (hash : Z)
    (pathingThreadCount numCores minMem maxMem : Z) :
  handler_wf -> tables_sized pe ->
  1 <= GetNumMoveDefs ->
  16 * GetNumMoveDefs * (int2_x nbrOfBlocks * int2_y nbrOfBlocks) < 2 ^ 32 ->
  1 <= numCores < 2 ^ 31 -> pathingThreadCount < 2 ^ 31 ->
  2 <= minMem < 2 ^ 32 -> 0 <= maxMem < 2 ^ 32 -> 0 <= hash < 2 ^ 32 ->
  (exists pe' data,
     InitEstimator pe hash None true pathingThreadCount numCores minMem maxMem
       pe' (Some data))
  /\ forall pe' written,
       InitEstimator pe hash None true pathingThreadCount numCores minMem maxMem
         pe' written ->
       tables_sized pe'
       /\ (forall b, 0 <= b < int2_x nbrOfBlocks * int2_y nbrOfBlocks ->
             offsets_written pe' b /\ costs_written pe' b)
       /\ exists data,
            written = Some data
            /\ (Forall (Forall int2_in_range) (peNodeOffsets (blockStates pe')) ->
                Forall representable (vertexCosts pe') ->
                forall pe2 crc writable2 threads2 cores2 minMem2 maxMem2 pe2' written2,
                  tables_sized pe2 ->
                  InitEstimator pe2 hash (Some (crc, data)) writable2 threads2 cores2
                    minMem2 maxMem2 pe2' written2 ->
                  written2 = None
                  /\ peNodeOffsets (blockStates pe2') = peNodeOffsets (blockStates pe')
                  /\ vertexCosts pe2' = vertexCosts pe').
Proof.
  intros Hwf Hsz Hn Hfit Hcores Hcfg Hmin Hmax Hhash.
  pose proof Hsz as (Hnx & Hny & Hfit31 & _).
  set (S := int2_x nbrOfBlocks * int2_y nbrOfBlocks) in *.
  assert (0 < S) as HS by (subst S; nia).
  assert (GetNumMoveDefs < 2 ^ 29) as Hn29 by nia.
  destruct (numExtraThreads_is_Some pathingThreadCount numCores minMem maxMem)
    as [Hthreads [numExtra Hextra]]; [done|done|done|done|].
  assert (forall q : CPathEstimator F, tables_sized q ->
            WriteFile q hash
            = Some (le32 hash ++ concat (offsets_bytes <$> peNodeOffsets (blockStates q))
                    ++ costs_bytes (vertexCosts q))) as Hwrite.
  { intros q Hq. pose proof Hq as (_ & _ & _ & _ & Hqsize & _ & _ & Hqvc).
    apply WriteFile_data; [now apply tables_sized_rows|done|fold S in Hqsize; lia| |].
    - intros Hnil. rewrite Hnil in Hqvc. simpl in Hqvc. fold S in Hqvc. nia.
    - rewrite Hqvc. fold S. lia. }
  split.
  - destruct (precompute_finishes pe (Z.to_nat (numExtra + 1)) Hwf Hsz) as (s & Hrun & Hall).
    assert (tables_sized (pre_pe s)) as Hsz'
      by (destruct (precompute_reachable pe _ s Hwf Hsz Hrun) as (_ & (? & _) & _); done).
    eexists (pre_pe s), _.
    eapply (InitEstimator_computed pe hash None true _ _ _ _ pe pe None numExtra s);
      [done|now apply InitBlocks_sized|reflexivity|done|done|done|now apply Hwrite|eauto].
  - intros pe' written Hinit.
    inversion Hinit as [pe1 pe2 crc0 _ Hib Hread|
                        pe1 pe2 crc0 numExtra' s data _ Hib Hread Hextra' Hrun Hall Hdata Hsome];
      subst.
    { rewrite (InitBlocks_sized pe Hsz) in Hib. injection Hib as <-. discriminate Hread. }
    rewrite (InitBlocks_sized pe Hsz) in Hib. injection Hib as <-.
    injection Hread as <- _.
    rewrite Hextra in Hextra'. injection Hextra' as <-.
    assert (0 <= numExtra).
    { unfold numExtraThreads in Hextra. destruct (minMem =? 0); [discriminate|].
      destruct (_ || _); [discriminate|]. injection Hextra as <-. apply wrap32_range. }
    destruct (precompute_finished_tables pe (Z.to_nat (numExtra + 1)) s Hwf Hsz ltac:(lia)
                Hrun Hall) as [Hsz' Htables].
    split; [done|]. split; [done|].
    rewrite (Hwrite _ Hsz'). eexists. split; [reflexivity|].
    intros Hrange Hrep pe2 crc writable2 threads2 cores2 minMem2 maxMem2 pe2' written2
           Hsz2 Hinit2.
    pose proof Hsz' as (_ & _ & _ & _ & Hsize' & _ & _ & Hvc').
    pose proof Hsz2 as (_ & _ & _ & _ & Hsize2 & _ & _ & Hvc2).
    assert (ReadFile pe2 hash
              (Some (crc, le32 hash
                          ++ concat (offsets_bytes <$> peNodeOffsets (blockStates (pre_pe s)))
                          ++ costs_bytes (vertexCosts (pre_pe s))))
            = Some (true,
                    set_vertexCosts (vertexCosts (pre_pe s))
                      (set_blockStates
                         (set_peNodeOffsets (peNodeOffsets (blockStates (pre_pe s)))
                            (blockStates pe2)) pe2),
                    Some crc)) as Hread2.
    { rewrite (ReadFile_prefix (pre_pe s) pe2 hash crc);
        [|now apply tables_sized_rows|now apply tables_sized_rows|congruence|done|done|done
         |rewrite Hsize'; fold S; lia].
      rewrite length_costs_bytes.
      assert (length (vertexCosts pe2) = length (vertexCosts (pre_pe s))) as Hvlen by lia.
      rewrite Hvlen.
      destruct (Z.ltb_spec (Z.of_nat (4 * length (vertexCosts (pre_pe s))))
                  (Z.of_nat (length (vertexCosts (pre_pe s))) * 4)) as [|_]; [lia|].
      rewrite bool_decide_eq_false_2.
      2:{ intros Hnil. rewrite Hnil in Hvc2. simpl in Hvc2. fold S in Hvc2. nia. }
      assert (chunks (fun bs => f_of_bits (of_le32 bs)) 4 (length (vertexCosts (pre_pe s)))
                (costs_bytes (vertexCosts (pre_pe s))) = vertexCosts (pre_pe s)) as ->;
        [|reflexivity].
      rewrite <- (app_nil_r (costs_bytes (vertexCosts (pre_pe s)))).
      apply (chunks_concat (fun c => le32 (f_bits c))).
      eapply Forall_impl; [exact Hrep|]. intros c [Hbits Hback].
      split; [reflexivity|]. now rewrite of_le32_le32. }
    inversion Hinit2 as [pe3 pe4 crc3 _ Hib2 Hr2|
                         pe3 pe4 crc3 ? ? ? _ Hib2 Hr2]; subst;
      rewrite (InitBlocks_sized pe2 Hsz2) in Hib2; injection Hib2 as <-;
      rewrite Hread2 in Hr2; [|discriminate].
    injection Hr2 as <- _. done.
Qed.
End InitEstimatorFacts.

(** ** The further properties on concrete inputs *)

Lemma MapChanged_marks_rectangle_witness :
  exists pe' new,
    @MapChanged xfloat engine_constants grid8 fresh_estimator 10 10 20 20 = Some pe'
    /\ updatedBlocks pe' = new
    /\ length new = 4%nat
    /\ @obsolete_bit xfloat engine_constants grid8 pe' (mk_int2 2 1).
Proof.
  destruct (@MapChanged_marks_rectangle xfloat engine_constants grid8 walkers
              fresh_estimator 10 10 20 20)
    as (pe' & new & Hrun & _ & Hq & _ & Hobs & _).
  - vm_compute. congruence.
  - exact fresh_estimator_sized.
  - vm_compute. congruence.
  - lia.
  - lia.
  - lia.
  - lia.
  - exists pe', new. split; [exact Hrun|]. split; [exact Hq|]. split.
    + vm_compute in Hrun. injection Hrun as <-. simpl in Hq. rewrite <- Hq.
      reflexivity.
    + apply Hobs.
      * vm_compute. repeat split; congruence.
      * right. vm_compute. repeat split; congruence.
Defined.

Lemma MapChanged_idempotent_witness :
  @MapChanged xfloat engine_constants grid8 queued_estimator 0 0 7 7
  = Some queued_estimator.
Proof.
  apply (@MapChanged_idempotent xfloat engine_constants grid8 walkers
           fresh_estimator queued_estimator 0 0 7 7).
  - vm_compute. congruence.
  - exact fresh_estimator_sized.
  - reflexivity.
Defined.

Lemma CalculateVertices_four_entries_witness :
  exists pe',
    @CalculateVertices xfloat _ engine_constants grid8 terrain_with_hole
      fresh_estimator walker (mk_int2 3 2) 0 = Some pe'
    /\ vget (vertexCosts pe') 44 = Some XInf
    /\ vget (vertexCosts pe') 46 = Some (XFin (QArith_base.inject_Z 10)).
Proof.
  destruct (@CalculateVertices_four_entries xfloat xfloat_ops engine_constants grid8
              terrain_with_hole walkers fresh_estimator walker (mk_int2 3 2) 0)
    as (pe' & Hrun & _ & _ & Hslots & _).
  - exact fresh_estimator_sized.
  - vm_compute. repeat split; congruence.
  - vm_compute. split; congruence.
  - exists pe'. split; [exact Hrun|]. split.
    + destruct (Hslots 0) as (c & Hc & Hget & _); [vm_compute; split; congruence|].
      vm_compute in Hc. injection Hc as <-. exact Hget.
    + destruct (Hslots 2) as (c & Hc & Hget & _); [vm_compute; split; congruence|].
      vm_compute in Hc. injection Hc as <-. exact Hget.
Defined.

Lemma Update_refreshes_consumed_witness :
  exists pe',
    @Update xfloat _ engine_constants grid8 terrain_with_hole walkers queued_estimator
    = Some pe'
    /\ offset_at (blockStates pe') 0 0 = Some (mk_int2 3 3)
    /\ offset_at (blockStates pe') 1 0 = Some (mk_int2 0 0).
Proof.
  destruct (@Update_refreshes_consumed xfloat xfloat_ops engine_constants grid8
              terrain_with_hole walkers queued_estimator
              walkers_wf queued_estimator_sized queued_estimator_invariant)
    as (pe' & cs & Hrun & Hcs & _ & Hoff & Hother & _).
  vm_compute in Hcs. injection Hcs as <-.
  exists pe'. split; [exact Hrun|]. split.
  - assert (@FindOffset xfloat _ engine_constants grid8 terrain_with_hole walker 0 0
            = mk_int2 3 3) as <- by (vm_compute; reflexivity).
    exact (Hoff (mk_SingleBlock (mk_int2 0 0) walker) ltac:(left)).
  - rewrite (Hother 1 0); [reflexivity|].
    intros sb Hsb [Hi _]. apply list_elem_of_singleton in Hsb as ->. discriminate.
Defined.

Lemma InitEstimator_thread_budget_witness :
  numExtraThreads (64 * 2 ^ 20) (256 * 2 ^ 20) (wrap32 (GetNumThreads 0 8)) = Some 3
  /\ numExtraThreads (64 * 2 ^ 20) (16 * 2 ^ 20) (wrap32 (GetNumThreads 0 8)) = Some 0.
Proof.
  split.
  - destruct (InitEstimator_thread_budget 0 8 (64 * 2 ^ 20) (256 * 2 ^ 20))
      as (_ & n & Hn & _); [lia|lia|lia|lia|].
    rewrite Hn. vm_compute in Hn. symmetry. exact Hn.
  - destruct (InitEstimator_thread_budget 0 8 (64 * 2 ^ 20) (16 * 2 ^ 20))
      as (_ & n & Hn & _ & _ & _ & Hzero & _); [lia|lia|lia|lia|].
    rewrite Hn, Hzero; [reflexivity|lia].
Defined.

Lemma InitBlocks_sizes_tables_witness :
  exists pe',
    @InitBlocks xfloat walkers
      (@CPathEstimator_ctor xfloat xfloat_ops walkers
         (set_vertexCosts []
            (set_blockStates (set_peNodeOffsets (replicate 16 []) (blockStates fresh_estimator))
               fresh_estimator)))
    = Some pe'
    /\ @tables_sized xfloat grid8 walkers pe'
    /\ pe' = fresh_estimator.
Proof.
  destruct (@InitBlocks_sizes_tables xfloat xfloat_ops grid8 walkers
              (set_vertexCosts []
                 (set_blockStates
                    (set_peNodeOffsets (replicate 16 []) (blockStates fresh_estimator))
                    fresh_estimator)))
    as (pe' & Hrun & Hsized & _).
  - reflexivity.
  - reflexivity.
  - vm_compute. congruence.
  - vm_compute. reflexivity.
  - reflexivity.
  - reflexivity.
  - exists pe'. split; [exact Hrun|]. split; [exact Hsized|].
    vm_compute in Hrun. injection Hrun as <-. reflexivity.
Defined.

Lemma seeded_offsets_in_range :
  Forall (Forall int2_in_range) (peNodeOffsets (blockStates seeded_estimator)).
Proof.
  let l := eval vm_compute in (peNodeOffsets (blockStates seeded_estimator)) in
  change (Forall (Forall int2_in_range) l).
  repeat (constructor; [repeat constructor; simpl; lia|]). constructor.
Qed.

Lemma WriteFile_ReadFile_roundtrip_witness :
  exists data,
    @WriteFile xfloat xfloat_bits walkers seeded_estimator 12345 = Some data
    /\ length data = (4 + 8 * 16 + 4 * 64)%nat
    /\ @ReadFile xfloat xfloat_bits walkers fresh_estimator 12345 (Some (99, data))
       = Some (true,
               set_vertexCosts (vertexCosts seeded_estimator)
                 (set_blockStates
                    (set_peNodeOffsets (peNodeOffsets (blockStates seeded_estimator))
                       (blockStates fresh_estimator))
                    fresh_estimator),
               Some 99).
Proof.
  destruct (@WriteFile_ReadFile_roundtrip xfloat xfloat_bits walkers
              seeded_estimator fresh_estimator 12345 99)
    as (data & Hwrite & Hlen & Hread).
  - split; [reflexivity|]. vm_compute. repeat constructor.
  - split; [reflexivity|]. vm_compute. repeat constructor.
  - reflexivity.
  - reflexivity.
  - discriminate.
  - vm_compute. reflexivity.
  - exact seeded_offsets_in_range.
  - apply Forall_replicate. split; [vm_compute; split; congruence|vm_compute; reflexivity].
  - lia.
  - vm_compute. split; congruence.
  - vm_compute. reflexivity.
  - exists data. split; [exact Hwrite|]. split; [|exact Hread].
    apply Nat2Z.inj. rewrite Hlen. reflexivity.
Defined.

Lemma ReadFile_rejects_other_block_size_witness :
  exists data,
    @WriteFile xfloat xfloat_bits walkers seeded_estimator (@Hash grid8 1000 2000 51)
    = Some data
    /\ @ReadFile xfloat xfloat_bits walkers fresh_estimator (@Hash grid32 1000 2000 51)
         (Some (99, data))
       = Some (false, fresh_estimator, Some 99).
Proof.
  destruct (@WriteFile xfloat xfloat_bits walkers seeded_estimator (@Hash grid8 1000 2000 51))
    as [data|] eqn:Hwrite; [|vm_compute in Hwrite; discriminate].
  exists data. split; [reflexivity|].
  refine (proj1 (proj2 (@ReadFile_rejects_other_block_size xfloat xfloat_bits walkers
                          grid8 grid32 seeded_estimator fresh_estimator 1000 2000 51 99
                          data _ _ _ Hwrite))).
  - vm_compute. split; congruence.
  - vm_compute. split; congruence.
  - vm_compute. congruence.
Defined.

Lemma ReadFile_truncated_witness :
  exists data pe1,
    @WriteFile xfloat xfloat_bits walkers seeded_estimator 12345 = Some data
    /\ @ReadFile xfloat xfloat_bits walkers fresh_estimator 12345 (Some (99, take 200 data))
       = Some (false, pe1, Some 99)
    /\ peNodeOffsets (blockStates pe1) = peNodeOffsets (blockStates seeded_estimator)
    /\ vertexCosts pe1 = vertexCosts fresh_estimator.
Proof.
  destruct (@WriteFile xfloat xfloat_bits walkers seeded_estimator 12345)
    as [data|] eqn:Hwrite; [|vm_compute in Hwrite; discriminate].
  destruct (@ReadFile_truncated xfloat xfloat_bits walkers
              seeded_estimator fresh_estimator 12345 99 data 200)
    as (pe1 & Hread & Hvc & _ & Hlong).
  - split; [reflexivity|]. vm_compute. repeat constructor.
  - split; [reflexivity|]. vm_compute. repeat constructor.
  - reflexivity.
  - reflexivity.
  - discriminate.
  - vm_compute. reflexivity.
  - exact seeded_offsets_in_range.
  - lia.
  - vm_compute. split; congruence.
  - vm_compute. reflexivity.
  - exact Hwrite.
  - vm_compute in Hwrite. injection Hwrite as <-. vm_compute. lia.
  - exists data, pe1. split; [reflexivity|]. split; [exact Hread|]. split; [|exact Hvc].
    rewrite Hlong; [reflexivity|]. vm_compute. congruence.
Defined.

Lemma FinishSearch_follows_parents_witness :
  exists result,
    @FinishSearch xfloat xfloat_ops engine_constants grid8 flat_ground 4
      searched_estimator walker 0 empty_path = Some result
    /\ path result = [ground_point 192 192; ground_point 128 128; ground_point 64 64]
    /\ pathGoal result = ground_point 192 192.
Proof.
  destruct (@FinishSearch_follows_parents xfloat xfloat_ops engine_constants grid8
              flat_ground searched_estimator walker 0 empty_path [15; 10; 5]
              [ground_point 192 192; ground_point 128 128; ground_point 64 64]
              (XFin (QArith_base.inject_Z 30)) 4)
    as (result & Hrun & Hpath & _ & _ & Hgoal & _).
  - cbn [parent_chain].
    split; [vm_compute; reflexivity|]. split; [discriminate|].
    exists (mk_int2 2 2). split; [vm_compute; reflexivity|].
    split; [vm_compute; reflexivity|]. split; [discriminate|].
    exists (mk_int2 1 1). split; [vm_compute; reflexivity|].
    split; [vm_compute; reflexivity|]. split; [discriminate|].
    exists (mk_int2 0 0). split; [vm_compute; reflexivity|].
    vm_compute. reflexivity.
  - repeat (constructor;
            [eexists; split; [vm_compute; reflexivity|vm_compute; reflexivity]|]).
    constructor.
  - vm_compute. reflexivity.
  - simpl. lia.
  - exists result. split; [exact Hrun|]. split; [exact Hpath|].
    eapply Hgoal. exact Hpath.
Defined.

Ltac thread_nstep t rule :=
  eapply nsteps_l;
  [ exists t; eapply rule; [reflexivity | vm_compute; first [reflexivity | congruence]]
  | match goal with
    | |- nsteps ?R ?k ?x ?z => let x' := eval vm_compute in x in change (nsteps R k x' z)
    end ].

(** Two threads on the two-block map, up to the release of thread 1 from
    the barrier, and from there to the end: thread 1 takes block 0,
    thread 0 wakes up and takes block 1, and both run out of blocks. *)
Lemma pair_released_run :
  nsteps (@precompute_step xfloat xfloat_ops engine_constants grid_pair
            terrain_with_hole walkers) 8
    (@precompute_init xfloat grid_pair pair_estimator 2) pair_released.
Proof.
  thread_nstep 0%nat @step_claim_offset.
  thread_nstep 1%nat @step_claim_offset.
  thread_nstep 0%nat @step_offsets_done.
  thread_nstep 1%nat @step_offsets_done.
  thread_nstep 0%nat @step_offsets_exhausted.
  thread_nstep 1%nat @step_offsets_exhausted.
  thread_nstep 0%nat @step_wait_block.
  thread_nstep 1%nat @step_wait_last.
  apply nsteps_O.
Qed.

Lemma pair_finished_run :
  nsteps (@precompute_step xfloat xfloat_ops engine_constants grid_pair
            terrain_with_hole walkers) 7 pair_released pair_finished.
Proof.
  thread_nstep 1%nat @step_claim_cost.
  thread_nstep 0%nat @step_wake.
  thread_nstep 0%nat @step_claim_cost.
  thread_nstep 1%nat @step_costs_done.
  thread_nstep 0%nat @step_costs_done.
  thread_nstep 0%nat @step_costs_exhausted.
  thread_nstep 1%nat @step_costs_exhausted.
  apply nsteps_O.
Qed.

Lemma pair_estimator_sized : @tables_sized xfloat grid_pair walkers pair_estimator.
Proof.
  unfold tables_sized. repeat (split; [vm_compute; congruence|]).
  split; [|reflexivity].
  vm_compute. repeat constructor.
Qed.

Lemma precompute_no_deadlock_witness :
  exists s',
    @precompute_step xfloat xfloat_ops engine_constants grid_pair terrain_with_hole
      walkers pair_released s'.
Proof.
  refine (proj1 (@precompute_no_deadlock xfloat xfloat_ops engine_constants grid_pair
                   terrain_with_hole walkers pair_estimator 2%nat pair_released
                   walkers_wf pair_estimator_sized
                   (rtc_nsteps_2 _ _ _ pair_released_run)) _).
  exists (Blocked 0). split; [left|discriminate].
Defined.

Lemma precompute_run_bounded_witness :
  (15 + @precompute_measure xfloat pair_finished <= 7 * 2 + 4 * 2)%nat.
Proof.
  exact (@precompute_run_bounded xfloat xfloat_ops engine_constants grid_pair
           terrain_with_hole walkers pair_estimator 2%nat 15%nat pair_finished
           (nsteps_trans 8 7 _ _ _ pair_released_run pair_finished_run)).
Defined.

Lemma precompute_complete_witness :
  @offsets_written xfloat xfloat_ops engine_constants grid_pair terrain_with_hole
    walkers (pre_pe pair_finished) 1
  /\ @costs_written xfloat xfloat_ops engine_constants grid_pair terrain_with_hole
       walkers (pre_pe pair_finished) 1.
Proof.
  destruct (@precompute_complete xfloat xfloat_ops engine_constants grid_pair
              terrain_with_hole walkers pair_estimator 2%nat pair_finished
              walkers_wf pair_estimator_sized ltac:(lia)
              (rtc_nsteps_2 _ _ _ (nsteps_trans 8 7 _ _ _ pair_released_run pair_finished_run))
              ltac:(repeat constructor) 1 ltac:(vm_compute; split; congruence))
    as (Hoffsets & Hcosts & _).
  split; [exact Hoffsets|exact Hcosts].
Defined.

Lemma DoSearch_touches_dirty_blocks_witness :
  exists res pe' visited,
    @DoSearch xfloat _ engine_constants grid8 goal_far_corner
      (@DoSearch_fuel xfloat seeded_estimator) seeded_estimator walker true
    = Some (res, pe', visited)
    /\ peNodeOffsets (blockStates pe') = peNodeOffsets (blockStates seeded_estimator)
    /\ vertexCosts pe' = vertexCosts seeded_estimator
    /\ testedBlocks pe' = 24
    /\ vget (nodeMask (blockStates pe')) 3 = Some 0.
Proof.
  destruct (@DoSearch_touches_dirty_blocks xfloat xfloat_ops engine_constants grid8
              goal_far_corner walkers seeded_estimator walker true
              (@DoSearch_fuel xfloat seeded_estimator)
              engine_flags_disjoint)
    as (res & pe' & visited & new & Hrun & Heff & Hdirty & Htested & _).
  - vm_compute. split; congruence.
  - exact seeded_estimator_inv.
  - unfold DoSearch_fuel, DoSearch_measure. lia.
  - exists res, pe', visited. split; [exact Hrun|].
    destruct Heff as (Hoffs & Hvc & _). split; [exact Hoffs|]. split; [exact Hvc|].
    destruct Hdirty as [_ Hclean]; [repeat constructor|].
    vm_compute in Hrun. injection Hrun as <- <- <-. split.
    + rewrite Htested. vm_compute. reflexivity.
    + destruct (Hclean 3) as [Hmask _]; [|rewrite Hmask; reflexivity].
      intros Hin. apply list_elem_of_In in Hin. vm_compute in Hin.
      repeat (destruct Hin as [Hin|Hin]; [discriminate|]). exact Hin.
Defined.

Lemma Update_drains_queue_witness :
  exists k pe',
    @Update_times xfloat xfloat_ops engine_constants grid8 terrain_with_hole walkers
      k queued_estimator = Some pe'
    /\ updatedBlocks pe' = [].
Proof.
  destruct (@Update_drains_queue xfloat xfloat_ops engine_constants grid8
              terrain_with_hole walkers queued_estimator walkers_wf walkers_in_use
              queued_estimator_sized queued_estimator_invariant)
    as (_ & k & pe' & Hk & Hq & _).
  - vm_compute. reflexivity.
  - exists k, pe'. split; [exact Hk|exact Hq].
Defined.

Lemma engine_directions_move : @directions_move engine_constants.
Proof.
  intros d Hd.
  assert (d = 0 \/ d = 1 \/ d = 2 \/ d = 3 \/ d = 4 \/ d = 5 \/ d = 6 \/ d = 7)
    as Hcases by lia.
  repeat (destruct Hcases as [->|Hcases]; [vm_compute; repeat split; congruence|]).
  subst d. vm_compute. repeat split; congruence.
Qed.

Lemma seeded_waypoints_defined :
  @waypoints_defined xfloat xfloat_ops engine_constants flat_ground seeded_estimator walker.
Proof.
  intros j sq Hsq. unfold offset_at in Hsq.
  destruct (vget (peNodeOffsets (blockStates seeded_estimator)) j) as [row|] eqn:Hrow;
    [|discriminate].
  pose proof (vget_Some_lt _ _ _ Hrow) as Hj.
  replace (Z.of_nat (length (peNodeOffsets (blockStates seeded_estimator)))) with 16
    in Hj by reflexivity.
  assert (j = 0 \/ j = 1 \/ j = 2 \/ j = 3 \/ j = 4 \/ j = 5 \/ j = 6 \/ j = 7
          \/ j = 8 \/ j = 9 \/ j = 10 \/ j = 11 \/ j = 12 \/ j = 13 \/ j = 14 \/ j = 15)
    as Hcases by lia.
  clear Hj.
  repeat (destruct Hcases as [->|Hcases];
          [vm_compute in Hrow; injection Hrow as <-; vm_compute in Hsq;
           injection Hsq as <-; vm_compute; eauto|]).
  subst j. vm_compute in Hrow. injection Hrow as <-. vm_compute in Hsq.
  injection Hsq as <-. vm_compute. eauto.
Qed.

Lemma DoSearch_leaves_way_back_witness :
  exists res pe' visited (chain : list Z) result,
    @DoSearch xfloat _ engine_constants grid8 goal_far_corner
      (@DoSearch_fuel xfloat seeded_estimator) seeded_estimator walker true
    = Some (res, pe', visited)
    /\ @FinishSearch xfloat xfloat_ops engine_constants grid8 flat_ground
         (S (length chain)) pe' walker 0 empty_path = Some result.
Proof.
  destruct (@DoSearch_leaves_way_back xfloat xfloat_ops engine_constants grid8
              goal_far_corner walkers flat_ground seeded_estimator walker true
              (@DoSearch_fuel xfloat seeded_estimator) 0 empty_path
              engine_flags_disjoint engine_directions_move)
    as (res & pe' & visited & chain & result & Hrun & _ & _ & Hfinish & _).
  - vm_compute. split; congruence.
  - exact seeded_estimator_inv.
  - unfold DoSearch_fuel, DoSearch_measure. lia.
  - vm_compute. split; congruence.
  - intros ob Hob. apply list_elem_of_singleton in Hob as ->. reflexivity.
  - reflexivity.
  - exact seeded_waypoints_defined.
  - exists res, pe', visited, chain, result. split; [exact Hrun|exact Hfinish].
Defined.

Lemma MapChanged_then_Update_refreshes_witness :
  exists pe1 k pe',
    @MapChanged xfloat engine_constants grid8 queued_estimator 10 10 20 20 = Some pe1
    /\ @Update_times xfloat xfloat_ops engine_constants grid8 terrain_with_hole walkers
         k pe1 = Some pe'
    /\ updatedBlocks pe' = []
    /\ offset_at (blockStates pe') 0 0 = Some (mk_int2 3 3)
    /\ offset_at (blockStates pe') 5 0
       = Some (@FindOffset xfloat _ engine_constants grid8 terrain_with_hole walker 1 1).
Proof.
  destruct (@MapChanged_then_Update_refreshes xfloat xfloat_ops engine_constants grid8
              terrain_with_hole walkers queued_estimator 10 10 20 20)
    as (pe1 & k & pe' & Hchanged & Hk & Hq & _ & Hfresh).
  - vm_compute. congruence.
  - exact walkers_wf.
  - exact walkers_in_use.
  - exact queued_estimator_sized.
  - exact queued_estimator_invariant.
  - vm_compute. reflexivity.
  - exists pe1, k, pe'. split; [exact Hchanged|]. split; [exact Hk|]. split; [exact Hq|].
    split.
    + assert (@FindOffset xfloat _ engine_constants grid8 terrain_with_hole walker 0 0
              = mk_int2 3 3) as <- by (vm_compute; reflexivity).
      refine (Hfresh (mk_int2 0 0) _ _ walker _ _).
      * vm_compute. repeat split; congruence.
      * left. exists 128. vm_compute. split; [reflexivity|congruence].
      * left.
      * reflexivity.
    + refine (Hfresh (mk_int2 1 1) _ _ walker _ _).
      * vm_compute. repeat split; congruence.
      * right. vm_compute. repeat split; congruence.
      * left.
      * reflexivity.
Defined.

Lemma vertexCosts_layout_witness :
  @vertexNbr xfloat grid8 fresh_estimator walker (mk_int2 3 2) 2 = 46
  /\ exists pt p d,
       0 <= pt < @GetNumMoveDefs walkers /\ @in_map grid8 p
       /\ 0 <= d < PATH_DIRECTION_VERTICES
       /\ forall md, pathType md = pt -> @vertexNbr xfloat grid8 fresh_estimator md p d = 63.
Proof.
  destruct (@vertexCosts_layout xfloat grid8 walkers fresh_estimator fresh_estimator_sized)
    as (Hrange & _ & Hcover).
  split.
  - destruct (Hrange walker (mk_int2 3 2) 2) as [_ Heq];
      [vm_compute; repeat split; congruence|vm_compute; split; congruence
      |vm_compute; split; congruence|].
    rewrite Heq. reflexivity.
  - apply Hcover. vm_compute. split; congruence.
Defined.

Lemma InitEstimator_cache_restart_witness :
  exists pe' data,
    @InitEstimator xfloat xfloat_ops xfloat_bits engine_constants grid_pair
      terrain_with_hole walkers pair_estimator 7 None true 0 2 2 4 pe' (Some data).
Proof.
  exact (proj1 (@InitEstimator_cache_restart xfloat xfloat_ops xfloat_bits engine_constants
                  grid_pair terrain_with_hole walkers pair_estimator 7 0 2 2 4
                  walkers_wf pair_estimator_sized
                  ltac:(vm_compute; congruence) ltac:(vm_compute; reflexivity)
                  ltac:(lia) ltac:(lia) ltac:(lia) ltac:(lia) ltac:(lia))).
Defined.
